(* ===== verification/_CoqProject ===== *)
-Q . S2P
Prelude.v
GoBytes.v
Fields.v
Fmt.v
GoFloat.v
GoStrconv.v
Protocol.v
ProtocolDecode.v
ProtocolSpec.v
ProtocolParse.v
ProtocolCorrect.v
ProtocolTrip.v
PkgProtocol.v
PkgCopies.v
Badger.v
QueueStorage.v
QueueFifo.v
QueueCodec.v
QueueAck.v
QueueMailbox.v
QueueDelivery.v
QueueService.v
KVStorage.v
KVCorrect.v
KVRefine.v
KVService.v
FlinCli.v
Pool.v
StreamCodec.v
StreamStorage.v
StreamKeys.v
StreamLog.v
StreamBatch.v
StreamRefine.v
StreamLoss.v
StreamService.v
StreamGroups.v
StreamConsume.v
GoValue.v
Json.v
JsonTrip.v
JsonStruct.v
DocStorage.v
DocHelpers.v
DocStore.v
DocSpec.v
DocRefine.v
DocFind.v
DocIndex.v
DocRestart.v
ServerState.v
ServerText.v
ServerBinary.v
ServerDocs.v
Server.v
ServerWire.v
ServerKV.v
ServerLines.v
ServerInvariant.v
ServerSystem.v
ServerWitness.v
HttpApi.v
HttpCorrect.v
ServerMain.v
ServerShape.v
ServerShutdown.v
NetConn.v
ClientPool.v
ClientCalls.v
ClientReads.v
ClientSync.v
ClientDB.v
ClientAnswers.v
ClientReturns.v
ClientRefine.v
Loopback.v
ClientServer.v
ClientStream.v
ClientQueries.v
ClientWitness.v
