(* ===== verification/Prelude.v ===== *)
(** * A verification of flin

    flin is a data platform in Go: a key-value store, a message queue, a stream
    processor and a document store behind one server, which clients reach over
    TCP with a binary protocol.  Each store is a thin service over a storage
    that keeps its records in an embedded engine (BadgerDB).  This library
    models the protocol, the four stores, the server in front of them and the Go
    client with its pool of connections, runs the client against the server, follows
    a process of the server command from its flags to its end, and proves what makes
    them correct, and where they are not.

    ** The parts of the program and the files that model them

    - Go's values (this file, GoBytes.v, Fields.v, Fmt.v): bytes and strings are
      lists of integers; GoFloat.v has floating-point numbers and their shortest
      decimal texts, GoStrconv.v the numbers, durations and booleans that strconv
      and package time read and write; integers are reduced to their width where the code
      converts them; a function that returns [(A, error)] and may panic has type
      [result A]; [make], indexing, slicing, [copy], encoding/binary and the
      decimal verbs of fmt, with the lemmas and tactics that run a buffer
      writer ([go_write]) or a parser ([go_read], [go_safe]).
    - The binary protocol (internal/net/protocol.go): the encoders are in
      Protocol.v, the parsers in ProtocolDecode.v, the grammar of the payloads
      in ProtocolSpec.v; ProtocolParse.v relates parsers and grammar,
      ProtocolCorrect.v and ProtocolTrip.v hold the theorems.  PkgProtocol.v
      translates the second copy of it (pkg/protocol/binary.go), which no package
      imports; PkgCopies.v compares the two.
    - The storage engine is not part of the repository: Badger.v
      gives its operations as type classes ([Badger],
      [BadgerBatch]) and what the storages rely on as further classes
      ([BadgerLaws], [BadgerBatchLaws]), with a calculus for transactions ([wp],
      [served]) and instances over finite maps, on which the witnesses run.  The
      engine may refuse any call with a [fault]; [BadgerReliable] says that it
      never does.  Time passes between calls: [Elapse] is the database some
      nanoseconds later, from which the entries whose time to live has passed are
      gone, up to a second early as the engine counts in seconds ([lapse]).
    - The key-value storage (internal/kv/storage.go): KVStorage.v; KVCorrect.v
      has the specification [kv_spec], KVRefine.v the refinement.
      KVService.v is kv.go: the interface of its backends with their laws, as
      type classes, and the store that forwards to one.
    - The command line (cmd/flincli/main.go): FlinCli.v, a process per command on
      the store in a directory, some time after the one before, and the benchmark, over the readings of the clock
      that it makes.
    - The queue (internal/queue): QueueStorage.v is the head/tail queue of
      storage.go and QueueFifo.v its refinement of lists; QueueCodec.v the
      stored messages; QueueAck.v the acknowledged queue of storage_ack.go, with
      its specification as a mailbox in QueueMailbox.v, expiry and the
      state machine of deliveries in QueueDelivery.v; QueueService.v is
      queue.go and worker.go.
    - The streams (internal/stream): StreamCodec.v the stored records,
      StreamStorage.v the storage (storage.go, storage_atomic.go,
      storage_batch.go), StreamKeys.v, StreamLog.v, StreamBatch.v and
      StreamRefine.v its refinement of logs, StreamLoss.v what it loses;
      StreamService.v is stream.go and stream_helpers.go, StreamGroups.v
      consumer groups, StreamConsume.v publishing, consuming and committing.
    - The document store (internal/db): GoValue.v the values of type interface{},
      their text under [%v] and their identity as map keys, Json.v encoding/json
      with its round trip in JsonTrip.v; DocStorage.v is storage.go, DocHelpers.v
      types.go and helpers.go, DocStore.v db.go.  DocSpec.v
      and DocRefine.v have its specification as collections of documents and the
      refinement ([kept]: the stored records are those of the specified documents;
      [holds]: the indexes agree with them too), DocFind.v the sort, query.go and, with DocIndex.v, the two ways to
      answer a query, DocRestart.v restarts, values no index takes and insertions under an id in use.
    - The connection pool (internal/net/pool.go): Pool.v, a transition system of
      interleaved calls.
    - The server (internal/server): ServerState.v its state and its sends,
      ServerText.v the text protocol with its fast and slow path, ServerBinary.v
      the handlers of kv_handlers.go, queue_handlers.go and stream_handlers.go,
      ServerDocs.v those of db_handlers.go, Server.v the dispatch and the running
      server as a step relation: accepting, reading, writing, working, hanging up,
      stopping and the passing of time, with read buffers that connections and jobs share.
      ServerWire.v, ServerKV.v and ServerLines.v compose it with the protocol and the stores, ServerInvariant.v and ServerSystem.v prove its
      invariant, ServerWitness.v runs it.
    - The HTTP API (internal/server/http_api.go): HttpApi.v has its handlers,
      routes and middleware on the stores of the server, HttpCorrect.v the
      theorems and their runs.  JsonStruct.v decodes request bodies into
      structs and query strings (encoding/json, net/url), and shows that it reads
      what a client writes.
    - The server command (cmd/server/main.go): ServerMain.v has its flags ([Parse]),
      its start ([main], on the directories it finds) and a process as a transition
      system ([process_step]): the loops of the server, the requests of the HTTP
      API, the background tasks of the stores, the goroutine that waits for a
      signal, the panics that nobody recovers, the deferred calls one by one and
      [os.Exit].  ServerShape.v shows which parts of the state all of them but the
      shutdown leave alone, ServerShutdown.v has the theorems.  The library
      ClusterKit, the listeners and the environment are the record [Surroundings].
    - The Go client (clients/go, internal/net/connection.go, and pool.go as one
      caller runs it): NetConn.v has the monad of programs that may fail, panic or
      never return, and a connection over a [Network], a class with the
      operations of package net, which may block for ever; [Deadlines] says that one
      with a deadline does not; ClientPool.v the pool and the client,
      ClientCalls.v the calls on keys, queues and streams, ClientDB.v those on
      documents.  ClientReads.v states what the client relies on ([ServiceLaws]:
      requests are answered by one frame, in order, nothing is lost);
      ClientSync.v and ClientAnswers.v prove what
      calls return and when the client stays in step with the server;
      ClientReturns.v that calls return, and that a read without a deadline need not;
      ClientRefine.v relates the pool as one caller runs it to Pool.v.  Loopback.v is the network with the running server of Server.v
      behind it, a [Service]; ClientServer.v, ClientStream.v and ClientQueries.v
      are the calls from end to end, ClientWitness.v runs them.

    Definitions keep the names of the Go functions.  A method takes the state of
    its receiver and returns the next one; what the code reads from elsewhere
    (the clock, fresh UUIDs, the order of a [range] over a map, the order in
    which goroutines answer) is an argument, so that theorems hold for every
    value of it.

    ** What the theorems show

    - Protocol: [DecodeRequest] accepts exactly the frames of the grammar (C1);
      responses and requests survive the trip, but for the batch publish, which is never accepted
      (C3, C2); it panics exactly when one of its 16- or 32-bit additions wraps
      around (C36).  The second copy reads alike (C32), but for document
      updates, batch publishes and index requests.
    - Stores: every operation of the key-value storage acts as on a finite map
      with times to live, or is refused by the engine (C4), which
      outlives the processes of the command line, but for the keys that lapse between them (C14), and whose counters
      step and wrap as int64 (C22); each queue name is a
      FIFO list (C7), the acknowledged queue refines mailboxes (C8), delivers
      a message to one consumer at a time (C33), in the order of identifiers,
      once those before it are delivered (C34); the stream storage refines per-partition logs (C9); the document
      store refines collections of documents, and keeps its indexes in agreement
      with them where inserted ids are fresh (C10).
    - End to end, through the pool, the network, the server and the store and
      back: key-value calls (C6), queries that no index serves (C12) and consuming from a stream
      (C13).  From the bytes the server reads: a line of the text protocol
      (C24) and a document insertion (C25).
    - Client: with timeouts, on a network that keeps deadlines, calls return (C15) what the response to their request says (C17);
      a new client is in step with the server (C28); the pool accounts for its connections, whatever the
      interleaving of its callers (C30).
    - Running server: every reachable state is well formed (C11), and no queued
      job ends the process (C18).
    - Documents: queries by an index and by a scan agree (C19).  HTTP: requests
      on keys (C23) and what a refusal changes (C31).  Streams: groups stay
      balanced (C29).  Stored messages (C35).
    - Processes: from the flags to the last deferred call every reachable process is
      in order (C20); a shutdown ends (C21), and the next process stores the entries
      that it leaves, less those that lapse, and finds its document indexes empty (C5).  The benchmark counts what it runs (C27).
    - Where the code fails: long requests (C37), values of queued jobs (C38),
      updates and deletes by an index (C39), insertions under an
      id in use (C16), stream messages that a restart
      overwrites (C40) and that an exit loses (C26).  Further theorems
      without a number state others: an unread answer on a pooled connection,
      pushes that are never popped, a failed flush, requests during a shutdown.

    ** Bounds and fuel

    Loops over slices and counted loops are structural ([for_each], [for_n]).
    Fuel appears in [dec_digits], whose fuel suffices ([dec_fixed]), and in
    [get_chunks], which gets the number of keys while every turn consumes a
    hundred.  [shortest_from] tries the at most seventeen digits that tell two
    floats apart, and Json.v parses to [maxNestingDepth], the limit of
    encoding/json, with loops over elements bounded by the length of the text.
    [read_full] gets a turn for every byte asked for, [createNewOrWait] one for
    every connection that waits, [drain] the length of the channel: C15
    shows that they do not run out; [receive_all] consumes a byte with each turn, and
    [duration_parts] a character.  The benchmark runs on the list of the clock's
    readings, and has no result when they end too early.
    Queue positions stay below [2 ^ 64] and stream offsets below
    [2 ^ 63] where a theorem needs them not to wrap.  Names without a colon are
    assumed where the keys are ambiguous otherwise; theorems show the ambiguity.

    ** What is not modelled

    Sockets with their options, the clocks of tickers and the start of goroutines: a
    turn of a background loop is an operation or a step.  Operations on one storage are atomic,
    interleaved only in Pool.v; the client runs one call at a time against a
    server that answers each request before the next event (the interleavings of
    the server are in Server.v).  Transactions that overlap, and the engine's
    conflict detection, which all storages but the streams' turn off, are left
    out.  The server handles a request, runs a job or writes a response in one
    step.  A value returned together with an error is dropped.  Slices are bounded
    by their length, not their capacity, and do not alias but for the read buffers
    of the server; the stores copy what they keep, but for the value slices of
    consumed stream messages.  The engine's internals are assumed through
    [BadgerLaws]; times to live are at least a second, and time passes between the operations, not
    within one.  Of encoding/json, error
    texts and the encoding of float32 are left out; index entries under a NaN,
    which no lookup finds, are dropped.  The average latency is computed as on
    amd64.  The cluster (a library of its own) is a
    parameter of the server command; its hooks, which only log, what the command
    prints, and what package net/http answers by itself are left out, as are the
    clients in other languages.  A process is modelled up to its end or its first
    panic; one that the system kills leaves what the engine has written. *)
From stdpp Require Import base list strings numbers.
From Stdlib Require Import ZArith Lia.

#[global] Open Scope Z_scope.

(** ** Values of the Go language *)

(** A Go [byte] is an integer in [0,256); byte slices and Go strings (which
    are immutable byte sequences) are both lists of bytes. *)
Abbreviation byte := Z.
Abbreviation bytes := (list Z).

Definition byte_ok (b : byte) : Prop := 0 <= b < 256.
Definition bytes_ok (l : bytes) : Prop := Forall byte_ok l.

(** A string literal of the source. *)
Definition str (s : string) : bytes :=
  map (fun a => Z.of_N (Ascii.N_of_ascii a)) (String.list_ascii_of_string s).
Arguments str _%_string.

(** Conversions to the machine-width integer types. *)
Definition uint8 (z : Z) : Z := z mod 2 ^ 8.
Definition uint16 (z : Z) : Z := z mod 2 ^ 16.
Definition uint32 (z : Z) : Z := z mod 2 ^ 32.
Definition uint64 (z : Z) : Z := z mod 2 ^ 64.
Definition int64 (z : Z) : Z := (z + 2 ^ 63) mod 2 ^ 64 - 2 ^ 63.

(** [time.Second]: durations count nanoseconds. *)
Definition second : Z := 1000000000.

(** ** Errors, panics and the result monad *)

(** A Go [error]: a sentinel value, compared by identity (its package and
    name), a value made by [fmt.Errorf], or one that comes from code outside
    the repository (the storage engine, the network); no comparison equals
    the last two. *)
Inductive error : Type :=
| Sentinel (name : string) (msg : bytes)
| Errorf (msg : bytes)
| External (msg : bytes).
Arguments Sentinel name%_string msg.

(** [fmt.Errorf] of a constant format. *)
Definition errorf (s : string) : error := Errorf (str s).
Arguments errorf _%_string.

(** The [Error()] method. *)
Definition error_text (e : error) : bytes :=
  match e with Sentinel _ msg | Errorf msg | External msg => msg end.

(** [err == sentinel] *)
Definition is_sentinel (e s : error) : bool :=
  match e, s with
  | Sentinel n _, Sentinel n' _ => bool_decide (n = n')
  | _, _ => false
  end.

(** The outcome of a Go function that returns [(A, error)] and may panic. *)
Inductive result (A : Type) : Type :=
| Ok (a : A)
| Err (e : error)
| Panic.
Arguments Ok {A} a.
Arguments Err {A} e.
Arguments Panic {A}.

#[export] Instance result_ret : MRet result := fun A a => Ok a.
#[export] Instance result_bind : MBind result := fun A B f m =>
  match m with Ok a => f a | Err e => Err e | Panic => Panic end.

(** [x, err := m; if err != nil { h(err) }; k(x)] *)
Definition on_err {A B} (m : result A) (h : error -> result B) (k : A -> result B) : result B :=
  match m with Ok a => k a | Err e => h e | Panic => Panic end.

(** [for _, x := range l], threading the loop's state. *)
Fixpoint for_each {A S} (l : list A) (s : S) (body : S -> A -> result S) : result S :=
  match l with
  | [] => Ok s
  | x :: l' => s' ← body s x; for_each l' s' body
  end.

(** [for i := 0; i < n; i++], the counter starting at [i]. *)
Fixpoint for_n {S} (n : nat) (i : Z) (s : S) (body : S -> Z -> result S) : result S :=
  match n with
  | O => Ok s
  | Datatypes.S n' => s' ← body s i; for_n n' (i + 1) s' body
  end.

(** ** Slices *)

Definition len {A} (l : list A) : Z := Z.of_nat (length l).
Definition takeZ {A} (n : Z) (l : list A) : list A := take (Z.to_nat n) l.
Definition dropZ {A} (n : Z) (l : list A) : list A := drop (Z.to_nat n) l.

(** [l[lo:hi]] and [l[lo:]].  Go bounds [hi] by the capacity; every slice
    expression of the modelled code follows a check against the length. *)
Definition slice {A} (l : list A) (lo hi : Z) : result (list A) :=
  if (0 <=? lo) && (lo <=? hi) && (hi <=? len l)
  then Ok (takeZ (hi - lo) (dropZ lo l)) else Panic.
Definition slice_from {A} (l : list A) (lo : Z) : result (list A) :=
  if (0 <=? lo) && (lo <=? len l) then Ok (dropZ lo l) else Panic.

(** [l[i]] *)
Definition index {A} (l : list A) (i : Z) : result A :=
  if 0 <=? i
  then match l !! Z.to_nat i with Some x => Ok x | None => Panic end
  else Panic.

(** ** Lengths and windows of lists *)

Create Rewrite HintDb golen.

Section Windows.
Context {A : Type}.
Implicit Types l k : list A.

Lemma len_nonneg l : 0 <= len l.
Proof. unfold len. lia. Qed.

Lemma len_nil : len (@nil A) = 0.
Proof. reflexivity. Qed.

Lemma len_cons (x : A) l : len (x :: l) = 1 + len l.
Proof. unfold len. cbn [length]. lia. Qed.

Lemma len_app l k : len (l ++ k) = len l + len k.
Proof. unfold len. rewrite length_app. lia. Qed.

Lemma to_nat_len l : Z.to_nat (len l) = length l.
Proof. unfold len. apply Nat2Z.id. Qed.

Lemma len_takeZ n l : 0 <= n <= len l -> len (takeZ n l) = n.
Proof. unfold len, takeZ. rewrite length_take. lia. Qed.

Lemma len_dropZ n l : 0 <= n <= len l -> len (dropZ n l) = len l - n.
Proof. unfold len, dropZ. rewrite length_drop. lia. Qed.

Lemma len_window n p l :
  0 <= n -> 0 <= p -> p + n <= len l -> len (takeZ n (dropZ p l)) = n.
Proof. intros. rewrite len_takeZ; [done|]. rewrite len_dropZ; lia. Qed.

Lemma len_0_nil l : len l = 0 -> l = [].
Proof. unfold len. destruct l; [done | cbn [length]; lia]. Qed.

Lemma dropZ_0 n l : n <= 0 -> dropZ n l = l.
Proof. intros. unfold dropZ. by replace (Z.to_nat n) with 0%nat by lia. Qed.

Lemma dropZ_all n l : len l <= n -> dropZ n l = [].
Proof. unfold dropZ, len. intros. apply drop_ge. lia. Qed.

Lemma takeZ_0 n l : n <= 0 -> takeZ n l = [].
Proof. intros. unfold takeZ. by replace (Z.to_nat n) with 0%nat by lia. Qed.

Lemma takeZ_all n l : len l <= n -> takeZ n l = l.
Proof. unfold takeZ, len. intros. apply take_ge. lia. Qed.

Lemma dropZ_app n l k : len l <= n -> dropZ n (l ++ k) = dropZ (n - len l) k.
Proof.
  unfold dropZ, len. intros. rewrite drop_app_ge by lia. f_equal. lia.
Qed.

Lemma takeZ_app n l k : len l <= n -> takeZ n (l ++ k) = l ++ takeZ (n - len l) k.
Proof.
  unfold takeZ, len. intros. rewrite take_app_ge by lia. do 2 f_equal. lia.
Qed.

Lemma takeZ_app_le n l k : n <= len l -> takeZ n (l ++ k) = takeZ n l.
Proof. unfold takeZ, len. intros. apply take_app_le. lia. Qed.

Lemma takeZ_app_eq n l k : n = len l -> takeZ n (l ++ k) = l.
Proof. intros ->. rewrite takeZ_app_le by lia. by apply takeZ_all. Qed.

Lemma dropZ_app_eq n l k : n = len l -> dropZ n (l ++ k) = k.
Proof. intros ->. rewrite dropZ_app by lia. apply dropZ_0. lia. Qed.

Lemma takeZ_dropZ n l : takeZ n l ++ dropZ n l = l.
Proof. apply take_drop. Qed.

Lemma dropZ_dropZ n m l : 0 <= n -> 0 <= m -> dropZ m (dropZ n l) = dropZ (n + m) l.
Proof. intros. unfold dropZ. rewrite drop_drop. f_equal. lia. Qed.

(** Cutting the end of a concatenation, within its second part. *)
Lemma app_cut (a b h t : list A) :
  a ++ b = h ++ t -> len b <= len t -> exists t', a = h ++ t' /\ t = t' ++ b.
Proof.
  intros E Hl. apply app_eq_inv in E as [(k & -> & ->)|(k & -> & ->)]; [by exists k|].
  rewrite len_app in Hl. assert (k = []) as -> by (apply len_0_nil; pose proof (len_nonneg k); lia).
  exists []. by rewrite !app_nil_r.
Qed.

Lemma dropZ_split n m l :
  0 <= n <= m -> dropZ n l = takeZ (m - n) (dropZ n l) ++ dropZ m l.
Proof.
  intros. rewrite <- (takeZ_dropZ (m - n) (dropZ n l)) at 1.
  rewrite dropZ_dropZ by lia. do 2 f_equal. lia.
Qed.

Lemma slice_ok l lo hi :
  0 <= lo <= hi -> hi <= len l -> slice l lo hi = Ok (takeZ (hi - lo) (dropZ lo l)).
Proof.
  intros. unfold slice.
  by rewrite (proj2 (Z.leb_le 0 lo)), (proj2 (Z.leb_le lo hi)),
    (proj2 (Z.leb_le hi (len l))) by lia.
Qed.

Lemma slice_panic l lo hi : hi < lo -> slice l lo hi = Panic.
Proof.
  intros. unfold slice. rewrite (proj2 (Z.leb_gt lo hi)) by lia.
  by rewrite andb_false_r.
Qed.

Lemma slice_from_ok l lo : 0 <= lo <= len l -> slice_from l lo = Ok (dropZ lo l).
Proof.
  intros. unfold slice_from.
  by rewrite (proj2 (Z.leb_le 0 lo)), (proj2 (Z.leb_le lo (len l))) by lia.
Qed.

Lemma index_ok l i x : 0 <= i -> l !! Z.to_nat i = Some x -> index l i = Ok x.
Proof.
  intros ? Hx. unfold index. by rewrite (proj2 (Z.leb_le 0 i)), Hx by lia.
Qed.
End Windows.

#[export] Hint Rewrite @len_nil @len_cons @len_app : golen.

(** Normalise lengths, then solve a linear goal about them; every list's
    length is known to be non-negative. *)
Ltac len_facts :=
  repeat match goal with
  | |- context [len ?l] =>
      lazymatch goal with
      | _ : 0 <= len l |- _ => fail
      | _ => pose proof (len_nonneg l)
      end
  | _ : context [len ?l] |- _ =>
      lazymatch goal with
      | _ : 0 <= len l |- _ => fail
      | _ => pose proof (len_nonneg l)
      end
  end.
Ltac len_norm := autorewrite with golen in *.
Ltac len_lia := autorewrite with golen in *; cbn [fst snd] in *; len_facts; lia.

(** ** Panic freedom

    [safe m Q]: the computation [m] does not panic, and when it returns a
    value the value satisfies [Q]. *)
Definition safe {A} (m : result A) (Q : A -> Prop) : Prop :=
  match m with Ok a => Q a | Err _ => True | Panic => False end.

Section Safe.
Context {A B : Type}.

Lemma safe_bind (m : result A) (f : A -> result B) (P : A -> Prop) Q :
  safe m P -> (forall a, P a -> safe (f a) Q) -> safe (m ≫= f) Q.
Proof. destruct m; cbn; auto. Qed.

Lemma safe_mono (m : result A) (P Q : A -> Prop) :
  safe m P -> (forall a, P a -> Q a) -> safe m Q.
Proof. destruct m; cbn; auto. Qed.

Lemma safe_ok (m : result A) Q a : safe m Q -> m = Ok a -> Q a.
Proof. intros H ->. exact H. Qed.

Lemma safe_no_panic (m : result A) Q : safe m Q -> m <> Panic.
Proof. by intros H ->. Qed.

Lemma safe_slice (l : list A) lo hi (Q : list A -> Prop) :
  0 <= lo <= hi -> hi <= len l ->
  Q (takeZ (hi - lo) (dropZ lo l)) -> safe (slice l lo hi) Q.
Proof. intros. by rewrite slice_ok. Qed.
End Safe.

(** ** Loops

    A loop whose state is a function [st] of the elements already processed
    ends in the state of the whole list. *)
Lemma for_each_run {A S} (l : list A) (st : list A -> S) body :
  (forall dn x rest, l = dn ++ x :: rest -> body (st dn) x = Ok (st (dn ++ [x]))) ->
  for_each l (st []) body = Ok (st l).
Proof.
  intros H.
  enough (G : forall rest dn, l = dn ++ rest -> for_each rest (st dn) body = Ok (st l))
    by by apply G.
  induction rest as [|x rest IH]; intros dn E; cbn [for_each].
  - by rewrite E, app_nil_r.
  - rewrite (H dn x rest E). apply IH. by rewrite <- app_assoc.
Qed.

Lemma for_n_run {A S} (l : list A) (st : list A -> S) body :
  (forall dn x rest, l = dn ++ x :: rest -> body (st dn) (len dn) = Ok (st (dn ++ [x]))) ->
  for_n (length l) 0 (st []) body = Ok (st l).
Proof.
  intros H.
  enough (G : forall rest dn, l = dn ++ rest ->
    for_n (length rest) (len dn) (st dn) body = Ok (st l)) by by apply (G l []).
  induction rest as [|x rest IH]; intros dn E; cbn [length for_n].
  - by rewrite E, app_nil_r.
  - rewrite (H dn x rest E). cbn [mbind result_bind].
    replace (len dn + 1) with (len (dn ++ [x])) by len_lia.
    apply IH. by rewrite <- app_assoc.
Qed.

(** A counted loop that collects one element per iteration. *)
Lemma safe_for_n {A S} (n : nat) (st : list A -> S -> Prop) (s : S) body :
  st [] s ->
  (forall dn s i, st dn s -> safe (body s i) (fun s' => exists x, st (dn ++ [x]) s')) ->
  safe (for_n n 0 s body) (fun s' => exists l, length l = n /\ st l s').
Proof.
  intros H0 H.
  enough (G : forall n i dn s, st dn s ->
    safe (for_n n i s body) (fun s' => exists l, length l = n /\ st (dn ++ l) s'))
    by exact (G n 0 [] s H0).
  clear s n H0. induction n as [|n IH]; intros i dn s Hs; cbn [for_n].
  - exists []. by rewrite app_nil_r.
  - eapply safe_bind; [by apply H|]. intros s' [x Hx].
    eapply safe_mono; [by apply IH|]. intros s'' (l & Hl & Hst).
    exists (x :: l). rewrite <- app_assoc in Hst. cbn. auto.
Qed.

(** A loop over a slice preserves an invariant of what was processed. *)
Lemma safe_for_each {A S} (l : list A) (s : S) body (I : list A -> S -> Prop) :
  I [] s ->
  (forall done x s, I done s -> safe (body s x) (I (done ++ [x]))) ->
  safe (for_each l s body) (I l).
Proof.
  intros H0 Hstep.
  enough (Hgen : forall done s, I done s -> safe (for_each l s body) (I (done ++ l)))
    by exact (Hgen [] s H0).
  clear s H0. induction l as [|x l IH]; intros dn s Hs; cbn [for_each].
  - by rewrite app_nil_r.
  - eapply safe_bind; [by apply Hstep|].
    intros s' Hs'. specialize (IH _ _ Hs'). by rewrite <- app_assoc in IH.
Qed.

Lemma bind_ok {A B} (a : A) (f : A -> result B) : (Ok a ≫= f) = f a.
Proof. reflexivity. Qed.

Lemma bind_assoc {A B C} (m : result A) (f : A -> result B) (g : B -> result C) :
  ((m ≫= f) ≫= g) = (m ≫= fun a => f a ≫= g).
Proof. by destruct m. Qed.

Lemma bind_ret {A} (m : result A) : (m ≫= mret) = m.
Proof. by destruct m. Qed.

#[export] Instance Ok_inj {A} : Inj (=) (=) (@Ok A).
Proof. by intros a b [= ->]. Qed.
