(* ===== verification/GoBytes.v ===== *)
(** Byte buffers of the Go code: [make], [copy], [encoding/binary]'s big-endian
    accessors on [buf[pos:]], and the lemmas that step through a writer (a
    buffer that is a written prefix followed by zeros) or a reader (a window
    of the input). *)
From stdpp Require Import base list numbers.
From Stdlib Require Import ZArith Lia.
From S2P Require Import Prelude.

(** ** Big-endian integers *)

(** The [n] low-order bytes of [v], most significant first. *)
Fixpoint be_put (n : nat) (v : Z) : bytes :=
  match n with
  | O => []
  | S n' => (v / 256 ^ Z.of_nat n') mod 256 :: be_put n' v
  end.

Fixpoint be_get (l : bytes) : Z :=
  match l with
  | [] => 0
  | b :: l' => b * 256 ^ len l' + be_get l'
  end.

(** ** Buffers *)

Definition zeros (n : Z) : bytes := replicate (Z.to_nat n) 0.

(** [make([]byte, n)] *)
Definition make_bytes (n : Z) : result bytes :=
  if n <? 0 then Panic else Ok (zeros n).

(** [buf[pos] = v] *)
Definition set_byte (buf : bytes) (pos : Z) (v : byte) : result bytes :=
  if (0 <=? pos) && (pos <? len buf)
  then Ok (takeZ pos buf ++ [v] ++ dropZ (pos + 1) buf) else Panic.

(** [copy(buf[pos:], src)] *)
Definition copy_at (buf : bytes) (pos : Z) (src : bytes) : result bytes :=
  dst ← slice_from buf pos;
  let n := Z.min (len dst) (len src) in
  Ok (takeZ pos buf ++ takeZ n src ++ dropZ (pos + n) buf).

(** [binary.BigEndian.PutUintN(buf[pos:], v)] and
    [binary.BigEndian.UintN(buf[pos:])], for a width of [n] bytes. *)
Definition PutUint (n : nat) (buf : bytes) (pos : Z) (v : Z) : result bytes :=
  dst ← slice_from buf pos;
  if len dst <? Z.of_nat n then Panic
  else Ok (takeZ pos buf ++ be_put n v ++ dropZ (pos + Z.of_nat n) buf).

Definition GetUint (n : nat) (buf : bytes) (pos : Z) : result Z :=
  src ← slice_from buf pos;
  if len src <? Z.of_nat n then Panic
  else Ok (be_get (takeZ (Z.of_nat n) src)).

Definition PutUint16 (buf : bytes) (pos v : Z) : result bytes := PutUint 2 buf pos v.
Definition PutUint32 (buf : bytes) (pos v : Z) : result bytes := PutUint 4 buf pos v.
Definition PutUint64 (buf : bytes) (pos v : Z) : result bytes := PutUint 8 buf pos v.
Definition Uint16 (buf : bytes) (pos : Z) : result Z := GetUint 2 buf pos.
Definition Uint32 (buf : bytes) (pos : Z) : result Z := GetUint 4 buf pos.
Definition Uint64 (buf : bytes) (pos : Z) : result Z := GetUint 8 buf pos.

(** The wire form of the three widths. *)
Definition be16 (v : Z) : bytes := be_put 2 v.
Definition be32 (v : Z) : bytes := be_put 4 v.
Definition be64 (v : Z) : bytes := be_put 8 v.

(** ** Integers round-trip *)

Lemma length_be_put n v : length (be_put n v) = n.
Proof. induction n; cbn [be_put length]; lia. Qed.

Lemma len_be_put n v : len (be_put n v) = Z.of_nat n.
Proof. unfold len. by rewrite length_be_put. Qed.

Lemma len_be16 v : len (be16 v) = 2.
Proof. apply len_be_put. Qed.
Lemma len_be32 v : len (be32 v) = 4.
Proof. apply len_be_put. Qed.
Lemma len_be64 v : len (be64 v) = 8.
Proof. apply len_be_put. Qed.

Lemma len_zeros n : 0 <= n -> len (zeros n) = n.
Proof. intros. unfold len, zeros. rewrite length_replicate. lia. Qed.

#[export] Hint Rewrite len_be_put len_be16 len_be32 len_be64 : golen.

Lemma be_put_ok n v : bytes_ok (be_put n v).
Proof.
  induction n as [|n IH]; cbn [be_put]; constructor; auto.
  apply Z.mod_pos_bound. lia.
Qed.

Lemma be_get_put n v : be_get (be_put n v) = v mod 256 ^ Z.of_nat n.
Proof.
  induction n as [|n IH]; cbn [be_put be_get].
  - by rewrite Z.mod_1_r.
  - rewrite IH, len_be_put, Nat2Z.inj_succ, Z.pow_succ_r by lia.
    rewrite (Z.mul_comm 256), Z.rem_mul_r by lia. lia.
Qed.

Lemma be_get_range l : bytes_ok l -> 0 <= be_get l < 256 ^ len l.
Proof.
  induction 1 as [|b l Hb _ IH]; cbn [be_get]; [done|].
  rewrite len_cons, Z.add_comm, Z.pow_add_r by (pose proof (len_nonneg l); lia).
  unfold byte_ok in Hb. nia.
Qed.

Lemma be_put_mod n v : be_put n (v mod 256 ^ Z.of_nat n) = be_put n v.
Proof.
  enough (H : forall m, (n <= m)%nat ->
    be_put n (v mod 256 ^ Z.of_nat m) = be_put n v) by (apply H; lia).
  induction n as [|n IH]; intros m Hm; cbn [be_put]; [done|].
  rewrite IH by lia. f_equal.
  replace (Z.of_nat m) with (Z.of_nat n + (1 + Z.of_nat (m - S n))) by lia.
  rewrite !Z.pow_add_r, Z.rem_mul_r by lia.
  rewrite (Z.mul_comm (256 ^ Z.of_nat n)), Z.div_add by lia.
  rewrite (Z.div_small (v mod _)) by (apply Z.mod_pos_bound; lia).
  rewrite Z.add_0_l, Z.rem_mul_r by lia.
  rewrite Z.pow_1_r, (Z.mul_comm 256), Z.mod_add by lia.
  by rewrite Z.mod_mod by lia.
Qed.

(** Truncating to the width first changes nothing on the wire. *)
Lemma be16_uint16 v : be16 (uint16 v) = be16 v.
Proof. apply (be_put_mod 2). Qed.
Lemma be32_uint32 v : be32 (uint32 v) = be32 v.
Proof. apply (be_put_mod 4). Qed.
Lemma be64_uint64 v : be64 (uint64 v) = be64 v.
Proof. apply (be_put_mod 8). Qed.

Lemma be_put_get l : bytes_ok l -> be_put (length l) (be_get l) = l.
Proof.
  induction 1 as [|b l Hb Hl IH]; cbn [length be_put be_get]; [done|].
  pose proof (be_get_range l Hl) as Hr. unfold byte_ok in Hb.
  fold (len l). f_equal.
  - rewrite Z.add_comm, Z.div_add by lia.
    rewrite Z.div_small, Z.mod_small by lia. lia.
  - rewrite <- be_put_mod. fold (len l).
    rewrite Z.add_comm, Z.mod_add, Z.mod_small by lia. exact IH.
Qed.

Lemma be_put_inj n v w :
  0 <= v < 256 ^ Z.of_nat n -> 0 <= w < 256 ^ Z.of_nat n ->
  be_put n v = be_put n w -> v = w.
Proof.
  intros Hv Hw H. apply (f_equal be_get) in H.
  rewrite !be_get_put, !Z.mod_small in H; lia.
Qed.

(** ** Stepping through a writer

    A buffer under construction is a written prefix [d] followed by zeros;
    a write at the end of the prefix extends it. *)
Section Writer.
Implicit Types d s : bytes.

Lemma make_bytes_ok n : 0 <= n -> make_bytes n = Ok ([] ++ zeros n).
Proof. intros. unfold make_bytes. by rewrite (proj2 (Z.ltb_ge n 0)) by lia. Qed.

Lemma dropZ_zeros k n : 0 <= k <= n -> dropZ k (zeros n) = zeros (n - k).
Proof.
  intros. unfold dropZ, zeros. rewrite drop_replicate. f_equal. lia.
Qed.

Lemma window_write d m pos k :
  pos = len d -> 0 <= k <= m ->
  takeZ pos (d ++ zeros m) = d /\ dropZ (pos + k) (d ++ zeros m) = zeros (m - k).
Proof.
  intros -> Hk. split; [by apply takeZ_app_eq|].
  rewrite dropZ_app by lia. rewrite dropZ_zeros; [f_equal|]; lia.
Qed.

Lemma slice_from_zeros d m pos :
  pos = len d -> 0 <= m -> slice_from (d ++ zeros m) pos = Ok (zeros m).
Proof.
  intros -> Hm. rewrite slice_from_ok.
  - by rewrite dropZ_app_eq.
  - rewrite len_app, len_zeros; len_lia.
Qed.

Lemma set_byte_zeros d m pos v :
  pos = len d -> 1 <= m ->
  set_byte (d ++ zeros m) pos v = Ok ((d ++ [v]) ++ zeros (m - 1)).
Proof.
  intros Hp Hm. unfold set_byte.
  destruct (window_write d m pos 1) as [-> ->]; [done|lia|].
  rewrite (proj2 (Z.leb_le 0 pos)), (proj2 (Z.ltb_lt pos _)).
  - by rewrite <- app_assoc.
  - rewrite len_app, len_zeros; len_lia.
  - len_lia.
Qed.

Lemma PutUint_zeros n d m pos v :
  pos = len d -> Z.of_nat n <= m ->
  PutUint n (d ++ zeros m) pos v = Ok ((d ++ be_put n v) ++ zeros (m - Z.of_nat n)).
Proof.
  intros Hp Hm. unfold PutUint. rewrite slice_from_zeros, bind_ok by lia.
  rewrite len_zeros, (proj2 (Z.ltb_ge m _)) by lia.
  destruct (window_write d m pos (Z.of_nat n)) as [-> ->]; [done|lia|].
  by rewrite <- app_assoc.
Qed.

Lemma PutUint16_zeros d m pos v :
  pos = len d -> 2 <= m ->
  PutUint16 (d ++ zeros m) pos v = Ok ((d ++ be16 v) ++ zeros (m - 2)).
Proof. intros. unfold PutUint16, be16. by rewrite PutUint_zeros by lia. Qed.

Lemma PutUint32_zeros d m pos v :
  pos = len d -> 4 <= m ->
  PutUint32 (d ++ zeros m) pos v = Ok ((d ++ be32 v) ++ zeros (m - 4)).
Proof. intros. unfold PutUint32, be32. by rewrite PutUint_zeros by lia. Qed.

Lemma PutUint64_zeros d m pos v :
  pos = len d -> 8 <= m ->
  PutUint64 (d ++ zeros m) pos v = Ok ((d ++ be64 v) ++ zeros (m - 8)).
Proof. intros. unfold PutUint64, be64. by rewrite PutUint_zeros by lia. Qed.

Lemma copy_zeros d m pos s :
  pos = len d -> len s <= m ->
  copy_at (d ++ zeros m) pos s = Ok ((d ++ s) ++ zeros (m - len s)).
Proof.
  intros Hp Hm. pose proof (len_nonneg s). unfold copy_at.
  rewrite slice_from_zeros, bind_ok by lia. rewrite len_zeros by lia.
  rewrite Z.min_r by lia.
  destruct (window_write d m pos (len s)) as [-> ->]; [done|lia|].
  rewrite takeZ_all by lia. by rewrite <- app_assoc.
Qed.

Lemma zeros_done d m : m = 0 -> d ++ zeros m = d.
Proof. intros ->. apply app_nil_r. Qed.
End Writer.

(** One write of a writer, then the bookkeeping of the prefix. *)
Ltac go_write1 :=
  first
    [ rewrite make_bytes_ok by len_lia
    | rewrite set_byte_zeros by len_lia
    | rewrite PutUint16_zeros by len_lia
    | rewrite PutUint32_zeros by len_lia
    | rewrite PutUint64_zeros by len_lia
    | rewrite copy_zeros by len_lia ];
  rewrite ?bind_ok; cbv beta.
Ltac go_write := repeat go_write1; rewrite ?be16_uint16, ?be32_uint32, ?be64_uint64.

(** ** Writers that loop *)

(** The concatenated encodings of the elements of a list. *)
Definition cat {A} (enc : A -> bytes) (l : list A) : bytes := concat (map enc l).

Lemma cat_nil {A} (enc : A -> bytes) : cat enc [] = [].
Proof. reflexivity. Qed.

Lemma cat_cons {A} (enc : A -> bytes) x l : cat enc (x :: l) = enc x ++ cat enc l.
Proof. reflexivity. Qed.

Lemma cat_app {A} (enc : A -> bytes) l k : cat enc (l ++ k) = cat enc l ++ cat enc k.
Proof. unfold cat. by rewrite map_app, concat_app. Qed.

(** The loop that computes the size of a buffer. *)
Lemma for_each_size {A} (enc : A -> bytes) (size : A -> Z) (l : list A) t :
  (forall x, size x = len (enc x)) ->
  for_each l t (fun t x => Ok (t + size x)) = Ok (t + len (cat enc l)).
Proof.
  intros Hs. revert t. induction l as [|x l IH]; intros t; cbn [for_each].
  - f_equal. rewrite cat_nil. len_lia.
  - rewrite bind_ok, IH, cat_cons, Hs. f_equal. len_lia.
Qed.

(** The loop that fills it, each iteration writing one element. *)
Lemma for_each_write {A} (enc : A -> bytes) (l : list A)
    (body : bytes * Z -> A -> result (bytes * Z)) d m pos :
  (forall d m pos x, pos = len d -> len (enc x) <= m ->
    body (d ++ zeros m, pos) x
    = Ok ((d ++ enc x) ++ zeros (m - len (enc x)), pos + len (enc x))) ->
  pos = len d -> len (cat enc l) <= m ->
  for_each l (d ++ zeros m, pos) body
  = Ok ((d ++ cat enc l) ++ zeros (m - len (cat enc l)), pos + len (cat enc l)).
Proof.
  intros Hb. revert d m pos. induction l as [|x l IH]; intros d m pos Hp Hm; cbn [for_each].
  - rewrite cat_nil, app_nil_r, len_nil, Z.sub_0_r, Z.add_0_r. reflexivity.
  - rewrite cat_cons in *. autorewrite with golen in *.
    pose proof (len_nonneg (cat enc l)). pose proof (len_nonneg (enc x)).
    rewrite Hb by lia. rewrite bind_ok, IH by len_lia.
    rewrite app_assoc, Z.sub_add_distr, Z.add_assoc. reflexivity.
Qed.

(** The same loop, counted. *)
Lemma for_n_write {A} (enc : A -> bytes) (l : list A)
    (body : bytes * Z -> Z -> result (bytes * Z)) d m pos :
  (forall dn x rest d m pos, l = dn ++ x :: rest -> pos = len d -> len (enc x) <= m ->
    body (d ++ zeros m, pos) (len dn)
    = Ok ((d ++ enc x) ++ zeros (m - len (enc x)), pos + len (enc x))) ->
  pos = len d -> len (cat enc l) <= m ->
  for_n (length l) 0 (d ++ zeros m, pos) body
  = Ok ((d ++ cat enc l) ++ zeros (m - len (cat enc l)), pos + len (cat enc l)).
Proof.
  intros Hb Hp Hm.
  set (st dn := ((d ++ cat enc dn) ++ zeros (m - len (cat enc dn)), pos + len (cat enc dn))).
  replace (d ++ zeros m, pos) with (st []); [apply (for_n_run l st)|].
  - intros dn x rest E. unfold st. subst l.
    assert (len (cat enc dn) + len (enc x) <= m)
      by (rewrite cat_app, cat_cons in Hm; len_lia).
    rewrite (Hb dn x rest) by (done || len_lia).
    rewrite cat_app, cat_cons, cat_nil, app_nil_r, len_app.
    by rewrite app_assoc, Z.sub_add_distr, Z.add_assoc.
  - unfold st. by rewrite cat_nil, app_nil_r, len_nil, Z.sub_0_r, Z.add_0_r.
Qed.

(** ** Stepping through a reader *)
Section Reader.
Implicit Types l : bytes.

Lemma GetUint_ok n l pos :
  0 <= pos -> pos + Z.of_nat n <= len l ->
  GetUint n l pos = Ok (be_get (takeZ (Z.of_nat n) (dropZ pos l))).
Proof.
  intros. unfold GetUint. rewrite slice_from_ok, bind_ok by lia.
  by rewrite len_dropZ, (proj2 (Z.ltb_ge _ _)) by lia.
Qed.

Lemma GetUint_panic n l pos :
  len l < pos + Z.of_nat n -> GetUint n l pos = Panic.
Proof.
  intros. unfold GetUint, slice_from.
  destruct (0 <=? pos) eqn:?, (pos <=? len l) eqn:?; cbn; try done.
  by rewrite len_dropZ, (proj2 (Z.ltb_lt _ _)) by lia.
Qed.

Lemma takeZ_dropZ_ok n pos l : bytes_ok l -> bytes_ok (takeZ n (dropZ pos l)).
Proof. intros. by apply Forall_take, Forall_drop. Qed.

(** Reading [n] bytes: the value's range, and its bytes at the window. *)
Lemma safe_GetUint n l pos (Q : Z -> Prop) :
  bytes_ok l -> 0 <= pos -> pos + Z.of_nat n <= len l ->
  (forall v, 0 <= v < 256 ^ Z.of_nat n ->
     dropZ pos l = be_put n v ++ dropZ (pos + Z.of_nat n) l -> Q v) ->
  safe (GetUint n l pos) Q.
Proof.
  intros Hok ? ? HQ. rewrite GetUint_ok by lia. cbn.
  set (w := takeZ (Z.of_nat n) (dropZ pos l)).
  assert (Hw : len w = Z.of_nat n)
    by (unfold w; rewrite len_takeZ; rewrite ?len_dropZ; lia).
  assert (Hwok : bytes_ok w) by (by apply takeZ_dropZ_ok).
  apply HQ.
  - rewrite <- Hw. by apply be_get_range.
  - rewrite (dropZ_split pos (pos + Z.of_nat n)) by lia.
    rewrite Z.add_simpl_l. fold w. f_equal.
    replace n with (length w) by (unfold len in Hw; lia).
    by rewrite be_put_get.
Qed.

Lemma safe_slice_window l lo n (Q : bytes -> Prop) :
  0 <= lo -> 0 <= n -> lo + n <= len l ->
  (forall s, len s = n -> dropZ lo l = s ++ dropZ (lo + n) l -> Q s) ->
  safe (slice l lo (lo + n)) Q.
Proof.
  intros ? ? ? HQ. apply safe_slice; [lia..|]. rewrite Z.add_simpl_l. apply HQ.
  - rewrite len_takeZ; rewrite ?len_dropZ; lia.
  - pose proof (dropZ_split lo (lo + n) l) as E. rewrite Z.add_simpl_l in E. apply E. lia.
Qed.

(** Reading what a writer wrote. *)
Lemma GetUint_put n l pos v r :
  0 <= pos <= len l -> dropZ pos l = be_put n v ++ r ->
  GetUint n l pos = Ok (v mod 256 ^ Z.of_nat n).
Proof.
  intros Hp E. unfold GetUint. rewrite slice_from_ok, bind_ok, E by lia.
  rewrite (proj2 (Z.ltb_ge _ _)) by len_lia.
  rewrite takeZ_app_eq by len_lia. by rewrite be_get_put.
Qed.

Lemma slice_put l lo hi s r :
  0 <= lo <= len l -> dropZ lo l = s ++ r -> hi = lo + len s ->
  slice l lo hi = Ok s.
Proof.
  intros Hlo E ->. pose proof (len_nonneg s).
  assert (len (dropZ lo l) = len s + len r) by (rewrite E; len_lia).
  rewrite len_dropZ in * by lia. pose proof (len_nonneg r).
  rewrite slice_ok by lia. rewrite E, Z.add_simpl_l. by rewrite takeZ_app_eq.
Qed.
End Reader.
