(* ===== verification/Fields.v ===== *)
(** The fields the wire formats are made of: length-prefixed strings, their
    ranges, and the tactics that run an encoder or a parser over them. *)
From stdpp Require Import base list numbers.
From Stdlib Require Import ZArith Lia.
From S2P Require Import Prelude GoBytes.

(** [[2 bytes: len][s]] and [[4 bytes: len][s]]. *)
Definition str16 (s : bytes) : bytes := be16 (len s) ++ s.
Definition blob32 (s : bytes) : bytes := be32 (len s) ++ s.


Definition u16 (v : Z) : Prop := 0 <= v < 65536.
Definition u32 (v : Z) : Prop := 0 <= v < 4294967296.
Definition i64 (v : Z) : Prop := - 2 ^ 63 <= v < 2 ^ 63.
Definition short (s : bytes) : Prop := u16 (len s).
Definition long (s : bytes) : Prop := u32 (len s).

Lemma uint32_range v : u32 (uint32 v).
Proof. apply Z.mod_pos_bound. lia. Qed.

Lemma len_str16 s : len (str16 s) = 2 + len s.
Proof. unfold str16. len_lia. Qed.
Lemma len_blob32 s : len (blob32 s) = 4 + len s.
Proof. unfold blob32. len_lia. Qed.
#[export] Hint Rewrite len_str16 len_blob32 : golen.

(** Run a straight-line encoder, then compare the written prefix with the
    expected bytes up to associativity. *)
Ltac same_bytes :=
  unfold str16, blob32;
  rewrite zeros_done by len_lia; cbn [app]; rewrite <- ?app_assoc; cbn [app];
  repeat f_equal; len_lia.
Ltac writes := go_write; unfold mret, result_ret; same_bytes.

(** ** Reading a written field *)

Section Fields.
Implicit Types l s r : bytes.

Lemma Uint16_read l pos v r :
  0 <= pos <= len l -> u16 v -> dropZ pos l = be16 v ++ r -> Uint16 l pos = Ok v.
Proof.
  intros Hp Hv E. unfold Uint16. rewrite (GetUint_put 2 l pos v r) by done.
  by rewrite Z.mod_small.
Qed.

Lemma Uint32_read l pos v r :
  0 <= pos <= len l -> u32 v -> dropZ pos l = be32 v ++ r -> Uint32 l pos = Ok v.
Proof.
  intros Hp Hv E. unfold Uint32. rewrite (GetUint_put 4 l pos v r) by done.
  by rewrite Z.mod_small.
Qed.

Lemma int64_uint64 v : i64 v -> int64 (uint64 v) = v.
Proof.
  unfold i64, int64, uint64. intros.
  rewrite Zplus_mod_idemp_l, Z.mod_small by lia. lia.
Qed.

Lemma int64_uint64_any v : int64 (uint64 v) = int64 v.
Proof. unfold int64, uint64. by rewrite Zplus_mod_idemp_l. Qed.

Lemma int64_small v : i64 v -> int64 v = v.
Proof. intros. rewrite <- int64_uint64_any. by apply int64_uint64. Qed.

(** Reducing before an addition changes nothing. *)
Lemma int64_add v w : int64 (int64 v + w) = int64 (v + w).
Proof.
  unfold int64. f_equal.
  replace ((v + 2 ^ 63) mod 2 ^ 64 - 2 ^ 63 + w + 2 ^ 63) with ((v + 2 ^ 63) mod 2 ^ 64 + w) by lia.
  rewrite Zplus_mod_idemp_l. f_equal. lia.
Qed.

Lemma be64_int64 v : be64 (int64 v) = be64 v.
Proof.
  unfold int64. rewrite <- (be64_uint64 (_ - _)), <- (be64_uint64 v). f_equal.
  unfold uint64. rewrite Zminus_mod_idemp_l. f_equal. lia.
Qed.

Lemma int64_i64 v : i64 (int64 v).
Proof.
  unfold int64, i64. pose proof (Z.mod_pos_bound (v + 2 ^ 63) (2 ^ 64)). lia.
Qed.

Lemma Uint64_read l pos v r :
  0 <= pos <= len l -> dropZ pos l = be64 v ++ r -> Uint64 l pos = Ok (uint64 v).
Proof. intros Hp E. unfold Uint64. by rewrite (GetUint_put 8 l pos v r) by done. Qed.

Lemma index_read l pos b r :
  0 <= pos <= len l -> dropZ pos l = [b] ++ r -> index l pos = Ok b.
Proof.
  intros Hp E. apply index_ok; [lia|].
  rewrite <- (Nat.add_0_r (Z.to_nat pos)), <- lookup_drop. fold (dropZ pos l). by rewrite E.
Qed.

(** Reading from arbitrary bytes. *)
Lemma safe_Uint16 {B} l pos (f : Z -> result B) Q :
  bytes_ok l -> 0 <= pos -> pos + 2 <= len l ->
  (forall v, u16 v -> dropZ pos l = be16 v ++ dropZ (pos + 2) l -> safe (f v) Q) ->
  safe (Uint16 l pos ≫= f) Q.
Proof.
  intros Hok H1 H2 H. eapply safe_bind; [|intros v Hv; exact Hv].
  by apply safe_GetUint.
Qed.

Lemma safe_Uint32 {B} l pos (f : Z -> result B) Q :
  bytes_ok l -> 0 <= pos -> pos + 4 <= len l ->
  (forall v, u32 v -> dropZ pos l = be32 v ++ dropZ (pos + 4) l -> safe (f v) Q) ->
  safe (Uint32 l pos ≫= f) Q.
Proof.
  intros Hok H1 H2 H. eapply safe_bind; [|intros v Hv; exact Hv].
  by apply safe_GetUint.
Qed.

Lemma safe_Uint64 {B} l pos (f : Z -> result B) Q :
  bytes_ok l -> 0 <= pos -> pos + 8 <= len l ->
  (forall v, dropZ pos l = be64 v ++ dropZ (pos + 8) l -> safe (f v) Q) ->
  safe (Uint64 l pos ≫= f) Q.
Proof.
  intros Hok H1 H2 H. eapply safe_bind; [|intros v Hv; exact Hv].
  apply safe_GetUint; try done. intros v Hv E. by apply H.
Qed.

Lemma safe_window {B} l pos n (f : bytes -> result B) Q :
  0 <= pos -> 0 <= n -> pos + n <= len l ->
  (forall s, n = len s -> dropZ pos l = s ++ dropZ (pos + n) l -> safe (f s) Q) ->
  safe (slice l pos (pos + n) ≫= f) Q.
Proof.
  intros H1 H2 H3 H. eapply safe_bind; [|intros v Hv; exact Hv].
  apply safe_slice_window; try done. intros s Hs E. by apply H.
Qed.
End Fields.

(** Evaluate one step of a parser on a payload of the grammar. *)
Ltac window :=
  rewrite <- ?app_assoc; repeat (rewrite dropZ_app by len_lia);
  rewrite dropZ_0 by len_lia; reflexivity.

Ltac go_read1 :=
  lazymatch goal with
  | |- (if ?a <? ?b then _ else _) = _ =>
      rewrite (proj2 (Z.ltb_ge a b)) by len_lia
  | |- (Uint16 ?l ?p ≫= _) = _ =>
      let E := fresh in eassert (E : dropZ p l = _) by window;
      erewrite (Uint16_read l p); [ | | | exact E]; [clear E | len_lia | unfold u16; len_lia]
  | |- (Uint32 ?l ?p ≫= _) = _ =>
      let E := fresh in eassert (E : dropZ p l = _) by window;
      erewrite (Uint32_read l p); [ | | | exact E]; [clear E | len_lia | unfold u32; len_lia]
  | |- (Uint64 ?l ?p ≫= _) = _ =>
      let E := fresh in eassert (E : dropZ p l = _) by window;
      erewrite (Uint64_read l p); [ | | exact E]; [clear E | len_lia]
  | |- (index ?l ?p ≫= _) = _ =>
      let E := fresh in eassert (E : dropZ p l = [_] ++ _) by window;
      erewrite (index_read l p); [ | | exact E]; [clear E | len_lia]
  | |- (slice ?l ?a ?b ≫= _) = _ =>
      let E := fresh in eassert (E : dropZ a l = _) by window;
      erewrite (slice_put l a b); [ | | exact E | ]; [clear E | len_lia | len_lia]
  end; rewrite ?bind_ok; cbv beta.
Ltac go_read := repeat go_read1.

(** Walk a parser on arbitrary bytes, collecting what it read. *)
Ltac go_safe1 :=
  lazymatch goal with
  | |- safe (if ?a <? ?b then _ else _) _ => destruct (Z.ltb_spec a b); [exact I|]
  | |- safe (Uint16 _ _ ≫= _) _ => apply safe_Uint16; [assumption|len_lia|len_lia|intros ???]
  | |- safe (Uint32 _ _ ≫= _) _ => apply safe_Uint32; [assumption|len_lia|len_lia|intros ???]
  | |- safe (Uint64 _ _ ≫= _) _ => apply safe_Uint64; [assumption|len_lia|len_lia|intros ??]
  | |- safe (slice _ _ _ ≫= _) _ => apply safe_window; [len_lia|unfold u16, u32 in *; len_lia|len_lia|intros ???]
  end.
Ltac go_safe := cbv zeta; repeat go_safe1.
