(* ===== verification/Fmt.v ===== *)
(** The decimal verbs of [fmt.Sprintf] the code uses to build keys and
    messages: [%d] and [%020d], with what the keys rely on (injectivity, fixed
    width, and that fixed-width decimals order as the numbers do). *)
From stdpp Require Import base list numbers strings.
From Stdlib Require Import ZArith Lia.
From S2P Require Import Prelude.

(** The decimal digits of [n >= 0] in front of [acc]. *)
Fixpoint dec_digits (fuel : nat) (n : Z) (acc : bytes) : bytes :=
  match fuel with
  | O => acc
  | S fuel' =>
      if n <? 10 then (48 + n) :: acc
      else dec_digits fuel' (n / 10) ((48 + n mod 10) :: acc)
  end.

(** A number below [2 ^ k] has at most [k] digits. *)
Definition dec (n : Z) : bytes := dec_digits (S (Z.to_nat (Z.log2 n))) n [].

(** [%d] *)
Definition fmt_d (n : Z) : bytes := if n <? 0 then 45 :: dec (- n) else dec n.

(** Zero padding to a width. *)
Definition pad0 (w : Z) (l : bytes) : bytes :=
  replicate (Z.to_nat (w - len l)) 48 ++ l.

(** [%020d]: the sign counts in the width. *)
Definition fmt_020d (n : Z) : bytes :=
  if n <? 0 then 45 :: pad0 19 (dec (- n)) else pad0 20 (dec n).

(** ** Reading decimals back *)

Definition dec_val (l : bytes) : Z := fold_left (fun acc b => acc * 10 + (b - 48)) l 0.

Definition digit (b : byte) : Prop := 48 <= b < 58.

(** The digits of [n], most significant first, as a fixed-width list. *)
Fixpoint fixed (w : nat) (n : Z) : bytes :=
  match w with
  | O => []
  | S w' => (48 + (n / 10 ^ Z.of_nat w') mod 10) :: fixed w' n
  end.

Lemma fixed_length w n : length (fixed w n) = w.
Proof. induction w; cbn [fixed length]; lia. Qed.

Lemma fixed_snoc w n : fixed (S w) n = fixed w (n / 10) ++ [48 + n mod 10].
Proof.
  induction w as [|w IH]; [cbn; by rewrite Z.div_1_r|].
  cbn [fixed] in IH |- *. rewrite <- app_comm_cons, <- IH.
  f_equal. rewrite Z.div_div by lia. do 3 f_equal.
  rewrite Nat2Z.inj_succ, Z.pow_succ_r by lia. reflexivity.
Qed.

(** The fuel of [dec] suffices: it computes all the digits. *)
Lemma dec_digits_fixed fuel n acc :
  0 <= n < 2 ^ Z.of_nat fuel ->
  exists w, (0 < fuel -> 0 < w)%nat /\ n < 10 ^ Z.of_nat w /\
    ((1 < w)%nat -> 10 ^ (Z.of_nat w - 1) <= n) /\
    dec_digits fuel n acc = fixed w n ++ acc.
Proof.
  revert n acc. induction fuel as [|fuel IH]; intros n acc Hn; cbn [dec_digits].
  - exists 0%nat. change (2 ^ Z.of_nat 0) with 1 in Hn.
    split_and!; [lia|cbn; lia|lia|reflexivity].
  - destruct (Z.ltb_spec n 10).
    + exists 1%nat. cbn [fixed app]. rewrite Z.div_1_r, Z.mod_small by lia.
      split_and!; [lia|cbn; lia|lia|reflexivity].
    + destruct (IH (n / 10) ((48 + n mod 10) :: acc)) as (w & Hw0 & Hw & Hlo & ->).
      { rewrite Nat2Z.inj_succ, Z.pow_succ_r in Hn by lia.
        split; [apply Z.div_pos; lia|]. apply Z.div_lt_upper_bound; lia. }
      exists (S w). rewrite fixed_snoc, <- app_assoc.
      rewrite Nat2Z.inj_succ, Z.pow_succ_r by lia.
      assert (n = 10 * (n / 10) + n mod 10) by (apply Z.div_mod; lia).
      assert (0 <= n mod 10 < 10) by (apply Z.mod_pos_bound; lia).
      split_and!; [lia|lia| |reflexivity]. intros _.
      destruct (decide (w = 0%nat)) as [->|]; [change (10 ^ Z.of_nat 0) with 1 in Hw; lia|].
      destruct (decide (w = 1%nat)) as [->|];
        [change (10 ^ (Z.succ (Z.of_nat 1) - 1)) with 10; lia|].
      specialize (Hlo ltac:(lia)).
      rewrite Z.sub_succ_l, Z.pow_succ_r by lia. lia.
Qed.

Lemma log2_fuel n : 0 <= n -> n < 2 ^ Z.of_nat (S (Z.to_nat (Z.log2 n))).
Proof.
  intros Hn. pose proof (Z.log2_nonneg n). rewrite Nat2Z.inj_succ, Z2Nat.id by lia.
  destruct (decide (n = 0)) as [->|]; [cbn; lia|].
  apply Z.log2_spec. lia.
Qed.

Lemma dec_fixed n :
  0 <= n -> exists w, (0 < w)%nat /\ n < 10 ^ Z.of_nat w /\
    ((1 < w)%nat -> 10 ^ (Z.of_nat w - 1) <= n) /\ dec n = fixed w n.
Proof.
  intros Hn. pose proof (log2_fuel n Hn).
  destruct (dec_digits_fixed (S (Z.to_nat (Z.log2 n))) n []) as (w & ? & ? & ? & E); [lia|].
  exists w. unfold dec. rewrite E, app_nil_r. split_and!; [lia|done..].
Qed.

Lemma fixed_digits w n : Forall digit (fixed w n).
Proof.
  induction w; cbn [fixed]; constructor; auto.
  unfold digit. pose proof (Z.mod_pos_bound (n / 10 ^ Z.of_nat w) 10). lia.
Qed.

Lemma dec_val_snoc l b : dec_val (l ++ [b]) = dec_val l * 10 + (b - 48).
Proof. unfold dec_val. by rewrite fold_left_app. Qed.

Lemma dec_val_fixed w n : 0 <= n -> dec_val (fixed w n) = n mod 10 ^ Z.of_nat w.
Proof.
  revert n. induction w as [|w IH]; intros n Hn; [by rewrite Z.mod_1_r|].
  rewrite fixed_snoc, dec_val_snoc, IH by (apply Z.div_pos; lia).
  rewrite Nat2Z.inj_succ, Z.pow_succ_r, Z.rem_mul_r by lia. lia.
Qed.

Lemma dec_val_dec n : 0 <= n -> dec_val (dec n) = n.
Proof.
  intros Hn. destruct (dec_fixed n Hn) as (w & ? & ? & ? & ->).
  rewrite dec_val_fixed, Z.mod_small; lia.
Qed.

Lemma dec_digits_ok n : 0 <= n -> Forall digit (dec n).
Proof.
  intros Hn. destruct (dec_fixed n Hn) as (w & ? & ? & ? & ->). apply fixed_digits.
Qed.

Lemma fmt_d_nonneg n : 0 <= n -> fmt_d n = dec n.
Proof. intros. unfold fmt_d. by rewrite (proj2 (Z.ltb_ge n 0)) by lia. Qed.

Lemma fmt_d_inj n m : 0 <= n -> 0 <= m -> fmt_d n = fmt_d m -> n = m.
Proof.
  intros Hn Hm. rewrite !fmt_d_nonneg by lia. intros E.
  apply (f_equal dec_val) in E. by rewrite !dec_val_dec in E.
Qed.

Lemma fixed_pad k w n :
  0 <= n < 10 ^ Z.of_nat w -> fixed (k + w) n = replicate k 48 ++ fixed w n.
Proof.
  intros Hn. induction k as [|k IH]; [done|].
  cbn [Nat.add fixed replicate]. rewrite <- app_comm_cons, <- IH. f_equal.
  rewrite Z.div_small; [done|].
  rewrite Nat2Z.inj_add, Z.pow_add_r by lia. nia.
Qed.

(** [%020d] of a number that fits is its twenty digits. *)
Lemma fmt_020d_fixed n : 0 <= n < 10 ^ 20 -> fmt_020d n = fixed 20 n.
Proof.
  intros Hn. unfold fmt_020d. rewrite (proj2 (Z.ltb_ge n 0)) by lia.
  destruct (dec_fixed n) as (w & Hw & Hlt & Hlo & ->); [lia|].
  assert (Hw20 : (w <= 20)%nat).
  { destruct (decide (w <= 20)%nat); [done|]. specialize (Hlo ltac:(lia)).
    pose proof (Z.pow_le_mono_r 10 20 (Z.of_nat w - 1)). lia. }
  unfold pad0, len. rewrite fixed_length.
  replace (Z.to_nat (20 - Z.of_nat w)) with (20 - w)%nat by lia.
  rewrite <- fixed_pad by lia. f_equal. lia.
Qed.

Lemma len_fmt_020d n : 0 <= n < 10 ^ 20 -> len (fmt_020d n) = 20.
Proof. intros. rewrite fmt_020d_fixed by done. unfold len. by rewrite fixed_length. Qed.

Lemma fmt_020d_inj n m :
  0 <= n < 10 ^ 20 -> 0 <= m < 10 ^ 20 -> fmt_020d n = fmt_020d m -> n = m.
Proof.
  intros Hn Hm. rewrite !fmt_020d_fixed by done. intros E.
  apply (f_equal dec_val) in E. rewrite !dec_val_fixed, !Z.mod_small in E; lia.
Qed.

(** ** Byte-wise lexicographic order *)

Fixpoint lex_leb (a b : bytes) : bool :=
  match a, b with
  | [], _ => true
  | _ :: _, [] => false
  | x :: a', y :: b' => (x <? y) || ((x =? y) && lex_leb a' b')
  end.

Lemma lex_leb_refl a : lex_leb a a = true.
Proof. induction a; cbn; [done|]. by rewrite Z.eqb_refl, IHa, orb_true_r. Qed.

Lemma lex_leb_trans a b c : lex_leb a b = true -> lex_leb b c = true -> lex_leb a c = true.
Proof.
  revert b c. induction a as [|x a IH]; intros [|y b] [|z c]; cbn; try done.
  rewrite !orb_true_iff, !andb_true_iff, !Z.ltb_lt, !Z.eqb_eq.
  intros [?|[-> ?]] [?|[-> ?]]; [left; lia|left; lia|left; lia|right; eauto].
Qed.

Lemma lex_leb_total a b : lex_leb a b = true \/ lex_leb b a = true.
Proof.
  revert b. induction a as [|x a IH]; intros [|y b]; cbn; auto.
  rewrite !orb_true_iff, !andb_true_iff, !Z.ltb_lt, !Z.eqb_eq.
  destruct (IH b), (Z.lt_trichotomy x y) as [|[|]]; auto.
Qed.

Lemma lex_leb_antisym a b : lex_leb a b = true -> lex_leb b a = true -> a = b.
Proof.
  revert b. induction a as [|x a IH]; intros [|y b]; cbn; try done.
  rewrite !orb_true_iff, !andb_true_iff, !Z.ltb_lt, !Z.eqb_eq.
  intros [?|[-> ?]] [?|[? ?]]; try lia. f_equal. auto.
Qed.

Lemma lex_leb_app p a b : lex_leb (p ++ a) (p ++ b) = lex_leb a b.
Proof.
  induction p as [|x p IH]; cbn; [done|].
  by rewrite Z.ltb_irrefl, Z.eqb_refl, IH.
Qed.

(** Fixed-width decimals compare as the numbers they denote. *)
Lemma lex_leb_fixed w n m :
  0 <= n < 10 ^ Z.of_nat w -> 0 <= m < 10 ^ Z.of_nat w ->
  lex_leb (fixed w n) (fixed w m) = (n <=? m).
Proof.
  revert n m. induction w as [|w IH]; intros n m Hn Hm.
  - cbn in *. symmetry. apply Z.leb_le. lia.
  - rewrite Nat2Z.inj_succ, Z.pow_succ_r in * by lia.
    assert (Hsplit : forall x, 0 <= x < 10 * 10 ^ Z.of_nat w ->
      fixed (S w) x = (48 + x / 10 ^ Z.of_nat w) :: fixed w (x mod 10 ^ Z.of_nat w)).
    { intros x Hx. cbn [fixed]. f_equal.
      - rewrite Z.mod_small; [done|].
        split; [apply Z.div_pos; lia|]. apply Z.div_lt_upper_bound; lia.
      - clear -Hx. assert (Hgen : forall k, (k <= w)%nat ->
          fixed k x = fixed k (x mod 10 ^ Z.of_nat w)); [|by apply Hgen].
        induction k as [|k IHk]; intros Hk; cbn [fixed]; [done|].
        rewrite IHk by lia. f_equal. f_equal.
        replace (Z.of_nat w) with (Z.of_nat k + (1 + Z.of_nat (w - S k))) by lia.
        rewrite !Z.pow_add_r by lia. rewrite Z.rem_mul_r by lia.
        rewrite (Z.mul_comm (10 ^ Z.of_nat k)), Z.div_add by lia.
        rewrite (Z.div_small (x mod _)) by (apply Z.mod_pos_bound; lia).
        rewrite Z.add_0_l, Z.rem_mul_r by lia.
        rewrite Z.pow_1_r, (Z.mul_comm 10), Z.mod_add by lia.
        by rewrite Z.mod_mod by lia. }
    rewrite !Hsplit by lia. cbn [lex_leb].
    set (M := 10 ^ Z.of_nat w) in *. assert (0 < M) by (unfold M; lia).
    rewrite IH by (apply Z.mod_pos_bound; lia).
    pose proof (Z.div_mod n M). pose proof (Z.div_mod m M).
    pose proof (Z.mod_pos_bound n M). pose proof (Z.mod_pos_bound m M).
    apply eq_bool_prop_intro. rewrite !Is_true_true.
    rewrite orb_true_iff, andb_true_iff, Z.ltb_lt, Z.eqb_eq, !Z.leb_le.
    nia.
Qed.

(** ** Names without a colon make the keys unambiguous *)

Definition name_ok (q : bytes) : Prop := 58 ∉ q.

#[export] Instance name_ok_dec q : Decision (name_ok q).
Proof. unfold name_ok. apply _. Defined.

Lemma split_colon a b s t :
  name_ok a -> name_ok b -> a ++ 58 :: s = b ++ 58 :: t -> a = b /\ s = t.
Proof.
  unfold name_ok. revert b. induction a as [|x a IH]; intros [|y b] Ha Hb; cbn;
    rewrite ?not_elem_of_cons in *.
  - by intros [= ->].
  - intros E. injection E as E _. by destruct Hb.
  - intros E. injection E as E _. by destruct Ha.
  - intros [= -> E]. destruct Ha, Hb. by destruct (IH b) as [-> ->].
Qed.

Lemma digits_name_ok n : 0 <= n -> name_ok (fmt_d n).
Proof.
  intros Hn H. rewrite fmt_d_nonneg in H by done.
  pose proof (dec_digits_ok n Hn) as Hd. rewrite Forall_forall in Hd.
  apply Hd in H. unfold digit in H. lia.
Qed.
