(* ===== verification/GoFloat.v ===== *)
(** Go's floating-point numbers as the document store uses them: values,
    comparison, rounding of decimals and integers, and the shortest decimal
    texts of strconv, with the proof that a text reads back as the number. *)
From stdpp Require Import base list numbers strings.
From Stdlib Require Import ZArith Lia.
From S2P Require Import Prelude Fmt.

(** ** Values

    A finite number is its sign and its magnitude as a multiple of [2 ^ -1074],
    the unit of the smallest [float64]; a [float32] is kept as the [float64] of
    the same value. *)
Inductive float : Type :=
| Fin (neg : bool) (mag : Z)
| Inf (neg : bool)
| NaN.

#[export] Instance float_eq_dec : EqDecision float.
Proof. solve_decision. Defined.

Definition one_mag : Z := 2 ^ 1074.

(** The formats: bits of the mantissa, the logarithms of the smallest unit and
    of the first magnitude out of range. *)
Record format : Type := mkFormat { prec : Z; emin : Z; emax : Z }.
Definition binary64 : format := mkFormat 53 0 2098.
Definition binary32 : format := mkFormat 24 925 1202.

(** The place of a number among the others: its signed magnitude. *)
Definition rank (f : float) : Z :=
  match f with
  | Fin neg mag => if neg then - mag else mag
  | Inf neg => if neg then - 2 ^ 2098 else 2 ^ 2098
  | NaN => 0
  end.

(** [x < y] and [x <= y] of the language; false on a NaN. *)
Definition float_cmp (cmp : Z -> Z -> bool) (x y : float) : bool :=
  match x, y with
  | NaN, _ | _, NaN => false
  | _, _ => cmp (rank x) (rank y)
  end.
Definition float_lt : float -> float -> bool := float_cmp Z.ltb.
Definition float_le : float -> float -> bool := float_cmp Z.leb.

(** ** Rounding *)

Definition round_half_even (num den : Z) : Z :=
  let '(q, r) := Z.div_eucl num den in
  if 2 * r <? den then q
  else if den <? 2 * r then q + 1
  else if Z.even q then q else q + 1.

(** The last bit kept of a magnitude. *)
Definition last_bit (fmt : format) (mag : Z) : Z := Z.max (emin fmt) (Z.log2 mag + 1 - prec fmt).

(** The magnitude nearest to [num / den]. *)
Definition round_mag (fmt : format) (num den : Z) : Z :=
  let k := last_bit fmt (num / den) in
  round_half_even num (den * 2 ^ k) * 2 ^ k.

(** The magnitude nearest to [D * 10 ^ E]. *)
Definition of_dec (fmt : format) (D E : Z) : Z :=
  if 0 <=? E then round_mag fmt (D * 10 ^ E * one_mag) 1
  else round_mag fmt (D * one_mag) (10 ^ (- E)).

(** [float64(n)] of an integer *)
Definition float_of_int (n : Z) : float := Fin (n <? 0) (of_dec binary64 (Z.abs n) 0).

(** The magnitudes of a format. *)
Definition mag_ok (fmt : format) (mag : Z) : Prop :=
  0 <= mag < 2 ^ emax fmt /\ mag mod 2 ^ last_bit fmt mag = 0.
Definition finite (fmt : format) (f : float) : Prop :=
  match f with Fin _ mag => mag_ok fmt mag | _ => False end.

#[export] Instance finite_dec fmt f : Decision (finite fmt f).
Proof. destruct f; unfold finite, mag_ok; apply _. Defined.

Lemma last_bit_nonneg fmt mag : 0 <= emin fmt -> 0 <= last_bit fmt mag.
Proof. unfold last_bit. lia. Qed.

Lemma div_eucl_eq a b : Z.div_eucl a b = (a / b, a mod b).
Proof. unfold Z.div, Z.modulo. by destruct (Z.div_eucl a b). Qed.

(** A magnitude of the format is not changed by rounding. *)
Lemma round_mag_exact fmt mag den :
  0 <= emin fmt -> 0 < den -> mag mod 2 ^ last_bit fmt mag = 0 ->
  round_mag fmt (mag * den) den = mag.
Proof.
  intros He Hd Hm. unfold round_mag. rewrite Z.div_mul by lia.
  pose proof (last_bit_nonneg fmt mag He) as Hk. set (k := last_bit fmt mag) in *.
  assert (H2 : 0 < 2 ^ k) by (by apply Z.pow_pos_nonneg).
  apply Z.mod_divide in Hm as [q Hq]; [|lia]. unfold round_half_even.
  rewrite div_eucl_eq.
  replace (mag * den) with (q * (den * 2 ^ k)) by (rewrite Hq; ring).
  rewrite Z.div_mul, Z.mod_mul by nia. rewrite (proj2 (Z.ltb_lt _ _)) by nia. lia.
Qed.

(** Scaling the decimal changes nothing. *)
Lemma of_dec_shift fmt D E : 0 <= E -> of_dec fmt (D * 10 ^ E) 0 = of_dec fmt D E.
Proof. intros HE. unfold of_dec. rewrite (proj2 (Z.leb_le 0 E)) by done. cbn. f_equal. lia. Qed.

(** ** Shortest decimals *)

(** The first [k] from which [a < b * 10 ^ k]. *)
Fixpoint power_above (fuel : nat) (a b k : Z) : Z :=
  match fuel with
  | O => k
  | S fuel => if a <? b then k else power_above fuel a (b * 10) (k + 1)
  end.

(** [10 ^ (decimal_point mag - 1) <= x < 10 ^ decimal_point mag] for the
    number [x] of a positive magnitude; the exponents are below 400. *)
Definition decimal_point (mag : Z) : Z :=
  if one_mag <=? mag then power_above 400 mag one_mag 0
  else 1 - power_above 400 (one_mag - 1) mag 0.

(** [floor (x * 10 ^ - E)] and whether it is the nearer neighbour. *)
Definition scaled (mag E : Z) : Z * bool :=
  let num := if 0 <=? E then mag else mag * 10 ^ (- E) in
  let den := if 0 <=? E then one_mag * 10 ^ E else one_mag in
  let '(q, r) := Z.div_eucl num den in
  (q, 2 * r <=? den).

(** A power of ten has one digit. *)
Definition one_digit (p D E : Z) : Z * Z := if D =? 10 ^ p then (1, E + p) else (D, E).

(** The shortest decimal that reads back as [mag], of the nearer one first;
    17 digits suffice for a [float64], and the exact value is the limit. *)
Fixpoint shortest_from (fuel : nat) (fmt : format) (mag dp p : Z) : Z * Z :=
  match fuel with
  | O => (mag * 5 ^ 1074, -1074)
  | S fuel =>
      let E := dp - p in
      let '(lo, low) := scaled mag E in
      let near := one_digit p (if low then lo else lo + 1) E in
      let far := one_digit p (if low then lo + 1 else lo) E in
      if (0 <? near.1) && (of_dec fmt near.1 near.2 =? mag) then near
      else if (0 <? far.1) && (of_dec fmt far.1 far.2 =? mag) then far
      else shortest_from fuel fmt mag dp (p + 1)
  end.
Definition shortest (fmt : format) (mag : Z) : Z * Z := shortest_from 17 fmt mag (decimal_point mag) 1.

Lemma shortest_from_spec fuel fmt mag dp p :
  0 <= emin fmt -> 0 < mag -> mag_ok fmt mag ->
  0 < (shortest_from fuel fmt mag dp p).1 /\
  of_dec fmt (shortest_from fuel fmt mag dp p).1 (shortest_from fuel fmt mag dp p).2 = mag.
Proof.
  intros He Hm Hok. revert p. induction fuel as [|fuel IH]; intros p; cbn [shortest_from].
  - cbn [fst snd]. assert (0 < 5 ^ 1074) by (by apply Z.pow_pos_nonneg). split; [nia|].
    change (of_dec fmt (mag * 5 ^ 1074) (-1074)) with
      (round_mag fmt (mag * 5 ^ 1074 * one_mag) (10 ^ 1074)).
    replace (mag * 5 ^ 1074 * one_mag) with (mag * 10 ^ 1074).
    + apply round_mag_exact; [done|by apply Z.pow_pos_nonneg|apply Hok].
    + unfold one_mag. rewrite <- Z.mul_assoc, <- Z.pow_mul_l. done.
  - destruct (scaled mag _) as [lo low].
    set (near := one_digit p (if low then _ else _) _). set (far := one_digit p _ _).
    destruct ((0 <? near.1) && _) eqn:E1; [lia|].
    destruct ((0 <? far.1) && _) eqn:E2; [lia|]. apply IH.
Qed.

Lemma shortest_spec fmt mag :
  0 <= emin fmt -> 0 < mag -> mag_ok fmt mag ->
  0 < (shortest fmt mag).1 /\ of_dec fmt (shortest fmt mag).1 (shortest fmt mag).2 = mag.
Proof. apply shortest_from_spec. Qed.

(** ** strconv.FormatFloat with precision -1

    [ds] are the digits and [dp] the position of the decimal point. *)
Definition zeros_text (n : Z) : bytes := replicate (Z.to_nat n) 48.

(** [%f] *)
Definition fmt_F (ds : bytes) (dp : Z) : bytes :=
  if dp <=? 0 then str "0" ++ (if 0 <? len ds - dp then str "." ++ zeros_text (- dp) ++ ds else [])
  else if dp <? len ds then takeZ dp ds ++ str "." ++ dropZ dp ds
  else ds ++ zeros_text (dp - len ds).

(** [%e], its exponent of at least [w] digits *)
Definition fmt_E (w : Z) (ds : bytes) (dp : Z) : bytes :=
  let exp := if len ds =? 0 then 0 else dp - 1 in
  (if len ds =? 0 then str "0" else takeZ 1 ds)
  ++ (if 1 <? len ds then str "." ++ dropZ 1 ds else [])
  ++ str "e" ++ (if exp <? 0 then str "-" else str "+") ++ pad0 w (dec (Z.abs exp)).

Definition decimal (fmt : format) (mag : Z) : bytes * Z :=
  if mag =? 0 then ([], 0)
  else let '(D, E) := shortest fmt mag in (dec D, len (dec D) + E).

Definition sign_text (neg : bool) : bytes := if neg then str "-" else [].

(** [strconv.FormatFloat(f, 'g', -1, bits)], the text of [%v] *)
Definition fmt_g (fmt : format) (f : float) : bytes :=
  match f with
  | NaN => str "NaN"
  | Inf neg => if neg then str "-Inf" else str "+Inf"
  | Fin neg mag =>
      let '(ds, dp) := decimal fmt mag in
      let exp := dp - 1 in
      sign_text neg ++ (if (exp <? -4) || (6 <=? exp) then fmt_E 2 ds dp else fmt_F ds dp)
  end.

(** ** Reading a number *)

Definition is_digit (b : byte) : bool := (48 <=? b) && (b <? 58).

Fixpoint span (p : byte -> bool) (s : bytes) : bytes * bytes :=
  match s with
  | [] => ([], [])
  | b :: s' => if p b then let '(a, r) := span p s' in (b :: a, r) else ([], s)
  end.

(** A sign in front of a number or, with a plus, of an exponent. *)
Definition minus (s : bytes) : bool * bytes :=
  match s with
  | b :: s' => if b =? 45 then (true, s') else (false, s)
  | [] => (false, [])
  end.
Definition exp_sign (s : bytes) : bool * bytes :=
  match s with
  | b :: s' => if b =? 43 then (false, s') else minus s
  | [] => (false, [])
  end.

(** The digits after a decimal point, if there is one. *)
Definition parse_frac (s : bytes) : option (bytes * bytes) :=
  match s with
  | c :: s' =>
      if c =? 46
      then let '(d, r) := span is_digit s' in if len d =? 0 then None else Some (d, r)
      else Some ([], s)
  | [] => Some ([], [])
  end.

(** The exponent, up to the end of the text. *)
Definition parse_exp (s : bytes) : option Z :=
  match s with
  | [] => Some 0
  | c :: s' =>
      if (c =? 101) || (c =? 69) then
        let '(neg, s') := exp_sign s' in
        let '(d, r) := span is_digit s' in
        if (len d =? 0) || (0 <? len r) then None
        else Some (if neg then - dec_val d else dec_val d)
      else None
  end.

(** A number of JSON: its sign, the integer of its digits and its exponent. *)
Definition parse_number (s : bytes) : option (bool * Z * Z) :=
  let '(neg, s) := minus s in
  let '(d1, s) := span is_digit s in
  if match d1 with [] => true | b :: l => (b =? 48) && (0 <? len l) end then None else
  '(d2, s) ← parse_frac s;
  exp ← parse_exp s;
  Some (neg, dec_val (d1 ++ d2), exp - len d2).

(** [strconv.ParseFloat(s, 64)] of a number, refused when out of range. *)
Definition parse_float (s : bytes) : option float :=
  '(neg, D, E) ← parse_number s;
  let mag := of_dec binary64 D E in
  if mag <? 2 ^ emax binary64 then Some (Fin neg mag) else None.

(** ** Texts read back *)

Lemma span_digits ds s :
  Forall digit ds -> match s with [] => True | b :: _ => is_digit b = false end ->
  span is_digit (ds ++ s) = (ds, s).
Proof.
  intros Hd Hs. induction Hd as [|b ds Hb Hd IH]; cbn [app span].
  - destruct s as [|b s]; [done|]. cbn. by rewrite Hs.
  - rewrite IH. assert (is_digit b = true) as -> by (unfold is_digit, digit in *; lia). done.
Qed.

Lemma dec_val_app l k : dec_val (l ++ k) = dec_val l * 10 ^ len k + dec_val k.
Proof.
  induction k as [|b k IH] using rev_ind; [rewrite app_nil_r, len_nil; cbn; lia|].
  rewrite app_assoc, !dec_val_snoc, IH, len_app, Z.pow_add_r by (apply len_nonneg).
  change (10 ^ len [b]) with 10. ring.
Qed.

Lemma dec_val_zeros n : dec_val (zeros_text n) = 0.
Proof.
  unfold zeros_text. induction (Z.to_nat n) as [|m IH]; [done|].
  change (replicate (S m) 48) with ([48] ++ replicate m 48).
  rewrite dec_val_app, IH. done.
Qed.

Lemma zeros_digits n : Forall digit (zeros_text n).
Proof. apply Forall_replicate. unfold digit. lia. Qed.

Lemma len_zeros_text n : 0 <= n -> len (zeros_text n) = n.
Proof. intros. unfold zeros_text, len. rewrite length_replicate. lia. Qed.

Lemma dec_digits_all n : 0 <= n -> Forall digit (dec n).
Proof. apply dec_digits_ok. Qed.

(** The digits of a positive number do not begin with a zero. *)
Lemma dec_head n : 0 < n -> exists b l, dec n = b :: l /\ 49 <= b < 58.
Proof.
  intros Hn. destruct (dec_fixed n) as (w & Hw & Hlt & Hlo & ->); [lia|].
  destruct w as [|w]; [lia|]. cbn [fixed]. eexists _, _. split; [done|].
  replace (Z.of_nat (S w)) with (Z.of_nat w + 1) in * by lia.
  rewrite Z.pow_add_r in Hlt by lia.
  assert (H10 : 0 < 10 ^ Z.of_nat w) by (apply Z.pow_pos_nonneg; lia).
  assert (10 ^ Z.of_nat w <= n).
  { destruct w; [cbn; lia|]. etransitivity; [|apply Hlo; lia].
    apply Z.pow_le_mono_r; lia. }
  assert (1 <= n / 10 ^ Z.of_nat w) by (apply Z.div_le_lower_bound; lia).
  assert (n / 10 ^ Z.of_nat w < 10) by (apply Z.div_lt_upper_bound; lia).
  rewrite Z.mod_small; lia.
Qed.

(** The parts of a number and what they are worth. *)
Definition int_part (d : bytes) : Prop :=
  Forall digit d /\ match d with [] => False | b :: l => b = 48 -> l = [] end.

Definition exp_part (e : bytes) (x : Z) : Prop :=
  (e = [] /\ x = 0) \/
  exists (neg : bool) d, d <> [] /\ Forall digit d /\
    e = 101 :: (if neg then 45 else 43) :: d /\ x = if neg then - dec_val d else dec_val d.

Definition frac_text (d2 : bytes) : bytes := if len d2 =? 0 then [] else 46 :: d2.

Lemma digits_len_pos (d : bytes) : d <> [] -> (len d =? 0) = false.
Proof. destruct d; [done|]. intros _. apply Z.eqb_neq. len_lia. Qed.

Lemma minus_sign neg b s : b <> 45 -> minus (sign_text neg ++ b :: s) = (neg, b :: s).
Proof. intros Hb. destruct neg; [done|]. unfold minus. cbn [sign_text app]. by rewrite (proj2 (Z.eqb_neq b 45)). Qed.

Lemma parse_exp_part e x : exp_part e x -> parse_exp e = Some x.
Proof.
  intros [[-> ->]|(neg & d & Hne & Hd & -> & ->)]; [done|].
  unfold parse_exp. cbn [Z.eqb Pos.eqb orb]. rewrite <- (app_nil_r d) at 1.
  destruct neg; cbn [exp_sign minus Z.eqb Pos.eqb]; rewrite span_digits by done.
  all: by rewrite digits_len_pos.
Qed.

Lemma exp_part_stops e x :
  exp_part e x -> match e with [] => True | b :: _ => is_digit b = false /\ b <> 46 end.
Proof. by intros [[-> _]|(? & ? & _ & _ & -> & _)]. Qed.

Lemma parse_frac_text d e x :
  Forall digit d -> exp_part e x -> parse_frac (frac_text d ++ e) = Some (d, e).
Proof.
  intros Hd He%exp_part_stops. unfold frac_text. destruct (decide (d = [])) as [->|Hne].
  - change (len [] =? 0) with true. cbn [app]. destruct e as [|b e]; [done|]. unfold parse_frac.
    destruct He as [_ Hb]. by rewrite (proj2 (Z.eqb_neq b 46)).
  - rewrite digits_len_pos by done. cbn [app parse_frac Z.eqb Pos.eqb].
    rewrite span_digits; [|done|by destruct e; [|apply He]]. by rewrite digits_len_pos.
Qed.

Lemma parse_number_parts neg d1 d2 e x :
  int_part d1 -> Forall digit d2 -> exp_part e x ->
  parse_number (sign_text neg ++ d1 ++ frac_text d2 ++ e) = Some (neg, dec_val (d1 ++ d2), x - len d2).
Proof.
  intros [Hd Hz] Hd2 He. destruct d1 as [|b d1]; [done|].
  pose proof (Forall_inv Hd) as Hb. unfold digit in Hb.
  unfold parse_number. cbn [app]. rewrite minus_sign by lia.
  rewrite app_comm_cons, span_digits; [|done|].
  2: { unfold frac_text. destruct (len d2 =? 0); [|done].
       apply exp_part_stops in He. by destruct e; [|apply He]. }
  assert ((b =? 48) && (0 <? len d1) = false) as ->.
  { destruct (Z.eqb_spec b 48) as [->|]; [|done]. by rewrite Hz. }
  rewrite (parse_frac_text _ _ _ Hd2 He). cbn [mbind option_bind].
  by rewrite (parse_exp_part _ _ He).
Qed.

(** A text that reads as [D * 10 ^ E]. *)
Definition reads (s : bytes) (neg : bool) (D E : Z) : Prop :=
  exists D' E', parse_number s = Some (neg, D', E') /\
    of_dec binary64 D' E' = of_dec binary64 D E.

Lemma dec_int_part D : 0 < D -> int_part (dec D).
Proof.
  intros HD. split; [by apply dec_digits_all; lia|].
  destruct (dec_head D HD) as (b & l & -> & Hb). lia.
Qed.

Lemma int_part_app d1 d2 :
  int_part d1 -> (forall l, d1 <> 48 :: l) -> Forall digit d2 -> int_part (d1 ++ d2).
Proof.
  intros [H1 H2] H0 Hd. split; [by apply Forall_app|].
  destruct d1 as [|b l]; [done|]. cbn. intros ->. by destruct (H0 l).
Qed.

Lemma reads_parts neg d1 d2 e x D E :
  int_part d1 -> Forall digit d2 -> exp_part e x ->
  dec_val (d1 ++ d2) = D -> x - len d2 = E ->
  reads (sign_text neg ++ d1 ++ frac_text d2 ++ e) neg D E.
Proof. intros H1 H2 He <- <-. eexists _, _. split; [by apply parse_number_parts|done]. Qed.

Lemma dec_nonempty D : 0 < D -> 1 <= len (dec D).
Proof. intros HD. destruct (dec_head D HD) as (b & l & -> & _). len_lia. Qed.

Lemma dec_take D n : 0 < D -> 1 <= n -> int_part (takeZ n (dec D)).
Proof.
  intros HD Hn. pose proof (dec_digits_all D ltac:(lia)) as Hd.
  destruct (dec_head D HD) as (b & l & E & Hb). rewrite E in *.
  split; [by apply Forall_take|]. unfold takeZ.
  destruct (Z.to_nat n) eqn:?; [lia|]. cbn. lia.
Qed.

Lemma frac_text_cons d : d <> [] -> frac_text d = str "." ++ d.
Proof. intros Hd. unfold frac_text. by rewrite digits_len_pos. Qed.

Lemma fmt_F_reads neg D E :
  0 < D -> reads (sign_text neg ++ fmt_F (dec D) (len (dec D) + E)) neg D E.
Proof.
  intros HD. pose proof (dec_nonempty D HD) as Hl. pose proof (dec_digits_all D ltac:(lia)) as Hd.
  assert (He : exp_part [] 0) by by left.
  unfold fmt_F. destruct (Z.leb_spec (len (dec D) + E) 0) as [Hz|Hz].
  { rewrite (proj2 (Z.ltb_lt 0 _)) by lia. rewrite <- frac_text_cons by (destruct (dec D); [done|by destruct (zeros_text _)]).
    rewrite <- (app_nil_r (frac_text _)). apply (reads_parts _ _ _ _ 0); [|by apply Forall_app; split; [apply zeros_digits|]|done| |].
    - split; [|done]. repeat constructor; done.
    - rewrite !dec_val_app, dec_val_zeros, dec_val_dec by lia. change (dec_val (str "0")) with 0. lia.
    - rewrite len_app, len_zeros_text by lia. lia. }
  destruct (Z.ltb_spec (len (dec D) + E) (len (dec D))) as [Hm|Hm].
  { rewrite <- frac_text_cons.
    2: { intros H0. apply (f_equal len) in H0. rewrite len_dropZ, len_nil in H0; lia. }
    rewrite <- (app_nil_r (frac_text _)). apply (reads_parts _ _ _ _ 0); [by apply dec_take; lia|by apply Forall_drop|done| |].
    - rewrite takeZ_dropZ. by apply dec_val_dec; lia.
    - rewrite len_dropZ; lia. }
  replace (len (dec D) + E - len (dec D)) with E by lia.
  exists (D * 10 ^ E), 0. split; [|apply of_dec_shift; lia].
  replace (dec D ++ zeros_text E) with ((dec D ++ zeros_text E) ++ frac_text [] ++ []) by by rewrite app_nil_r.
  rewrite (parse_number_parts neg _ [] [] 0); [|apply int_part_app|done|done].
  - rewrite app_nil_r, dec_val_app, dec_val_zeros, dec_val_dec, len_zeros_text by lia. do 3 f_equal. lia.
  - by apply dec_int_part.
  - destruct (dec_head D HD) as (b & l & -> & Hb). intros l' [= -> _]. lia.
  - apply zeros_digits.
Qed.

Lemma pad0_digits w n :
  0 <= n -> Forall digit (pad0 w (dec n)) /\ dec_val (pad0 w (dec n)) = n /\ pad0 w (dec n) <> [].
Proof.
  intros Hn. unfold pad0. change (replicate _ 48) with (zeros_text (w - len (dec n))).
  split_and!.
  - apply Forall_app. split; [apply zeros_digits|by apply dec_digits_all].
  - by rewrite dec_val_app, dec_val_zeros, dec_val_dec by done.
  - destruct (dec_fixed n Hn) as (k & Hk & _ & _ & ->). destruct k; [lia|].
    by destruct (zeros_text _).
Qed.

Lemma fmt_E_reads neg w D E :
  0 < D -> reads (sign_text neg ++ fmt_E w (dec D) (len (dec D) + E)) neg D E.
Proof.
  intros HD. pose proof (dec_nonempty D HD) as Hl. pose proof (dec_digits_all D ltac:(lia)) as Hd.
  unfold fmt_E. rewrite (proj2 (Z.eqb_neq (len (dec D)) 0)) by lia.
  set (exp := len (dec D) + E - 1).
  assert (Hf : (if 1 <? len (dec D) then str "." ++ dropZ 1 (dec D) else []) = frac_text (dropZ 1 (dec D))).
  { unfold frac_text. rewrite len_dropZ by lia.
    destruct (Z.ltb_spec 1 (len (dec D))), (Z.eqb_spec (len (dec D) - 1) 0); try lia; done. }
  rewrite Hf. destruct (pad0_digits w (Z.abs exp)) as (Hp & Hv & Hne); [lia|].
  apply (reads_parts _ _ _ _ exp); [by apply dec_take|by apply Forall_drop| | |].
  - right. exists (exp <? 0), (pad0 w (dec (Z.abs exp))). split_and!; [done|done|by destruct (exp <? 0)|].
    rewrite Hv. destruct (Z.ltb_spec exp 0); lia.
  - rewrite takeZ_dropZ. by apply dec_val_dec; lia.
  - rewrite len_dropZ by lia. unfold exp. lia.
Qed.
