(* ===== verification/GoStrconv.v ===== *)
(** What the programs use of package strconv, of the durations of package time,
    of the numbers of package fmt and of the arithmetic of floats. *)
From stdpp Require Import base list numbers strings.
From Stdlib Require Import ZArith Lia.
From S2P Require Import Prelude Fmt GoFloat.

(** ** Integers *)

Definition syntax : bytes := str "invalid syntax".
Definition range : bytes := str "value out of range".

(** [ParseUint], from the number of the digits read so far. *)
Fixpoint ParseUint (n : Z) (s : bytes) : Z + bytes :=
  match s with
  | [] => inl n
  | c :: s =>
      if negb ((48 <=? c) && (c <=? 57)) then inr syntax
      else if 2 ^ 64 <=? n * 10 + (c - 48) then inr range
      else ParseUint (n * 10 + (c - 48)) s
  end.

(** [strconv.Atoi]: the number, or what is wrong with the text. *)
Definition Atoi (s : bytes) : Z + bytes :=
  let '(neg, digits) :=
    match s with
    | 43 :: s => (false, s)
    | 45 :: s => (true, s)
    | _ => (false, s)
    end in
  match digits with
  | [] => inr syntax
  | _ =>
      match ParseUint 0 digits with
      | inl n =>
          if neg then (if 2 ^ 63 <? n then inr range else inl (- n))
          else if 2 ^ 63 <=? n then inr range else inl n
      | inr e => inr e
      end
  end.

(** [ParseUint] of a text that may have a base prefix and underscores, as
    [strconv.ParseInt(s, 0, 64)] reads it: the base and the digits. *)
Definition lower (c : Z) : Z := Z.lor c 32.
Definition base_prefix (s : bytes) : Z * bytes :=
  match s with
  | 48 :: c :: d :: rest =>
      if lower c =? 98 then (2, d :: rest)
      else if lower c =? 111 then (8, d :: rest)
      else if lower c =? 120 then (16, d :: rest)
      else (8, c :: d :: rest)
  | 48 :: rest => (8, rest)
  | _ => (10, s)
  end.

(** The value of a digit, letters counting from ten. *)
Definition digit_value (c : Z) : option Z :=
  if (48 <=? c) && (c <=? 57) then Some (c - 48)
  else if (97 <=? lower c) && (lower c <=? 122) then Some (lower c - 87)
  else None.

Fixpoint base_digits (base n : Z) (s : bytes) : Z + bytes :=
  match s with
  | [] => inl n
  | 95 :: s => base_digits base n s
  | c :: s =>
      match digit_value c with
      | Some d =>
          if base <=? d then inr syntax
          else if 2 ^ 64 <=? n * base + d then inr range
          else base_digits base (n * base + d) s
      | None => inr syntax
      end
  end.

(** [underscoreOK] behind the sign and the prefix: an underscore stands between
    digits, or between the prefix and a digit.  [last] is true behind a digit or
    the prefix, [hex] in base 16. *)
Fixpoint underscores (hex last after : bool) (s : bytes) : bool :=
  match s with
  | [] => negb after
  | c :: s =>
      if ((48 <=? c) && (c <=? 57)) || (hex && (97 <=? lower c) && (lower c <=? 102))
      then underscores hex true false s
      else if c =? 95 then last && underscores hex false true s
      else negb after && underscores hex false false s
  end.
Definition underscoreOK (s : bytes) : bool :=
  match s with
  | 48 :: c :: rest =>
      if (lower c =? 98) || (lower c =? 111) || (lower c =? 120)
      then underscores (lower c =? 120) true false rest
      else underscores false false false s
  | _ => underscores false false false s
  end.

(** [strconv.ParseInt(s, 0, 64)] *)
Definition ParseInt (s : bytes) : option Z :=
  let '(neg, digits) :=
    match s with 43 :: s => (false, s) | 45 :: s => (true, s) | _ => (false, s) end in
  match digits with
  | [] => None
  | _ =>
      let '(base, ds) := base_prefix digits in
      match base_digits base 0 ds with
      | inl n =>
          if negb (existsb (Z.eqb 95) ds) || underscoreOK digits then
            if neg then (if 2 ^ 63 <? n then None else Some (- n))
            else if 2 ^ 63 <=? n then None else Some n
          else None
      | inr _ => None
      end
  end.

(** [strconv.ParseBool] *)
Definition ParseBool (s : bytes) : option bool :=
  let one_of := existsb (fun name => bool_decide (s = str name)) in
  if one_of ["1"; "t"; "T"; "true"; "TRUE"; "True"]%string then Some true
  else if one_of ["0"; "f"; "F"; "false"; "FALSE"; "False"]%string then Some false
  else None.

(** ** Durations *)

(** [fmtFrac]: the digits of [v / 10 ^ prec] behind the point without the zeros at
    their end, in front of [acc]; and what is left of [v]. *)
Fixpoint fmtFrac (prec : nat) (v : Z) (print : bool) (acc : bytes) : bytes * Z :=
  match prec with
  | O => (if print then 46 :: acc else acc, v)
  | S prec =>
      let digit := v mod 10 in
      let print := print || negb (digit =? 0) in
      fmtFrac prec (v / 10) print (if print then (48 + digit) :: acc else acc)
  end.

Definition fixed_unit (prec : nat) (u : Z) (unit_ : bytes) : bytes :=
  let '(frac, v) := fmtFrac prec u false unit_ in dec v ++ frac.

(** [Duration.String] *)
Definition Duration_String (d : Z) : bytes :=
  let u := Z.abs d in
  let text :=
    if u =? 0 then str "0s"
    else if u <? 1000 then fixed_unit 0 u (str "ns")
    else if u <? 1000000 then fixed_unit 3 u (str "µs")
    else if u <? second then fixed_unit 6 u (str "ms")
    else
      let '(frac, v) := fmtFrac 9 u false (str "s") in
      let seconds := dec (v mod 60) ++ frac in
      let minutes := v / 60 in
      if minutes =? 0 then seconds
      else
        let text := dec (minutes mod 60) ++ str "m" ++ seconds in
        let hours := minutes / 60 in
        if hours =? 0 then text else dec hours ++ str "h" ++ text in
  if d <? 0 then 45 :: text else text.

(** ** Arithmetic of floats *)

Definition float_mul (x y : float) : float :=
  match x, y with
  | Fin s m, Fin t n => Fin (xorb s t) (round_mag binary64 (m * n) one_mag)
  | _, _ => NaN
  end.
Definition float_add (x y : float) : float :=
  match x, y with
  | Fin _ _, Fin _ _ =>
      let z := rank x + rank y in Fin (z <? 0) (round_mag binary64 (Z.abs z) 1)
  | _, _ => NaN
  end.
Definition int_of_float (x : float) : Z :=
  match x with
  | Fin _ _ =>
      let n := Z.quot (rank x) one_mag in
      if (- 2 ^ 63 <=? n) && (n <? 2 ^ 63) then n else - 2 ^ 63
  | _ => - 2 ^ 63
  end.

(** The division of two finite numbers. *)
Definition float_div (x y : float) : float :=
  match x, y with
  | Fin s m, Fin t n =>
      if n =? 0 then (if m =? 0 then NaN else Inf (xorb s t))
      else
        let mag := round_mag binary64 (m * one_mag) n in
        if mag <? 2 ^ emax binary64 then Fin (xorb s t) mag else Inf (xorb s t)
  | _, _ => NaN
  end.

(** [d.Seconds()] *)
Definition Seconds (d : Z) : float :=
  float_add (float_of_int (Z.quot d second)) (float_div (float_of_int (Z.rem d second)) (float_of_int second)).

(** [%.2f]: the exact value, rounded to even. *)
Definition fmt_2f (x : float) : bytes :=
  match x with
  | NaN => str "NaN"
  | Inf neg => if neg then str "-Inf" else str "+Inf"
  | Fin neg mag =>
      let n := round_half_even (mag * 100) one_mag in
      sign_text neg ++ dec (n / 100) ++ str "." ++ pad0 2 (dec (n mod 100))
  end.

(** ** Reading durations *)

(** [leadingInt]: the number, unless it is above [2 ^ 63], and the rest. *)
Fixpoint leadingInt (x : Z) (s : bytes) : option (Z * bytes) :=
  match s with
  | c :: s' =>
      if (48 <=? c) && (c <=? 57) then
        if 2 ^ 63 / 10 <? x then None
        else if 2 ^ 63 <? x * 10 + (c - 48) then None
        else leadingInt (x * 10 + (c - 48)) s'
      else Some (x, s)
  | [] => Some (x, [])
  end.

(** [leadingFraction]: the digits that fit, their scale and the rest. *)
Fixpoint leadingFraction (x scale : Z) (overflow : bool) (s : bytes) : Z * Z * bytes :=
  match s with
  | c :: s' =>
      if (48 <=? c) && (c <=? 57) then
        if overflow || ((2 ^ 63 - 1) / 10 <? x) || (2 ^ 63 <? x * 10 + (c - 48))
        then leadingFraction x scale true s'
        else leadingFraction (x * 10 + (c - 48)) (scale * 10) false s'
      else (x, scale, s)
  | [] => (x, scale, [])
  end.

(** The bytes up to the next digit or point. *)
Fixpoint leadingUnit (s : bytes) : bytes * bytes :=
  match s with
  | c :: s' =>
      if (c =? 46) || ((48 <=? c) && (c <=? 57)) then ([], s)
      else let '(u, rest) := leadingUnit s' in (c :: u, rest)
  | [] => ([], [])
  end.

(** The micro sign and the Greek letter mu both stand for micro. *)
Definition unitMap : list (bytes * Z) :=
  [(str "ns", 1); (str "us", 1000); (str "µs", 1000); (str "μs", 1000); (str "ms", 1000000);
   (str "s", second); (str "m", 60 * second); (str "h", 3600 * second)].
Definition unit_of (u : bytes) : option Z :=
  snd <$> List.find (fun p => bool_decide (p.1 = u)) unitMap.

(** A number and its unit, in nanoseconds. *)
Definition duration_part (s : bytes) : option (Z * bytes) :=
  match s with
  | c :: _ =>
      if negb ((c =? 46) || ((48 <=? c) && (c <=? 57))) then None
      else
        '(v, s1) ← leadingInt 0 s;
        let pre := negb (len s =? len s1) in
        let '(f, scale, s2, post) :=
          match s1 with
          | 46 :: s' =>
              let '(f, scale, s2) := leadingFraction 0 1 false s' in
              (f, scale, s2, negb (len s' =? len s2))
          | _ => (0, 1, s1, false)
          end in
        if negb pre && negb post then None
        else
          let '(u, rest) := leadingUnit s2 in
          unit ← unit_of u;
          if 2 ^ 63 / unit <? v then None
          else
            let frac := if 0 <? f
              then int_of_float (float_mul (float_of_int f) (float_div (float_of_int unit) (float_of_int scale)))
              else 0 in
            let v := v * unit + frac in
            if 2 ^ 63 <? v then None else Some (v, rest)
  | [] => None
  end.

Fixpoint duration_parts (fuel : nat) (d : Z) (s : bytes) : option Z :=
  match fuel, s with
  | _, [] => Some d
  | O, _ => None
  | S fuel, _ =>
      '(v, rest) ← duration_part s;
      let d := uint64 (d + v) in
      if 2 ^ 63 <? d then None else duration_parts fuel d rest
  end.

(** [time.ParseDuration]; a part has at least two bytes. *)
Definition ParseDuration (s : bytes) : option Z :=
  let '(neg, s) := match s with 43 :: s => (false, s) | 45 :: s => (true, s) | _ => (false, s) end in
  if bool_decide (s = [48]) then Some 0
  else if bool_decide (s = []) then None
  else
    d ← duration_parts (length s) 0 s;
    if neg then Some (int64 (- d)) else if 2 ^ 63 - 1 <? d then None else Some d.

(** ** Examples *)

Example duration_examples :
  map Duration_String [3661500000000; 1500; 2000000; 60000000000; 1000000001]
  = [str "1h1m1.5s"; str "1.5µs"; str "2ms"; str "1m0s"; str "1.000000001s"].
Proof. by vm_compute. Qed.

Example atoi_examples :
  map Atoi [str "-5"; str "+7"; str "1x"; str "9223372036854775808"; str "99999999999999999999x"; []]
  = [inl (-5); inl 7; inr syntax; inr range; inr range; inr syntax].
Proof. by vm_compute. Qed.

Example parse_int_examples :
  map ParseInt [str "64"; str "0x1F"; str "-0b101"; str "010"; str "1_000"; str "_1"; str "0"; str "9z"]
  = [Some 64; Some 31; Some (-5); Some 8; Some 1000; None; Some 0; None].
Proof. by vm_compute. Qed.

Example parse_duration_examples :
  map ParseDuration [str "10s"; str "1.5h"; str "1h15m30.918273645s"; str "-.5ms"; str "3"; str "0"; str "2µs"; str "."]
  = [Some 10000000000; Some 5400000000000; Some 4530918273645; Some (-500000); None; Some 0; Some 2000; None].
Proof. by vm_compute. Qed.

Example float_text_examples :
  [fmt_2f (float_div (float_div (float_of_int 1234567) (Seconds 10000000000)) (float_of_int 1000));
   fmt_2f (float_div (float_of_int 5) (Seconds 0)); fmt_2f (Seconds 1500000000)]
  = [str "123.46"; str "+Inf"; str "1.50"].
Proof. by vm_compute. Qed.
