(* ===== verification/Protocol.v ===== *)
(** The binary wire protocol of internal/net/protocol.go: constants, the parsed
    request and response, and every encoder, written as the buffer code the
    source has ([make], [copy], [binary.BigEndian.PutUintN], a running [pos]).
    The parsers are in ProtocolDecode.v. *)
From stdpp Require Import base list numbers strings.
From Stdlib Require Import ZArith Lia.
From S2P Require Import Prelude GoBytes.

(** ** Constants *)

Definition OpSet : byte := 0x01.
Definition OpGet : byte := 0x02.
Definition OpDel : byte := 0x03.
Definition OpExists : byte := 0x04.
Definition OpIncr : byte := 0x05.
Definition OpDecr : byte := 0x06.
Definition OpMSet : byte := 0x10.
Definition OpMGet : byte := 0x11.
Definition OpMDel : byte := 0x12.

Definition OpQPush : byte := 0x20.
Definition OpQPop : byte := 0x21.
Definition OpQPeek : byte := 0x22.
Definition OpQLen : byte := 0x23.
Definition OpQClear : byte := 0x24.
Definition OpQPopMsg : byte := 0x25.
Definition OpQAck : byte := 0x26.
Definition OpQNack : byte := 0x27.

Definition OpSPublish : byte := 0x30.
Definition OpSConsume : byte := 0x31.
Definition OpSCommit : byte := 0x32.
Definition OpSCreateTopic : byte := 0x33.
Definition OpSSubscribe : byte := 0x34.
Definition OpSUnsubscribe : byte := 0x35.
Definition OpSGetOffsets : byte := 0x36.
Definition OpSPublishBatch : byte := 0x37.

Definition OpDocInsert : byte := 0x40.
Definition OpDocFind : byte := 0x41.
Definition OpDocUpdate : byte := 0x42.
Definition OpDocDelete : byte := 0x43.
Definition OpDocIndex : byte := 0x44.

Definition StatusOK : byte := 0x00.
Definition StatusError : byte := 0x01.
Definition StatusNotFound : byte := 0x02.
Definition StatusKeyExists : byte := 0x03.
Definition StatusMultiValue : byte := 0x04.

Definition MaxKeyLen : Z := 65535.
Definition MaxBatchSize : Z := 10000.
Definition MaxValueLen : Z := Z.shiftl 1 30.

(** ** Parsed messages *)

Record BatchMessage : Type := mkBatchMessage {
  bmPartition : Z;
  bmKey : bytes;
  bmValue : bytes;
}.

Record Request : Type := mkRequest {
  OpCode : byte;
  Key : bytes;
  Value : bytes;
  Keys : list bytes;
  Values : list bytes;
  QueueName : bytes;
  ConsumerID : bytes;
  MessageID : bytes;
  VisibilityTimeout : Z;
  Requeue : bool;
  Topic : bytes;
  Partition : Z;
  Group : bytes;
  Consumer : bytes;
  Count : Z;
  RetentionMs : Z;
  Offset : Z;
  BatchMessages : list BatchMessage;
  Collection : bytes;
}.

(** [&Request{OpCode: op}]: the other fields have their zero values. *)
Definition newRequest (op : byte) : Request :=
  mkRequest op [] [] [] [] [] [] [] 0 false [] 0 [] [] 0 0 0 [] [].

(** The field assignments the parsers make. *)
Definition set_Key (v : bytes) (r : Request) : Request :=
  mkRequest (OpCode r) v (Value r) (Keys r) (Values r) (QueueName r) (ConsumerID r)
    (MessageID r) (VisibilityTimeout r) (Requeue r) (Topic r) (Partition r) (Group r)
    (Consumer r) (Count r) (RetentionMs r) (Offset r) (BatchMessages r) (Collection r) .
Definition set_Value (v : bytes) (r : Request) : Request :=
  mkRequest (OpCode r) (Key r) v (Keys r) (Values r) (QueueName r) (ConsumerID r)
    (MessageID r) (VisibilityTimeout r) (Requeue r) (Topic r) (Partition r) (Group r)
    (Consumer r) (Count r) (RetentionMs r) (Offset r) (BatchMessages r) (Collection r) .
Definition set_Keys (v : list bytes) (r : Request) : Request :=
  mkRequest (OpCode r) (Key r) (Value r) v (Values r) (QueueName r) (ConsumerID r)
    (MessageID r) (VisibilityTimeout r) (Requeue r) (Topic r) (Partition r) (Group r)
    (Consumer r) (Count r) (RetentionMs r) (Offset r) (BatchMessages r) (Collection r) .
Definition set_Values (v : list bytes) (r : Request) : Request :=
  mkRequest (OpCode r) (Key r) (Value r) (Keys r) v (QueueName r) (ConsumerID r)
    (MessageID r) (VisibilityTimeout r) (Requeue r) (Topic r) (Partition r) (Group r)
    (Consumer r) (Count r) (RetentionMs r) (Offset r) (BatchMessages r) (Collection r) .
Definition set_Topic (v : bytes) (r : Request) : Request :=
  mkRequest (OpCode r) (Key r) (Value r) (Keys r) (Values r) (QueueName r) (ConsumerID r)
    (MessageID r) (VisibilityTimeout r) (Requeue r) v (Partition r) (Group r) (Consumer r)
    (Count r) (RetentionMs r) (Offset r) (BatchMessages r) (Collection r) .
Definition set_Partition (v : Z) (r : Request) : Request :=
  mkRequest (OpCode r) (Key r) (Value r) (Keys r) (Values r) (QueueName r) (ConsumerID r)
    (MessageID r) (VisibilityTimeout r) (Requeue r) (Topic r) v (Group r) (Consumer r)
    (Count r) (RetentionMs r) (Offset r) (BatchMessages r) (Collection r) .
Definition set_Group (v : bytes) (r : Request) : Request :=
  mkRequest (OpCode r) (Key r) (Value r) (Keys r) (Values r) (QueueName r) (ConsumerID r)
    (MessageID r) (VisibilityTimeout r) (Requeue r) (Topic r) (Partition r) v (Consumer r)
    (Count r) (RetentionMs r) (Offset r) (BatchMessages r) (Collection r) .
Definition set_Consumer (v : bytes) (r : Request) : Request :=
  mkRequest (OpCode r) (Key r) (Value r) (Keys r) (Values r) (QueueName r) (ConsumerID r)
    (MessageID r) (VisibilityTimeout r) (Requeue r) (Topic r) (Partition r) (Group r) v
    (Count r) (RetentionMs r) (Offset r) (BatchMessages r) (Collection r) .
Definition set_Count (v : Z) (r : Request) : Request :=
  mkRequest (OpCode r) (Key r) (Value r) (Keys r) (Values r) (QueueName r) (ConsumerID r)
    (MessageID r) (VisibilityTimeout r) (Requeue r) (Topic r) (Partition r) (Group r)
    (Consumer r) v (RetentionMs r) (Offset r) (BatchMessages r) (Collection r) .
Definition set_RetentionMs (v : Z) (r : Request) : Request :=
  mkRequest (OpCode r) (Key r) (Value r) (Keys r) (Values r) (QueueName r) (ConsumerID r)
    (MessageID r) (VisibilityTimeout r) (Requeue r) (Topic r) (Partition r) (Group r)
    (Consumer r) (Count r) v (Offset r) (BatchMessages r) (Collection r) .
Definition set_BatchMessages (v : list BatchMessage) (r : Request) : Request :=
  mkRequest (OpCode r) (Key r) (Value r) (Keys r) (Values r) (QueueName r) (ConsumerID r)
    (MessageID r) (VisibilityTimeout r) (Requeue r) (Topic r) (Partition r) (Group r)
    (Consumer r) (Count r) (RetentionMs r) (Offset r) v (Collection r) .
Definition set_Collection (v : bytes) (r : Request) : Request :=
  mkRequest (OpCode r) (Key r) (Value r) (Keys r) (Values r) (QueueName r) (ConsumerID r)
    (MessageID r) (VisibilityTimeout r) (Requeue r) (Topic r) (Partition r) (Group r)
    (Consumer r) (Count r) (RetentionMs r) (Offset r) (BatchMessages r) v.

Record Response : Type := mkResponse {
  Status : byte;
  RValue : bytes;
  RValues : list bytes;
  RError : bytes;
}.

(** ** Request encoders *)

Definition EncodeSetRequest (key value : bytes) : result bytes :=
  let keyLen := len key in
  let valueLen := len value in
  let totalSize := 1 + 4 + 2 + keyLen + 4 + valueLen in
  buf ← make_bytes totalSize;
  let pos := 0 in
  buf ← set_byte buf pos OpSet;
  let pos := pos + 1 in
  let payloadLen := 2 + keyLen + 4 + valueLen in
  buf ← PutUint32 buf pos (uint32 payloadLen);
  let pos := pos + 4 in
  buf ← PutUint16 buf pos (uint16 keyLen);
  let pos := pos + 2 in
  buf ← copy_at buf pos key;
  let pos := pos + keyLen in
  buf ← PutUint32 buf pos (uint32 valueLen);
  let pos := pos + 4 in
  buf ← copy_at buf pos value;
  mret buf.

Definition EncodeGetRequest (key : bytes) : result bytes :=
  let keyLen := len key in
  let totalSize := 1 + 4 + 2 + keyLen in
  buf ← make_bytes totalSize;
  let pos := 0 in
  buf ← set_byte buf pos OpGet;
  let pos := pos + 1 in
  let payloadLen := 2 + keyLen in
  buf ← PutUint32 buf pos (uint32 payloadLen);
  let pos := pos + 4 in
  buf ← PutUint16 buf pos (uint16 keyLen);
  let pos := pos + 2 in
  buf ← copy_at buf pos key;
  mret buf.

Definition encodeSimpleRequest (opCode : byte) (key : bytes) : result bytes :=
  let keyLen := len key in
  let totalSize := 1 + 4 + 2 + keyLen in
  buf ← make_bytes totalSize;
  let pos := 0 in
  buf ← set_byte buf pos opCode;
  let pos := pos + 1 in
  let payloadLen := 2 + keyLen in
  buf ← PutUint32 buf pos (uint32 payloadLen);
  let pos := pos + 4 in
  buf ← PutUint16 buf pos (uint16 keyLen);
  let pos := pos + 2 in
  buf ← copy_at buf pos key;
  mret buf.

Definition EncodeDeleteRequest (key : bytes) : result bytes :=
  encodeSimpleRequest OpDel key.

Definition EncodeExistsRequest (key : bytes) : result bytes :=
  encodeSimpleRequest OpExists key.

Definition EncodeIncrRequest (key : bytes) : result bytes :=
  encodeSimpleRequest OpIncr key.

Definition EncodeDecrRequest (key : bytes) : result bytes :=
  encodeSimpleRequest OpDecr key.

Definition EncodeMSetRequest (keys values : list bytes) : result bytes :=
  if negb (len keys =? len values) then Ok [] else
  let totalSize := 1 + 4 + 2 in
  totalSize ← for_n (length keys) 0 totalSize (fun totalSize i =>
    key ← index keys i;
    value ← index values i;
    Ok (totalSize + (2 + len key + 4 + len value)));
  buf ← make_bytes totalSize;
  let pos := 0 in
  buf ← set_byte buf pos OpMSet;
  let pos := pos + 1 in
  let payloadLen := totalSize - 5 in
  buf ← PutUint32 buf pos (uint32 payloadLen);
  let pos := pos + 4 in
  buf ← PutUint16 buf pos (uint16 (len keys));
  let pos := pos + 2 in
  st ← for_n (length keys) 0 (buf, pos) (fun '(buf, pos) i =>
    key ← index keys i;
    let keyLen := len key in
    buf ← PutUint16 buf pos (uint16 keyLen);
    let pos := pos + 2 in
    buf ← copy_at buf pos key;
    let pos := pos + keyLen in
    value ← index values i;
    let valueLen := len value in
    buf ← PutUint32 buf pos (uint32 valueLen);
    let pos := pos + 4 in
    buf ← copy_at buf pos value;
    let pos := pos + valueLen in
    Ok (buf, pos));
  mret (fst st).

Definition EncodeMGetRequest (keys : list bytes) : result bytes :=
  let totalSize := 1 + 4 + 2 in
  totalSize ← for_each keys totalSize (fun totalSize key =>
    Ok (totalSize + (2 + len key)));
  buf ← make_bytes totalSize;
  let pos := 0 in
  buf ← set_byte buf pos OpMGet;
  let pos := pos + 1 in
  let payloadLen := totalSize - 5 in
  buf ← PutUint32 buf pos (uint32 payloadLen);
  let pos := pos + 4 in
  buf ← PutUint16 buf pos (uint16 (len keys));
  let pos := pos + 2 in
  st ← for_each keys (buf, pos) (fun '(buf, pos) key =>
    let keyLen := len key in
    buf ← PutUint16 buf pos (uint16 keyLen);
    let pos := pos + 2 in
    buf ← copy_at buf pos key;
    let pos := pos + keyLen in
    Ok (buf, pos));
  mret (fst st).

Definition EncodeMDeleteRequest (keys : list bytes) : result bytes :=
  let totalSize := 1 + 4 + 2 in
  totalSize ← for_each keys totalSize (fun totalSize key =>
    Ok (totalSize + (2 + len key)));
  buf ← make_bytes totalSize;
  let pos := 0 in
  buf ← set_byte buf pos OpMDel;
  let pos := pos + 1 in
  let payloadLen := totalSize - 5 in
  buf ← PutUint32 buf pos (uint32 payloadLen);
  let pos := pos + 4 in
  buf ← PutUint16 buf pos (uint16 (len keys));
  let pos := pos + 2 in
  st ← for_each keys (buf, pos) (fun '(buf, pos) key =>
    let keyLen := len key in
    buf ← PutUint16 buf pos (uint16 keyLen);
    let pos := pos + 2 in
    buf ← copy_at buf pos key;
    let pos := pos + keyLen in
    Ok (buf, pos));
  mret (fst st).

Definition EncodeQPushRequest (queueName value : bytes) : result bytes :=
  let nameLen := len queueName in
  let valueLen := len value in
  let totalSize := 1 + 4 + 2 + nameLen + 4 + valueLen in
  buf ← make_bytes totalSize;
  let pos := 0 in
  buf ← set_byte buf pos OpQPush;
  let pos := pos + 1 in
  let payloadLen := 2 + nameLen + 4 + valueLen in
  buf ← PutUint32 buf pos (uint32 payloadLen);
  let pos := pos + 4 in
  buf ← PutUint16 buf pos (uint16 nameLen);
  let pos := pos + 2 in
  buf ← copy_at buf pos queueName;
  let pos := pos + nameLen in
  buf ← PutUint32 buf pos (uint32 valueLen);
  let pos := pos + 4 in
  buf ← copy_at buf pos value;
  mret buf.

Definition EncodeQPopRequest (queueName : bytes) : result bytes :=
  encodeSimpleRequest OpQPop queueName.

Definition EncodeQPeekRequest (queueName : bytes) : result bytes :=
  encodeSimpleRequest OpQPeek queueName.

Definition EncodeQLenRequest (queueName : bytes) : result bytes :=
  encodeSimpleRequest OpQLen queueName.

Definition EncodeQClearRequest (queueName : bytes) : result bytes :=
  encodeSimpleRequest OpQClear queueName.

Definition EncodeSPublishRequest (topic : bytes) (partition : Z) (key value : bytes) : result bytes :=
  let topicLen := len topic in
  let keyLen := len key in
  let valueLen := len value in
  let totalSize := 1 + 4 + 2 + topicLen + 4 + 2 + keyLen + 4 + valueLen in
  buf ← make_bytes totalSize;
  let pos := 0 in
  buf ← set_byte buf pos OpSPublish;
  let pos := pos + 1 in
  let payloadLen := totalSize - 5 in
  buf ← PutUint32 buf pos (uint32 payloadLen);
  let pos := pos + 4 in
  buf ← PutUint16 buf pos (uint16 topicLen);
  let pos := pos + 2 in
  buf ← copy_at buf pos topic;
  let pos := pos + topicLen in
  buf ← PutUint32 buf pos (uint32 partition);
  let pos := pos + 4 in
  buf ← PutUint16 buf pos (uint16 keyLen);
  let pos := pos + 2 in
  buf ← copy_at buf pos key;
  let pos := pos + keyLen in
  buf ← PutUint32 buf pos (uint32 valueLen);
  let pos := pos + 4 in
  buf ← copy_at buf pos value;
  mret buf.

Definition EncodeSConsumeRequest (topic group consumer : bytes) (count : Z) : result bytes :=
  let topicLen := len topic in
  let groupLen := len group in
  let consumerLen := len consumer in
  let totalSize := 1 + 4 + 2 + topicLen + 2 + groupLen + 2 + consumerLen + 4 in
  buf ← make_bytes totalSize;
  let pos := 0 in
  buf ← set_byte buf pos OpSConsume;
  let pos := pos + 1 in
  let payloadLen := totalSize - 5 in
  buf ← PutUint32 buf pos (uint32 payloadLen);
  let pos := pos + 4 in
  buf ← PutUint16 buf pos (uint16 topicLen);
  let pos := pos + 2 in
  buf ← copy_at buf pos topic;
  let pos := pos + topicLen in
  buf ← PutUint16 buf pos (uint16 groupLen);
  let pos := pos + 2 in
  buf ← copy_at buf pos group;
  let pos := pos + groupLen in
  buf ← PutUint16 buf pos (uint16 consumerLen);
  let pos := pos + 2 in
  buf ← copy_at buf pos consumer;
  let pos := pos + consumerLen in
  buf ← PutUint32 buf pos (uint32 count);
  mret buf.

Definition EncodeSCommitRequest (topic group : bytes) (partition offset : Z) : result bytes :=
  let topicLen := len topic in
  let groupLen := len group in
  let totalSize := 1 + 4 + 2 + topicLen + 2 + groupLen + 4 + 8 in
  buf ← make_bytes totalSize;
  let pos := 0 in
  buf ← set_byte buf pos OpSCommit;
  let pos := pos + 1 in
  let payloadLen := totalSize - 5 in
  buf ← PutUint32 buf pos (uint32 payloadLen);
  let pos := pos + 4 in
  buf ← PutUint16 buf pos (uint16 topicLen);
  let pos := pos + 2 in
  buf ← copy_at buf pos topic;
  let pos := pos + topicLen in
  buf ← PutUint16 buf pos (uint16 groupLen);
  let pos := pos + 2 in
  buf ← copy_at buf pos group;
  let pos := pos + groupLen in
  buf ← PutUint32 buf pos (uint32 partition);
  let pos := pos + 4 in
  buf ← PutUint64 buf pos (uint64 offset);
  mret buf.

Definition EncodeSCreateTopicRequest (name : bytes) (partitions retentionMs : Z) : result bytes :=
  let nameLen := len name in
  let totalSize := 1 + 4 + 2 + nameLen + 4 + 8 in
  buf ← make_bytes totalSize;
  let pos := 0 in
  buf ← set_byte buf pos OpSCreateTopic;
  let pos := pos + 1 in
  let payloadLen := totalSize - 5 in
  buf ← PutUint32 buf pos (uint32 payloadLen);
  let pos := pos + 4 in
  buf ← PutUint16 buf pos (uint16 nameLen);
  let pos := pos + 2 in
  buf ← copy_at buf pos name;
  let pos := pos + nameLen in
  buf ← PutUint32 buf pos (uint32 partitions);
  let pos := pos + 4 in
  buf ← PutUint64 buf pos (uint64 retentionMs);
  mret buf.

Definition EncodeSSubscribeRequest (topic group consumer : bytes) : result bytes :=
  let topicLen := len topic in
  let groupLen := len group in
  let consumerLen := len consumer in
  let totalSize := 1 + 4 + 2 + topicLen + 2 + groupLen + 2 + consumerLen in
  buf ← make_bytes totalSize;
  let pos := 0 in
  buf ← set_byte buf pos OpSSubscribe;
  let pos := pos + 1 in
  let payloadLen := totalSize - 5 in
  buf ← PutUint32 buf pos (uint32 payloadLen);
  let pos := pos + 4 in
  buf ← PutUint16 buf pos (uint16 topicLen);
  let pos := pos + 2 in
  buf ← copy_at buf pos topic;
  let pos := pos + topicLen in
  buf ← PutUint16 buf pos (uint16 groupLen);
  let pos := pos + 2 in
  buf ← copy_at buf pos group;
  let pos := pos + groupLen in
  buf ← PutUint16 buf pos (uint16 consumerLen);
  let pos := pos + 2 in
  buf ← copy_at buf pos consumer;
  mret buf.

Definition EncodeSUnsubscribeRequest (topic group consumer : bytes) : result bytes :=
  let topicLen := len topic in
  let groupLen := len group in
  let consumerLen := len consumer in
  let totalSize := 1 + 4 + 2 + topicLen + 2 + groupLen + 2 + consumerLen in
  buf ← make_bytes totalSize;
  let pos := 0 in
  buf ← set_byte buf pos OpSUnsubscribe;
  let pos := pos + 1 in
  let payloadLen := totalSize - 5 in
  buf ← PutUint32 buf pos (uint32 payloadLen);
  let pos := pos + 4 in
  buf ← PutUint16 buf pos (uint16 topicLen);
  let pos := pos + 2 in
  buf ← copy_at buf pos topic;
  let pos := pos + topicLen in
  buf ← PutUint16 buf pos (uint16 groupLen);
  let pos := pos + 2 in
  buf ← copy_at buf pos group;
  let pos := pos + groupLen in
  buf ← PutUint16 buf pos (uint16 consumerLen);
  let pos := pos + 2 in
  buf ← copy_at buf pos consumer;
  mret buf.

Definition EncodeDocInsertRequest (collection doc : bytes) : result bytes :=
  let collLen := len collection in
  let docLen := len doc in
  let totalSize := 1 + 4 + 2 + collLen + 4 + docLen in
  buf ← make_bytes totalSize;
  let pos := 0 in
  buf ← set_byte buf pos OpDocInsert;
  let pos := pos + 1 in
  let payloadLen := totalSize - 5 in
  buf ← PutUint32 buf pos (uint32 payloadLen);
  let pos := pos + 4 in
  buf ← PutUint16 buf pos (uint16 collLen);
  let pos := pos + 2 in
  buf ← copy_at buf pos collection;
  let pos := pos + collLen in
  buf ← PutUint32 buf pos (uint32 docLen);
  let pos := pos + 4 in
  buf ← copy_at buf pos doc;
  mret buf.

Definition EncodeDocFindRequest (collection query : bytes) : result bytes :=
  let collLen := len collection in
  let queryLen := len query in
  let totalSize := 1 + 4 + 2 + collLen + 4 + queryLen in
  buf ← make_bytes totalSize;
  let pos := 0 in
  buf ← set_byte buf pos OpDocFind;
  let pos := pos + 1 in
  let payloadLen := totalSize - 5 in
  buf ← PutUint32 buf pos (uint32 payloadLen);
  let pos := pos + 4 in
  buf ← PutUint16 buf pos (uint16 collLen);
  let pos := pos + 2 in
  buf ← copy_at buf pos collection;
  let pos := pos + collLen in
  buf ← PutUint32 buf pos (uint32 queryLen);
  let pos := pos + 4 in
  buf ← copy_at buf pos query;
  mret buf.

Definition EncodeDocIndexRequest (collection field : bytes) : result bytes :=
  let collLen := len collection in
  let fieldLen := len field in
  let totalSize := 1 + 4 + 2 + collLen + 2 + fieldLen in
  buf ← make_bytes totalSize;
  let pos := 0 in
  buf ← set_byte buf pos OpDocIndex;
  let pos := pos + 1 in
  let payloadLen := totalSize - 5 in
  buf ← PutUint32 buf pos (uint32 payloadLen);
  let pos := pos + 4 in
  buf ← PutUint16 buf pos (uint16 collLen);
  let pos := pos + 2 in
  buf ← copy_at buf pos collection;
  let pos := pos + collLen in
  buf ← PutUint16 buf pos (uint16 fieldLen);
  let pos := pos + 2 in
  buf ← copy_at buf pos field;
  mret buf.

Definition EncodeDocUpdateRequest (collection updateOpts : bytes) : result bytes :=
  let collLen := len collection in
  let optsLen := len updateOpts in
  let totalSize := 1 + 4 + 2 + collLen + 4 + optsLen in
  buf ← make_bytes totalSize;
  let pos := 0 in
  buf ← set_byte buf pos OpDocUpdate;
  let pos := pos + 1 in
  let payloadLen := totalSize - 5 in
  buf ← PutUint32 buf pos (uint32 payloadLen);
  let pos := pos + 4 in
  buf ← PutUint16 buf pos (uint16 collLen);
  let pos := pos + 2 in
  buf ← copy_at buf pos collection;
  let pos := pos + collLen in
  buf ← PutUint32 buf pos (uint32 optsLen);
  let pos := pos + 4 in
  buf ← copy_at buf pos updateOpts;
  mret buf.

Definition EncodeDocDeleteRequest (collection deleteOpts : bytes) : result bytes :=
  let collLen := len collection in
  let optsLen := len deleteOpts in
  let totalSize := 1 + 4 + 2 + collLen + 4 + optsLen in
  buf ← make_bytes totalSize;
  let pos := 0 in
  buf ← set_byte buf pos OpDocDelete;
  let pos := pos + 1 in
  let payloadLen := totalSize - 5 in
  buf ← PutUint32 buf pos (uint32 payloadLen);
  let pos := pos + 4 in
  buf ← PutUint16 buf pos (uint16 collLen);
  let pos := pos + 2 in
  buf ← copy_at buf pos collection;
  let pos := pos + collLen in
  buf ← PutUint32 buf pos (uint32 optsLen);
  let pos := pos + 4 in
  buf ← copy_at buf pos deleteOpts;
  mret buf.

(** No payload length: the topic follows the opcode directly. *)
Definition EncodeSPublishBatchRequest (topic : bytes) (messages : list BatchMessage)
    : result bytes :=
  let size := 1 + 2 + len topic + 4 in
  size ← for_each messages size (fun size msg =>
    Ok (size + (4 + 2 + len (bmKey msg) + 4 + len (bmValue msg))));
  buf ← make_bytes size;
  let pos := 0 in
  buf ← set_byte buf pos OpSPublishBatch;
  let pos := pos + 1 in
  buf ← PutUint16 buf pos (uint16 (len topic));
  let pos := pos + 2 in
  buf ← copy_at buf pos topic;
  let pos := pos + len topic in
  buf ← PutUint32 buf pos (uint32 (len messages));
  let pos := pos + 4 in
  st ← for_each messages (buf, pos) (fun '(buf, pos) msg =>
    buf ← PutUint32 buf pos (uint32 (bmPartition msg));
    let pos := pos + 4 in
    buf ← PutUint16 buf pos (uint16 (len (bmKey msg)));
    let pos := pos + 2 in
    buf ← copy_at buf pos (bmKey msg);
    let pos := pos + len (bmKey msg) in
    buf ← PutUint32 buf pos (uint32 (len (bmValue msg)));
    let pos := pos + 4 in
    buf ← copy_at buf pos (bmValue msg);
    let pos := pos + len (bmValue msg) in
    Ok (buf, pos));
  mret (fst st).

(** ** Response encoders *)

Definition EncodeOKResponse : result bytes :=
  buf ← make_bytes 5;
  buf ← set_byte buf 0 StatusOK;
  buf ← PutUint32 buf 1 0;
  mret buf.

Definition EncodeValueResponse (value : bytes) : result bytes :=
  let totalSize := 5 + len value in
  buf ← make_bytes totalSize;
  buf ← set_byte buf 0 StatusOK;
  buf ← PutUint32 buf 1 (uint32 (len value));
  buf ← copy_at buf 5 value;
  mret buf.

Definition EncodeMultiValueResponse (values : list bytes) : result bytes :=
  let totalSize := 5 + 2 in
  totalSize ← for_each values totalSize (fun totalSize v =>
    Ok (totalSize + (4 + len v)));
  buf ← make_bytes totalSize;
  let pos := 0 in
  buf ← set_byte buf pos StatusMultiValue;
  let pos := pos + 1 in
  let payloadLen := totalSize - 5 in
  buf ← PutUint32 buf pos (uint32 payloadLen);
  let pos := pos + 4 in
  buf ← PutUint16 buf pos (uint16 (len values));
  let pos := pos + 2 in
  st ← for_each values (buf, pos) (fun '(buf, pos) v =>
    buf ← PutUint32 buf pos (uint32 (len v));
    let pos := pos + 4 in
    buf ← copy_at buf pos v;
    let pos := pos + len v in
    Ok (buf, pos));
  mret (fst st).

Definition EncodeErrorResponse (err : error) : result bytes :=
  let errMsg := error_text err in
  let totalSize := 5 + len errMsg in
  buf ← make_bytes totalSize;
  buf ← set_byte buf 0 StatusError;
  buf ← PutUint32 buf 1 (uint32 (len errMsg));
  buf ← copy_at buf 5 errMsg;
  mret buf.
