(* ===== verification/ProtocolDecode.v ===== *)
(** The parsers of internal/net/protocol.go: [DecodeRequest] with its payload
    parsers, and [DecodeResponse].  Indexing, slicing and the fixed-width
    [uint16] and [uint32] additions of the source are kept, so a parser may
    return a request, return an error, or panic. *)
From stdpp Require Import base list numbers strings.
From Stdlib Require Import ZArith Lia.
From S2P Require Import Prelude GoBytes Fmt Protocol.

Definition decodeSetRequest (payload : bytes) : result Request :=
  if len payload <? 6 then Err (errorf "invalid SET payload") else
  let req := newRequest OpSet in
  let pos := 0 in
  keyLen ← Uint16 payload pos;
  let pos := pos + 2 in
  if len payload <? pos + keyLen + 4 then Err (errorf "invalid SET payload") else
  key ← slice payload pos (pos + keyLen);
  let req := set_Key key req in
  let pos := pos + keyLen in
  valueLen ← Uint32 payload pos;
  let pos := pos + 4 in
  if len payload <? pos + valueLen then Err (errorf "invalid SET payload") else
  value ← slice payload pos (pos + valueLen);
  let req := set_Value value req in
  mret req.

(** [2+keyLen] is a [uint16] addition: it wraps for key lengths above 65533. *)
Definition decodeSimpleRequest (opCode : byte) (payload : bytes) : result Request :=
  if len payload <? 2 then Err (errorf "invalid payload") else
  let req := newRequest opCode in
  hdr ← slice payload 0 2;
  keyLen ← Uint16 hdr 0;
  if len payload <? uint16 (2 + keyLen) then Err (errorf "invalid payload") else
  key ← slice payload 2 (uint16 (2 + keyLen));
  let req := set_Key key req in
  mret req.

Definition decodeMSetRequest (payload : bytes) : result Request :=
  if len payload <? 2 then Err (errorf "invalid MSET payload") else
  let req := newRequest OpMSet in
  hdr ← slice payload 0 2;
  count ← Uint16 hdr 0;
  let pos := 2 in
  st ← for_n (Z.to_nat count) 0 (pos, [], []) (fun '(pos, keys, values) i =>
    if len payload <? pos + 2 then Err (errorf "invalid MSET payload") else
    keyLen ← Uint16 payload pos;
    let pos := pos + 2 in
    if len payload <? pos + keyLen + 4 then Err (errorf "invalid MSET payload") else
    key ← slice payload pos (pos + keyLen);
    let pos := pos + keyLen in
    valueLen ← Uint32 payload pos;
    let pos := pos + 4 in
    if len payload <? pos + valueLen then Err (errorf "invalid MSET payload") else
    value ← slice payload pos (pos + valueLen);
    let pos := pos + valueLen in
    Ok (pos, keys ++ [key], values ++ [value]));
  let '(_, keys, values) := st in
  mret (set_Values values (set_Keys keys req)).

Definition decodeMGetRequest (opCode : byte) (payload : bytes) : result Request :=
  if len payload <? 2 then Err (errorf "invalid batch payload") else
  let req := newRequest opCode in
  hdr ← slice payload 0 2;
  count ← Uint16 hdr 0;
  let pos := 2 in
  st ← for_n (Z.to_nat count) 0 (pos, []) (fun '(pos, keys) i =>
    if len payload <? pos + 2 then Err (errorf "invalid batch payload") else
    keyLen ← Uint16 payload pos;
    let pos := pos + 2 in
    if len payload <? pos + keyLen then Err (errorf "invalid batch payload") else
    key ← slice payload pos (pos + keyLen);
    let pos := pos + keyLen in
    Ok (pos, keys ++ [key]));
  let '(_, keys) := st in
  mret (set_Keys keys req).

Definition decodeQPushRequest (payload : bytes) : result Request :=
  if len payload <? 6 then Err (errorf "invalid QPUSH payload") else
  let req := newRequest OpQPush in
  let pos := 0 in
  nameLen ← Uint16 payload pos;
  let pos := pos + 2 in
  if len payload <? pos + nameLen + 4 then Err (errorf "invalid QPUSH payload") else
  key ← slice payload pos (pos + nameLen);
  let req := set_Key key req in
  let pos := pos + nameLen in
  valueLen ← Uint32 payload pos;
  let pos := pos + 4 in
  if len payload <? pos + valueLen then Err (errorf "invalid QPUSH payload") else
  value ← slice payload pos (pos + valueLen);
  let req := set_Value value req in
  mret req.

Definition decodeSPublishRequest (payload : bytes) : result Request :=
  if len payload <? 2 then Err (errorf "invalid SPUBLISH payload") else
  let req := newRequest OpSPublish in
  let pos := 0 in
  topicLen ← Uint16 payload pos;
  let pos := pos + 2 in
  if len payload <? pos + topicLen then Err (errorf "invalid SPUBLISH payload") else
  topic ← slice payload pos (pos + topicLen);
  let req := set_Topic topic req in
  let pos := pos + topicLen in
  if len payload <? pos + 4 then Err (errorf "invalid SPUBLISH payload") else
  partition ← Uint32 payload pos;
  let req := set_Partition partition req in
  let pos := pos + 4 in
  if len payload <? pos + 2 then Err (errorf "invalid SPUBLISH payload") else
  keyLen ← Uint16 payload pos;
  let pos := pos + 2 in
  if len payload <? pos + keyLen then Err (errorf "invalid SPUBLISH payload") else
  key ← slice payload pos (pos + keyLen);
  let req := set_Key key req in
  let pos := pos + keyLen in
  if len payload <? pos + 4 then Err (errorf "invalid SPUBLISH payload") else
  valueLen ← Uint32 payload pos;
  let pos := pos + 4 in
  if len payload <? pos + valueLen then Err (errorf "invalid SPUBLISH payload") else
  value ← slice payload pos (pos + valueLen);
  let req := set_Value value req in
  mret req.

Definition decodeSConsumeRequest (payload : bytes) : result Request :=
  if len payload <? 2 then Err (errorf "invalid SCONSUME payload") else
  let req := newRequest OpSConsume in
  let pos := 0 in
  topicLen ← Uint16 payload pos;
  let pos := pos + 2 in
  if len payload <? pos + topicLen then Err (errorf "invalid SCONSUME payload") else
  topic ← slice payload pos (pos + topicLen);
  let req := set_Topic topic req in
  let pos := pos + topicLen in
  if len payload <? pos + 2 then Err (errorf "invalid SCONSUME payload") else
  groupLen ← Uint16 payload pos;
  let pos := pos + 2 in
  if len payload <? pos + groupLen then Err (errorf "invalid SCONSUME payload") else
  group ← slice payload pos (pos + groupLen);
  let req := set_Group group req in
  let pos := pos + groupLen in
  if len payload <? pos + 2 then Err (errorf "invalid SCONSUME payload") else
  consumerLen ← Uint16 payload pos;
  let pos := pos + 2 in
  if len payload <? pos + consumerLen then Err (errorf "invalid SCONSUME payload") else
  consumer ← slice payload pos (pos + consumerLen);
  let req := set_Consumer consumer req in
  let pos := pos + consumerLen in
  if len payload <? pos + 4 then Err (errorf "invalid SCONSUME payload") else
  count ← Uint32 payload pos;
  let req := set_Count count req in
  mret req.

(** The offset is stored in [RetentionMs]. *)
Definition decodeSCommitRequest (payload : bytes) : result Request :=
  if len payload <? 2 then Err (errorf "invalid SCOMMIT payload") else
  let req := newRequest OpSCommit in
  let pos := 0 in
  topicLen ← Uint16 payload pos;
  let pos := pos + 2 in
  if len payload <? pos + topicLen then Err (errorf "invalid SCOMMIT payload") else
  topic ← slice payload pos (pos + topicLen);
  let req := set_Topic topic req in
  let pos := pos + topicLen in
  if len payload <? pos + 2 then Err (errorf "invalid SCOMMIT payload") else
  groupLen ← Uint16 payload pos;
  let pos := pos + 2 in
  if len payload <? pos + groupLen then Err (errorf "invalid SCOMMIT payload") else
  group ← slice payload pos (pos + groupLen);
  let req := set_Group group req in
  let pos := pos + groupLen in
  if len payload <? pos + 4 then Err (errorf "invalid SCOMMIT payload") else
  partition ← Uint32 payload pos;
  let req := set_Partition partition req in
  let pos := pos + 4 in
  if len payload <? pos + 8 then Err (errorf "invalid SCOMMIT payload") else
  offset ← Uint64 payload pos;
  let req := set_RetentionMs (int64 offset) req in
  mret req.

Definition decodeSCreateTopicRequest (payload : bytes) : result Request :=
  if len payload <? 2 then Err (errorf "invalid SCREATETOPIC payload") else
  let req := newRequest OpSCreateTopic in
  let pos := 0 in
  nameLen ← Uint16 payload pos;
  let pos := pos + 2 in
  if len payload <? pos + nameLen then Err (errorf "invalid SCREATETOPIC payload") else
  topic ← slice payload pos (pos + nameLen);
  let req := set_Topic topic req in
  let pos := pos + nameLen in
  if len payload <? pos + 4 then Err (errorf "invalid SCREATETOPIC payload") else
  partitions ← Uint32 payload pos;
  let req := set_Partition partitions req in
  let pos := pos + 4 in
  if len payload <? pos + 8 then Err (errorf "invalid SCREATETOPIC payload") else
  retentionMs ← Uint64 payload pos;
  let req := set_RetentionMs (int64 retentionMs) req in
  mret req.

Definition decodeSSubscribeRequest (payload : bytes) : result Request :=
  if len payload <? 2 then Err (errorf "invalid SSUBSCRIBE payload") else
  let req := newRequest OpSSubscribe in
  let pos := 0 in
  topicLen ← Uint16 payload pos;
  let pos := pos + 2 in
  if len payload <? pos + topicLen then Err (errorf "invalid SSUBSCRIBE payload") else
  topic ← slice payload pos (pos + topicLen);
  let req := set_Topic topic req in
  let pos := pos + topicLen in
  if len payload <? pos + 2 then Err (errorf "invalid SSUBSCRIBE payload") else
  groupLen ← Uint16 payload pos;
  let pos := pos + 2 in
  if len payload <? pos + groupLen then Err (errorf "invalid SSUBSCRIBE payload") else
  group ← slice payload pos (pos + groupLen);
  let req := set_Group group req in
  let pos := pos + groupLen in
  if len payload <? pos + 2 then Err (errorf "invalid SSUBSCRIBE payload") else
  consumerLen ← Uint16 payload pos;
  let pos := pos + 2 in
  if len payload <? pos + consumerLen then Err (errorf "invalid SSUBSCRIBE payload") else
  consumer ← slice payload pos (pos + consumerLen);
  let req := set_Consumer consumer req in
  mret req.

Definition decodeSUnsubscribeRequest (payload : bytes) : result Request :=
  if len payload <? 2 then Err (errorf "invalid SUNSUBSCRIBE payload") else
  let req := newRequest OpSUnsubscribe in
  let pos := 0 in
  topicLen ← Uint16 payload pos;
  let pos := pos + 2 in
  if len payload <? pos + topicLen then Err (errorf "invalid SUNSUBSCRIBE payload") else
  topic ← slice payload pos (pos + topicLen);
  let req := set_Topic topic req in
  let pos := pos + topicLen in
  if len payload <? pos + 2 then Err (errorf "invalid SUNSUBSCRIBE payload") else
  groupLen ← Uint16 payload pos;
  let pos := pos + 2 in
  if len payload <? pos + groupLen then Err (errorf "invalid SUNSUBSCRIBE payload") else
  group ← slice payload pos (pos + groupLen);
  let req := set_Group group req in
  let pos := pos + groupLen in
  if len payload <? pos + 2 then Err (errorf "invalid SUNSUBSCRIBE payload") else
  consumerLen ← Uint16 payload pos;
  let pos := pos + 2 in
  if len payload <? pos + consumerLen then Err (errorf "invalid SUNSUBSCRIBE payload") else
  consumer ← slice payload pos (pos + consumerLen);
  let req := set_Consumer consumer req in
  mret req.

Definition decodeDocInsertRequest (payload : bytes) : result Request :=
  if len payload <? 2 then Err (errorf "invalid DOCINSERT payload") else
  let req := newRequest OpDocInsert in
  let pos := 0 in
  collLen ← Uint16 payload pos;
  let pos := pos + 2 in
  if len payload <? pos + collLen then Err (errorf "invalid DOCINSERT payload") else
  collection ← slice payload pos (pos + collLen);
  let req := set_Collection collection req in
  let pos := pos + collLen in
  if len payload <? pos + 4 then Err (errorf "invalid DOCINSERT payload") else
  docLen ← Uint32 payload pos;
  let pos := pos + 4 in
  if len payload <? pos + docLen then Err (errorf "invalid DOCINSERT payload") else
  value ← slice payload pos (pos + docLen);
  let req := set_Value value req in
  mret req.

Definition decodeDocFindRequest (payload : bytes) : result Request :=
  if len payload <? 2 then Err (errorf "invalid DOCFIND payload") else
  let req := newRequest OpDocFind in
  let pos := 0 in
  collLen ← Uint16 payload pos;
  let pos := pos + 2 in
  if len payload <? pos + collLen then Err (errorf "invalid DOCFIND payload") else
  collection ← slice payload pos (pos + collLen);
  let req := set_Collection collection req in
  let pos := pos + collLen in
  if len payload <? pos + 4 then Err (errorf "invalid DOCFIND payload") else
  queryLen ← Uint32 payload pos;
  let pos := pos + 4 in
  if len payload <? pos + queryLen then Err (errorf "invalid DOCFIND payload") else
  value ← slice payload pos (pos + queryLen);
  let req := set_Value value req in
  mret req.

Definition decodeDocUpdateRequest (payload : bytes) : result Request :=
  if len payload <? 2 then Err (errorf "invalid DOCUPDATE payload") else
  let req := newRequest OpDocUpdate in
  let pos := 0 in
  collLen ← Uint16 payload pos;
  let pos := pos + 2 in
  if len payload <? pos + collLen then Err (errorf "invalid DOCUPDATE payload") else
  collection ← slice payload pos (pos + collLen);
  let req := set_Collection collection req in
  let pos := pos + collLen in
  if len payload <? pos + 4 then Err (errorf "invalid DOCUPDATE payload") else
  optsLen ← Uint32 payload pos;
  let pos := pos + 4 in
  if len payload <? pos + optsLen then Err (errorf "invalid DOCUPDATE payload") else
  value ← slice payload pos (pos + optsLen);
  let req := set_Value value req in
  mret req.

Definition decodeDocDeleteRequest (payload : bytes) : result Request :=
  if len payload <? 2 then Err (errorf "invalid DOCDELETE payload") else
  let req := newRequest OpDocDelete in
  let pos := 0 in
  collLen ← Uint16 payload pos;
  let pos := pos + 2 in
  if len payload <? pos + collLen then Err (errorf "invalid DOCDELETE payload") else
  collection ← slice payload pos (pos + collLen);
  let req := set_Collection collection req in
  let pos := pos + collLen in
  if len payload <? pos + 4 then Err (errorf "invalid DOCDELETE payload") else
  queryLen ← Uint32 payload pos;
  let pos := pos + 4 in
  if len payload <? pos + queryLen then Err (errorf "invalid DOCDELETE payload") else
  value ← slice payload pos (pos + queryLen);
  let req := set_Value value req in
  mret req.

Definition decodeDocIndexRequest (payload : bytes) : result Request :=
  if len payload <? 2 then Err (errorf "invalid DOCINDEX payload") else
  let req := newRequest OpDocIndex in
  let pos := 0 in
  collLen ← Uint16 payload pos;
  let pos := pos + 2 in
  if len payload <? pos + collLen then Err (errorf "invalid DOCINDEX payload") else
  collection ← slice payload pos (pos + collLen);
  let req := set_Collection collection req in
  let pos := pos + collLen in
  if len payload <? pos + 2 then Err (errorf "invalid DOCINDEX payload") else
  fieldLen ← Uint16 payload pos;
  let pos := pos + 2 in
  if len payload <? pos + fieldLen then Err (errorf "invalid DOCINDEX payload") else
  key ← slice payload pos (pos + fieldLen);
  let req := set_Key key req in
  mret req.

Definition decodeSPublishBatchRequest (payload : bytes) : result Request :=
  if len payload <? 2 then Err (errorf "invalid SPUBLISHBATCH payload") else
  let req := newRequest OpSPublishBatch in
  let pos := 0 in
  topicLen ← Uint16 payload pos;
  let pos := pos + 2 in
  if len payload <? pos + topicLen then Err (errorf "invalid SPUBLISHBATCH payload") else
  topic ← slice payload pos (pos + topicLen);
  let req := set_Topic topic req in
  let pos := pos + topicLen in
  if len payload <? pos + 4 then Err (errorf "invalid SPUBLISHBATCH payload") else
  count ← Uint32 payload pos;
  let pos := pos + 4 in
  if MaxBatchSize <? count then
    Err (Errorf (str "batch size " ++ fmt_d count
                 ++ str " exceeds maximum " ++ fmt_d MaxBatchSize)) else
  st ← for_n (Z.to_nat count) 0 (pos, []) (fun '(pos, msgs) i =>
    if len payload <? pos + 4 then Err (errorf "invalid SPUBLISHBATCH payload") else
    partition ← Uint32 payload pos;
    let pos := pos + 4 in
    if len payload <? pos + 2 then Err (errorf "invalid SPUBLISHBATCH payload") else
    keyLen ← Uint16 payload pos;
    let pos := pos + 2 in
    if len payload <? pos + keyLen then Err (errorf "invalid SPUBLISHBATCH payload") else
    key ← slice payload pos (pos + keyLen);
    let pos := pos + keyLen in
    if len payload <? pos + 4 then Err (errorf "invalid SPUBLISHBATCH payload") else
    valLen ← Uint32 payload pos;
    let pos := pos + 4 in
    if len payload <? pos + valLen then Err (errorf "invalid SPUBLISHBATCH payload") else
    value ← slice payload pos (pos + valLen);
    let pos := pos + valLen in
    Ok (pos, msgs ++ [mkBatchMessage partition key value]));
  let '(_, msgs) := st in
  mret (set_BatchMessages msgs req).

(** The payload parser of an opcode: the [switch] of [DecodeRequest]. *)
Definition decodePayload (opCode : byte) (payload : bytes) : result Request :=
  if opCode =? OpSet then decodeSetRequest payload
  else if (opCode =? OpGet) || (opCode =? OpDel) || (opCode =? OpExists)
       || (opCode =? OpIncr) || (opCode =? OpDecr)
  then decodeSimpleRequest opCode payload
  else if opCode =? OpMSet then decodeMSetRequest payload
  else if (opCode =? OpMGet) || (opCode =? OpMDel)
  then decodeMGetRequest opCode payload
  else if opCode =? OpQPush then decodeQPushRequest payload
  else if (opCode =? OpQPop) || (opCode =? OpQPeek) || (opCode =? OpQLen)
       || (opCode =? OpQClear)
  then decodeSimpleRequest opCode payload
  else if opCode =? OpSPublish then decodeSPublishRequest payload
  else if opCode =? OpSConsume then decodeSConsumeRequest payload
  else if opCode =? OpSCommit then decodeSCommitRequest payload
  else if opCode =? OpSCreateTopic then decodeSCreateTopicRequest payload
  else if opCode =? OpSPublishBatch then decodeSPublishBatchRequest payload
  else if opCode =? OpSSubscribe then decodeSSubscribeRequest payload
  else if opCode =? OpSUnsubscribe then decodeSUnsubscribeRequest payload
  else if opCode =? OpDocInsert then decodeDocInsertRequest payload
  else if opCode =? OpDocFind then decodeDocFindRequest payload
  else if opCode =? OpDocUpdate then decodeDocUpdateRequest payload
  else if opCode =? OpDocDelete then decodeDocDeleteRequest payload
  else if opCode =? OpDocIndex then decodeDocIndexRequest payload
  else Err (Errorf (str "unknown opcode: " ++ fmt_d opCode)).

(** [5+payloadLen] is a [uint32] addition. *)
Definition DecodeRequest (data : bytes) : result Request :=
  if len data <? 5 then Err (errorf "request too short") else
  opCode ← index data 0;
  hdr ← slice data 1 5;
  payloadLen ← Uint32 hdr 0;
  if len data <? uint32 (5 + payloadLen) then Err (errorf "incomplete request") else
  payload ← slice data 5 (uint32 (5 + payloadLen));
  decodePayload opCode payload.

(** ** Responses *)

Definition decodeMultiValueResponse (payload : bytes) : result Response :=
  if len payload <? 2 then Err (errorf "invalid multi-value response") else
  hdr ← slice payload 0 2;
  count ← Uint16 hdr 0;
  let pos := 2 in
  st ← for_n (Z.to_nat count) 0 (pos, []) (fun '(pos, values) i =>
    if len payload <? pos + 4 then Err (errorf "invalid multi-value response") else
    valueLen ← Uint32 payload pos;
    let pos := pos + 4 in
    if len payload <? pos + valueLen then Err (errorf "invalid multi-value response") else
    value ← slice payload pos (pos + valueLen);
    let pos := pos + valueLen in
    Ok (pos, values ++ [value]));
  let '(_, values) := st in
  mret (mkResponse StatusMultiValue [] values []).

Definition DecodeResponse (data : bytes) : result Response :=
  if len data <? 5 then Err (errorf "response too short") else
  status ← index data 0;
  hdr ← slice data 1 5;
  payloadLen ← Uint32 hdr 0;
  if len data <? uint32 (5 + payloadLen) then Err (errorf "incomplete response") else
  payload ← slice data 5 (uint32 (5 + payloadLen));
  if status =? StatusOK then
    mret (if 0 <? len payload then mkResponse status payload [] []
          else mkResponse status [] [] [])
  else if status =? StatusError then mret (mkResponse status [] [] payload)
  else if status =? StatusMultiValue then decodeMultiValueResponse payload
  else if status =? StatusNotFound then mret (mkResponse status [] [] [])
  else Err (Errorf (str "unknown status: " ++ fmt_d status)).
