(* ===== verification/ProtocolSpec.v ===== *)
(** The wire grammar of the protocol as an inductive relation, and the
    frames that the encoders of requests write. *)
From stdpp Require Import base list numbers strings.
From Stdlib Require Import ZArith Lia.
From S2P Require Import Prelude GoBytes Fields Fmt Protocol ProtocolDecode.

(** ** The grammar *)

(** [[1 byte: OpCode][4 bytes: PayloadLength][Payload]] *)
Definition frame (op : byte) (payload : bytes) : bytes :=
  [op] ++ be32 (len payload) ++ payload.

Definition kv16 (kv : bytes * bytes) : bytes := str16 kv.1 ++ blob32 kv.2.
Definition batch_wire (m : BatchMessage) : bytes :=
  be32 (bmPartition m) ++ str16 (bmKey m) ++ blob32 (bmValue m).

Definition simple_ops : list byte :=
  [OpGet; OpDel; OpExists; OpIncr; OpDecr; OpQPop; OpQPeek; OpQLen; OpQClear].

(** [Wire w r]: the payload [w] spells the request [r]. *)
Inductive Wire : bytes -> Request -> Prop :=
| W_set k v : short k -> long v ->
    Wire (str16 k ++ blob32 v) (set_Value v (set_Key k (newRequest OpSet)))
| W_simple op k : op ∈ simple_ops -> len k <= 65533 ->
    Wire (str16 k) (set_Key k (newRequest op))
| W_mset kvs : u16 (len kvs) -> Forall (fun kv => short kv.1 /\ long kv.2) kvs ->
    Wire (be16 (len kvs) ++ cat kv16 kvs)
      (set_Values (map snd kvs) (set_Keys (map fst kvs) (newRequest OpMSet)))
| W_mget op ks : op ∈ [OpMGet; OpMDel] -> u16 (len ks) -> Forall short ks ->
    Wire (be16 (len ks) ++ cat str16 ks) (set_Keys ks (newRequest op))
| W_qpush k v : short k -> long v ->
    Wire (str16 k ++ blob32 v) (set_Value v (set_Key k (newRequest OpQPush)))
| W_spublish t p k v : short t -> u32 p -> short k -> long v ->
    Wire (str16 t ++ be32 p ++ str16 k ++ blob32 v)
      (set_Value v (set_Key k (set_Partition p (set_Topic t (newRequest OpSPublish)))))
| W_sconsume t g c n : short t -> short g -> short c -> u32 n ->
    Wire (str16 t ++ str16 g ++ str16 c ++ be32 n)
      (set_Count n (set_Consumer c (set_Group g (set_Topic t (newRequest OpSConsume)))))
| W_scommit t g p o : short t -> short g -> u32 p -> i64 o ->
    Wire (str16 t ++ str16 g ++ be32 p ++ be64 o)
      (set_RetentionMs o (set_Partition p (set_Group g (set_Topic t (newRequest OpSCommit)))))
| W_screate t p ms : short t -> u32 p -> i64 ms ->
    Wire (str16 t ++ be32 p ++ be64 ms)
      (set_RetentionMs ms (set_Partition p (set_Topic t (newRequest OpSCreateTopic))))
| W_ssubscribe t g c : short t -> short g -> short c ->
    Wire (str16 t ++ str16 g ++ str16 c)
      (set_Consumer c (set_Group g (set_Topic t (newRequest OpSSubscribe))))
| W_sunsubscribe t g c : short t -> short g -> short c ->
    Wire (str16 t ++ str16 g ++ str16 c)
      (set_Consumer c (set_Group g (set_Topic t (newRequest OpSUnsubscribe))))
| W_sbatch t ms : short t -> len ms <= MaxBatchSize ->
    Forall (fun m => u32 (bmPartition m) /\ short (bmKey m) /\ long (bmValue m)) ms ->
    Wire (str16 t ++ be32 (len ms) ++ cat batch_wire ms)
      (set_BatchMessages ms (set_Topic t (newRequest OpSPublishBatch)))
| W_doc op c v : op ∈ [OpDocInsert; OpDocFind; OpDocUpdate; OpDocDelete] ->
    short c -> long v ->
    Wire (str16 c ++ blob32 v) (set_Value v (set_Collection c (newRequest op)))
| W_docindex c f : short c -> short f ->
    Wire (str16 c ++ str16 f) (set_Key f (set_Collection c (newRequest OpDocIndex))).

(** ** The encoders write frames *)

Lemma len_kv16 kv : len (kv16 kv) = 2 + len kv.1 + (4 + len kv.2).
Proof. unfold kv16, str16, blob32. len_lia. Qed.
Lemma len_batch_wire m : len (batch_wire m) = 4 + (2 + len (bmKey m)) + (4 + len (bmValue m)).
Proof. unfold batch_wire, str16, blob32. len_lia. Qed.
#[export] Hint Rewrite len_kv16 len_batch_wire : golen.

(** Run a straight-line encoder, then compare with the frame. *)
Ltac same_frame := unfold frame; same_bytes.
Ltac encodes := go_write; unfold mret, result_ret; same_frame.

(** The same for one iteration of a writing loop. *)
Ltac same_step :=
  unfold kv16, batch_wire, str16, blob32;
  apply (f_equal Ok), f_equal2;
  [ apply f_equal2; [ by rewrite <- ?app_assoc | f_equal; len_lia ] | len_lia ].

Section Encoders.
Implicit Types k v t g c : bytes.

Lemma EncodeSetRequest_frame k v :
  EncodeSetRequest k v = Ok (frame OpSet (str16 k ++ blob32 v)).
Proof. unfold EncodeSetRequest. encodes. Qed.

Lemma EncodeGetRequest_frame k :
  EncodeGetRequest k = Ok (frame OpGet (str16 k)).
Proof. unfold EncodeGetRequest. encodes. Qed.

Lemma encodeSimpleRequest_frame op k :
  encodeSimpleRequest op k = Ok (frame op (str16 k)).
Proof. unfold encodeSimpleRequest. encodes. Qed.

Lemma EncodeQPushRequest_frame k v :
  EncodeQPushRequest k v = Ok (frame OpQPush (str16 k ++ blob32 v)).
Proof. unfold EncodeQPushRequest. encodes. Qed.

Lemma EncodeSPublishRequest_frame t p k v :
  EncodeSPublishRequest t p k v = Ok (frame OpSPublish (str16 t ++ be32 p ++ str16 k ++ blob32 v)).
Proof. unfold EncodeSPublishRequest. encodes. Qed.

Lemma EncodeSConsumeRequest_frame t g c n :
  EncodeSConsumeRequest t g c n = Ok (frame OpSConsume (str16 t ++ str16 g ++ str16 c ++ be32 n)).
Proof. unfold EncodeSConsumeRequest. encodes. Qed.

Lemma EncodeSCommitRequest_frame t g p o :
  EncodeSCommitRequest t g p o = Ok (frame OpSCommit (str16 t ++ str16 g ++ be32 p ++ be64 o)).
Proof. unfold EncodeSCommitRequest. encodes. Qed.

Lemma EncodeSCreateTopicRequest_frame t p ms :
  EncodeSCreateTopicRequest t p ms = Ok (frame OpSCreateTopic (str16 t ++ be32 p ++ be64 ms)).
Proof. unfold EncodeSCreateTopicRequest. encodes. Qed.

Lemma EncodeSSubscribeRequest_frame t g c :
  EncodeSSubscribeRequest t g c = Ok (frame OpSSubscribe (str16 t ++ str16 g ++ str16 c)).
Proof. unfold EncodeSSubscribeRequest. encodes. Qed.

Lemma EncodeSUnsubscribeRequest_frame t g c :
  EncodeSUnsubscribeRequest t g c = Ok (frame OpSUnsubscribe (str16 t ++ str16 g ++ str16 c)).
Proof. unfold EncodeSUnsubscribeRequest. encodes. Qed.

Lemma EncodeDocInsertRequest_frame c v :
  EncodeDocInsertRequest c v = Ok (frame OpDocInsert (str16 c ++ blob32 v)).
Proof. unfold EncodeDocInsertRequest. encodes. Qed.

Lemma EncodeDocFindRequest_frame c v :
  EncodeDocFindRequest c v = Ok (frame OpDocFind (str16 c ++ blob32 v)).
Proof. unfold EncodeDocFindRequest. encodes. Qed.

Lemma EncodeDocUpdateRequest_frame c v :
  EncodeDocUpdateRequest c v = Ok (frame OpDocUpdate (str16 c ++ blob32 v)).
Proof. unfold EncodeDocUpdateRequest. encodes. Qed.

Lemma EncodeDocDeleteRequest_frame c v :
  EncodeDocDeleteRequest c v = Ok (frame OpDocDelete (str16 c ++ blob32 v)).
Proof. unfold EncodeDocDeleteRequest. encodes. Qed.

Lemma EncodeDocIndexRequest_frame c k :
  EncodeDocIndexRequest c k = Ok (frame OpDocIndex (str16 c ++ str16 k)).
Proof. unfold EncodeDocIndexRequest. encodes. Qed.

(** The batch encoders: a size loop, then a writing loop. *)
Lemma lookup_zip_mid ks vs dn k v rest :
  len ks = len vs -> zip ks vs = dn ++ (k, v) :: rest ->
  index ks (len dn) = Ok k /\ index vs (len dn) = Ok v.
Proof.
  intros Hl E.
  assert (Hz : zip ks vs !! length dn = Some (k, v)) by (rewrite E; by apply list_lookup_middle).
  rewrite lookup_zip_with in Hz.
  destruct (ks !! length dn) eqn:Ek, (vs !! length dn) eqn:Ev; try done.
  cbn in Hz. injection Hz as -> ->.
  split; apply index_ok; try apply len_nonneg; unfold len; by rewrite Nat2Z.id.
Qed.

Lemma EncodeMSetRequest_frame ks vs :
  len ks = len vs ->
  EncodeMSetRequest ks vs
  = Ok (frame OpMSet (be16 (len ks) ++ cat kv16 (zip ks vs))).
Proof.
  intros Hl. unfold EncodeMSetRequest. rewrite (proj2 (Z.eqb_eq _ _)) by done. cbn [negb].
  assert (Hz : length ks = length (zip ks vs))
    by (rewrite length_zip_with; unfold len in Hl; lia).
  rewrite Hz at 1.
  rewrite (for_n_run (zip ks vs) (fun dn => 7 + len (cat kv16 dn))), bind_ok; cycle 1.
  { intros dn [k v] rest E. destruct (lookup_zip_mid ks vs dn k v rest Hl E) as [-> ->].
    rewrite !bind_ok, cat_app, cat_cons, cat_nil. f_equal. len_lia. }
  go_write. rewrite Hz. rewrite (for_n_write kv16 (zip ks vs)); [|..|len_lia|len_lia].
  - rewrite bind_ok. unfold mret, result_ret. cbn [fst]. same_frame.
  - intros dn [k v] rest d m pos E Hp Hm.
    destruct (lookup_zip_mid ks vs dn k v rest Hl E) as [-> ->].
    rewrite bind_ok. go_write. same_step.
Qed.

Lemma EncodeMGetRequest_frame ks :
  EncodeMGetRequest ks = Ok (frame OpMGet (be16 (len ks) ++ cat str16 ks)).
Proof.
  unfold EncodeMGetRequest. rewrite (for_each_size str16) by (intros; len_lia).
  rewrite bind_ok. go_write. rewrite (for_each_write str16); [|..|len_lia|len_lia].
  - rewrite bind_ok. unfold mret, result_ret. cbn [fst]. same_frame.
  - intros. go_write. same_step.
Qed.

Lemma EncodeMDeleteRequest_frame ks :
  EncodeMDeleteRequest ks = Ok (frame OpMDel (be16 (len ks) ++ cat str16 ks)).
Proof.
  unfold EncodeMDeleteRequest. rewrite (for_each_size str16) by (intros; len_lia).
  rewrite bind_ok. go_write. rewrite (for_each_write str16); [|..|len_lia|len_lia].
  - rewrite bind_ok. unfold mret, result_ret. cbn [fst]. same_frame.
  - intros. go_write. same_step.
Qed.

(** The batch publish encoder writes no payload length. *)
Lemma EncodeSPublishBatchRequest_bytes t ms :
  EncodeSPublishBatchRequest t ms
  = Ok ([OpSPublishBatch] ++ str16 t ++ be32 (len ms) ++ cat batch_wire ms).
Proof.
  unfold EncodeSPublishBatchRequest.
  rewrite (for_each_size batch_wire) by (intros; len_lia).
  rewrite bind_ok. go_write. rewrite (for_each_write batch_wire); [|..|len_lia|len_lia].
  - rewrite bind_ok. unfold mret, result_ret. cbn [fst]. same_frame.
  - intros. go_write. same_step.
Qed.

Lemma EncodeOKResponse_frame : EncodeOKResponse = Ok (frame StatusOK []).
Proof. reflexivity. Qed.

Lemma EncodeValueResponse_frame v : EncodeValueResponse v = Ok (frame StatusOK v).
Proof. unfold EncodeValueResponse. encodes. Qed.

Lemma EncodeErrorResponse_frame e :
  EncodeErrorResponse e = Ok (frame StatusError (error_text e)).
Proof. unfold EncodeErrorResponse. encodes. Qed.

Lemma EncodeMultiValueResponse_frame vs :
  EncodeMultiValueResponse vs
  = Ok (frame StatusMultiValue (be16 (len vs) ++ cat blob32 vs)).
Proof.
  unfold EncodeMultiValueResponse. rewrite (for_each_size blob32) by (intros; len_lia).
  rewrite bind_ok. go_write. rewrite (for_each_write blob32); [|..|len_lia|len_lia].
  - rewrite bind_ok. unfold mret, result_ret. cbn [fst]. same_frame.
  - intros. go_write. same_step.
Qed.
End Encoders.
