(* ===== verification/ProtocolParse.v ===== *)
(** The parsers against the grammar of ProtocolSpec.v: [DecodeRequest] accepts
    exactly the frames whose payload starts with a payload of the grammar, and
    panics exactly when one of its two fixed-width additions wraps around. *)
From stdpp Require Import base list numbers strings.
From Stdlib Require Import ZArith Lia.
From S2P Require Import Prelude GoBytes Fields Fmt Protocol ProtocolDecode ProtocolSpec.

(** A payload that starts with a spelling of the request of opcode [op]. *)
Definition Parsed (op : byte) (p : bytes) (r : Request) : Prop :=
  OpCode r = op /\ exists w junk, p = w ++ junk /\ Wire w r.

(** Close a walk: the fields read, one after the other, are the spelling. *)
Ltac chain p :=
  rewrite <- (dropZ_0 0 p ltac:(lia)) at 1;
  repeat match goal with
  | H : dropZ ?a p = _ |- context [dropZ ?a p] => rewrite H; clear H
  end;
  subst; unfold str16, blob32; rewrite ?be64_int64, <- ?app_assoc; reflexivity.
Ltac in_grammar :=
  econstructor;
  first [ assumption | apply int64_i64 | by repeat constructor | idtac ].
Ltac parsed :=
  cbn [safe mret result_ret];
  match goal with
  | |- Parsed _ ?p _ => split; [reflexivity|]; eexists _, _; split; cycle 1; [subst; in_grammar | chain p]
  end.

Ltac complete dec :=
  intros; unfold dec, short, long, u16, u32, str16, blob32 in *; cbv zeta; go_read;
  unfold mret, result_ret; rewrite ?int64_uint64 by done; reflexivity.
Ltac sound dec := intros; unfold dec; go_safe; parsed.

(** ** The straight-line parsers *)
Section Straight.
Implicit Types p k v t g c junk : bytes.

Lemma decodeSetRequest_complete k v junk :
  short k -> long v ->
  decodeSetRequest ((str16 k ++ blob32 v) ++ junk)
  = Ok (set_Value v (set_Key k (newRequest OpSet))).
Proof. complete decodeSetRequest. Qed.

Lemma decodeSetRequest_sound p :
  bytes_ok p -> safe (decodeSetRequest p) (Parsed OpSet p).
Proof. sound decodeSetRequest. Qed.

Lemma decodeQPushRequest_complete k v junk :
  short k -> long v ->
  decodeQPushRequest ((str16 k ++ blob32 v) ++ junk)
  = Ok (set_Value v (set_Key k (newRequest OpQPush))).
Proof. complete decodeQPushRequest. Qed.

Lemma decodeQPushRequest_sound p :
  bytes_ok p -> safe (decodeQPushRequest p) (Parsed OpQPush p).
Proof. sound decodeQPushRequest. Qed.

Lemma decodeSPublishRequest_complete t n k v junk :
  short t -> u32 n -> short k -> long v ->
  decodeSPublishRequest ((str16 t ++ be32 n ++ str16 k ++ blob32 v) ++ junk)
  = Ok (set_Value v (set_Key k (set_Partition n (set_Topic t (newRequest OpSPublish))))).
Proof. complete decodeSPublishRequest. Qed.

Lemma decodeSPublishRequest_sound p :
  bytes_ok p -> safe (decodeSPublishRequest p) (Parsed OpSPublish p).
Proof. sound decodeSPublishRequest. Qed.

Lemma decodeSConsumeRequest_complete t g c n junk :
  short t -> short g -> short c -> u32 n ->
  decodeSConsumeRequest ((str16 t ++ str16 g ++ str16 c ++ be32 n) ++ junk)
  = Ok (set_Count n (set_Consumer c (set_Group g (set_Topic t (newRequest OpSConsume))))).
Proof. complete decodeSConsumeRequest. Qed.

Lemma decodeSConsumeRequest_sound p :
  bytes_ok p -> safe (decodeSConsumeRequest p) (Parsed OpSConsume p).
Proof. sound decodeSConsumeRequest. Qed.

Lemma decodeSCommitRequest_complete t g n o junk :
  short t -> short g -> u32 n -> i64 o ->
  decodeSCommitRequest ((str16 t ++ str16 g ++ be32 n ++ be64 o) ++ junk)
  = Ok (set_RetentionMs o (set_Partition n (set_Group g (set_Topic t (newRequest OpSCommit))))).
Proof. complete decodeSCommitRequest. Qed.

Lemma decodeSCommitRequest_sound p :
  bytes_ok p -> safe (decodeSCommitRequest p) (Parsed OpSCommit p).
Proof. sound decodeSCommitRequest. Qed.

Lemma decodeSCreateTopicRequest_complete t n ms junk :
  short t -> u32 n -> i64 ms ->
  decodeSCreateTopicRequest ((str16 t ++ be32 n ++ be64 ms) ++ junk)
  = Ok (set_RetentionMs ms (set_Partition n (set_Topic t (newRequest OpSCreateTopic)))).
Proof. complete decodeSCreateTopicRequest. Qed.

Lemma decodeSCreateTopicRequest_sound p :
  bytes_ok p -> safe (decodeSCreateTopicRequest p) (Parsed OpSCreateTopic p).
Proof. sound decodeSCreateTopicRequest. Qed.

Lemma decodeSSubscribeRequest_complete t g c junk :
  short t -> short g -> short c ->
  decodeSSubscribeRequest ((str16 t ++ str16 g ++ str16 c) ++ junk)
  = Ok (set_Consumer c (set_Group g (set_Topic t (newRequest OpSSubscribe)))).
Proof. complete decodeSSubscribeRequest. Qed.

Lemma decodeSSubscribeRequest_sound p :
  bytes_ok p -> safe (decodeSSubscribeRequest p) (Parsed OpSSubscribe p).
Proof. sound decodeSSubscribeRequest. Qed.

Lemma decodeSUnsubscribeRequest_complete t g c junk :
  short t -> short g -> short c ->
  decodeSUnsubscribeRequest ((str16 t ++ str16 g ++ str16 c) ++ junk)
  = Ok (set_Consumer c (set_Group g (set_Topic t (newRequest OpSUnsubscribe)))).
Proof. complete decodeSUnsubscribeRequest. Qed.

Lemma decodeSUnsubscribeRequest_sound p :
  bytes_ok p -> safe (decodeSUnsubscribeRequest p) (Parsed OpSUnsubscribe p).
Proof. sound decodeSUnsubscribeRequest. Qed.

Lemma decodeDocInsertRequest_complete c v junk :
  short c -> long v ->
  decodeDocInsertRequest ((str16 c ++ blob32 v) ++ junk)
  = Ok (set_Value v (set_Collection c (newRequest OpDocInsert))).
Proof. complete decodeDocInsertRequest. Qed.

Lemma decodeDocInsertRequest_sound p :
  bytes_ok p -> safe (decodeDocInsertRequest p) (Parsed OpDocInsert p).
Proof. sound decodeDocInsertRequest. Qed.

Lemma decodeDocFindRequest_complete c v junk :
  short c -> long v ->
  decodeDocFindRequest ((str16 c ++ blob32 v) ++ junk)
  = Ok (set_Value v (set_Collection c (newRequest OpDocFind))).
Proof. complete decodeDocFindRequest. Qed.

Lemma decodeDocFindRequest_sound p :
  bytes_ok p -> safe (decodeDocFindRequest p) (Parsed OpDocFind p).
Proof. sound decodeDocFindRequest. Qed.

Lemma decodeDocUpdateRequest_complete c v junk :
  short c -> long v ->
  decodeDocUpdateRequest ((str16 c ++ blob32 v) ++ junk)
  = Ok (set_Value v (set_Collection c (newRequest OpDocUpdate))).
Proof. complete decodeDocUpdateRequest. Qed.

Lemma decodeDocUpdateRequest_sound p :
  bytes_ok p -> safe (decodeDocUpdateRequest p) (Parsed OpDocUpdate p).
Proof. sound decodeDocUpdateRequest. Qed.

Lemma decodeDocDeleteRequest_complete c v junk :
  short c -> long v ->
  decodeDocDeleteRequest ((str16 c ++ blob32 v) ++ junk)
  = Ok (set_Value v (set_Collection c (newRequest OpDocDelete))).
Proof. complete decodeDocDeleteRequest. Qed.

Lemma decodeDocDeleteRequest_sound p :
  bytes_ok p -> safe (decodeDocDeleteRequest p) (Parsed OpDocDelete p).
Proof. sound decodeDocDeleteRequest. Qed.

Lemma decodeDocIndexRequest_complete c k junk :
  short c -> short k ->
  decodeDocIndexRequest ((str16 c ++ str16 k) ++ junk)
  = Ok (set_Key k (set_Collection c (newRequest OpDocIndex))).
Proof. complete decodeDocIndexRequest. Qed.

Lemma decodeDocIndexRequest_sound p :
  bytes_ok p -> safe (decodeDocIndexRequest p) (Parsed OpDocIndex p).
Proof. sound decodeDocIndexRequest. Qed.

End Straight.

(** ** The single-key parser and its wrapping length check *)

(** The key length field, read as the parser reads it. *)
Definition key_length (p : bytes) : Z := be_get (takeZ 2 p).

Lemma header_read p :
  2 <= len p ->
  (hdr ← slice p 0 2; Uint16 hdr 0) = Ok (key_length p).
Proof.
  intros Hp. rewrite slice_ok, bind_ok, dropZ_0, Z.sub_0_r by lia.
  assert (Hl : len (takeZ 2 p) = 2) by (apply len_takeZ; lia).
  unfold Uint16, key_length. rewrite GetUint_ok, dropZ_0 by lia.
  by rewrite (takeZ_all _ (takeZ 2 p)) by lia.
Qed.

Lemma key_length_spec p :
  bytes_ok p -> 2 <= len p ->
  u16 (key_length p) /\ p = be16 (key_length p) ++ dropZ 2 p.
Proof.
  intros Hok Hp. unfold key_length.
  assert (safe (GetUint 2 p 0) (fun v => u16 v /\ p = be16 v ++ dropZ 2 p)) as Hs.
  { apply safe_GetUint; [done|lia|lia|]. intros v Hv E. split; [done|].
    by rewrite dropZ_0 in E by lia. }
  rewrite GetUint_ok in Hs by lia. by rewrite dropZ_0 in Hs by lia.
Qed.

Lemma decodeSimpleRequest_complete op k junk :
  len k <= 65533 ->
  decodeSimpleRequest op (str16 k ++ junk) = Ok (set_Key k (newRequest op)).
Proof.
  intros Hk. pose proof (len_nonneg k). pose proof (len_nonneg junk).
  unfold decodeSimpleRequest, str16, uint16. cbv zeta.
  go_read1. go_read1. go_read1. rewrite Z.mod_small by lia.
  go_read. reflexivity.
Qed.

Lemma decodeSimpleRequest_cases op p :
  bytes_ok p -> 2 <= len p ->
  if key_length p <=? 65533
  then safe (decodeSimpleRequest op p)
         (fun r => exists k junk, p = str16 k ++ junk /\ len k <= 65533 /\
            r = set_Key k (newRequest op))
  else decodeSimpleRequest op p = Panic.
Proof.
  intros Hok Hp. pose proof (key_length_spec p Hok Hp) as [Hu Hsplit].
  unfold decodeSimpleRequest. rewrite (proj2 (Z.ltb_ge _ _)) by lia.
  rewrite <- bind_assoc, header_read, bind_ok by lia. unfold u16 in Hu.
  destruct (Z.leb_spec (key_length p) 65533).
  - unfold uint16. rewrite Z.mod_small by lia. go_safe. cbn [safe mret result_ret].
    exists s, (dropZ (2 + key_length p) p). split_and!; [|lia|done].
    unfold str16. rewrite <- app_assoc, <- H1, <- H2. exact Hsplit.
  - assert (E : uint16 (2 + key_length p) = key_length p - 65534).
    { unfold uint16. replace (2 + key_length p) with (key_length p - 65534 + 1 * 2 ^ 16) by lia.
      rewrite Z.mod_add, Z.mod_small; lia. }
    rewrite E. rewrite (proj2 (Z.ltb_ge (len p) _)) by lia. by rewrite slice_panic by lia.
Qed.

(** ** The batch parsers *)

(** One element of a batch, as the fields that were read. *)
Ltac read_element :=
  subst; unfold kv16, batch_wire, str16, blob32;
  repeat match goal with
  | H : dropZ ?a ?p = _ |- context [dropZ ?a ?p] => rewrite H; clear H
  end;
  rewrite <- ?app_assoc; reflexivity.

Section Batches.
Implicit Types p junk : bytes.

Lemma decodeMSetRequest_complete kvs junk :
  u16 (len kvs) -> Forall (fun kv => short kv.1 /\ long kv.2) kvs ->
  decodeMSetRequest ((be16 (len kvs) ++ cat kv16 kvs) ++ junk)
  = Ok (set_Values (map snd kvs) (set_Keys (map fst kvs) (newRequest OpMSet))).
Proof.
  intros Hn Hall. unfold decodeMSetRequest, u16 in *. cbv zeta.
  go_read1. go_read1. go_read1. rewrite to_nat_len.
  rewrite (for_n_run kvs (fun dn => (2 + len (cat kv16 dn), map fst dn, map snd dn))).
  - reflexivity.
  - intros dn [k v] rest ->. rewrite !Forall_app, Forall_cons in Hall.
    destruct Hall as (_ & [Hk Hv] & _). cbn [fst snd] in Hk, Hv.
    unfold short, long, u16, u32 in Hk, Hv.
    rewrite !map_app, !cat_app, !cat_cons, cat_nil.
    change (kv16 (k, v)) with ((be16 (len k) ++ k) ++ be32 (len v) ++ v).
    go_read. cbn [map fst snd]. do 3 f_equal. len_lia.
Qed.

Lemma decodeMGetRequest_complete op ks junk :
  u16 (len ks) -> Forall short ks ->
  decodeMGetRequest op ((be16 (len ks) ++ cat str16 ks) ++ junk)
  = Ok (set_Keys ks (newRequest op)).
Proof.
  intros Hn Hall. unfold decodeMGetRequest, u16 in *. cbv zeta.
  go_read1. go_read1. go_read1. rewrite to_nat_len.
  rewrite (for_n_run ks (fun dn => (2 + len (cat str16 dn), dn))).
  - reflexivity.
  - intros dn k rest ->. rewrite !Forall_app, Forall_cons in Hall.
    destruct Hall as (_ & Hk & _). unfold short, u16 in Hk.
    rewrite !cat_app, !cat_cons, cat_nil.
    change (str16 k) with (be16 (len k) ++ k).
    go_read. do 2 f_equal. len_lia.
Qed.

Lemma decodeSPublishBatchRequest_complete t ms junk :
  short t -> len ms <= MaxBatchSize ->
  Forall (fun m => u32 (bmPartition m) /\ short (bmKey m) /\ long (bmValue m)) ms ->
  decodeSPublishBatchRequest ((str16 t ++ be32 (len ms) ++ cat batch_wire ms) ++ junk)
  = Ok (set_BatchMessages ms (set_Topic t (newRequest OpSPublishBatch))).
Proof.
  intros Ht Hn Hall. unfold decodeSPublishBatchRequest, short, u16 in *. cbv zeta.
  change (str16 t) with (be16 (len t) ++ t). unfold MaxBatchSize in *.
  do 6 go_read1. go_read1. rewrite to_nat_len.
  set (st (dn : list BatchMessage) := (2 + len t + 4 + len (cat batch_wire dn), dn)).
  replace (0 + 2 + len t + 4, []) with (st [])
    by (unfold st; f_equal; rewrite cat_nil; len_lia).
  rewrite (for_n_run ms st); unfold st.
  - reflexivity.
  - intros dn [n k v] rest ->. rewrite !Forall_app, Forall_cons in Hall.
    destruct Hall as (_ & (Hp & Hk & Hv) & _). cbn [bmPartition bmKey bmValue] in Hp, Hk, Hv.
    unfold long, u16, u32 in *.
    rewrite !cat_app, !cat_cons, cat_nil.
    change (batch_wire (mkBatchMessage n k v))
      with (be32 n ++ (be16 (len k) ++ k) ++ be32 (len v) ++ v).
    go_read. do 2 f_equal. len_lia.
Qed.

(** What a batch loop has read: elements of the grammar, up to [pos]. *)
Definition Read {A} (enc : A -> bytes) (P : A -> Prop) p start (l : list A) pos : Prop :=
  start <= pos <= len p /\ Forall P l /\ dropZ start p = cat enc l ++ dropZ pos p.

Lemma Read_nil {A} (enc : A -> bytes) P p start :
  start <= len p -> Read enc P p start [] start.
Proof. intros. split_and!; [lia|lia|constructor|done]. Qed.

Lemma Read_snoc {A} (enc : A -> bytes) P p start l pos x pos' :
  Read enc P p start l pos -> P x -> pos <= pos' <= len p ->
  dropZ pos p = enc x ++ dropZ pos' p ->
  Read enc P p start (l ++ [x]) pos'.
Proof.
  intros (? & HP & E) Hx Hpos Ex. split_and!; [lia|lia|by apply Forall_app_2; [|constructor]|].
  by rewrite E, Ex, cat_app, cat_cons, cat_nil, app_nil_r, <- app_assoc.
Qed.

Lemma decodeMGetRequest_sound op p :
  bytes_ok p -> op ∈ [OpMGet; OpMDel] -> safe (decodeMGetRequest op p) (Parsed op p).
Proof.
  intros Hok Hop. unfold decodeMGetRequest. go_safe1.
  rewrite <- bind_assoc, header_read, bind_ok by lia.
  destruct (key_length_spec p Hok) as [Hu Hsplit]; [lia|].
  eapply safe_bind.
  - eapply (safe_for_n _ (fun l st => st.2 = l /\ Read str16 short p 2 l st.1)).
    + cbn [fst snd]. split; [done|]. apply Read_nil. lia.
    + intros dn [pos keys] i [Ek HR]. pose proof (proj1 HR). cbn [fst snd] in *. subst keys.
      go_safe. exists s. split; [done|]. cbn [fst].
      eapply Read_snoc; [exact HR|unfold short; by subst|unfold u16 in *; lia|].
      read_element.
  - intros [pos keys] (l & Hl & Ek & _ & Hall & E). cbn [fst snd] in *. subst keys.
    split; [reflexivity|]. exists (be16 (len l) ++ cat str16 l), (dropZ pos p).
    assert (Hn : len l = key_length p) by (unfold len, u16 in *; lia).
    split; [|by constructor; rewrite ?Hn].
    by rewrite Hn, <- app_assoc, <- E.
Qed.

Lemma decodeMSetRequest_sound p :
  bytes_ok p -> safe (decodeMSetRequest p) (Parsed OpMSet p).
Proof.
  intros Hok. unfold decodeMSetRequest. go_safe1.
  rewrite <- bind_assoc, header_read, bind_ok by lia.
  destruct (key_length_spec p Hok) as [Hu Hsplit]; [lia|].
  set (P := fun kv : bytes * bytes => short kv.1 /\ long kv.2).
  eapply safe_bind.
  - eapply (safe_for_n _ (fun l st =>
      (st.1.2 = map fst l /\ st.2 = map snd l) /\ Read kv16 P p 2 l st.1.1)).
    + cbn [fst snd]. split; [done|]. apply Read_nil. lia.
    + intros dn [[pos keys] values] i [[Ek Ev] HR]. pose proof (proj1 HR).
      cbn [fst snd] in *. go_safe. exists (s, s0). rewrite !map_app. cbn [fst snd map].
      split; [by rewrite Ek, Ev|].
      eapply Read_snoc; [exact HR|unfold P, short, long; by subst|unfold u16, u32 in *; lia|].
      read_element.
  - intros [[pos keys] values] (l & Hl & [Ek Ev] & _ & Hall & E). cbn [fst snd] in *.
    split; [reflexivity|]. exists (be16 (len l) ++ cat kv16 l), (dropZ pos p).
    assert (Hn : len l = key_length p) by (unfold len, u16 in *; lia).
    split; [|rewrite Ek, Ev; by constructor; rewrite ?Hn].
    by rewrite Hn, <- app_assoc, <- E.
Qed.

Lemma decodeSPublishBatchRequest_sound p :
  bytes_ok p -> safe (decodeSPublishBatchRequest p) (Parsed OpSPublishBatch p).
Proof.
  intros Hok. unfold decodeSPublishBatchRequest. go_safe.
  set (P := fun m => u32 (bmPartition m) /\ short (bmKey m) /\ long (bmValue m)).
  unfold u16, u32 in *.
  eapply safe_bind.
  - eapply (safe_for_n _ (fun l st =>
      st.2 = l /\ Read batch_wire P p (0 + 2 + v + 4) l st.1)).
    + cbn [fst snd]. split; [done|]. apply Read_nil. lia.
    + intros dn [pos msgs] i [Ek HR]. pose proof (proj1 HR). cbn [fst snd] in *. subst msgs.
      go_safe. eexists. split; [done|]. cbn [fst].
      unfold u16, u32 in *.
      eapply Read_snoc; [exact HR| |lia|read_element].
      unfold P, short, long, u16, u32. cbn [bmPartition bmKey bmValue]. lia.
  - intros [pos msgs] (l & Hl & Ek & _ & Hall & E). cbn [fst snd] in *. subst msgs.
    split; [reflexivity|].
    exists (str16 s ++ be32 (len l) ++ cat batch_wire l), (dropZ pos p).
    assert (Hn : len l = v0) by (unfold len; lia).
    split; [|constructor; unfold short, u16; [lia|lia|done]].
    subst v v0. chain p.
Qed.
End Batches.
