(* ===== verification/ProtocolCorrect.v ===== *)
(** [DecodeRequest] against the grammar: it accepts exactly the frames whose
    payload the grammar spells, and the inputs on which it panics; the calls of a
    client, their encodings and the requests they mean. *)
From stdpp Require Import base list numbers strings.
From Stdlib Require Import ZArith Lia.
From S2P Require Import Prelude GoBytes Fields Fmt Protocol ProtocolDecode ProtocolSpec ProtocolParse.

(** ** The payload switch *)

(** Case analysis on membership in a literal list of opcodes. *)
Ltac each_op H :=
  repeat (apply elem_of_cons in H as [->|H]);
  [.. | by apply elem_of_nil in H].

Lemma decodePayload_complete w r junk :
  Wire w r -> decodePayload (OpCode r) (w ++ junk) = Ok r.
Proof.
  intros H. destruct H; cbn [OpCode set_Key set_Value set_Keys set_Values set_Topic set_Partition
    set_Group set_Consumer set_Count set_RetentionMs set_BatchMessages set_Collection newRequest].
  - by apply decodeSetRequest_complete.
  - unfold simple_ops in H. each_op H; by apply decodeSimpleRequest_complete.
  - by apply decodeMSetRequest_complete.
  - each_op H; by apply decodeMGetRequest_complete.
  - by apply decodeQPushRequest_complete.
  - by apply decodeSPublishRequest_complete.
  - by apply decodeSConsumeRequest_complete.
  - by apply decodeSCommitRequest_complete.
  - by apply decodeSCreateTopicRequest_complete.
  - by apply decodeSSubscribeRequest_complete.
  - by apply decodeSUnsubscribeRequest_complete.
  - by apply decodeSPublishBatchRequest_complete.
  - each_op H.
    + by apply decodeDocInsertRequest_complete.
    + by apply decodeDocFindRequest_complete.
    + by apply decodeDocUpdateRequest_complete.
    + by apply decodeDocDeleteRequest_complete.
  - by apply decodeDocIndexRequest_complete.
Qed.

(** The key length fields on which the single-key parser's check wraps. *)
Definition key_overflow (op : byte) (p : bytes) : Prop :=
  op ∈ simple_ops /\ 2 <= len p /\ 65534 <= key_length p.

#[export] Instance key_overflow_dec op p : Decision (key_overflow op p).
Proof. apply _. Defined.

Lemma decodeSimpleRequest_outcome op p :
  bytes_ok p -> op ∈ simple_ops ->
  if decide (key_overflow op p) then decodeSimpleRequest op p = Panic
  else safe (decodeSimpleRequest op p) (Parsed op p).
Proof.
  intros Hok Hop. destruct (Z.ltb_spec (len p) 2) as [Hl|Hl].
  - rewrite decide_False by (intros (? & ? & ?); lia).
    unfold decodeSimpleRequest. by rewrite (proj2 (Z.ltb_lt _ _)) by lia.
  - pose proof (decodeSimpleRequest_cases op p Hok Hl) as Hc.
    destruct (Z.leb_spec (key_length p) 65533).
    + rewrite decide_False by (intros (? & ? & ?); lia).
      eapply safe_mono; [exact Hc|]. intros r (k & junk & Ep & Hk & ->).
      split; [done|]. exists (str16 k), junk. split; [done|by constructor].
    + by rewrite decide_True by (split_and!; [done|lia|lia]).
Qed.

Create HintDb parsers.
#[export] Hint Resolve decodeSetRequest_sound decodeMSetRequest_sound decodeMGetRequest_sound
  decodeQPushRequest_sound decodeSPublishRequest_sound decodeSConsumeRequest_sound
  decodeSCommitRequest_sound decodeSCreateTopicRequest_sound decodeSPublishBatchRequest_sound
  decodeSSubscribeRequest_sound decodeSUnsubscribeRequest_sound decodeDocInsertRequest_sound
  decodeDocFindRequest_sound decodeDocUpdateRequest_sound decodeDocDeleteRequest_sound
  decodeDocIndexRequest_sound : parsers.
#[export] Hint Extern 1 (_ ∈ _) => solve [repeat constructor] : parsers.

Lemma decodePayload_other op p :
  bytes_ok p -> op ∉ simple_ops -> safe (decodePayload op p) (Parsed op p).
Proof.
  intros Hok Hop. unfold simple_ops in Hop.
  rewrite !not_elem_of_cons in Hop. destruct_and! Hop.
  unfold decodePayload.
  repeat match goal with
  | |- context [op =? ?x] =>
      destruct (Z.eqb_spec op x) as [->|]; cbn [orb];
      [first [contradiction | solve [auto with parsers]] |]
  end.
  exact I.
Qed.

(** The outcome of the payload switch on any bytes. *)
Lemma decodePayload_outcome op p :
  bytes_ok p ->
  if decide (key_overflow op p) then decodePayload op p = Panic
  else safe (decodePayload op p) (Parsed op p).
Proof.
  intros Hok. destruct (decide (op ∈ simple_ops)) as [Hop|Hop].
  - pose proof (decodeSimpleRequest_outcome op p Hok Hop) as Hs.
    unfold simple_ops in Hop. each_op Hop; exact Hs.
  - rewrite decide_False by (by intros (? & _)). by apply decodePayload_other.
Qed.

(** ** The frame header *)

Definition payload_length (data : bytes) : Z := be_get (takeZ 4 (dropZ 1 data)).
Definition opcode (data : bytes) : byte := be_get (takeZ 1 data).

Lemma takeZ_ok n l : bytes_ok l -> bytes_ok (takeZ n l).
Proof. apply Forall_take. Qed.
Lemma dropZ_ok n l : bytes_ok l -> bytes_ok (dropZ n l).
Proof. apply Forall_drop. Qed.
#[export] Hint Resolve takeZ_ok dropZ_ok : parsers.

Lemma be_get_1 b : be_get [b] = b.
Proof. cbn [be_get]. rewrite len_nil, Z.pow_0_r. lia. Qed.

Lemma opcode_cons b data : opcode (b :: data) = b.
Proof. apply be_get_1. Qed.

Lemma index_0 data : 1 <= len data -> index data 0 = Ok (opcode data).
Proof.
  destruct data as [|b data]; [done|]. intros _. by rewrite opcode_cons.
Qed.

Lemma length_field data :
  5 <= len data ->
  (hdr ← slice data 1 5; Uint32 hdr 0) = Ok (payload_length data).
Proof.
  intros Hl. rewrite slice_ok, bind_ok by lia. change (5 - 1) with 4.
  assert (H4 : len (takeZ 4 (dropZ 1 data)) = 4)
    by (rewrite len_takeZ; rewrite ?len_dropZ; lia).
  unfold Uint32, payload_length. rewrite GetUint_ok, dropZ_0 by lia.
  by rewrite (takeZ_all _ (takeZ 4 (dropZ 1 data))) by lia.
Qed.

Lemma header_split data :
  bytes_ok data -> 5 <= len data ->
  u32 (payload_length data) /\
  data = [opcode data] ++ be32 (payload_length data) ++ dropZ 5 data.
Proof.
  intros Hok Hl. destruct data as [|b data]; [by cbn in Hl|].
  rewrite len_cons in Hl. inversion_clear Hok as [|? ? _ Hdata].
  assert (safe (GetUint 4 data 0)
    (fun v => u32 v /\ data = be32 v ++ dropZ 4 data)) as Hs.
  { apply safe_GetUint; [done|lia|lia|]. intros v Hv E. split; [done|].
    by rewrite dropZ_0 in E by lia. }
  rewrite GetUint_ok, dropZ_0 in Hs by lia. destruct Hs as [Hu E].
  split; [exact Hu|]. rewrite opcode_cons. cbn [app]. f_equal. exact E.
Qed.

(** [DecodeRequest] on any bytes: the wrapping of [5+payloadLen] panics. *)
Lemma DecodeRequest_cases data :
  u32 (payload_length data) -> 5 <= len data ->
  DecodeRequest data =
    if payload_length data <? 2 ^ 32 - 5 then
      if len data <? 5 + payload_length data then Err (errorf "incomplete request")
      else decodePayload (opcode data) (takeZ (payload_length data) (dropZ 5 data))
    else Panic.
Proof.
  intros Hu Hl. unfold u32 in Hu.
  unfold DecodeRequest. rewrite (proj2 (Z.ltb_ge _ _)), index_0, bind_ok by lia.
  rewrite <- bind_assoc, length_field, bind_ok by lia. unfold uint32.
  destruct (Z.ltb_spec (payload_length data) (2 ^ 32 - 5)).
  - rewrite Z.mod_small by lia. destruct (Z.ltb_spec (len data) (5 + payload_length data)); [done|].
    rewrite slice_ok, bind_ok by lia. by rewrite Z.add_simpl_l.
  - set (n := payload_length data) in *.
    replace (5 + n) with ((n - (2 ^ 32 - 5)) + 1 * 2 ^ 32) by lia.
    rewrite Z.mod_add, Z.mod_small by lia. rewrite (proj2 (Z.ltb_ge _ _)) by lia.
    by rewrite slice_panic by lia.
Qed.

Lemma frame_header op p rest :
  len p < 2 ^ 32 ->
  let data := frame op p ++ rest in
  5 <= len data /\ payload_length data = len p /\ opcode data = op /\
  takeZ (len p) (dropZ 5 data) = p /\ len data = 5 + len p + len rest.
Proof.
  intros Hp data. pose proof (len_nonneg p). pose proof (len_nonneg rest).
  assert (E : data = [op] ++ be32 (len p) ++ p ++ rest)
    by (unfold data, frame; by rewrite <- !app_assoc).
  rewrite E. split_and!.
  - len_lia.
  - unfold payload_length. rewrite dropZ_app_eq by done.
    rewrite takeZ_app_eq by len_lia. unfold be32. rewrite be_get_put.
    by rewrite Z.mod_small.
  - apply opcode_cons.
  - rewrite app_assoc. rewrite dropZ_app_eq by len_lia. by rewrite takeZ_app_eq.
  - len_lia.
Qed.

(** A whole frame reaches the payload switch. *)
Lemma DecodeRequest_frame op p rest :
  len p < 2 ^ 32 - 5 -> DecodeRequest (frame op p ++ rest) = decodePayload op p.
Proof.
  intros Hlen. destruct (frame_header op p rest) as (H5 & Hpl & Hop & Hp & Hl); [lia|].
  pose proof (len_nonneg p). pose proof (len_nonneg rest).
  rewrite DecodeRequest_cases by (rewrite ?Hpl; unfold u32; lia). rewrite Hpl, Hop, Hp, Hl.
  by rewrite (proj2 (Z.ltb_lt _ _)), (proj2 (Z.ltb_ge _ _)) by lia.
Qed.

(** ** The properties *)

(** C1: [DecodeRequest] accepts exactly the frames of the wire grammar, and
    returns the request they spell: bytes decode to [r] if and only if they are
    a frame whose payload begins with a spelling of [r] (trailing bytes, in the
    payload and after the frame, are ignored). *)
Theorem DecodeRequest_accepts data r :
  bytes_ok data ->
  DecodeRequest data = Ok r <->
  exists w junk rest, Wire w r /\ len (w ++ junk) < 2 ^ 32 - 5 /\
    data = frame (OpCode r) (w ++ junk) ++ rest.
Proof.
  intros Hok. split.
  - intros HD. destruct (Z.ltb_spec (len data) 5) as [Hl|Hl].
    { unfold DecodeRequest in HD. by rewrite (proj2 (Z.ltb_lt _ _)) in HD by lia. }
    destruct (header_split data Hok Hl) as [Hu Hsplit].
    rewrite DecodeRequest_cases in HD by done. unfold u32 in Hu.
    destruct (Z.ltb_spec (payload_length data) (2 ^ 32 - 5)); [|done].
    destruct (Z.ltb_spec (len data) (5 + payload_length data)); [done|].
    set (p := takeZ (payload_length data) (dropZ 5 data)) in *.
    assert (Hp : len p = payload_length data)
      by (unfold p; rewrite len_takeZ; rewrite ?len_dropZ; lia).
    assert (Hpok : bytes_ok p) by (unfold p; auto with parsers).
    pose proof (decodePayload_outcome (opcode data) p Hpok) as Ho.
    destruct (decide _); [by rewrite Ho in HD|]. rewrite HD in Ho.
    destruct Ho as (Hop & w & junk & Ew & HW).
    exists w, junk, (dropZ (payload_length data) (dropZ 5 data)).
    rewrite Hop, <- Ew, Hp. split_and!; [done|lia|].
    unfold frame. rewrite Hp, <- !app_assoc. unfold p. by rewrite takeZ_dropZ.
  - intros (w & junk & rest & HW & Hlen & ->).
    rewrite DecodeRequest_frame by lia. by apply decodePayload_complete.
Qed.

Lemma DecodeRequest_accepts_witness :
  let data := [OpGet; 0; 0; 0; 4; 0; 1; 107; 9] in
  let r := set_Key [107] (newRequest OpGet) in
  DecodeRequest data = Ok r <->
  exists w junk rest, Wire w r /\ len (w ++ junk) < 2 ^ 32 - 5 /\
    data = frame (OpCode r) (w ++ junk) ++ rest.
Proof. intros data r. apply DecodeRequest_accepts. repeat constructor; by vm_compute. Defined.

(** C36: the parser panics exactly on two families of inputs, both by a
    fixed-width addition that wraps before the bounds check: a payload length of
    2^32-5 or more, or a complete single-key request whose key length field is
    65534 or 65535. *)
Theorem DecodeRequest_panics data :
  bytes_ok data ->
  DecodeRequest data = Panic <->
  5 <= len data /\
  (2 ^ 32 - 5 <= payload_length data \/
   (5 + payload_length data <= len data /\
    key_overflow (opcode data) (takeZ (payload_length data) (dropZ 5 data)))).
Proof.
  intros Hok. destruct (Z.ltb_spec (len data) 5) as [Hl|Hl].
  - split; [|lia]. unfold DecodeRequest. by rewrite (proj2 (Z.ltb_lt _ _)) by lia.
  - destruct (header_split data Hok Hl) as [Hu _].
    rewrite DecodeRequest_cases by done. unfold u32 in Hu.
    destruct (Z.ltb_spec (payload_length data) (2 ^ 32 - 5));
      [|split; [intros _; split; [done|left; lia]|done]].
    destruct (Z.ltb_spec (len data) (5 + payload_length data)).
    { split; [done|]. intros [_ [?|[? _]]]; lia. }
    pose proof (decodePayload_outcome (opcode data)
      (takeZ (payload_length data) (dropZ 5 data)) ltac:(auto with parsers)) as Ho.
    destruct (decide _) as [Hk|Hk].
    + rewrite Ho. split; [intros _; split; [done|right; split; [lia|done]]|done].
    + apply safe_no_panic in Ho. split; [done|]. intros [_ [?|[_ ?]]]; [lia|done].
Qed.

Lemma DecodeRequest_panics_witness :
  let data := [OpGet; 0; 0; 0; 2; 255; 255] in
  DecodeRequest data = Panic <->
  5 <= len data /\
  (2 ^ 32 - 5 <= payload_length data \/
   (5 + payload_length data <= len data /\
    key_overflow (opcode data) (takeZ (payload_length data) (dropZ 5 data)))).
Proof. intros data. apply DecodeRequest_panics. repeat constructor; by vm_compute. Defined.

(** The requests a client of the Go package sends, the frame each is encoded
    to, and the request the server is meant to see. *)
Inductive ClientCall : Type :=
| CallSet (key value : bytes)
| CallGet (key : bytes)
| CallDelete (key : bytes)
| CallExists (key : bytes)
| CallIncr (key : bytes)
| CallDecr (key : bytes)
| CallMSet (kvs : list (bytes * bytes))
| CallMGet (keys : list bytes)
| CallMDelete (keys : list bytes)
| CallQPush (queue value : bytes)
| CallQPop (queue : bytes)
| CallQPeek (queue : bytes)
| CallQLen (queue : bytes)
| CallQClear (queue : bytes)
| CallSPublish (topic : bytes) (partition : Z) (key value : bytes)
| CallSPublishBatch (topic : bytes) (messages : list BatchMessage)
| CallSConsume (topic group consumer : bytes) (count : Z)
| CallSCommit (topic group : bytes) (partition offset : Z)
| CallSCreateTopic (name : bytes) (partitions retentionMs : Z)
| CallSSubscribe (topic group consumer : bytes)
| CallSUnsubscribe (topic group consumer : bytes)
| CallDocInsert (collection doc : bytes)
| CallDocFind (collection query : bytes)
| CallDocUpdate (collection opts : bytes)
| CallDocDelete (collection opts : bytes)
| CallDocIndex (collection field : bytes).

Definition encode_call (c : ClientCall) : result bytes :=
  match c with
  | CallSet k v => EncodeSetRequest k v
  | CallGet k => EncodeGetRequest k
  | CallDelete k => EncodeDeleteRequest k
  | CallExists k => EncodeExistsRequest k
  | CallIncr k => EncodeIncrRequest k
  | CallDecr k => EncodeDecrRequest k
  | CallMSet kvs => EncodeMSetRequest (map fst kvs) (map snd kvs)
  | CallMGet ks => EncodeMGetRequest ks
  | CallMDelete ks => EncodeMDeleteRequest ks
  | CallQPush q v => EncodeQPushRequest q v
  | CallQPop q => EncodeQPopRequest q
  | CallQPeek q => EncodeQPeekRequest q
  | CallQLen q => EncodeQLenRequest q
  | CallQClear q => EncodeQClearRequest q
  | CallSPublish t p k v => EncodeSPublishRequest t p k v
  | CallSPublishBatch t ms => EncodeSPublishBatchRequest t ms
  | CallSConsume t g c n => EncodeSConsumeRequest t g c n
  | CallSCommit t g p o => EncodeSCommitRequest t g p o
  | CallSCreateTopic t p ms => EncodeSCreateTopicRequest t p ms
  | CallSSubscribe t g c => EncodeSSubscribeRequest t g c
  | CallSUnsubscribe t g c => EncodeSUnsubscribeRequest t g c
  | CallDocInsert c v => EncodeDocInsertRequest c v
  | CallDocFind c v => EncodeDocFindRequest c v
  | CallDocUpdate c v => EncodeDocUpdateRequest c v
  | CallDocDelete c v => EncodeDocDeleteRequest c v
  | CallDocIndex c f => EncodeDocIndexRequest c f
  end.

Definition key_request (op : byte) (k : bytes) : Request := set_Key k (newRequest op).
Definition doc_request (op : byte) (c v : bytes) : Request :=
  set_Value v (set_Collection c (newRequest op)).
Definition member_request (op : byte) (t g c : bytes) : Request :=
  set_Consumer c (set_Group g (set_Topic t (newRequest op))).

Definition intended (c : ClientCall) : Request :=
  match c with
  | CallSet k v => set_Value v (key_request OpSet k)
  | CallGet k => key_request OpGet k
  | CallDelete k => key_request OpDel k
  | CallExists k => key_request OpExists k
  | CallIncr k => key_request OpIncr k
  | CallDecr k => key_request OpDecr k
  | CallMSet kvs => set_Values (map snd kvs) (set_Keys (map fst kvs) (newRequest OpMSet))
  | CallMGet ks => set_Keys ks (newRequest OpMGet)
  | CallMDelete ks => set_Keys ks (newRequest OpMDel)
  | CallQPush q v => set_Value v (key_request OpQPush q)
  | CallQPop q => key_request OpQPop q
  | CallQPeek q => key_request OpQPeek q
  | CallQLen q => key_request OpQLen q
  | CallQClear q => key_request OpQClear q
  | CallSPublish t p k v =>
      set_Value v (set_Key k (set_Partition (uint32 p) (set_Topic t (newRequest OpSPublish))))
  | CallSPublishBatch t ms => set_BatchMessages ms (set_Topic t (newRequest OpSPublishBatch))
  | CallSConsume t g c n => set_Count (uint32 n) (member_request OpSConsume t g c)
  | CallSCommit t g p o =>
      set_RetentionMs (int64 o)
        (set_Partition (uint32 p) (set_Group g (set_Topic t (newRequest OpSCommit))))
  | CallSCreateTopic t p ms =>
      set_RetentionMs ms (set_Partition (uint32 p) (set_Topic t (newRequest OpSCreateTopic)))
  | CallSSubscribe t g c => member_request OpSSubscribe t g c
  | CallSUnsubscribe t g c => member_request OpSUnsubscribe t g c
  | CallDocInsert c v => doc_request OpDocInsert c v
  | CallDocFind c v => doc_request OpDocFind c v
  | CallDocUpdate c v => doc_request OpDocUpdate c v
  | CallDocDelete c v => doc_request OpDocDelete c v
  | CallDocIndex c f => set_Key f (set_Collection c (newRequest OpDocIndex))
  end.

(** What must hold of a call's arguments: names fit their two-byte length
    (a single key also fits the wrapping check), values and the whole payload
    their four-byte length.  No batch publish fits: its encoder writes no payload
    length at all. *)
Definition fits (c : ClientCall) : Prop :=
  match c with
  | CallGet k | CallDelete k | CallExists k | CallIncr k | CallDecr k
  | CallQPop k | CallQPeek k | CallQLen k | CallQClear k => len k <= 65533
  | CallMSet kvs => u16 (len kvs) /\ Forall (fun kv => short kv.1 /\ long kv.2) kvs /\
      2 + len (cat kv16 kvs) < 2 ^ 32 - 5
  | CallMGet ks | CallMDelete ks => u16 (len ks) /\ Forall short ks /\
      2 + len (cat str16 ks) < 2 ^ 32 - 5
  | CallSet k v | CallQPush k v | CallDocInsert k v | CallDocFind k v
  | CallDocUpdate k v | CallDocDelete k v => short k /\ len v < 2 ^ 31
  | CallSPublish t _ k v => short t /\ short k /\ len v < 2 ^ 31
  | CallSPublishBatch _ _ => False
  | CallSConsume t g c _ | CallSSubscribe t g c | CallSUnsubscribe t g c =>
      short t /\ short g /\ short c
  | CallSCommit t g _ _ => short t /\ short g
  | CallSCreateTopic t _ ms => short t /\ i64 ms
  | CallDocIndex c f => short c /\ short f
  end.

(** The spelling of the intended request: the encoder's frame lemma gives the
    payload, the grammar its rule. *)
Ltac in_wire := constructor; unfold short, long, u16, u32; first [done | len_lia | by repeat constructor].
Ltac call lem :=
  eexists; split_and!; [ | | rewrite lem; reflexivity]; [ | len_lia].

Lemma zip_pairs (kvs : list (bytes * bytes)) : zip (map fst kvs) (map snd kvs) = kvs.
Proof. induction kvs as [|[k v] kvs IH]; cbn; [done|]. f_equal. exact IH. Qed.

Lemma encode_call_wire c :
  fits c -> exists w, Wire w (intended c) /\ len w < 2 ^ 32 - 5 /\
    encode_call c = Ok (frame (OpCode (intended c)) w).
Proof.
  destruct c; cbn [fits intended encode_call]; unfold EncodeDeleteRequest, EncodeExistsRequest,
    EncodeIncrRequest, EncodeDecrRequest, EncodeQPopRequest, EncodeQPeekRequest, EncodeQLenRequest,
    EncodeQClearRequest, short, u16, key_request, doc_request,
    member_request; intros Hf; destruct_and? Hf.
  - call EncodeSetRequest_frame. in_wire.
  - call EncodeGetRequest_frame. in_wire.
  - call encodeSimpleRequest_frame. in_wire.
  - call encodeSimpleRequest_frame. in_wire.
  - call encodeSimpleRequest_frame. in_wire.
  - call encodeSimpleRequest_frame. in_wire.
  - eexists. rewrite EncodeMSetRequest_frame by (unfold len; by rewrite !length_map).
    rewrite zip_pairs. replace (len (map fst kvs)) with (len kvs) by (unfold len; by rewrite length_map).
    split_and!; [by constructor|len_lia|reflexivity].
  - call EncodeMGetRequest_frame. in_wire.
  - call EncodeMDeleteRequest_frame. in_wire.
  - call EncodeQPushRequest_frame. in_wire.
  - call encodeSimpleRequest_frame. in_wire.
  - call encodeSimpleRequest_frame. in_wire.
  - call encodeSimpleRequest_frame. in_wire.
  - call encodeSimpleRequest_frame. in_wire.
  - call EncodeSPublishRequest_frame. rewrite <- (be32_uint32 partition).
    constructor; unfold short, long, u16, u32; [lia|apply uint32_range|lia|len_lia].
  - done.
  - call EncodeSConsumeRequest_frame. rewrite <- (be32_uint32 count).
    constructor; unfold short, u16; [lia|lia|lia|apply uint32_range].
  - call EncodeSCommitRequest_frame.
    rewrite <- (be32_uint32 partition), <- (be64_int64 offset).
    constructor; unfold short, u16; [lia|lia|apply uint32_range|apply int64_i64].
  - call EncodeSCreateTopicRequest_frame. rewrite <- (be32_uint32 partitions).
    constructor; unfold short, u16; [lia|apply uint32_range|done].
  - call EncodeSSubscribeRequest_frame. in_wire.
  - call EncodeSUnsubscribeRequest_frame. in_wire.
  - call EncodeDocInsertRequest_frame. in_wire.
  - call EncodeDocFindRequest_frame. in_wire.
  - call EncodeDocUpdateRequest_frame. in_wire.
  - call EncodeDocDeleteRequest_frame. in_wire.
  - call EncodeDocIndexRequest_frame. in_wire.
Qed.
