(* ===== verification/ProtocolTrip.v ===== *)
(** Round trips of the protocol: what a client encodes is what the server
    decodes, what the server answers is what the client decodes, and the
    requests for which this fails. *)
From stdpp Require Import base list numbers strings.
From Stdlib Require Import ZArith Lia.
From S2P Require Import Prelude GoBytes Fields Fmt Protocol ProtocolDecode ProtocolSpec ProtocolParse ProtocolCorrect.

(** ** Requests *)

(** The four bytes where the payload length belongs hold the topic's length
    and the topic's first two bytes. *)
Lemma batch_payload_length t rest :
  bytes_ok t -> bytes_ok rest -> 0 < len t < 65536 -> 2 <= len (t ++ rest) ->
  let data := [OpSPublishBatch] ++ str16 t ++ rest in
  len t * 65536 <= payload_length data < (len t + 1) * 65536.
Proof.
  intros Ht Hr Hl H2 data. unfold payload_length, data.
  rewrite dropZ_app_eq by done. unfold str16. rewrite <- app_assoc.
  rewrite takeZ_app by len_lia. rewrite len_be16. change (4 - 2) with 2.
  set (w := takeZ 2 (t ++ rest)).
  assert (Hw : bytes_ok w) by (apply takeZ_ok, Forall_app; done).
  assert (Hwl : len w = 2) by (apply len_takeZ; lia).
  pose proof (be_get_range w Hw) as Hg. rewrite Hwl in Hg.
  assert (E : be_get (be16 (len t) ++ w) = len t * 65536 + be_get w); [|lia].
  cbn [be16 be_put app be_get]. rewrite !len_cons, Hwl.
  pose proof (Z.div_mod (len t) 256 ltac:(lia)).
  assert (len t / 256 < 256) by (apply Z.div_lt_upper_bound; lia).
  assert (0 <= len t / 256) by (apply Z.div_pos; lia).
  change (Z.of_nat 1) with 1. change (Z.of_nat 0) with 0.
  rewrite Z.pow_1_r, Z.pow_0_r, Z.div_1_r, (Z.mod_small (len t / 256)) by lia.
  change (256 ^ (1 + 2)) with (256 * 65536). change (256 ^ 2) with 65536. lia.
Qed.

Lemma cat_ok {A} (enc : A -> bytes) (l : list A) :
  (forall x, x ∈ l -> bytes_ok (enc x)) -> bytes_ok (cat enc l).
Proof.
  intros H. unfold cat. apply Forall_concat, Forall_map, Forall_forall. exact H.
Qed.

(** A batch publish of bytes to a named topic. *)
Definition batch_ok (t : bytes) (ms : list BatchMessage) : Prop :=
  bytes_ok t /\ short t /\ t <> [] /\ Forall (fun m => bytes_ok (bmKey m) /\ bytes_ok (bmValue m)) ms.

(** The encoder writes no payload length, so the parser reads the topic's length
    and first bytes as a length of at least 64 KiB. *)
Lemma batch_undecodable t ms rest :
  batch_ok t ms -> bytes_ok rest -> exists data, EncodeSPublishBatchRequest t ms = Ok data /\
    (len (data ++ rest) < 5 + 2 ^ 16 -> DecodeRequest (data ++ rest) = Err (errorf "incomplete request")).
Proof.
  intros (Ht & Hs & Hne & Hms) Hrest. rewrite EncodeSPublishBatchRequest_bytes. eexists. split; [done|].
  rewrite <- !app_assoc. intros Hl. set (tl := be32 (len ms) ++ cat batch_wire ms ++ rest) in *.
  assert (Hr : bytes_ok tl).
  { apply Forall_app; split; [apply be_put_ok|]. apply Forall_app; split; [|done]. apply cat_ok. intros m Hm.
    rewrite Forall_forall in Hms. destruct (Hms m Hm).
    repeat (apply Forall_app; split); try apply be_put_ok; done. }
  assert (Hr4 : 4 <= len tl) by (unfold tl; len_lia).
  assert (Hpos : 0 < len t) by (destruct t; [done|len_lia]).
  unfold short, u16 in Hs.
  assert (Hb : len t < 65535) by len_lia.
  pose proof (batch_payload_length t tl Ht Hr ltac:(lia) ltac:(len_lia)) as Hp.
  cbv zeta in Hp. rewrite DecodeRequest_cases.
  - rewrite (proj2 (Z.ltb_lt _ (2 ^ 32 - 5))) by lia.
    rewrite (proj2 (Z.ltb_lt (len _) _)); [done|]. lia.
  - unfold u32. lia.
  - len_lia.
Qed.

(** C2: of the client's 26 requests, every one but the batch publish is encoded
    without failure when its fields fit their length fields, and [DecodeRequest]
    returns the intended request, whatever follows the frame in the buffer.  A
    batch publish to a named topic is encoded without failure too, but
    [DecodeRequest] refuses it as incomplete in every buffer of less than 64 KiB
    (a server reads 32 KiB at a time): its encoder writes no payload length. *)
Theorem request_roundtrip c rest :
  match c with
  | CallSPublishBatch t ms => batch_ok t ms -> bytes_ok rest -> exists data, encode_call c = Ok data /\
      (len (data ++ rest) < 5 + 2 ^ 16 -> DecodeRequest (data ++ rest) = Err (errorf "incomplete request"))
  | _ => fits c -> (data ← encode_call c; DecodeRequest (data ++ rest)) = Ok (intended c)
  end.
Proof.
  assert (H : fits c -> (data ← encode_call c; DecodeRequest (data ++ rest)) = Ok (intended c)).
  { intros Hf. destruct (encode_call_wire c Hf) as (w & HW & Hlen & ->).
    rewrite bind_ok, DecodeRequest_frame by done.
    rewrite <- (app_nil_r w). by apply decodePayload_complete. }
  destruct c; try exact H. apply batch_undecodable.
Qed.

Lemma request_roundtrip_witness :
  (fits (CallSet (str "k") (str "v")) /\
   (data ← encode_call (CallSet (str "k") (str "v")); DecodeRequest (data ++ [7]))
   = Ok (intended (CallSet (str "k") (str "v")))) /\
  exists data, encode_call (CallSPublishBatch (str "t") [mkBatchMessage 0 (str "k") (str "v")]) = Ok data /\
    (len (data ++ [7]) < 5 + 2 ^ 16 -> DecodeRequest (data ++ [7]) = Err (errorf "incomplete request")).
Proof.
  split.
  - split; [by vm_compute|]. apply (request_roundtrip (CallSet (str "k") (str "v"))).
    by vm_compute.
  - apply (request_roundtrip (CallSPublishBatch (str "t") [mkBatchMessage 0 (str "k") (str "v")]) [7]).
    + split_and!; [..|done|]; repeat constructor; by vm_compute.
    + repeat constructor; by vm_compute.
Defined.

(** The key of a request whose payload is a single key. *)
Definition single_key (c : ClientCall) : option bytes :=
  match c with
  | CallGet k | CallDelete k | CallExists k | CallIncr k | CallDecr k
  | CallQPop k | CallQPeek k | CallQLen k | CallQClear k => Some k
  | _ => None
  end.

Lemma single_key_frame c k :
  single_key c = Some k ->
  encode_call c = Ok (frame (OpCode (intended c)) (str16 k)) /\
  OpCode (intended c) ∈ simple_ops.
Proof.
  destruct c; cbn [single_key]; intros [= ->];
    (split; [|cbn; unfold simple_ops; by repeat constructor]);
    first [apply EncodeGetRequest_frame | apply encodeSimpleRequest_frame].
Qed.

(** Keys of 65534 and 65535 bytes are within [MaxKeyLen], but a
    single-key request for one of them (GET, DEL, EXISTS, INCR, DECR, QPOP,
    QPEEK, QLEN, QCLEAR) panics the parser of the server. *)
Theorem long_key_panics c k rest :
  single_key c = Some k -> bytes_ok k -> MaxKeyLen - 1 <= len k <= MaxKeyLen ->
  (data ← encode_call c; DecodeRequest (data ++ rest)) = Panic.
Proof.
  unfold MaxKeyLen. intros Hc Hok Hl. destruct (single_key_frame c k Hc) as [-> Hop].
  rewrite bind_ok, DecodeRequest_frame by len_lia.
  assert (Hp : bytes_ok (str16 k)) by (apply Forall_app; split; [apply be_put_ok|done]).
  assert (Hkl : key_length (str16 k) = len k).
  { unfold key_length, str16. rewrite takeZ_app_eq by len_lia.
    unfold be16. rewrite be_get_put. apply Z.mod_small. lia. }
  pose proof (decodePayload_outcome (OpCode (intended c)) (str16 k) Hp) as Ho.
  rewrite decide_True in Ho; [exact Ho|].
  split_and!; [done|len_lia|lia].
Qed.

Lemma long_key_panics_witness :
  let k := replicate (Z.to_nat 65535) 97 in
  (data ← encode_call (CallGet k); DecodeRequest (data ++ [])) = Panic.
Proof.
  intros k. apply (long_key_panics (CallGet k) k); [done| |].
  - apply Forall_replicate. done.
  - unfold len, k. rewrite length_replicate. unfold MaxKeyLen. lia.
Defined.

(** ** Responses *)

(** The answers the server encodes, and what the client is meant to read:
    an empty value cannot be told from a plain OK. *)
Inductive Reply : Type :=
| ReplyOK
| ReplyValue (value : bytes)
| ReplyMulti (values : list bytes)
| ReplyError (e : error).

Definition encode_reply (r : Reply) : result bytes :=
  match r with
  | ReplyOK => EncodeOKResponse
  | ReplyValue v => EncodeValueResponse v
  | ReplyMulti vs => EncodeMultiValueResponse vs
  | ReplyError e => EncodeErrorResponse e
  end.

Definition reply_response (r : Reply) : Response :=
  match r with
  | ReplyOK => mkResponse StatusOK [] [] []
  | ReplyValue v => mkResponse StatusOK v [] []
  | ReplyMulti vs => mkResponse StatusMultiValue [] vs []
  | ReplyError e => mkResponse StatusError [] [] (error_text e)
  end.

Definition reply_payload (r : Reply) : bytes :=
  match r with
  | ReplyOK => []
  | ReplyValue v => v
  | ReplyMulti vs => be16 (len vs) ++ cat blob32 vs
  | ReplyError e => error_text e
  end.

Definition reply_fits (r : Reply) : Prop :=
  len (reply_payload r) < 2 ^ 32 - 5 /\
  match r with ReplyMulti vs => u16 (len vs) /\ Forall long vs | _ => True end.

Lemma decodeMultiValueResponse_complete vs :
  u16 (len vs) -> Forall long vs ->
  decodeMultiValueResponse (be16 (len vs) ++ cat blob32 vs)
  = Ok (mkResponse StatusMultiValue [] vs []).
Proof.
  intros Hn Hall. unfold decodeMultiValueResponse, u16 in *. cbv zeta.
  rewrite <- (app_nil_r (be16 (len vs) ++ cat blob32 vs)).
  go_read1. go_read1. go_read1. rewrite to_nat_len.
  rewrite (for_n_run vs (fun dn => (2 + len (cat blob32 dn), dn))).
  - reflexivity.
  - intros dn v rest ->. rewrite !Forall_app, Forall_cons in Hall.
    destruct Hall as (_ & Hv & _). unfold long, u32 in Hv.
    rewrite !cat_app, !cat_cons, cat_nil.
    change (blob32 v) with (be32 (len v) ++ v).
    go_read. do 2 f_equal. len_lia.
Qed.

(** The multi-value parser checks every bound. *)
Lemma decodeMultiValueResponse_safe p :
  bytes_ok p -> safe (decodeMultiValueResponse p) (fun _ => True).
Proof.
  intros Hok. unfold decodeMultiValueResponse. go_safe1.
  rewrite <- bind_assoc, header_read, bind_ok by lia.
  eapply safe_bind.
  - eapply (safe_for_n _ (fun l st => st.2 = l /\ Read blob32 (fun _ => True) p 2 l st.1)).
    + cbn [fst snd]. split; [done|]. apply Read_nil. lia.
    + intros dn [pos values] i [Ek HR]. pose proof (proj1 HR). cbn [fst snd] in *. subst values.
      go_safe. exists s. split; [done|]. cbn [fst].
      eapply Read_snoc; [exact HR|done|unfold u32 in *; lia|].
      read_element.
  - by intros [pos values] _.
Qed.

(** [DecodeResponse] on a whole header. *)
Definition response_of (status : byte) (payload : bytes) : result Response :=
  if status =? StatusOK then
    mret (if 0 <? len payload then mkResponse status payload [] []
          else mkResponse status [] [] [])
  else if status =? StatusError then mret (mkResponse status [] [] payload)
  else if status =? StatusMultiValue then decodeMultiValueResponse payload
  else if status =? StatusNotFound then mret (mkResponse status [] [] [])
  else Err (Errorf (str "unknown status: " ++ fmt_d status)).

Lemma response_of_safe status p :
  bytes_ok p -> safe (response_of status p) (fun _ => True).
Proof.
  intros Hok. unfold response_of.
  destruct (status =? StatusOK); [done|]. destruct (status =? StatusError); [done|].
  destruct (status =? StatusMultiValue); [by apply decodeMultiValueResponse_safe|].
  by destruct (status =? StatusNotFound).
Qed.

Lemma DecodeResponse_cases data :
  u32 (payload_length data) -> 5 <= len data ->
  DecodeResponse data =
    if payload_length data <? 2 ^ 32 - 5 then
      if len data <? 5 + payload_length data then Err (errorf "incomplete response")
      else response_of (opcode data) (takeZ (payload_length data) (dropZ 5 data))
    else Panic.
Proof.
  intros Hu Hl. unfold u32 in Hu.
  unfold DecodeResponse. rewrite (proj2 (Z.ltb_ge _ _)), index_0, bind_ok by lia.
  rewrite <- bind_assoc, length_field, bind_ok by lia. unfold uint32.
  destruct (Z.ltb_spec (payload_length data) (2 ^ 32 - 5)).
  - rewrite Z.mod_small by lia. destruct (Z.ltb_spec (len data) (5 + payload_length data)); [done|].
    rewrite slice_ok, bind_ok by lia. by rewrite Z.add_simpl_l.
  - set (n := payload_length data) in *.
    replace (5 + n) with ((n - (2 ^ 32 - 5)) + 1 * 2 ^ 32) by lia.
    rewrite Z.mod_add, Z.mod_small by lia. rewrite (proj2 (Z.ltb_ge _ _)) by lia.
    by rewrite slice_panic by lia.
Qed.

Lemma DecodeResponse_frame status p rest :
  len p < 2 ^ 32 - 5 -> DecodeResponse (frame status p ++ rest) = response_of status p.
Proof.
  intros Hlen. destruct (frame_header status p rest) as (H5 & Hpl & Hop & Hp & Hl); [lia|].
  pose proof (len_nonneg p). pose proof (len_nonneg rest).
  rewrite DecodeResponse_cases by (rewrite ?Hpl; unfold u32; lia). rewrite Hpl, Hop, Hp, Hl.
  by rewrite (proj2 (Z.ltb_lt _ _)), (proj2 (Z.ltb_ge _ _)) by lia.
Qed.

Lemma encode_reply_frame r :
  encode_reply r = Ok (frame (Status (reply_response r)) (reply_payload r)).
Proof.
  destruct r; [apply EncodeOKResponse_frame|apply EncodeValueResponse_frame
    |apply EncodeMultiValueResponse_frame|apply EncodeErrorResponse_frame].
Qed.

Lemma decode_reply r rest :
  reply_fits r ->
  DecodeResponse (frame (Status (reply_response r)) (reply_payload r) ++ rest)
  = Ok (reply_response r).
Proof.
  intros [Hlen Hr]. rewrite DecodeResponse_frame by done.
  destruct r as [|v|vs|e]; cbn [reply_response reply_payload Status]; try reflexivity.
  - destruct v; reflexivity.
  - destruct Hr. by apply decodeMultiValueResponse_complete.
Qed.

(** C3: every answer whose parts fit their length fields is encoded without
    failure, and the client's [DecodeResponse] returns what was answered. *)
Theorem response_roundtrip r rest :
  reply_fits r ->
  (data ← encode_reply r; DecodeResponse (data ++ rest)) = Ok (reply_response r).
Proof.
  intros Hr. rewrite encode_reply_frame, bind_ok. by apply decode_reply.
Qed.

Lemma response_roundtrip_witness :
  let r := ReplyMulti [str "a"; []; str "bc"] in
  (data ← encode_reply r; DecodeResponse (data ++ [])) = Ok (reply_response r).
Proof.
  intros r. apply (response_roundtrip r). split; [by vm_compute|].
  split; [by vm_compute|]. repeat constructor; by vm_compute.
Defined.

(** The client's parser panics exactly when the announced payload length
    is at least 2^32-5; all other bytes are decoded or refused with an error. *)
Theorem DecodeResponse_panics data :
  bytes_ok data ->
  DecodeResponse data = Panic <-> 5 <= len data /\ 2 ^ 32 - 5 <= payload_length data.
Proof.
  intros Hok. destruct (Z.ltb_spec (len data) 5) as [Hl|Hl].
  - split; [|lia]. unfold DecodeResponse. by rewrite (proj2 (Z.ltb_lt _ _)) by lia.
  - destruct (header_split data Hok Hl) as [Hu _].
    rewrite DecodeResponse_cases by done. unfold u32 in Hu.
    destruct (Z.ltb_spec (payload_length data) (2 ^ 32 - 5)); [|split; [lia|done]].
    split; [|lia]. intros HP. exfalso. revert HP.
    destruct (len data <? _); [done|].
    by apply (safe_no_panic _ (fun _ => True)), response_of_safe, takeZ_ok, dropZ_ok.
Qed.

Lemma DecodeResponse_panics_witness :
  DecodeResponse [0; 255; 255; 255; 255] = Panic <->
  5 <= len [0; 255; 255; 255; 255] /\ 2 ^ 32 - 5 <= payload_length [0; 255; 255; 255; 255].
Proof. apply DecodeResponse_panics. repeat constructor; by vm_compute. Defined.
