(* ===== verification/PkgProtocol.v ===== *)
(** The protocol of pkg/protocol/binary.go, a second copy of
    internal/net/protocol.go: constants, the parsed request and response, the
    encoders and the parsers, translated like those of Protocol.v and
    ProtocolDecode.v.  PkgCopies.v compares the two. *)
From stdpp Require Import base list numbers strings.
From Stdlib Require Import ZArith Lia.
From S2P Require Import Prelude GoBytes Fmt.

Module Pkg.

(** ** Constants *)

Definition OpSet : byte := 0x01.
Definition OpGet : byte := 0x02.
Definition OpDel : byte := 0x03.
Definition OpExists : byte := 0x04.
Definition OpIncr : byte := 0x05.
Definition OpDecr : byte := 0x06.
Definition OpMSet : byte := 0x10.
Definition OpMGet : byte := 0x11.
Definition OpMDel : byte := 0x12.

Definition OpQPush : byte := 0x20.
Definition OpQPop : byte := 0x21.
Definition OpQPeek : byte := 0x22.
Definition OpQLen : byte := 0x23.
Definition OpQClear : byte := 0x24.

Definition OpSPublish : byte := 0x30.
Definition OpSConsume : byte := 0x31.
Definition OpSCommit : byte := 0x32.
Definition OpSCreateTopic : byte := 0x33.
Definition OpSSubscribe : byte := 0x34.
Definition OpSUnsubscribe : byte := 0x35.
Definition OpSGetOffsets : byte := 0x36.

Definition OpDocInsert : byte := 0x40.
Definition OpDocFind : byte := 0x41.
Definition OpDocUpdate : byte := 0x42.
Definition OpDocDelete : byte := 0x43.
Definition OpDocIndex : byte := 0x44.

Definition StatusOK : byte := 0x00.
Definition StatusError : byte := 0x01.
Definition StatusNotFound : byte := 0x02.
Definition StatusMultiValue : byte := 0x03.

Definition MaxKeyLen : Z := 65535.
Definition MaxBatchSize : Z := 10000.
Definition MaxValueLen : Z := Z.shiftl 1 30.

(** ** Parsed messages *)

Record Request : Type := mkRequest {
  OpCode : byte;
  Key : bytes;
  Value : bytes;
  Keys : list bytes;
  Values : list bytes;
  Topic : bytes;
  Partition : Z;
  Group : bytes;
  Consumer : bytes;
  Count : Z;
  RetentionMs : Z;
  Collection : bytes;
}.

(** [&Request{OpCode: op}]: the other fields have their zero values. *)
Definition newRequest (op : byte) : Request := mkRequest op [] [] [] [] [] 0 [] [] 0 0 [].

(** The field assignments the parsers make. *)
Definition set_Key (v : bytes) (r : Request) : Request :=
  mkRequest (OpCode r) v (Value r) (Keys r) (Values r) (Topic r) (Partition r) (Group r)
    (Consumer r) (Count r) (RetentionMs r) (Collection r).
Definition set_Value (v : bytes) (r : Request) : Request :=
  mkRequest (OpCode r) (Key r) v (Keys r) (Values r) (Topic r) (Partition r) (Group r)
    (Consumer r) (Count r) (RetentionMs r) (Collection r).
Definition set_Keys (v : list bytes) (r : Request) : Request :=
  mkRequest (OpCode r) (Key r) (Value r) v (Values r) (Topic r) (Partition r) (Group r)
    (Consumer r) (Count r) (RetentionMs r) (Collection r).
Definition set_Values (v : list bytes) (r : Request) : Request :=
  mkRequest (OpCode r) (Key r) (Value r) (Keys r) v (Topic r) (Partition r) (Group r) (Consumer r)
    (Count r) (RetentionMs r) (Collection r).
Definition set_Topic (v : bytes) (r : Request) : Request :=
  mkRequest (OpCode r) (Key r) (Value r) (Keys r) (Values r) v (Partition r) (Group r)
    (Consumer r) (Count r) (RetentionMs r) (Collection r).
Definition set_Partition (v : Z) (r : Request) : Request :=
  mkRequest (OpCode r) (Key r) (Value r) (Keys r) (Values r) (Topic r) v (Group r) (Consumer r)
    (Count r) (RetentionMs r) (Collection r).
Definition set_Group (v : bytes) (r : Request) : Request :=
  mkRequest (OpCode r) (Key r) (Value r) (Keys r) (Values r) (Topic r) (Partition r) v
    (Consumer r) (Count r) (RetentionMs r) (Collection r).
Definition set_Consumer (v : bytes) (r : Request) : Request :=
  mkRequest (OpCode r) (Key r) (Value r) (Keys r) (Values r) (Topic r) (Partition r) (Group r) v
    (Count r) (RetentionMs r) (Collection r).
Definition set_Count (v : Z) (r : Request) : Request :=
  mkRequest (OpCode r) (Key r) (Value r) (Keys r) (Values r) (Topic r) (Partition r) (Group r)
    (Consumer r) v (RetentionMs r) (Collection r).
Definition set_RetentionMs (v : Z) (r : Request) : Request :=
  mkRequest (OpCode r) (Key r) (Value r) (Keys r) (Values r) (Topic r) (Partition r) (Group r)
    (Consumer r) (Count r) v (Collection r).
Definition set_Collection (v : bytes) (r : Request) : Request :=
  mkRequest (OpCode r) (Key r) (Value r) (Keys r) (Values r) (Topic r) (Partition r) (Group r)
    (Consumer r) (Count r) (RetentionMs r) v.

Record Response : Type := mkResponse {
  Status : byte;
  RValue : bytes;
  RValues : list bytes;
  RError : bytes;
}.

(** ** Request encoders *)

Definition EncodeSetRequest (key value : bytes) : result bytes :=
  let keyLen := len key in
  let valueLen := len value in
  let totalSize := 1 + 4 + 2 + keyLen + 4 + valueLen in
  buf ← make_bytes totalSize;
  let pos := 0 in
  buf ← set_byte buf pos OpSet;
  let pos := pos + 1 in
  let payloadLen := 2 + keyLen + 4 + valueLen in
  buf ← PutUint32 buf pos (uint32 payloadLen);
  let pos := pos + 4 in
  buf ← PutUint16 buf pos (uint16 keyLen);
  let pos := pos + 2 in
  buf ← copy_at buf pos key;
  let pos := pos + keyLen in
  buf ← PutUint32 buf pos (uint32 valueLen);
  let pos := pos + 4 in
  buf ← copy_at buf pos value;
  mret buf.

Definition EncodeGetRequest (key : bytes) : result bytes :=
  let keyLen := len key in
  let totalSize := 1 + 4 + 2 + keyLen in
  buf ← make_bytes totalSize;
  let pos := 0 in
  buf ← set_byte buf pos OpGet;
  let pos := pos + 1 in
  let payloadLen := 2 + keyLen in
  buf ← PutUint32 buf pos (uint32 payloadLen);
  let pos := pos + 4 in
  buf ← PutUint16 buf pos (uint16 keyLen);
  let pos := pos + 2 in
  buf ← copy_at buf pos key;
  mret buf.

Definition encodeSimpleRequest (opCode : byte) (key : bytes) : result bytes :=
  let keyLen := len key in
  let totalSize := 1 + 4 + 2 + keyLen in
  buf ← make_bytes totalSize;
  let pos := 0 in
  buf ← set_byte buf pos opCode;
  let pos := pos + 1 in
  let payloadLen := 2 + keyLen in
  buf ← PutUint32 buf pos (uint32 payloadLen);
  let pos := pos + 4 in
  buf ← PutUint16 buf pos (uint16 keyLen);
  let pos := pos + 2 in
  buf ← copy_at buf pos key;
  mret buf.

Definition EncodeDeleteRequest (key : bytes) : result bytes :=
  encodeSimpleRequest OpDel key.

Definition EncodeExistsRequest (key : bytes) : result bytes :=
  encodeSimpleRequest OpExists key.

Definition EncodeIncrRequest (key : bytes) : result bytes :=
  encodeSimpleRequest OpIncr key.

Definition EncodeDecrRequest (key : bytes) : result bytes :=
  encodeSimpleRequest OpDecr key.

Definition EncodeMSetRequest (keys values : list bytes) : result bytes :=
  if negb (len keys =? len values) then Ok [] else
  let totalSize := 1 + 4 + 2 in
  totalSize ← for_n (length keys) 0 totalSize (fun totalSize i =>
    key ← index keys i;
    value ← index values i;
    Ok (totalSize + (2 + len key + 4 + len value)));
  buf ← make_bytes totalSize;
  let pos := 0 in
  buf ← set_byte buf pos OpMSet;
  let pos := pos + 1 in
  let payloadLen := totalSize - 5 in
  buf ← PutUint32 buf pos (uint32 payloadLen);
  let pos := pos + 4 in
  buf ← PutUint16 buf pos (uint16 (len keys));
  let pos := pos + 2 in
  st ← for_n (length keys) 0 (buf, pos) (fun '(buf, pos) i =>
    key ← index keys i;
    let keyLen := len key in
    buf ← PutUint16 buf pos (uint16 keyLen);
    let pos := pos + 2 in
    buf ← copy_at buf pos key;
    let pos := pos + keyLen in
    value ← index values i;
    let valueLen := len value in
    buf ← PutUint32 buf pos (uint32 valueLen);
    let pos := pos + 4 in
    buf ← copy_at buf pos value;
    let pos := pos + valueLen in
    Ok (buf, pos));
  mret (fst st).

Definition EncodeMGetRequest (keys : list bytes) : result bytes :=
  let totalSize := 1 + 4 + 2 in
  totalSize ← for_each keys totalSize (fun totalSize key =>
    Ok (totalSize + (2 + len key)));
  buf ← make_bytes totalSize;
  let pos := 0 in
  buf ← set_byte buf pos OpMGet;
  let pos := pos + 1 in
  let payloadLen := totalSize - 5 in
  buf ← PutUint32 buf pos (uint32 payloadLen);
  let pos := pos + 4 in
  buf ← PutUint16 buf pos (uint16 (len keys));
  let pos := pos + 2 in
  st ← for_each keys (buf, pos) (fun '(buf, pos) key =>
    let keyLen := len key in
    buf ← PutUint16 buf pos (uint16 keyLen);
    let pos := pos + 2 in
    buf ← copy_at buf pos key;
    let pos := pos + keyLen in
    Ok (buf, pos));
  mret (fst st).

Definition EncodeMDeleteRequest (keys : list bytes) : result bytes :=
  let totalSize := 1 + 4 + 2 in
  totalSize ← for_each keys totalSize (fun totalSize key =>
    Ok (totalSize + (2 + len key)));
  buf ← make_bytes totalSize;
  let pos := 0 in
  buf ← set_byte buf pos OpMDel;
  let pos := pos + 1 in
  let payloadLen := totalSize - 5 in
  buf ← PutUint32 buf pos (uint32 payloadLen);
  let pos := pos + 4 in
  buf ← PutUint16 buf pos (uint16 (len keys));
  let pos := pos + 2 in
  st ← for_each keys (buf, pos) (fun '(buf, pos) key =>
    let keyLen := len key in
    buf ← PutUint16 buf pos (uint16 keyLen);
    let pos := pos + 2 in
    buf ← copy_at buf pos key;
    let pos := pos + keyLen in
    Ok (buf, pos));
  mret (fst st).

Definition EncodeQPushRequest (queueName value : bytes) : result bytes :=
  let nameLen := len queueName in
  let valueLen := len value in
  let totalSize := 1 + 4 + 2 + nameLen + 4 + valueLen in
  buf ← make_bytes totalSize;
  let pos := 0 in
  buf ← set_byte buf pos OpQPush;
  let pos := pos + 1 in
  let payloadLen := 2 + nameLen + 4 + valueLen in
  buf ← PutUint32 buf pos (uint32 payloadLen);
  let pos := pos + 4 in
  buf ← PutUint16 buf pos (uint16 nameLen);
  let pos := pos + 2 in
  buf ← copy_at buf pos queueName;
  let pos := pos + nameLen in
  buf ← PutUint32 buf pos (uint32 valueLen);
  let pos := pos + 4 in
  buf ← copy_at buf pos value;
  mret buf.

Definition EncodeQPopRequest (queueName : bytes) : result bytes :=
  encodeSimpleRequest OpQPop queueName.

Definition EncodeQPeekRequest (queueName : bytes) : result bytes :=
  encodeSimpleRequest OpQPeek queueName.

Definition EncodeQLenRequest (queueName : bytes) : result bytes :=
  encodeSimpleRequest OpQLen queueName.

Definition EncodeQClearRequest (queueName : bytes) : result bytes :=
  encodeSimpleRequest OpQClear queueName.

Definition EncodeSPublishRequest (topic : bytes) (partition : Z) (key value : bytes) : result bytes :=
  let topicLen := len topic in
  let keyLen := len key in
  let valueLen := len value in
  let totalSize := 1 + 4 + 2 + topicLen + 4 + 2 + keyLen + 4 + valueLen in
  buf ← make_bytes totalSize;
  let pos := 0 in
  buf ← set_byte buf pos OpSPublish;
  let pos := pos + 1 in
  let payloadLen := totalSize - 5 in
  buf ← PutUint32 buf pos (uint32 payloadLen);
  let pos := pos + 4 in
  buf ← PutUint16 buf pos (uint16 topicLen);
  let pos := pos + 2 in
  buf ← copy_at buf pos topic;
  let pos := pos + topicLen in
  buf ← PutUint32 buf pos (uint32 partition);
  let pos := pos + 4 in
  buf ← PutUint16 buf pos (uint16 keyLen);
  let pos := pos + 2 in
  buf ← copy_at buf pos key;
  let pos := pos + keyLen in
  buf ← PutUint32 buf pos (uint32 valueLen);
  let pos := pos + 4 in
  buf ← copy_at buf pos value;
  mret buf.

Definition EncodeSConsumeRequest (topic group consumer : bytes) (count : Z) : result bytes :=
  let topicLen := len topic in
  let groupLen := len group in
  let consumerLen := len consumer in
  let totalSize := 1 + 4 + 2 + topicLen + 2 + groupLen + 2 + consumerLen + 4 in
  buf ← make_bytes totalSize;
  let pos := 0 in
  buf ← set_byte buf pos OpSConsume;
  let pos := pos + 1 in
  let payloadLen := totalSize - 5 in
  buf ← PutUint32 buf pos (uint32 payloadLen);
  let pos := pos + 4 in
  buf ← PutUint16 buf pos (uint16 topicLen);
  let pos := pos + 2 in
  buf ← copy_at buf pos topic;
  let pos := pos + topicLen in
  buf ← PutUint16 buf pos (uint16 groupLen);
  let pos := pos + 2 in
  buf ← copy_at buf pos group;
  let pos := pos + groupLen in
  buf ← PutUint16 buf pos (uint16 consumerLen);
  let pos := pos + 2 in
  buf ← copy_at buf pos consumer;
  let pos := pos + consumerLen in
  buf ← PutUint32 buf pos (uint32 count);
  mret buf.

Definition EncodeSCommitRequest (topic group : bytes) (partition offset : Z) : result bytes :=
  let topicLen := len topic in
  let groupLen := len group in
  let totalSize := 1 + 4 + 2 + topicLen + 2 + groupLen + 4 + 8 in
  buf ← make_bytes totalSize;
  let pos := 0 in
  buf ← set_byte buf pos OpSCommit;
  let pos := pos + 1 in
  let payloadLen := totalSize - 5 in
  buf ← PutUint32 buf pos (uint32 payloadLen);
  let pos := pos + 4 in
  buf ← PutUint16 buf pos (uint16 topicLen);
  let pos := pos + 2 in
  buf ← copy_at buf pos topic;
  let pos := pos + topicLen in
  buf ← PutUint16 buf pos (uint16 groupLen);
  let pos := pos + 2 in
  buf ← copy_at buf pos group;
  let pos := pos + groupLen in
  buf ← PutUint32 buf pos (uint32 partition);
  let pos := pos + 4 in
  buf ← PutUint64 buf pos (uint64 offset);
  mret buf.

Definition EncodeSCreateTopicRequest (name : bytes) (partitions retentionMs : Z) : result bytes :=
  let nameLen := len name in
  let totalSize := 1 + 4 + 2 + nameLen + 4 + 8 in
  buf ← make_bytes totalSize;
  let pos := 0 in
  buf ← set_byte buf pos OpSCreateTopic;
  let pos := pos + 1 in
  let payloadLen := totalSize - 5 in
  buf ← PutUint32 buf pos (uint32 payloadLen);
  let pos := pos + 4 in
  buf ← PutUint16 buf pos (uint16 nameLen);
  let pos := pos + 2 in
  buf ← copy_at buf pos name;
  let pos := pos + nameLen in
  buf ← PutUint32 buf pos (uint32 partitions);
  let pos := pos + 4 in
  buf ← PutUint64 buf pos (uint64 retentionMs);
  mret buf.

Definition EncodeSSubscribeRequest (topic group consumer : bytes) : result bytes :=
  let topicLen := len topic in
  let groupLen := len group in
  let consumerLen := len consumer in
  let totalSize := 1 + 4 + 2 + topicLen + 2 + groupLen + 2 + consumerLen in
  buf ← make_bytes totalSize;
  let pos := 0 in
  buf ← set_byte buf pos OpSSubscribe;
  let pos := pos + 1 in
  let payloadLen := totalSize - 5 in
  buf ← PutUint32 buf pos (uint32 payloadLen);
  let pos := pos + 4 in
  buf ← PutUint16 buf pos (uint16 topicLen);
  let pos := pos + 2 in
  buf ← copy_at buf pos topic;
  let pos := pos + topicLen in
  buf ← PutUint16 buf pos (uint16 groupLen);
  let pos := pos + 2 in
  buf ← copy_at buf pos group;
  let pos := pos + groupLen in
  buf ← PutUint16 buf pos (uint16 consumerLen);
  let pos := pos + 2 in
  buf ← copy_at buf pos consumer;
  mret buf.

Definition EncodeSUnsubscribeRequest (topic group consumer : bytes) : result bytes :=
  let topicLen := len topic in
  let groupLen := len group in
  let consumerLen := len consumer in
  let totalSize := 1 + 4 + 2 + topicLen + 2 + groupLen + 2 + consumerLen in
  buf ← make_bytes totalSize;
  let pos := 0 in
  buf ← set_byte buf pos OpSUnsubscribe;
  let pos := pos + 1 in
  let payloadLen := totalSize - 5 in
  buf ← PutUint32 buf pos (uint32 payloadLen);
  let pos := pos + 4 in
  buf ← PutUint16 buf pos (uint16 topicLen);
  let pos := pos + 2 in
  buf ← copy_at buf pos topic;
  let pos := pos + topicLen in
  buf ← PutUint16 buf pos (uint16 groupLen);
  let pos := pos + 2 in
  buf ← copy_at buf pos group;
  let pos := pos + groupLen in
  buf ← PutUint16 buf pos (uint16 consumerLen);
  let pos := pos + 2 in
  buf ← copy_at buf pos consumer;
  mret buf.

Definition EncodeDocInsertRequest (collection doc : bytes) : result bytes :=
  let collLen := len collection in
  let docLen := len doc in
  let totalSize := 1 + 4 + 2 + collLen + 4 + docLen in
  buf ← make_bytes totalSize;
  let pos := 0 in
  buf ← set_byte buf pos OpDocInsert;
  let pos := pos + 1 in
  let payloadLen := totalSize - 5 in
  buf ← PutUint32 buf pos (uint32 payloadLen);
  let pos := pos + 4 in
  buf ← PutUint16 buf pos (uint16 collLen);
  let pos := pos + 2 in
  buf ← copy_at buf pos collection;
  let pos := pos + collLen in
  buf ← PutUint32 buf pos (uint32 docLen);
  let pos := pos + 4 in
  buf ← copy_at buf pos doc;
  mret buf.

Definition EncodeDocFindRequest (collection query : bytes) : result bytes :=
  let collLen := len collection in
  let queryLen := len query in
  let totalSize := 1 + 4 + 2 + collLen + 4 + queryLen in
  buf ← make_bytes totalSize;
  let pos := 0 in
  buf ← set_byte buf pos OpDocFind;
  let pos := pos + 1 in
  let payloadLen := totalSize - 5 in
  buf ← PutUint32 buf pos (uint32 payloadLen);
  let pos := pos + 4 in
  buf ← PutUint16 buf pos (uint16 collLen);
  let pos := pos + 2 in
  buf ← copy_at buf pos collection;
  let pos := pos + collLen in
  buf ← PutUint32 buf pos (uint32 queryLen);
  let pos := pos + 4 in
  buf ← copy_at buf pos query;
  mret buf.

Definition EncodeDocUpdateRequest (collection query update : bytes) : result bytes :=
  let collLen := len collection in
  let queryLen := len query in
  let updateLen := len update in
  let totalSize := 1 + 4 + 2 + collLen + 4 + queryLen + 4 + updateLen in
  buf ← make_bytes totalSize;
  let pos := 0 in
  buf ← set_byte buf pos OpDocUpdate;
  let pos := pos + 1 in
  let payloadLen := totalSize - 5 in
  buf ← PutUint32 buf pos (uint32 payloadLen);
  let pos := pos + 4 in
  buf ← PutUint16 buf pos (uint16 collLen);
  let pos := pos + 2 in
  buf ← copy_at buf pos collection;
  let pos := pos + collLen in
  buf ← PutUint32 buf pos (uint32 queryLen);
  let pos := pos + 4 in
  buf ← copy_at buf pos query;
  let pos := pos + queryLen in
  buf ← PutUint32 buf pos (uint32 updateLen);
  let pos := pos + 4 in
  buf ← copy_at buf pos update;
  mret buf.

Definition EncodeDocDeleteRequest (collection query : bytes) : result bytes :=
  let collLen := len collection in
  let queryLen := len query in
  let totalSize := 1 + 4 + 2 + collLen + 4 + queryLen in
  buf ← make_bytes totalSize;
  let pos := 0 in
  buf ← set_byte buf pos OpDocDelete;
  let pos := pos + 1 in
  let payloadLen := totalSize - 5 in
  buf ← PutUint32 buf pos (uint32 payloadLen);
  let pos := pos + 4 in
  buf ← PutUint16 buf pos (uint16 collLen);
  let pos := pos + 2 in
  buf ← copy_at buf pos collection;
  let pos := pos + collLen in
  buf ← PutUint32 buf pos (uint32 queryLen);
  let pos := pos + 4 in
  buf ← copy_at buf pos query;
  mret buf.

(** ** Response encoders *)

Definition EncodeOKResponse : result bytes :=
  buf ← make_bytes 5;
  buf ← set_byte buf 0 StatusOK;
  buf ← PutUint32 buf 1 0;
  mret buf.

Definition EncodeValueResponse (value : bytes) : result bytes :=
  let totalSize := 5 + len value in
  buf ← make_bytes totalSize;
  buf ← set_byte buf 0 StatusOK;
  buf ← PutUint32 buf 1 (uint32 (len value));
  buf ← copy_at buf 5 value;
  mret buf.

Definition EncodeMultiValueResponse (values : list bytes) : result bytes :=
  let totalSize := 5 + 2 in
  totalSize ← for_each values totalSize (fun totalSize v =>
    Ok (totalSize + (4 + len v)));
  buf ← make_bytes totalSize;
  let pos := 0 in
  buf ← set_byte buf pos StatusMultiValue;
  let pos := pos + 1 in
  let payloadLen := totalSize - 5 in
  buf ← PutUint32 buf pos (uint32 payloadLen);
  let pos := pos + 4 in
  buf ← PutUint16 buf pos (uint16 (len values));
  let pos := pos + 2 in
  st ← for_each values (buf, pos) (fun '(buf, pos) v =>
    buf ← PutUint32 buf pos (uint32 (len v));
    let pos := pos + 4 in
    buf ← copy_at buf pos v;
    let pos := pos + len v in
    Ok (buf, pos));
  mret (fst st).

Definition EncodeErrorResponse (err : error) : result bytes :=
  let errMsg := error_text err in
  let totalSize := 5 + len errMsg in
  buf ← make_bytes totalSize;
  buf ← set_byte buf 0 StatusError;
  buf ← PutUint32 buf 1 (uint32 (len errMsg));
  buf ← copy_at buf 5 errMsg;
  mret buf.

(** ** Request parsers *)

Definition decodeSetRequest (payload : bytes) : result Request :=
  if len payload <? 6 then Err (errorf "invalid SET payload") else
  let req := newRequest OpSet in
  let pos := 0 in
  keyLen ← Uint16 payload pos;
  let pos := pos + 2 in
  if len payload <? pos + keyLen + 4 then Err (errorf "invalid SET payload") else
  key ← slice payload pos (pos + keyLen);
  let req := set_Key key req in
  let pos := pos + keyLen in
  valueLen ← Uint32 payload pos;
  let pos := pos + 4 in
  if len payload <? pos + valueLen then Err (errorf "invalid SET payload") else
  value ← slice payload pos (pos + valueLen);
  let req := set_Value value req in
  mret req.

(** [2+keyLen] is a [uint16] addition: it wraps for key lengths above 65533. *)
Definition decodeSimpleRequest (opCode : byte) (payload : bytes) : result Request :=
  if len payload <? 2 then Err (errorf "invalid payload") else
  let req := newRequest opCode in
  hdr ← slice payload 0 2;
  keyLen ← Uint16 hdr 0;
  if len payload <? uint16 (2 + keyLen) then Err (errorf "invalid payload") else
  key ← slice payload 2 (uint16 (2 + keyLen));
  let req := set_Key key req in
  mret req.

Definition decodeMSetRequest (payload : bytes) : result Request :=
  if len payload <? 2 then Err (errorf "invalid MSET payload") else
  let req := newRequest OpMSet in
  hdr ← slice payload 0 2;
  count ← Uint16 hdr 0;
  let pos := 2 in
  st ← for_n (Z.to_nat count) 0 (pos, [], []) (fun '(pos, keys, values) i =>
    if len payload <? pos + 2 then Err (errorf "invalid MSET payload") else
    keyLen ← Uint16 payload pos;
    let pos := pos + 2 in
    if len payload <? pos + keyLen + 4 then Err (errorf "invalid MSET payload") else
    key ← slice payload pos (pos + keyLen);
    let pos := pos + keyLen in
    valueLen ← Uint32 payload pos;
    let pos := pos + 4 in
    if len payload <? pos + valueLen then Err (errorf "invalid MSET payload") else
    value ← slice payload pos (pos + valueLen);
    let pos := pos + valueLen in
    Ok (pos, keys ++ [key], values ++ [value]));
  let '(_, keys, values) := st in
  mret (set_Values values (set_Keys keys req)).

Definition decodeMGetRequest (opCode : byte) (payload : bytes) : result Request :=
  if len payload <? 2 then Err (errorf "invalid batch payload") else
  let req := newRequest opCode in
  hdr ← slice payload 0 2;
  count ← Uint16 hdr 0;
  let pos := 2 in
  st ← for_n (Z.to_nat count) 0 (pos, []) (fun '(pos, keys) i =>
    if len payload <? pos + 2 then Err (errorf "invalid batch payload") else
    keyLen ← Uint16 payload pos;
    let pos := pos + 2 in
    if len payload <? pos + keyLen then Err (errorf "invalid batch payload") else
    key ← slice payload pos (pos + keyLen);
    let pos := pos + keyLen in
    Ok (pos, keys ++ [key]));
  let '(_, keys) := st in
  mret (set_Keys keys req).

Definition decodeQPushRequest (payload : bytes) : result Request :=
  if len payload <? 6 then Err (errorf "invalid QPUSH payload") else
  let req := newRequest OpQPush in
  let pos := 0 in
  nameLen ← Uint16 payload pos;
  let pos := pos + 2 in
  if len payload <? pos + nameLen + 4 then Err (errorf "invalid QPUSH payload") else
  key ← slice payload pos (pos + nameLen);
  let req := set_Key key req in
  let pos := pos + nameLen in
  valueLen ← Uint32 payload pos;
  let pos := pos + 4 in
  if len payload <? pos + valueLen then Err (errorf "invalid QPUSH payload") else
  value ← slice payload pos (pos + valueLen);
  let req := set_Value value req in
  mret req.

Definition decodeSPublishRequest (payload : bytes) : result Request :=
  if len payload <? 2 then Err (errorf "invalid SPUBLISH payload") else
  let req := newRequest OpSPublish in
  let pos := 0 in
  topicLen ← Uint16 payload pos;
  let pos := pos + 2 in
  if len payload <? pos + topicLen then Err (errorf "invalid SPUBLISH payload") else
  topic ← slice payload pos (pos + topicLen);
  let req := set_Topic topic req in
  let pos := pos + topicLen in
  if len payload <? pos + 4 then Err (errorf "invalid SPUBLISH payload") else
  partition ← Uint32 payload pos;
  let req := set_Partition partition req in
  let pos := pos + 4 in
  if len payload <? pos + 2 then Err (errorf "invalid SPUBLISH payload") else
  keyLen ← Uint16 payload pos;
  let pos := pos + 2 in
  if len payload <? pos + keyLen then Err (errorf "invalid SPUBLISH payload") else
  key ← slice payload pos (pos + keyLen);
  let req := set_Key key req in
  let pos := pos + keyLen in
  if len payload <? pos + 4 then Err (errorf "invalid SPUBLISH payload") else
  valueLen ← Uint32 payload pos;
  let pos := pos + 4 in
  if len payload <? pos + valueLen then Err (errorf "invalid SPUBLISH payload") else
  value ← slice payload pos (pos + valueLen);
  let req := set_Value value req in
  mret req.

Definition decodeSConsumeRequest (payload : bytes) : result Request :=
  if len payload <? 2 then Err (errorf "invalid SCONSUME payload") else
  let req := newRequest OpSConsume in
  let pos := 0 in
  topicLen ← Uint16 payload pos;
  let pos := pos + 2 in
  if len payload <? pos + topicLen then Err (errorf "invalid SCONSUME payload") else
  topic ← slice payload pos (pos + topicLen);
  let req := set_Topic topic req in
  let pos := pos + topicLen in
  if len payload <? pos + 2 then Err (errorf "invalid SCONSUME payload") else
  groupLen ← Uint16 payload pos;
  let pos := pos + 2 in
  if len payload <? pos + groupLen then Err (errorf "invalid SCONSUME payload") else
  group ← slice payload pos (pos + groupLen);
  let req := set_Group group req in
  let pos := pos + groupLen in
  if len payload <? pos + 2 then Err (errorf "invalid SCONSUME payload") else
  consumerLen ← Uint16 payload pos;
  let pos := pos + 2 in
  if len payload <? pos + consumerLen then Err (errorf "invalid SCONSUME payload") else
  consumer ← slice payload pos (pos + consumerLen);
  let req := set_Consumer consumer req in
  let pos := pos + consumerLen in
  if len payload <? pos + 4 then Err (errorf "invalid SCONSUME payload") else
  count ← Uint32 payload pos;
  let req := set_Count count req in
  mret req.

(** The offset is stored in [RetentionMs]. *)
Definition decodeSCommitRequest (payload : bytes) : result Request :=
  if len payload <? 2 then Err (errorf "invalid SCOMMIT payload") else
  let req := newRequest OpSCommit in
  let pos := 0 in
  topicLen ← Uint16 payload pos;
  let pos := pos + 2 in
  if len payload <? pos + topicLen then Err (errorf "invalid SCOMMIT payload") else
  topic ← slice payload pos (pos + topicLen);
  let req := set_Topic topic req in
  let pos := pos + topicLen in
  if len payload <? pos + 2 then Err (errorf "invalid SCOMMIT payload") else
  groupLen ← Uint16 payload pos;
  let pos := pos + 2 in
  if len payload <? pos + groupLen then Err (errorf "invalid SCOMMIT payload") else
  group ← slice payload pos (pos + groupLen);
  let req := set_Group group req in
  let pos := pos + groupLen in
  if len payload <? pos + 4 then Err (errorf "invalid SCOMMIT payload") else
  partition ← Uint32 payload pos;
  let req := set_Partition partition req in
  let pos := pos + 4 in
  if len payload <? pos + 8 then Err (errorf "invalid SCOMMIT payload") else
  offset ← Uint64 payload pos;
  let req := set_RetentionMs (int64 offset) req in
  mret req.

Definition decodeSCreateTopicRequest (payload : bytes) : result Request :=
  if len payload <? 2 then Err (errorf "invalid SCREATETOPIC payload") else
  let req := newRequest OpSCreateTopic in
  let pos := 0 in
  nameLen ← Uint16 payload pos;
  let pos := pos + 2 in
  if len payload <? pos + nameLen then Err (errorf "invalid SCREATETOPIC payload") else
  topic ← slice payload pos (pos + nameLen);
  let req := set_Topic topic req in
  let pos := pos + nameLen in
  if len payload <? pos + 4 then Err (errorf "invalid SCREATETOPIC payload") else
  partitions ← Uint32 payload pos;
  let req := set_Partition partitions req in
  let pos := pos + 4 in
  if len payload <? pos + 8 then Err (errorf "invalid SCREATETOPIC payload") else
  retentionMs ← Uint64 payload pos;
  let req := set_RetentionMs (int64 retentionMs) req in
  mret req.

Definition decodeSSubscribeRequest (payload : bytes) : result Request :=
  if len payload <? 2 then Err (errorf "invalid SSUBSCRIBE payload") else
  let req := newRequest OpSSubscribe in
  let pos := 0 in
  topicLen ← Uint16 payload pos;
  let pos := pos + 2 in
  if len payload <? pos + topicLen then Err (errorf "invalid SSUBSCRIBE payload") else
  topic ← slice payload pos (pos + topicLen);
  let req := set_Topic topic req in
  let pos := pos + topicLen in
  if len payload <? pos + 2 then Err (errorf "invalid SSUBSCRIBE payload") else
  groupLen ← Uint16 payload pos;
  let pos := pos + 2 in
  if len payload <? pos + groupLen then Err (errorf "invalid SSUBSCRIBE payload") else
  group ← slice payload pos (pos + groupLen);
  let req := set_Group group req in
  let pos := pos + groupLen in
  if len payload <? pos + 2 then Err (errorf "invalid SSUBSCRIBE payload") else
  consumerLen ← Uint16 payload pos;
  let pos := pos + 2 in
  if len payload <? pos + consumerLen then Err (errorf "invalid SSUBSCRIBE payload") else
  consumer ← slice payload pos (pos + consumerLen);
  let req := set_Consumer consumer req in
  mret req.

Definition decodeSUnsubscribeRequest (payload : bytes) : result Request :=
  if len payload <? 2 then Err (errorf "invalid SUNSUBSCRIBE payload") else
  let req := newRequest OpSUnsubscribe in
  let pos := 0 in
  topicLen ← Uint16 payload pos;
  let pos := pos + 2 in
  if len payload <? pos + topicLen then Err (errorf "invalid SUNSUBSCRIBE payload") else
  topic ← slice payload pos (pos + topicLen);
  let req := set_Topic topic req in
  let pos := pos + topicLen in
  if len payload <? pos + 2 then Err (errorf "invalid SUNSUBSCRIBE payload") else
  groupLen ← Uint16 payload pos;
  let pos := pos + 2 in
  if len payload <? pos + groupLen then Err (errorf "invalid SUNSUBSCRIBE payload") else
  group ← slice payload pos (pos + groupLen);
  let req := set_Group group req in
  let pos := pos + groupLen in
  if len payload <? pos + 2 then Err (errorf "invalid SUNSUBSCRIBE payload") else
  consumerLen ← Uint16 payload pos;
  let pos := pos + 2 in
  if len payload <? pos + consumerLen then Err (errorf "invalid SUNSUBSCRIBE payload") else
  consumer ← slice payload pos (pos + consumerLen);
  let req := set_Consumer consumer req in
  mret req.

Definition decodeDocInsertRequest (payload : bytes) : result Request :=
  if len payload <? 2 then Err (errorf "invalid DOCINSERT payload") else
  let req := newRequest OpDocInsert in
  let pos := 0 in
  collLen ← Uint16 payload pos;
  let pos := pos + 2 in
  if len payload <? pos + collLen then Err (errorf "invalid DOCINSERT payload") else
  collection ← slice payload pos (pos + collLen);
  let req := set_Collection collection req in
  let pos := pos + collLen in
  if len payload <? pos + 4 then Err (errorf "invalid DOCINSERT payload") else
  docLen ← Uint32 payload pos;
  let pos := pos + 4 in
  if len payload <? pos + docLen then Err (errorf "invalid DOCINSERT payload") else
  value ← slice payload pos (pos + docLen);
  let req := set_Value value req in
  mret req.

Definition decodeDocFindRequest (payload : bytes) : result Request :=
  if len payload <? 2 then Err (errorf "invalid DOCFIND payload") else
  let req := newRequest OpDocFind in
  let pos := 0 in
  collLen ← Uint16 payload pos;
  let pos := pos + 2 in
  if len payload <? pos + collLen then Err (errorf "invalid DOCFIND payload") else
  collection ← slice payload pos (pos + collLen);
  let req := set_Collection collection req in
  let pos := pos + collLen in
  if len payload <? pos + 4 then Err (errorf "invalid DOCFIND payload") else
  queryLen ← Uint32 payload pos;
  let pos := pos + 4 in
  if len payload <? pos + queryLen then Err (errorf "invalid DOCFIND payload") else
  value ← slice payload pos (pos + queryLen);
  let req := set_Value value req in
  mret req.

Definition decodeDocUpdateRequest (payload : bytes) : result Request :=
  if len payload <? 2 then Err (errorf "invalid DOCUPDATE payload") else
  let req := newRequest OpDocUpdate in
  let pos := 0 in
  collLen ← Uint16 payload pos;
  let pos := pos + 2 in
  if len payload <? pos + collLen then Err (errorf "invalid DOCUPDATE payload") else
  collection ← slice payload pos (pos + collLen);
  let req := set_Collection collection req in
  let pos := pos + collLen in
  if len payload <? pos + 4 then Err (errorf "invalid DOCUPDATE payload") else
  queryLen ← Uint32 payload pos;
  let pos := pos + 4 in
  if len payload <? pos + queryLen then Err (errorf "invalid DOCUPDATE payload") else
  query ← slice payload pos (pos + queryLen);
  let req := set_Value query req in
  let pos := pos + queryLen in
  if len payload <? pos + 4 then Err (errorf "invalid DOCUPDATE payload") else
  updateLen ← Uint32 payload pos;
  let pos := pos + 4 in
  if len payload <? pos + updateLen then Err (errorf "invalid DOCUPDATE payload") else
  update ← slice payload pos (pos + updateLen);
  let req := set_Values [update] req in
  mret req.

Definition decodeDocDeleteRequest (payload : bytes) : result Request :=
  if len payload <? 2 then Err (errorf "invalid DOCDELETE payload") else
  let req := newRequest OpDocDelete in
  let pos := 0 in
  collLen ← Uint16 payload pos;
  let pos := pos + 2 in
  if len payload <? pos + collLen then Err (errorf "invalid DOCDELETE payload") else
  collection ← slice payload pos (pos + collLen);
  let req := set_Collection collection req in
  let pos := pos + collLen in
  if len payload <? pos + 4 then Err (errorf "invalid DOCDELETE payload") else
  queryLen ← Uint32 payload pos;
  let pos := pos + 4 in
  if len payload <? pos + queryLen then Err (errorf "invalid DOCDELETE payload") else
  value ← slice payload pos (pos + queryLen);
  let req := set_Value value req in
  mret req.

(** The payload parser of an opcode: the [switch] of [DecodeRequest]. *)
Definition decodePayload (opCode : byte) (payload : bytes) : result Request :=
  if opCode =? OpSet then decodeSetRequest payload
  else if (opCode =? OpGet) || (opCode =? OpDel) || (opCode =? OpExists)
       || (opCode =? OpIncr) || (opCode =? OpDecr)
  then decodeSimpleRequest opCode payload
  else if opCode =? OpMSet then decodeMSetRequest payload
  else if (opCode =? OpMGet) || (opCode =? OpMDel)
  then decodeMGetRequest opCode payload
  else if opCode =? OpQPush then decodeQPushRequest payload
  else if (opCode =? OpQPop) || (opCode =? OpQPeek) || (opCode =? OpQLen)
       || (opCode =? OpQClear)
  then decodeSimpleRequest opCode payload
  else if opCode =? OpSPublish then decodeSPublishRequest payload
  else if opCode =? OpSConsume then decodeSConsumeRequest payload
  else if opCode =? OpSCommit then decodeSCommitRequest payload
  else if opCode =? OpSCreateTopic then decodeSCreateTopicRequest payload
  else if opCode =? OpSSubscribe then decodeSSubscribeRequest payload
  else if opCode =? OpSUnsubscribe then decodeSUnsubscribeRequest payload
  else if opCode =? OpDocInsert then decodeDocInsertRequest payload
  else if opCode =? OpDocFind then decodeDocFindRequest payload
  else if opCode =? OpDocUpdate then decodeDocUpdateRequest payload
  else if opCode =? OpDocDelete then decodeDocDeleteRequest payload
  else Err (Errorf (str "unknown opcode: " ++ fmt_d opCode)).

(** [5+payloadLen] is a [uint32] addition. *)
Definition DecodeRequest (data : bytes) : result Request :=
  if len data <? 5 then Err (errorf "request too short") else
  opCode ← index data 0;
  hdr ← slice data 1 5;
  payloadLen ← Uint32 hdr 0;
  if len data <? uint32 (5 + payloadLen) then Err (errorf "incomplete request") else
  payload ← slice data 5 (uint32 (5 + payloadLen));
  decodePayload opCode payload.

(** ** Response parsers *)

Definition decodeMultiValueResponse (payload : bytes) : result Response :=
  if len payload <? 2 then Err (errorf "invalid multi-value response") else
  hdr ← slice payload 0 2;
  count ← Uint16 hdr 0;
  let pos := 2 in
  st ← for_n (Z.to_nat count) 0 (pos, []) (fun '(pos, values) i =>
    if len payload <? pos + 4 then Err (errorf "invalid multi-value response") else
    valueLen ← Uint32 payload pos;
    let pos := pos + 4 in
    if len payload <? pos + valueLen then Err (errorf "invalid multi-value response") else
    value ← slice payload pos (pos + valueLen);
    let pos := pos + valueLen in
    Ok (pos, values ++ [value]));
  let '(_, values) := st in
  mret (mkResponse StatusMultiValue [] values []).

Definition DecodeResponse (data : bytes) : result Response :=
  if len data <? 5 then Err (errorf "response too short") else
  status ← index data 0;
  hdr ← slice data 1 5;
  payloadLen ← Uint32 hdr 0;
  if len data <? uint32 (5 + payloadLen) then Err (errorf "incomplete response") else
  payload ← slice data 5 (uint32 (5 + payloadLen));
  if status =? StatusOK then
    mret (if 0 <? len payload then mkResponse status payload [] []
          else mkResponse status [] [] [])
  else if status =? StatusError then mret (mkResponse status [] [] payload)
  else if status =? StatusMultiValue then decodeMultiValueResponse payload
  else if status =? StatusNotFound then mret (mkResponse status [] [] [])
  else Err (Errorf (str "unknown status: " ++ fmt_d status)).

End Pkg.
