(* ===== verification/PkgCopies.v ===== *)
(** The two copies of the protocol: what pkg/protocol/binary.go encodes and
    decodes as internal/net/protocol.go does, and where a program of one copy
    misreads the bytes of the other. *)
From stdpp Require Import base list numbers strings.
From Stdlib Require Import ZArith Lia.
From S2P Require Import Prelude GoBytes Fields Fmt Protocol ProtocolDecode ProtocolSpec ProtocolParse ProtocolCorrect ProtocolTrip PkgProtocol.

(** ** Parsers *)

(** A request of the second copy, as one of the first, which has more fields. *)
Definition embed (r : Pkg.Request) : Request :=
  mkRequest (Pkg.OpCode r) (Pkg.Key r) (Pkg.Value r) (Pkg.Keys r) (Pkg.Values r) [] [] [] 0 false
    (Pkg.Topic r) (Pkg.Partition r) (Pkg.Group r) (Pkg.Consumer r) (Pkg.Count r) (Pkg.RetentionMs r)
    0 [] (Pkg.Collection r).

Definition embedded (m : result Pkg.Request) : result Request := r ← m; Ok (embed r).

Lemma embedded_bind {A} (m : result A) k k' :
  (forall x, embedded (k x) = k' x) -> embedded (x ← m; k x) = x ← m; k' x.
Proof. intros H. destruct m; cbn; [apply H|done..]. Qed.

Lemma embedded_if (b : bool) m n m' n' :
  embedded m = m' -> embedded n = n' -> embedded (if b then m else n) = if b then m' else n'.
Proof. by destruct b. Qed.

(** Both parsers take the same steps. *)
Ltac alike := repeat first [ reflexivity | apply embedded_if | apply embedded_bind; intros ? ].

Section Parsers.
Implicit Types p : bytes.

Lemma sets_alike p : embedded (Pkg.decodeSetRequest p) = decodeSetRequest p.
Proof. unfold Pkg.decodeSetRequest, decodeSetRequest. alike. Qed.
Lemma simple_alike op p : embedded (Pkg.decodeSimpleRequest op p) = decodeSimpleRequest op p.
Proof. unfold Pkg.decodeSimpleRequest, decodeSimpleRequest. alike. Qed.
Lemma msets_alike p : embedded (Pkg.decodeMSetRequest p) = decodeMSetRequest p.
Proof. unfold Pkg.decodeMSetRequest, decodeMSetRequest. alike. by destruct x1 as [[? ?] ?]. Qed.
Lemma mgets_alike op p : embedded (Pkg.decodeMGetRequest op p) = decodeMGetRequest op p.
Proof. unfold Pkg.decodeMGetRequest, decodeMGetRequest. alike. by destruct x1. Qed.
Lemma qpushes_alike p : embedded (Pkg.decodeQPushRequest p) = decodeQPushRequest p.
Proof. unfold Pkg.decodeQPushRequest, decodeQPushRequest. alike. Qed.
Lemma spublishes_alike p : embedded (Pkg.decodeSPublishRequest p) = decodeSPublishRequest p.
Proof. unfold Pkg.decodeSPublishRequest, decodeSPublishRequest. alike. Qed.
Lemma sconsumes_alike p : embedded (Pkg.decodeSConsumeRequest p) = decodeSConsumeRequest p.
Proof. unfold Pkg.decodeSConsumeRequest, decodeSConsumeRequest. alike. Qed.
Lemma scommits_alike p : embedded (Pkg.decodeSCommitRequest p) = decodeSCommitRequest p.
Proof. unfold Pkg.decodeSCommitRequest, decodeSCommitRequest. alike. Qed.
Lemma screates_alike p : embedded (Pkg.decodeSCreateTopicRequest p) = decodeSCreateTopicRequest p.
Proof. unfold Pkg.decodeSCreateTopicRequest, decodeSCreateTopicRequest. alike. Qed.
Lemma ssubscribes_alike p : embedded (Pkg.decodeSSubscribeRequest p) = decodeSSubscribeRequest p.
Proof. unfold Pkg.decodeSSubscribeRequest, decodeSSubscribeRequest. alike. Qed.
Lemma sunsubscribes_alike p : embedded (Pkg.decodeSUnsubscribeRequest p) = decodeSUnsubscribeRequest p.
Proof. unfold Pkg.decodeSUnsubscribeRequest, decodeSUnsubscribeRequest. alike. Qed.
Lemma inserts_alike p : embedded (Pkg.decodeDocInsertRequest p) = decodeDocInsertRequest p.
Proof. unfold Pkg.decodeDocInsertRequest, decodeDocInsertRequest. alike. Qed.
Lemma finds_alike p : embedded (Pkg.decodeDocFindRequest p) = decodeDocFindRequest p.
Proof. unfold Pkg.decodeDocFindRequest, decodeDocFindRequest. alike. Qed.
Lemma deletes_alike p : embedded (Pkg.decodeDocDeleteRequest p) = decodeDocDeleteRequest p.
Proof. unfold Pkg.decodeDocDeleteRequest, decodeDocDeleteRequest. alike. Qed.
End Parsers.

Create HintDb copies.
#[export] Hint Resolve sets_alike simple_alike msets_alike mgets_alike qpushes_alike
  spublishes_alike sconsumes_alike scommits_alike screates_alike ssubscribes_alike
  sunsubscribes_alike inserts_alike finds_alike deletes_alike : copies.

(** The opcodes that only the first copy knows, or whose payload it has changed. *)
Definition changed_ops : list byte := [OpDocUpdate; OpSPublishBatch; OpDocIndex].

Lemma payloads_alike op p :
  op ∉ changed_ops -> embedded (Pkg.decodePayload op p) = decodePayload op p.
Proof.
  unfold changed_ops. rewrite !not_elem_of_cons. intros (H1 & H2 & H3 & _).
  unfold Pkg.decodePayload, decodePayload. change Pkg.OpDocUpdate with OpDocUpdate.
  rewrite (proj2 (Z.eqb_neq op OpDocUpdate)), (proj2 (Z.eqb_neq op OpSPublishBatch)),
    (proj2 (Z.eqb_neq op OpDocIndex)) by done.
  repeat (apply embedded_if; [by auto with copies|]). reflexivity.
Qed.

(** ** Whole requests *)

Lemma DecodeRequest_alike data :
  opcode data ∉ changed_ops -> embedded (Pkg.DecodeRequest data) = DecodeRequest data.
Proof.
  intros Hop. unfold Pkg.DecodeRequest, DecodeRequest.
  destruct (Z.ltb_spec (len data) 5); [done|]. rewrite index_0, !bind_ok by lia.
  do 2 (apply embedded_bind; intros ?). apply embedded_if; [done|].
  apply embedded_bind; intros ?. by apply payloads_alike.
Qed.

(** The calls of the first copy that the second one encodes. *)
Definition pkg_encode (c : ClientCall) : option (result bytes) :=
  match c with
  | CallSet k v => Some (Pkg.EncodeSetRequest k v)
  | CallGet k => Some (Pkg.EncodeGetRequest k)
  | CallDelete k => Some (Pkg.EncodeDeleteRequest k)
  | CallExists k => Some (Pkg.EncodeExistsRequest k)
  | CallIncr k => Some (Pkg.EncodeIncrRequest k)
  | CallDecr k => Some (Pkg.EncodeDecrRequest k)
  | CallMSet kvs => Some (Pkg.EncodeMSetRequest (map fst kvs) (map snd kvs))
  | CallMGet ks => Some (Pkg.EncodeMGetRequest ks)
  | CallMDelete ks => Some (Pkg.EncodeMDeleteRequest ks)
  | CallQPush q v => Some (Pkg.EncodeQPushRequest q v)
  | CallQPop q => Some (Pkg.EncodeQPopRequest q)
  | CallQPeek q => Some (Pkg.EncodeQPeekRequest q)
  | CallQLen q => Some (Pkg.EncodeQLenRequest q)
  | CallQClear q => Some (Pkg.EncodeQClearRequest q)
  | CallSPublish t p k v => Some (Pkg.EncodeSPublishRequest t p k v)
  | CallSConsume t g c n => Some (Pkg.EncodeSConsumeRequest t g c n)
  | CallSCommit t g p o => Some (Pkg.EncodeSCommitRequest t g p o)
  | CallSCreateTopic t p ms => Some (Pkg.EncodeSCreateTopicRequest t p ms)
  | CallSSubscribe t g c => Some (Pkg.EncodeSSubscribeRequest t g c)
  | CallSUnsubscribe t g c => Some (Pkg.EncodeSUnsubscribeRequest t g c)
  | CallDocInsert c v => Some (Pkg.EncodeDocInsertRequest c v)
  | CallDocFind c v => Some (Pkg.EncodeDocFindRequest c v)
  | CallDocDelete c v => Some (Pkg.EncodeDocDeleteRequest c v)
  | CallSPublishBatch _ _ | CallDocUpdate _ _ | CallDocIndex _ _ => None
  end.

Lemma pkg_encode_alike c bs : pkg_encode c = Some bs -> bs = encode_call c.
Proof. destruct c; cbn [pkg_encode encode_call]; intros [= <-]; reflexivity. Qed.

Lemma pkg_encode_unchanged c bs : pkg_encode c = Some bs -> OpCode (intended c) ∉ changed_ops.
Proof.
  destruct c; cbn [pkg_encode]; try done; intros _; unfold changed_ops;
    rewrite !not_elem_of_cons; split_and!; try done; apply not_elem_of_nil.
Qed.

(** Read the header of a whole frame. *)
Ltac whole_frame op p rest :=
  let H := fresh in let Hop := fresh in let Hp := fresh in
  destruct (frame_header op p rest) as (? & H & Hop & Hp & ?); [lia|];
  pose proof (len_nonneg p); pose proof (len_nonneg rest);
  rewrite (proj2 (Z.ltb_ge _ _)), index_0, bind_ok by lia;
  rewrite <- bind_assoc, length_field, bind_ok, H by lia; unfold uint32; rewrite Z.mod_small by lia;
  rewrite (proj2 (Z.ltb_ge _ _)), slice_ok, bind_ok, Z.add_simpl_l by lia; rewrite ?Hop, ?Hp.

Lemma Pkg_DecodeRequest_frame op p rest :
  len p < 2 ^ 32 - 5 -> Pkg.DecodeRequest (frame op p ++ rest) = Pkg.decodePayload op p.
Proof. intros Hlen. unfold Pkg.DecodeRequest. by whole_frame op p rest. Qed.

(** ** The updates of documents

    The second copy spells a query and an update, the first one value that holds
    both. *)
Lemma Pkg_EncodeDocUpdateRequest_frame c q u :
  Pkg.EncodeDocUpdateRequest c q u = Ok (frame OpDocUpdate ((str16 c ++ blob32 q) ++ blob32 u)).
Proof. unfold Pkg.EncodeDocUpdateRequest. encodes. Qed.

Definition update_request (c q u : bytes) : Pkg.Request :=
  Pkg.set_Values [u] (Pkg.set_Value q (Pkg.set_Collection c (Pkg.newRequest Pkg.OpDocUpdate))).

Lemma Pkg_decodeDocUpdateRequest_complete c q u junk :
  short c -> long q -> long u ->
  Pkg.decodeDocUpdateRequest (((str16 c ++ blob32 q) ++ blob32 u) ++ junk) = Ok (update_request c q u).
Proof. complete Pkg.decodeDocUpdateRequest. Qed.

(** An update with nothing behind its value is cut short. *)
Lemma Pkg_decodeDocUpdateRequest_short c v :
  short c -> long v ->
  Pkg.decodeDocUpdateRequest (str16 c ++ blob32 v) = Err (errorf "invalid DOCUPDATE payload").
Proof.
  rewrite <- (app_nil_r (str16 c ++ blob32 v)).
  intros. unfold Pkg.decodeDocUpdateRequest, short, long, u16, u32, str16, blob32 in *. cbv zeta.
  go_read. by rewrite (proj2 (Z.ltb_lt _ _)) by len_lia.
Qed.

(** ** Responses *)

Definition embed_response (r : Pkg.Response) : Response :=
  mkResponse (Pkg.Status r) (Pkg.RValue r) (Pkg.RValues r) (Pkg.RError r).

Lemma response_bind {A} (m : result A) (k : A -> result Pkg.Response) k' :
  (forall x, (r ← k x; Ok (embed_response r)) = k' x) ->
  (r ← (x ← m; k x); Ok (embed_response r)) = x ← m; k' x.
Proof. intros H. destruct m; cbn; [apply H|done..]. Qed.

(** The statuses of which the copies think differently. *)
Definition changed_statuses : list byte := [StatusKeyExists; StatusMultiValue].

Lemma DecodeResponse_alike data :
  opcode data ∉ changed_statuses ->
  (r ← Pkg.DecodeResponse data; Ok (embed_response r)) = DecodeResponse data.
Proof.
  unfold changed_statuses. rewrite !not_elem_of_cons. intros (H1 & H2 & _).
  unfold Pkg.DecodeResponse, DecodeResponse.
  destruct (Z.ltb_spec (len data) 5); [done|]. rewrite index_0, !bind_ok by lia.
  do 2 (apply response_bind; intros ?). destruct (_ <? _); [done|]. apply response_bind; intros payload.
  rewrite (proj2 (Z.eqb_neq (opcode data) Pkg.StatusMultiValue)),
    (proj2 (Z.eqb_neq (opcode data) StatusMultiValue)) by done.
  change Pkg.StatusOK with StatusOK. change Pkg.StatusError with StatusError.
  change Pkg.StatusNotFound with StatusNotFound.
  destruct (_ =? StatusOK); [by destruct (0 <? len payload)|].
  destruct (_ =? StatusError); [done|]. by destruct (_ =? StatusNotFound).
Qed.

Lemma Pkg_EncodeMultiValueResponse_frame vs :
  Pkg.EncodeMultiValueResponse vs = Ok (frame Pkg.StatusMultiValue (be16 (len vs) ++ cat blob32 vs)).
Proof.
  unfold Pkg.EncodeMultiValueResponse. rewrite (for_each_size blob32) by (intros; len_lia).
  rewrite bind_ok. go_write. rewrite (for_each_write blob32); [|..|len_lia|len_lia].
  - rewrite bind_ok. unfold mret, result_ret. cbn [fst]. same_frame.
  - intros. go_write. same_step.
Qed.

(** The second copy encodes the other answers as the first one. *)
Definition pkg_reply (r : Reply) : result bytes :=
  match r with
  | ReplyOK => Pkg.EncodeOKResponse
  | ReplyValue v => Pkg.EncodeValueResponse v
  | ReplyMulti vs => Pkg.EncodeMultiValueResponse vs
  | ReplyError e => Pkg.EncodeErrorResponse e
  end.

(** ** Properties *)

(** C32: on any bytes but a document update, a batch publish or an index request,
    the parsers of the two copies agree: the same request, the same error, or the
    same panic. *)
Theorem copies_decode_alike data :
  opcode data ∉ changed_ops -> embedded (Pkg.DecodeRequest data) = DecodeRequest data.
Proof. apply DecodeRequest_alike. Qed.

Lemma copies_decode_alike_witness :
  let data := [OpGet; 0; 0; 0; 2; 255; 255] in
  DecodeRequest data = Panic /\ embedded (Pkg.DecodeRequest data) = DecodeRequest data.
Proof.
  intros data. split; [by vm_compute|]. apply (copies_decode_alike data).
  by apply (bool_decide_unpack _).
Defined.

(** A call that both copies can encode is encoded alike and understood by both. *)
Theorem copies_interoperate c bs rest :
  pkg_encode c = Some bs -> fits c ->
  exists data, bs = Ok data /\ encode_call c = Ok data /\
    DecodeRequest (data ++ rest) = Ok (intended c) /\
    embedded (Pkg.DecodeRequest (data ++ rest)) = Ok (intended c).
Proof.
  intros E Hf. pose proof (pkg_encode_unchanged c bs E) as Hc. apply pkg_encode_alike in E as ->.
  destruct (encode_call_wire c Hf) as (w & HW & Hlen & ->). eexists. split_and!; [done..| |].
  all: rewrite ?DecodeRequest_alike, ?DecodeRequest_frame by
    (try (destruct (frame_header (OpCode (intended c)) w rest) as (_ & _ & -> & _); [lia|done]); done).
  all: rewrite <- (app_nil_r w); by apply decodePayload_complete.
Qed.

(** A document update that a program of pkg/protocol sends is read back by
    that copy, but by the server of internal/net without its update: the request
    holds the query alone, and what follows it is dropped. *)
Theorem update_is_lost_between_copies c q u rest :
  short c -> len q < 2 ^ 31 -> len u < 2 ^ 30 ->
  exists data, Pkg.EncodeDocUpdateRequest c q u = Ok data /\
    Pkg.DecodeRequest (data ++ rest) = Ok (update_request c q u) /\
    DecodeRequest (data ++ rest) = Ok (doc_request OpDocUpdate c q).
Proof.
  intros Hc Hq Hu. unfold short, u16 in Hc.
  eexists. split; [apply Pkg_EncodeDocUpdateRequest_frame|]. split.
  - rewrite Pkg_DecodeRequest_frame by len_lia. rewrite <- (app_nil_r (_ ++ blob32 u)).
    apply Pkg_decodeDocUpdateRequest_complete; unfold short, long, u16, u32; len_lia.
  - rewrite DecodeRequest_frame by len_lia.
    apply decodeDocUpdateRequest_complete; unfold short, long, u16, u32; len_lia.
Qed.

Lemma update_is_lost_between_copies_witness :
  exists data, Pkg.EncodeDocUpdateRequest (str "c") (str "{}") (str "[1]") = Ok data /\
    Pkg.DecodeRequest (data ++ []) = Ok (update_request (str "c") (str "{}") (str "[1]")) /\
    DecodeRequest (data ++ []) = Ok (doc_request OpDocUpdate (str "c") (str "{}")).
Proof. apply (update_is_lost_between_copies (str "c") (str "{}") (str "[1]")); by vm_compute. Defined.

(** An update of the first copy is refused by the second. *)
Theorem update_is_refused_between_copies c v rest :
  short c -> len v < 2 ^ 31 ->
  (data ← EncodeDocUpdateRequest c v; Pkg.DecodeRequest (data ++ rest))
  = Err (errorf "invalid DOCUPDATE payload").
Proof.
  intros Hc Hv. unfold short, u16 in Hc.
  rewrite EncodeDocUpdateRequest_frame, bind_ok, Pkg_DecodeRequest_frame by len_lia.
  apply Pkg_decodeDocUpdateRequest_short; unfold short, long, u16, u32; len_lia.
Qed.

(** Every other answer is encoded alike and read alike. *)
Theorem answers_between_copies r rest :
  reply_fits r -> Status (reply_response r) <> StatusMultiValue ->
  pkg_reply r = encode_reply r /\
  (data ← pkg_reply r; res ← Pkg.DecodeResponse (data ++ rest); Ok (embed_response res)) = Ok (reply_response r).
Proof.
  intros Hr Hs. assert (E : pkg_reply r = encode_reply r) by (by destruct r).
  split; [done|]. rewrite E, encode_reply_frame, bind_ok, DecodeResponse_alike.
  - by apply decode_reply.
  - destruct (frame_header (Status (reply_response r)) (reply_payload r) rest) as (_ & _ & -> & _);
      [destruct Hr; lia|].
    destruct r; cbn in *; try done; unfold changed_statuses; rewrite !not_elem_of_cons;
      split_and!; try done; apply not_elem_of_nil.
Qed.

(** Answers with several values are refused in both directions: the copies give
    them different statuses. *)
Theorem values_are_refused_between_copies vs rest :
  2 + len (cat blob32 vs) < 2 ^ 32 - 5 ->
  (data ← EncodeMultiValueResponse vs; Pkg.DecodeResponse (data ++ rest))
    = Err (errorf "unknown status: 4") /\
  (data ← Pkg.EncodeMultiValueResponse vs; DecodeResponse (data ++ rest))
    = Err (errorf "unknown status: 3").
Proof.
  intros Hl. rewrite EncodeMultiValueResponse_frame, Pkg_EncodeMultiValueResponse_frame, !bind_ok.
  set (p := be16 (len vs) ++ cat blob32 vs).
  assert (len p < 2 ^ 32 - 5) by (unfold p; len_lia). split.
  - unfold Pkg.DecodeResponse. by whole_frame StatusMultiValue p rest.
  - by rewrite DecodeResponse_frame by done.
Qed.
