(* ===== verification/Badger.v ===== *)
(** The storage engine (github.com/dgraph-io/badger), which is not part of the
    repository: the operations the storages call, as the type classes [Badger]
    and [BadgerBatch] (entries with a time to live, write batches, maintenance),
    and what they rely on, as the classes [BadgerLaws] and [BadgerBatchLaws]; a
    calculus that walks through a transaction; and instances over finite maps. *)
From stdpp Require Import base list numbers gmap sorting strings.
From Stdlib Require Import ZArith Lia.
From S2P Require Import Prelude Fmt.

(** The instances are written out so that they are never inferred from a
    context. *)
Abbreviation bmap A :=
  (@gmap bytes (@list.list_eq_dec Z numbers.Z.eq_dec)
     (@list_countable Z numbers.Z.eq_dec Z_countable) A).
Abbreviation store := (bmap bytes).
Abbreviation ttls := (bmap Z).

(** [badger.ErrKeyNotFound] *)
Definition ErrKeyNotFound : error :=
  Sentinel "badger.ErrKeyNotFound" (str "Key not found").

(** ** The operations

    A transaction is threaded through the closure given to [Update]; its
    result is the transaction to commit and the values the closure assigns.
    [View] runs a closure that only reads.  An iterator over a prefix is the
    list of its items in the order of iteration. *)
Class Badger : Type := {
  DB : Type;
  Txn : Type;
  Item : Type;
  Update : forall {A}, DB -> (Txn -> result (Txn * A)) -> DB * result A;
  View : forall {A}, DB -> (Txn -> result A) -> result A;
  TxnGet : Txn -> bytes -> result Item;
  TxnSet : Txn -> bytes -> bytes -> result Txn;
  TxnDelete : Txn -> bytes -> result Txn;
  Iterate : Txn -> bytes -> list Item;
  ItemKey : Item -> bytes;
  ItemValue : Item -> result bytes;
}.

(** The order of an iteration: bytewise, strictly increasing. *)
Definition lex_lt (a b : bytes) : Prop := lex_leb a b = true /\ a <> b.

(** ** What the storages rely on

    [contents] is the committed state of a database and [snapshot] what a
    transaction reads, its own writes included; [expiry] and [snapshot_expiry]
    are the times to live of the keys that have one.  The engine may refuse any
    call with an error of its own, a [fault]; then nothing has changed. *)
Class BadgerLaws {bdg : Badger} : Type := {
  contents : DB -> store;
  expiry : DB -> ttls;
  snapshot : Txn -> store;
  snapshot_expiry : Txn -> ttls;
  item_value : Item -> bytes;
  fault : error -> Prop;
  fault_external : forall e, fault e -> exists msg, e = External msg;
  Update_law : forall A (db : DB) (f : Txn -> result (Txn * A)),
    let '(db', r) := Update db f in
    (contents db' = contents db /\ expiry db' = expiry db /\ exists e, r = Err e /\ fault e) \/
    exists t0, snapshot t0 = contents db /\ snapshot_expiry t0 = expiry db /\
      match f t0 with
      | Ok (t, a) => r = Ok a /\ contents db' = snapshot t /\ expiry db' = snapshot_expiry t
      | Err e => r = Err e /\ contents db' = contents db /\ expiry db' = expiry db
      | Panic => r = Panic /\ contents db' = contents db /\ expiry db' = expiry db
      end;
  View_law : forall A (db : DB) (f : Txn -> result A),
    (exists e, View db f = Err e /\ fault e) \/
    exists t0, snapshot t0 = contents db /\ snapshot_expiry t0 = expiry db /\
      View db f = f t0;
  TxnGet_law : forall t k, k <> [] ->
    match TxnGet t k with
    | Ok i => snapshot t !! k = Some (item_value i)
    | Err e => fault e \/ (e = ErrKeyNotFound /\ snapshot t !! k = None)
    | Panic => False
    end;
  TxnSet_law : forall t k v, k <> [] ->
    match TxnSet t k v with
    | Ok t' => snapshot t' = <[k := v]> (snapshot t) /\
        snapshot_expiry t' = delete k (snapshot_expiry t)
    | Err e => fault e
    | Panic => False
    end;
  TxnDelete_law : forall t k, k <> [] ->
    match TxnDelete t k with
    | Ok t' => snapshot t' = delete k (snapshot t) /\
        snapshot_expiry t' = delete k (snapshot_expiry t)
    | Err e => fault e
    | Panic => False
    end;
  Iterate_law : forall t p,
    StronglySorted lex_lt (map ItemKey (Iterate t p)) /\
    forall k v, (k, v) ∈ map (fun i => (ItemKey i, item_value i)) (Iterate t p) <->
      snapshot t !! k = Some v /\ p `prefix_of` k;
  ItemValue_law : forall i,
    ItemValue i = Ok (item_value i) \/ exists e, ItemValue i = Err e /\ fault e;
}.

(** An engine that refuses nothing. *)
Class BadgerReliable {bdg : Badger} {laws : BadgerLaws} : Prop :=
  no_fault : forall e, ~ fault e.

(** ** A calculus for transactions

    [wp E m Q]: [m] does not panic; a value it returns satisfies [Q]; an
    error it returns is a fault of the engine or satisfies [E]. *)
Section Calculus.
Context {bdg : Badger} {laws : BadgerLaws}.
Implicit Types (E : error -> Prop) (t : Txn).

Definition wp {A} E (m : result A) (Q : A -> Prop) : Prop :=
  match m with Ok a => Q a | Err e => fault e \/ E e | Panic => False end.

(** The outcome of an operation on [db]: a failed one changes nothing. *)
Definition served {A} (db : DB) (x : DB * result A) E (Q : store -> A -> Prop) : Prop :=
  match x.2 with
  | Ok a => Q (contents x.1) a
  | Err e => contents x.1 = contents db /\ (fault e \/ E e)
  | Panic => False
  end.

(** The same, with the times to live. *)
Definition served_full {A} (db : DB) (x : DB * result A) E (Q : store -> ttls -> A -> Prop)
    : Prop :=
  match x.2 with
  | Ok a => Q (contents x.1) (expiry x.1) a
  | Err e => (contents x.1 = contents db /\ expiry x.1 = expiry db) /\ (fault e \/ E e)
  | Panic => False
  end.

Lemma wp_bind {A B} E (m : result A) (f : A -> result B) Q :
  wp E m (fun a => wp E (f a) Q) -> wp E (m ≫= f) Q.
Proof. by destruct m. Qed.

Lemma wp_mono {A} E (m : result A) (Q Q' : A -> Prop) :
  wp E m Q -> (forall a, Q a -> Q' a) -> wp E m Q'.
Proof. destruct m; cbn; auto. Qed.

(** [err == badger.ErrKeyNotFound] is false for a fault. *)
Lemma fault_not_found e : fault e -> is_sentinel e ErrKeyNotFound = false.
Proof. intros H. by destruct (fault_external e H) as [msg ->]. Qed.

Lemma wp_get {B} E t k h (f : Item -> result B) Q :
  k <> [] ->
  (forall i, snapshot t !! k = Some (item_value i) -> wp E (f i) Q) ->
  (snapshot t !! k = None -> wp E (h ErrKeyNotFound) Q) ->
  (forall e, fault e -> wp E (h e) Q) ->
  wp E (on_err (TxnGet t k) h f) Q.
Proof.
  intros Hk Hf Hn He. pose proof (TxnGet_law t k Hk) as HG.
  destruct (TxnGet t k) as [i|e|]; cbn; [auto| |done].
  destruct HG as [?|[-> ?]]; auto.
Qed.

Lemma wp_get_some {B} E t k (f : Item -> result B) Q v :
  k <> [] -> snapshot t !! k = Some v ->
  (forall i, item_value i = v -> wp E (f i) Q) -> wp E (TxnGet t k ≫= f) Q.
Proof.
  intros Hk Hv Hf. pose proof (TxnGet_law t k Hk) as HG.
  destruct (TxnGet t k) as [i|e|]; cbn; [|by destruct HG as [?|[? ?]]; [left|congruence]|done].
  apply Hf. congruence.
Qed.

Lemma wp_value {B} E i (f : bytes -> result B) Q :
  wp E (f (item_value i)) Q -> wp E (ItemValue i ≫= f) Q.
Proof. destruct (ItemValue_law i) as [->|(e & -> & ?)]; cbn; auto. Qed.

Lemma wp_set_full {B} E t k v (f : Txn -> result B) Q :
  k <> [] ->
  (forall t', snapshot t' = <[k := v]> (snapshot t) ->
     snapshot_expiry t' = delete k (snapshot_expiry t) -> wp E (f t') Q) ->
  wp E (TxnSet t k v ≫= f) Q.
Proof.
  intros Hk Hf. pose proof (TxnSet_law t k v Hk) as HS.
  destruct (TxnSet t k v); cbn; [apply Hf; apply HS|auto|done].
Qed.

Lemma wp_delete_full {B} E t k (f : Txn -> result B) Q :
  k <> [] ->
  (forall t', snapshot t' = delete k (snapshot t) ->
     snapshot_expiry t' = delete k (snapshot_expiry t) -> wp E (f t') Q) ->
  wp E (TxnDelete t k ≫= f) Q.
Proof.
  intros Hk Hf. pose proof (TxnDelete_law t k Hk) as HD.
  destruct (TxnDelete t k); cbn; [apply Hf; apply HD|auto|done].
Qed.

Lemma wp_set {B} E t k v (f : Txn -> result B) Q :
  k <> [] ->
  (forall t', snapshot t' = <[k := v]> (snapshot t) -> wp E (f t') Q) ->
  wp E (TxnSet t k v ≫= f) Q.
Proof. intros Hk Hf. by apply wp_set_full; [|auto]. Qed.

Lemma wp_delete {B} E t k (f : Txn -> result B) Q :
  k <> [] ->
  (forall t', snapshot t' = delete k (snapshot t) -> wp E (f t') Q) ->
  wp E (TxnDelete t k ≫= f) Q.
Proof. intros Hk Hf. by apply wp_delete_full; [|auto]. Qed.

Lemma served_full_update {A} E (db : DB) (f : Txn -> result (Txn * A)) Q :
  (forall t, snapshot t = contents db -> snapshot_expiry t = expiry db ->
     wp E (f t) (fun ta => Q (snapshot ta.1) (snapshot_expiry ta.1) ta.2)) ->
  served_full db (Update db f) E Q.
Proof.
  intros H. pose proof (Update_law A db f) as HU. unfold served_full.
  destruct (Update db f) as [db' r]. cbn [fst snd].
  destruct HU as [(Hc & Hx & e & -> & He)|(t0 & Ht0 & Hx0 & HU)]; [by auto|].
  specialize (H t0 Ht0 Hx0). unfold wp in H. destruct (f t0) as [[t a]|e|]; [|..|done].
  - destruct HU as (-> & -> & ->). exact H.
  - destruct HU as (-> & -> & ->). auto.
Qed.

Lemma served_weaken {A} (db : DB) (x : DB * result A) E Q :
  served_full db x E (fun m _ => Q m) -> served db x E Q.
Proof. unfold served, served_full. destruct (x.2); tauto. Qed.

Lemma served_update {A} E (db : DB) (f : Txn -> result (Txn * A)) Q :
  (forall t, snapshot t = contents db -> wp E (f t) (fun ta => Q (snapshot ta.1) ta.2)) ->
  served db (Update db f) E Q.
Proof. intros H. apply served_weaken, served_full_update. auto. Qed.

Lemma wp_view {A} E (db : DB) (f : Txn -> result A) Q :
  (forall t, snapshot t = contents db -> wp E (f t) Q) -> wp E (View db f) Q.
Proof.
  intros H. destruct (View_law A db f) as [(e & -> & ?)|(t0 & Ht0 & _ & ->)]; cbn; auto.
Qed.

(** A counted loop with an invariant. *)
Lemma wp_for_n {S} E (n : nat) (i : Z) (s : S) body (I : Z -> S -> Prop) :
  I i s ->
  (forall j s, i <= j < i + Z.of_nat n -> I j s -> wp E (body s j) (I (j + 1))) ->
  wp E (for_n n i s body) (I (i + Z.of_nat n)).
Proof.
  revert i s. induction n as [|n IH]; intros i s H0 Hstep; cbn [for_n].
  - by rewrite Z.add_0_r.
  - apply wp_bind. eapply wp_mono; [apply Hstep; [lia|done]|]. intros s' Hs'.
    replace (i + Z.of_nat (Datatypes.S n)) with (i + 1 + Z.of_nat n) by lia.
    apply IH; [done|]. intros j s'' Hj. apply Hstep. lia.
Qed.

(** A loop over a slice with an invariant of what was processed. *)
Lemma wp_for_each {A S} E (l : list A) (s : S) body (I : list A -> S -> Prop) :
  I [] s ->
  (forall done x s, I done s -> wp E (body s x) (I (done ++ [x]))) ->
  wp E (for_each l s body) (I l).
Proof.
  intros H0 Hstep.
  enough (Hgen : forall done s, I done s -> wp E (for_each l s body) (I (done ++ l)))
    by exact (Hgen [] s H0).
  clear s H0. induction l as [|x l IH]; intros dn s Hs; cbn [for_each].
  - by rewrite app_nil_r.
  - apply wp_bind. eapply wp_mono; [by apply Hstep|].
    intros s' Hs'. specialize (IH _ _ Hs'). by rewrite <- app_assoc in IH.
Qed.

Lemma served_ok {A} (db : DB) (x : DB * result A) E Q a :
  served db x E Q -> x.2 = Ok a -> Q (contents x.1) a.
Proof. unfold served. by intros H Ha; rewrite Ha in H. Qed.

(** On an engine without faults the outcome is the specified one. *)
Lemma served_reliable `{!BadgerReliable} {A} (db : DB) (x : DB * result A) E Q :
  served db x E Q ->
  match x.2 with
  | Ok a => Q (contents x.1) a
  | Err e => contents x.1 = contents db /\ E e
  | Panic => False
  end.
Proof.
  unfold served. destruct (x.2); [done| |done]. intros [? [Hf|?]]; [|done].
  by destruct (no_fault _ Hf).
Qed.
End Calculus.

(** Step over a write, naming the transaction after it. *)
Tactic Notation "txn_write" ident(t) ident(H) :=
  lazymatch goal with
  | |- wp _ (TxnSet _ _ _ ≫= _) _ => apply wp_set; [done|intros t H]
  | |- wp _ (TxnDelete _ _ ≫= _) _ => apply wp_delete; [done|intros t H]
  end; cbv beta.

(** ** An instance: a finite map, no faults *)

Section Memory.
Definition by_key (x y : bytes * bytes) : Prop := lex_leb x.1 y.1 = true.

#[export] Instance by_key_dec x y : Decision (by_key x y).
Proof. unfold by_key. apply _. Defined.

#[export] Instance by_key_trans : Transitive by_key.
Proof. intros x y z. apply lex_leb_trans. Qed.
#[export] Instance by_key_total : Total by_key.
Proof. intros x y. destruct (lex_leb_total x.1 y.1); auto. Qed.

Definition mem_items (m : store) (p : bytes) : list (bytes * bytes) :=
  merge_sort by_key (filter (fun kv => p `prefix_of` kv.1) (map_to_list m)).

(** A database and a transaction are both a store with its times to live. *)
Record mem : Type := mkMem { mem_store : store; mem_ttls : ttls }.
Definition mem_empty : mem := mkMem ∅ ∅.
Definition mem_set (d : mem) (k v : bytes) : mem :=
  mkMem (<[k := v]> (mem_store d)) (delete k (mem_ttls d)).
Definition mem_delete (d : mem) (k : bytes) : mem :=
  mkMem (delete k (mem_store d)) (delete k (mem_ttls d)).

#[export] Instance mem_badger : Badger := {|
  DB := mem;
  Txn := mem;
  Item := bytes * bytes;
  Update A db f := match f db with
                   | Ok (t, a) => (t, Ok a)
                   | Err e => (db, Err e)
                   | Panic => (db, Panic)
                   end;
  View A db f := f db;
  TxnGet t k := match mem_store t !! k with
                | Some v => Ok (k, v)
                | None => Err ErrKeyNotFound
                end;
  TxnSet t k v := Ok (mem_set t k v);
  TxnDelete t k := Ok (mem_delete t k);
  Iterate t p := mem_items (mem_store t) p;
  ItemKey := fst;
  ItemValue i := Ok i.2;
|}.

Lemma sorted_strict (l : list (bytes * bytes)) :
  StronglySorted by_key l -> NoDup l.*1 -> StronglySorted lex_lt (map fst l).
Proof.
  induction 1 as [|x l HS IH HF]; cbn; intros HN; constructor; inversion_clear HN; auto.
  apply Forall_map, Forall_forall. intros y Hy. split.
  - rewrite Forall_forall in HF. by apply HF.
  - intros E. apply H. rewrite E. by apply list_elem_of_fmap_2.
Qed.

Lemma mem_items_law m p :
  StronglySorted lex_lt (map fst (mem_items m p)) /\
  forall k v, (k, v) ∈ map (fun i => (i.1, i.2)) (mem_items m p) <->
    m !! k = Some v /\ p `prefix_of` k.
Proof.
  assert (HP : mem_items m p ≡ₚ filter (fun kv => p `prefix_of` kv.1) (map_to_list m))
    by apply merge_sort_Permutation.
  split.
  - apply sorted_strict; [apply (StronglySorted_merge_sort by_key)|].
    rewrite HP. apply NoDup_fmap_fst, NoDup_filter, NoDup_map_to_list.
    intros k v v'. rewrite !list_elem_of_filter. intros [_ Hv] [_ Hv'].
    by apply (map_to_list_unique m k).
  - intros k v. rewrite (map_ext _ id), map_id by (by intros []).
    rewrite HP, list_elem_of_filter, elem_of_map_to_list. cbn. tauto.
Qed.

#[export, refine] Instance mem_laws : BadgerLaws := {|
  contents := mem_store;
  expiry := mem_ttls;
  snapshot := mem_store;
  snapshot_expiry := mem_ttls;
  item_value := snd;
  fault _ := False;
|}.
Proof.
  - done.
  - intros A db f. cbn. destruct (f db) as [[t a]|e|] eqn:E; right; exists db; by rewrite E.
  - intros A db f. right. by exists db.
  - intros t k _. cbn. destruct (mem_store t !! k); cbn; auto.
  - done.
  - done.
  - intros t p. apply mem_items_law.
  - intros i. by left.
Defined.

#[export] Instance mem_reliable : BadgerReliable.
Proof. intros e []. Qed.
End Memory.

(** ** Lists of entries *)

(** Strictly sorted entries are determined by their elements. *)
Lemma entries_unique (l k : list (bytes * bytes)) :
  StronglySorted lex_lt (map fst l) -> StronglySorted lex_lt (map fst k) ->
  (forall x, x ∈ l <-> x ∈ k) -> l = k.
Proof.
  intros Hl Hk Hin. set (R := fun x y : bytes * bytes => lex_lt x.1 y.1).
  assert (HR : forall l : list (bytes * bytes), StronglySorted lex_lt (map fst l) -> StronglySorted R l).
  { clear. induction l as [|x l IH]; cbn; intros H; [constructor|].
    apply StronglySorted_inv in H as [H HF]. constructor; [auto|].
    rewrite Forall_map in HF. exact HF. }
  assert (Hnd : forall l : list (bytes * bytes), StronglySorted lex_lt (map fst l) -> NoDup l).
  { clear. induction l as [|x l IH]; cbn; intros H; [constructor|].
    apply StronglySorted_inv in H as [H HF]. constructor; [|auto].
    intros Hx. rewrite Forall_map, Forall_forall in HF. by destruct (HF x Hx). }
  assert (AntiSymm (=) R).
  { intros x y [H1 Hne] [H2 _]. destruct Hne. by apply lex_leb_antisym. }
  apply (StronglySorted_unique R); [by apply HR..|].
  apply NoDup_Permutation; auto.
Qed.

Section Entries.
Context {bdg : Badger} {laws : BadgerLaws}.

(** An iteration lists the entries of the map under the prefix. *)
Lemma iterate_items t p :
  map (fun i => (ItemKey i, item_value i)) (Iterate t p) = mem_items (snapshot t) p.
Proof.
  destruct (Iterate_law t p) as [Hs Hin]. destruct (mem_items_law (snapshot t) p) as [Hs' Hin'].
  apply entries_unique; [by rewrite map_map|done|].
  intros [k v]. rewrite Hin, <- Hin'. rewrite (map_ext _ id), map_id by (by intros []). done.
Qed.
End Entries.

(** ** The operations

    A batch collects writes and may commit a part of them before [Flush]; a
    cancelled batch commits nothing more.  [txn.SetEntry(NewEntry(k, v).WithTTL(d))]
    is [TxnSetTTL].

    An operation takes no time.  Between operations it passes: [Elapse d db] is
    the database that [db] is [d] nanoseconds later. *)
Class BadgerBatch {bdg : Badger} : Type := {
  Batch : Type;
  TxnSetTTL : Txn -> bytes -> bytes -> Z -> result Txn;
  NewWriteBatch : DB -> Batch;
  BatchSet : Batch -> bytes -> bytes -> result Batch;
  BatchSetTTL : Batch -> bytes -> bytes -> Z -> result Batch;
  BatchDelete : Batch -> bytes -> result Batch;
  Flush : DB -> Batch -> DB * result unit;
  Cancel : DB -> Batch -> DB;
  DBClose : DB -> DB * result unit;
  DBSync : DB -> DB * result unit;
  RunValueLogGC : DB -> DB * result unit;
  Elapse : Z -> DB -> DB;
}.

(** ** Writes *)

Inductive write : Type :=
| WSet (k v : bytes) (ttl : option Z)
| WDelete (k : bytes).

Definition apply_write (w : write) (m : store) : store :=
  match w with WSet k v _ => <[k := v]> m | WDelete k => delete k m end.
Definition apply_ttl (w : write) (x : ttls) : ttls :=
  match w with
  | WSet k _ (Some d) => <[k := d]> x
  | WSet k _ None | WDelete k => delete k x
  end.
Definition apply_writes (ws : list write) (m : store) : store :=
  foldl (fun m w => apply_write w m) m ws.
Definition apply_ttls (ws : list write) (x : ttls) : ttls :=
  foldl (fun x w => apply_ttl w x) x ws.

(** ** What is relied on *)

Definition unchanged {bdg : Badger} {laws : BadgerLaws} (db : DB) (x : DB * result unit) : Prop :=
  contents x.1 = contents db /\ expiry x.1 = expiry db /\
  (x.2 = Ok tt \/ exists e, x.2 = Err e /\ fault e).

(** [m'] and [x'] are the entries [m] and their times to live [x] after [d]
    nanoseconds.  An entry without a time to live stays; one with [r] left is there
    with [r - d] left, or has lapsed.  The engine keeps the end of a time to live
    in whole seconds, rounded down, so that an entry is gone for certain once [r]
    has passed, and may be up to a second earlier. *)
Definition lapse (d : Z) (m : store) (x : ttls) (m' : store) (x' : ttls) : Prop :=
  forall k, match x !! k with
    | None => m' !! k = m !! k /\ x' !! k = None
    | Some r => (r < d + second /\ m' !! k = None /\ x' !! k = None) \/
                (d < r /\ m' !! k = m !! k /\ x' !! k = Some (r - d))
    end.

Definition later {bdg : Badger} {laws : BadgerLaws} (d : Z) (db db' : DB) : Prop :=
  lapse d (contents db) (expiry db) (contents db') (expiry db').

(** Without times to live, nothing lapses. *)
Lemma lapse_permanent d m m' x' : lapse d m ∅ m' x' -> m' = m /\ x' = ∅.
Proof.
  intros H. split; apply map_eq; intros k; specialize (H k); rewrite lookup_empty in H; [by destruct H|].
  rewrite lookup_empty. by destruct H.
Qed.

Lemma lapse_keeps d m x m' x' k v : lapse d m x m' x' -> m' !! k = Some v -> m !! k = Some v.
Proof.
  intros H Hk. specialize (H k). destruct (x !! k); [|by destruct H; congruence].
  destruct H as [(_ & H & _)|(_ & H & _)]; congruence.
Qed.

(** Times to live below a second may have passed when the write returns. *)
Class BadgerBatchLaws {bdg : Badger} {laws : BadgerLaws} {batch : BadgerBatch} : Type := {
  writes : Batch -> list write;
  TxnSetTTL_law : forall t k v d, k <> [] -> second <= d ->
    match TxnSetTTL t k v d with
    | Ok t' => snapshot t' = <[k := v]> (snapshot t) /\
        snapshot_expiry t' = <[k := d]> (snapshot_expiry t)
    | Err e => fault e
    | Panic => False
    end;
  NewWriteBatch_law : forall db, writes (NewWriteBatch db) = [];
  BatchSet_law : forall b k v, k <> [] ->
    match BatchSet b k v with
    | Ok b' => writes b' = writes b ++ [WSet k v None]
    | Err e => fault e
    | Panic => False
    end;
  BatchSetTTL_law : forall b k v d, k <> [] -> second <= d ->
    match BatchSetTTL b k v d with
    | Ok b' => writes b' = writes b ++ [WSet k v (Some d)]
    | Err e => fault e
    | Panic => False
    end;
  BatchDelete_law : forall b k, k <> [] ->
    match BatchDelete b k with
    | Ok b' => writes b' = writes b ++ [WDelete k]
    | Err e => fault e
    | Panic => False
    end;
  Flush_law : forall db b,
    let '(db', r) := Flush db b in
    (r = Ok tt /\ contents db' = apply_writes (writes b) (contents db) /\
     expiry db' = apply_ttls (writes b) (expiry db)) \/
    (exists e ws, r = Err e /\ fault e /\ ws `prefix_of` writes b /\
     contents db' = apply_writes ws (contents db) /\ expiry db' = apply_ttls ws (expiry db));
  Cancel_law : forall db b, exists ws, ws `prefix_of` writes b /\
    contents (Cancel db b) = apply_writes ws (contents db) /\
    expiry (Cancel db b) = apply_ttls ws (expiry db);
  DBClose_law : forall db, unchanged db (DBClose db);
  DBSync_law : forall db, unchanged db (DBSync db);
  RunValueLogGC_law : forall db, unchanged db (RunValueLogGC db);
  Elapse_law : forall d db, 0 <= d -> later d db (Elapse d db);
}.

(** ** The instance over finite maps *)

Definition mem_elapse (d : Z) (db : mem) : mem :=
  mkMem (map_imap (fun k v => match mem_ttls db !! k with
                              | Some r => if r <=? d then None else Some v
                              | None => Some v
                              end) (mem_store db))
    (omap (fun r => if r <=? d then None else Some (r - d)) (mem_ttls db)).

#[export] Instance mem_batch : BadgerBatch (bdg := mem_badger) := {|
  Batch := list write;
  TxnSetTTL t k v d := Ok (mkMem (<[k := v]> (mem_store t)) (<[k := d]> (mem_ttls t)));
  NewWriteBatch _ := [];
  BatchSet b k v := Ok (b ++ [WSet k v None]);
  BatchSetTTL b k v d := Ok (b ++ [WSet k v (Some d)]);
  BatchDelete b k := Ok (b ++ [WDelete k]);
  Flush db b := (mkMem (apply_writes b (mem_store db)) (apply_ttls b (mem_ttls db)), Ok tt);
  Cancel db _ := db;
  DBClose db := (db, Ok tt);
  DBSync db := (db, Ok tt);
  RunValueLogGC db := (db, Ok tt);
  Elapse := mem_elapse;
|}.

#[export, refine] Instance mem_batch_laws : BadgerBatchLaws (bdg := mem_badger) := {|
  writes b := b;
|}.
Proof.
  - done.
  - done.
  - done.
  - done.
  - done.
  - intros db b. by left.
  - intros db b. exists []. split; [apply prefix_nil|done].
  - intros db. split_and!; [done|done|by left].
  - intros db. split_and!; [done|done|by left].
  - intros db. split_and!; [done|done|by left].
  - intros d db _ k. cbn. rewrite map_lookup_imap, lookup_omap.
    destruct (mem_ttls db !! k) as [r|] eqn:E; [|by destruct (mem_store db !! k)].
    pose proof (eq_refl : second = 1000000000). cbn [option_bind mbind]. destruct (Z.leb_spec r d) as [Hr|Hr].
    + left. split_and!; [lia|by destruct (mem_store db !! k)|done].
    + right. split_and!; [lia|by destruct (mem_store db !! k)|done].
Defined.

(** ** Opening

    [DBOpen] opens the directory that an engine left; None is a directory without
    files.  The options change no answers. *)
Class BadgerOpen {bdg : Badger} : Type := { DBOpen : option DB -> result DB }.

Class BadgerOpenLaws {bdg : Badger} {laws : BadgerLaws} {opening : BadgerOpen} : Type := {
  DBOpen_law : forall files,
    match DBOpen files with
    | Ok db => contents db = default ∅ (contents <$> files) /\ expiry db = default ∅ (expiry <$> files)
    | Err e => fault e
    | Panic => False
    end;
}.

#[export] Instance mem_open : BadgerOpen (bdg := mem_badger) := {| DBOpen files := Ok (default mem_empty files) |}.
#[export] Instance mem_open_laws : BadgerOpenLaws (bdg := mem_badger).
Proof. split. by intros [db|]. Qed.
