(* ===== verification/QueueStorage.v ===== *)
(** The head/tail queue of internal/queue/storage.go: its keys, its metadata
    record, and the operations [Push], [Pop], [Peek], [Len] and [Clear]. *)
From stdpp Require Import base list numbers gmap strings.
From Stdlib Require Import ZArith Lia.
From S2P Require Import Prelude GoBytes Fmt Badger.

Definition ErrQueueEmpty : error := Sentinel "queue.ErrQueueEmpty" (str "queue is empty").
Definition ErrInvalidQueue : error := Sentinel "queue.ErrInvalidQueue" (str "invalid queue name").
Definition ErrMessageNotFound : error :=
  Sentinel "queue.ErrMessageNotFound" (str "message not found").

(** ** Keys *)

Definition metadataKey (queueName : bytes) : bytes := str "queue:meta:" ++ queueName.
Definition dataKey (queueName : bytes) (seqID : Z) : bytes :=
  str "queue:data:" ++ queueName ++ str ":" ++ fmt_020d seqID.

(** ** Metadata *)

(** Stores head and tail pointers, both [uint64]: the next item to dequeue
    and the next position to enqueue. *)
Record QueueMetadata : Type := mkMetadata { Head : Z; Tail : Z }.

Section Storage.
Context {bdg : Badger}.
Implicit Types (db : DB) (txn : Txn).

Definition getMetadata txn (queueName : bytes) : result QueueMetadata :=
  let key := metadataKey queueName in
  on_err (TxnGet txn key)
    (fun err => if is_sentinel err ErrKeyNotFound then Ok (mkMetadata 0 0) else Err err)
    (fun item =>
      val ← ItemValue item;
      if negb (len val =? 16) then Ok (mkMetadata 0 0) else
      hd ← slice val 0 8;
      head ← Uint64 hd 0;
      tl ← slice val 8 16;
      tail ← Uint64 tl 0;
      Ok (mkMetadata head tail)).

Definition setMetadata txn (queueName : bytes) (meta : QueueMetadata) : result Txn :=
  let key := metadataKey queueName in
  data ← make_bytes 16;
  data ← PutUint64 data 0 (Head meta);
  data ← PutUint64 data 8 (Tail meta);
  TxnSet txn key data.

(** ** Operations *)

Definition Push db (queueName value : bytes) : DB * result unit :=
  if decide (queueName = []) then (db, Err ErrInvalidQueue) else
  Update db (fun txn =>
    meta ← getMetadata txn queueName;
    let itemKey := dataKey queueName (Tail meta) in
    txn ← TxnSet txn itemKey value;
    let meta := mkMetadata (Head meta) (uint64 (Tail meta + 1)) in
    txn ← setMetadata txn queueName meta;
    Ok (txn, tt)).

Definition Pop db (queueName : bytes) : DB * result bytes :=
  if decide (queueName = []) then (db, Err ErrInvalidQueue) else
  Update db (fun txn =>
    meta ← getMetadata txn queueName;
    if Tail meta <=? Head meta then Err ErrQueueEmpty else
    let itemKey := dataKey queueName (Head meta) in
    item ← TxnGet txn itemKey;
    value ← ItemValue item;
    txn ← TxnDelete txn itemKey;
    let meta := mkMetadata (uint64 (Head meta + 1)) (Tail meta) in
    txn ← setMetadata txn queueName meta;
    Ok (txn, value)).

Definition Peek db (queueName : bytes) : result bytes :=
  if decide (queueName = []) then Err ErrInvalidQueue else
  View db (fun txn =>
    meta ← getMetadata txn queueName;
    if Tail meta <=? Head meta then Err ErrQueueEmpty else
    let itemKey := dataKey queueName (Head meta) in
    item ← TxnGet txn itemKey;
    ItemValue item).

Definition Len db (queueName : bytes) : result Z :=
  if decide (queueName = []) then Err ErrInvalidQueue else
  View db (fun txn =>
    meta ← getMetadata txn queueName;
    if Head meta <? Tail meta then Ok (uint64 (Tail meta - Head meta)) else Ok 0).

(** A failed deletion is skipped. *)
Definition Clear db (queueName : bytes) : DB * result unit :=
  if decide (queueName = []) then (db, Err ErrInvalidQueue) else
  Update db (fun txn =>
    meta ← getMetadata txn queueName;
    txn ← for_n (Z.to_nat (Tail meta - Head meta)) (Head meta) txn (fun txn i =>
      let itemKey := dataKey queueName i in
      on_err (TxnDelete txn itemKey) (fun _ => Ok txn) Ok);
    txn ← setMetadata txn queueName (mkMetadata 0 0);
    Ok (txn, tt)).
End Storage.

(** ** Keys are injective *)

(** Two names in front of suffixes of the same length. *)
Lemma app_suffix_inj (a b s t : bytes) :
  len s = len t -> a ++ s = b ++ t -> a = b /\ s = t.
Proof. intros Hl. apply app_inj_2. unfold len in Hl. lia. Qed.

Lemma metadataKey_inj q q' : metadataKey q = metadataKey q' -> q = q'.
Proof. apply app_inv_head. Qed.

Lemma dataKey_inj q q' i i' :
  0 <= i < 2 ^ 64 -> 0 <= i' < 2 ^ 64 -> dataKey q i = dataKey q' i' -> q = q' /\ i = i'.
Proof.
  unfold dataKey. intros Hi Hi' E. apply app_inv_head in E.
  apply app_suffix_inj in E as [-> E].
  - split; [done|]. apply app_inv_head in E. apply fmt_020d_inj in E; lia.
  - rewrite !len_app, !len_fmt_020d by lia. done.
Qed.

Lemma metadataKey_dataKey q q' i : metadataKey q <> dataKey q' i.
Proof. done. Qed.

(** ** Opening and closing

    The options of the engine change none of its answers. *)
Definition QueueNewStorage {bdg : Badger} {opening : BadgerOpen} (files : option DB) : result DB := DBOpen files.
Definition QueueStorageClose {bdg : Badger} {batch : BadgerBatch} (db : DB) : DB * result unit := DBClose db.
