(* ===== verification/QueueFifo.v ===== *)
(** The head/tail queue implements a FIFO list per queue name, and its
    queues do not interfere. *)
From stdpp Require Import base list numbers gmap strings functions.
From Stdlib Require Import ZArith Lia.
From S2P Require Import Prelude GoBytes Fmt Badger QueueStorage.

(** ** The representation of a queue *)

(** The metadata of a queue in a store. *)
Definition metadata_in (m : store) (q : bytes) : QueueMetadata :=
  match m !! metadataKey q with
  | Some val =>
      if len val =? 16 then mkMetadata (be_get (takeZ 8 val)) (be_get (takeZ 8 (dropZ 8 val)))
      else mkMetadata 0 0
  | None => mkMetadata 0 0
  end.

(** [queue_at m q h l]: in [m], queue [q] holds the items [l], the first one
    at position [h]. *)
Definition queue_at (m : store) (q : bytes) (h : Z) (l : list bytes) : Prop :=
  metadata_in m q = mkMetadata h (h + len l) /\ 0 <= h /\ h + len l < 2 ^ 64 /\
  forall i x, 0 <= i -> l !! Z.to_nat i = Some x -> m !! dataKey q (h + i) = Some x.

(** What belongs to a queue, and stores that agree on everything else. *)
Definition owned (q k : bytes) : Prop :=
  k = metadataKey q \/ exists i, 0 <= i < 2 ^ 64 /\ k = dataKey q i.
Definition same_others (q : bytes) (m m' : store) : Prop :=
  forall k, ~ owned q k -> m' !! k = m !! k.

Lemma owned_disjoint q q' k : owned q k -> owned q' k -> q = q'.
Proof.
  intros [->|(i & Hi & ->)] [E|(i' & Hi' & E)].
  - by apply metadataKey_inj.
  - by apply metadataKey_dataKey in E.
  - symmetry in E. by apply metadataKey_dataKey in E.
  - by apply dataKey_inj in E as [? ?].
Qed.

Lemma queue_at_empty q : queue_at ∅ q 0 [].
Proof.
  split_and!; [|lia|done|done]. unfold metadata_in. by rewrite lookup_empty.
Qed.

Lemma queue_at_others q q' m m' h l :
  same_others q m m' -> q' <> q -> queue_at m q' h l -> queue_at m' q' h l.
Proof.
  intros Hs Hq (Hm & H0 & H64 & Hi).
  assert (Hk : forall k, owned q' k -> m' !! k = m !! k).
  { intros k Hk. apply Hs. intros Hk'. by apply Hq, (owned_disjoint _ _ k). }
  split_and!; [|done|done|].
  - unfold metadata_in. by rewrite Hk by (by left).
  - intros i x Hi0 Hx. rewrite Hk; [by apply Hi|]. right. exists (h + i).
    split; [|done]. apply lookup_lt_Some in Hx. unfold len in *. lia.
Qed.

(** ** Transactions on a queue *)

Section Fifo.
Context {bdg : Badger} {laws : BadgerLaws}.
Implicit Types (db : DB) (E : error -> Prop).

Lemma wp_getMetadata {B} E t q (f : QueueMetadata -> result B) Q :
  wp E (f (metadata_in (snapshot t) q)) Q -> wp E (getMetadata t q ≫= f) Q.
Proof.
  intros H. apply wp_bind. unfold getMetadata. cbv zeta. apply wp_get; [done|..].
  - intros i Hi. apply wp_value. revert H. unfold metadata_in. rewrite Hi.
    destruct (Z.eqb_spec (len (item_value i)) 16) as [El|]; [|done]. cbn [negb].
    set (val := item_value i) in *. intros H.
    assert (len (takeZ 8 (dropZ 0 val)) = 8) by (apply len_window; lia).
    assert (len (takeZ 8 (dropZ 8 val)) = 8) by (apply len_window; lia).
    rewrite (slice_ok val 0 8), bind_ok by lia. change (8 - 0) with 8.
    unfold Uint64. rewrite GetUint_ok, bind_ok by lia.
    rewrite (slice_ok val 8 16), bind_ok by lia. change (16 - 8) with 8.
    rewrite GetUint_ok, bind_ok by lia. cbn [wp].
    rewrite (takeZ_all _ (dropZ 0 (takeZ 8 (dropZ 0 val)))),
      (takeZ_all _ (dropZ 0 (takeZ 8 (dropZ 8 val)))) by (rewrite dropZ_0; lia).
    rewrite !(dropZ_0 0) by lia. exact H.
  - intros Hn. unfold metadata_in in H. by rewrite Hn in H.
  - intros e He. rewrite fault_not_found by done. by left.
Qed.

Definition metadata_bytes (meta : QueueMetadata) : bytes := be64 (Head meta) ++ be64 (Tail meta).

Lemma setMetadata_bytes t q meta :
  setMetadata t q meta = TxnSet t (metadataKey q) (metadata_bytes meta).
Proof.
  unfold setMetadata, metadata_bytes. cbv zeta. go_write.
  rewrite zeros_done by len_lia. done.
Qed.

Lemma metadata_in_insert m q h t :
  0 <= h < 2 ^ 64 -> 0 <= t < 2 ^ 64 ->
  metadata_in (<[metadataKey q := metadata_bytes (mkMetadata h t)]> m) q = mkMetadata h t.
Proof.
  intros Hh Ht. unfold metadata_in, metadata_bytes. rewrite lookup_insert_eq.
  cbn [Head Tail]. rewrite (proj2 (Z.eqb_eq _ _)) by len_lia.
  rewrite takeZ_app_eq, dropZ_app_eq, takeZ_all by len_lia.
  unfold be64. rewrite !be_get_put. by rewrite !Z.mod_small by done.
Qed.

Lemma wp_setMetadata {B} E t q meta (f : Txn -> result B) Q :
  (forall t', snapshot t' = <[metadataKey q := metadata_bytes meta]> (snapshot t) ->
     wp E (f t') Q) ->
  wp E (setMetadata t q meta ≫= f) Q.
Proof. rewrite setMetadata_bytes. by apply wp_set. Qed.

(** Writing the metadata of a queue moves its window. *)
Lemma queue_at_metadata m q h l :
  0 <= h -> h + len l < 2 ^ 64 ->
  (forall i x, 0 <= i -> l !! Z.to_nat i = Some x -> m !! dataKey q (h + i) = Some x) ->
  queue_at (<[metadataKey q := metadata_bytes (mkMetadata h (h + len l))]> m) q h l.
Proof.
  intros H0 H64 Hi. split_and!; try done.
  - apply metadata_in_insert; len_lia.
  - intros i x Hi0 Hx. rewrite lookup_insert_ne by apply metadataKey_dataKey. auto.
Qed.

Lemma same_others_refl q m : same_others q m m.
Proof. by intros k _. Qed.

Lemma same_others_insert q k v m m' :
  owned q k -> same_others q m m' -> same_others q m (<[k := v]> m').
Proof.
  intros Hk Hs k' Hk'. rewrite lookup_insert_ne; [by apply Hs|]. by intros ->.
Qed.

Lemma same_others_delete q k m m' :
  owned q k -> same_others q m m' -> same_others q m (delete k m').
Proof.
  intros Hk Hs k' Hk'. rewrite lookup_delete_ne; [by apply Hs|]. by intros ->.
Qed.

(** ** The operations *)

(** What an operation on [q] guarantees of the store it leaves. *)
Definition queue_becomes db (q : bytes) (h : Z) (l : list bytes) (m : store) : Prop :=
  queue_at m q h l /\ same_others q (contents db) m.

Lemma Push_served db q v h l :
  q <> [] -> queue_at (contents db) q h l -> h + len l + 1 < 2 ^ 64 ->
  served db (Push db q v) (fun _ => False) (fun m _ => queue_becomes db q h (l ++ [v]) m).
Proof.
  intros Hq (Hm & H0 & H64 & Hi) Hb. unfold Push. rewrite decide_False by done.
  apply served_update. intros t Ht. apply wp_getMetadata. rewrite Ht, Hm. cbn [Head Tail].
  txn_write t1 Ht1. apply wp_setMetadata. intros t2 Ht2. cbn [wp fst snd].
  pose proof (len_nonneg l).
  unfold uint64 in Ht2. rewrite Z.mod_small, Ht1, Ht in Ht2 by lia. rewrite Ht2. split.
  - replace (h + len l + 1) with (h + len (l ++ [v])) by len_lia.
    apply queue_at_metadata; [done|len_lia|]. intros i x Hi0 Hx.
    apply lookup_app_Some in Hx as [Hx|[Hge Hx]].
    + pose proof (lookup_lt_Some _ _ _ Hx). rewrite lookup_insert_ne; [by apply Hi|].
      intros E. apply dataKey_inj in E as [_ E]; unfold len in *; lia.
    + destruct (Z.to_nat i - length l)%nat eqn:En; [|done]. injection Hx as ->.
      replace (h + i) with (h + len l) by (unfold len; lia). by rewrite lookup_insert_eq.
  - apply same_others_insert; [by left|]. apply same_others_insert, same_others_refl.
    right. exists (h + len l). split; [lia|done].
Qed.

Lemma queue_at_head m q h x l : queue_at m q h (x :: l) -> m !! dataKey q h = Some x.
Proof.
  intros (_ & _ & _ & Hi). rewrite <- (Z.add_0_r h). by apply Hi.
Qed.

Lemma Pop_served db q h l :
  q <> [] -> queue_at (contents db) q h l ->
  served db (Pop db q) (fun e => e = ErrQueueEmpty /\ l = [])
    (fun m v => exists l', l = v :: l' /\ queue_becomes db q (h + 1) l' m).
Proof.
  intros Hq HQ. pose proof HQ as (Hm & H0 & H64 & Hi). unfold Pop. rewrite decide_False by done.
  apply served_update. intros t Ht. apply wp_getMetadata. rewrite Ht, Hm. cbn [Head Tail].
  destruct l as [|x l].
  { rewrite len_nil, Z.add_0_r, Z.leb_refl. by right. }
  rewrite len_cons in *. pose proof (len_nonneg l).
  rewrite (proj2 (Z.leb_gt _ _)) by lia.
  eapply wp_get_some; [done|rewrite Ht; by eapply queue_at_head|]. intros i Hv.
  apply wp_value. txn_write t1 Ht1. apply wp_setMetadata. intros t2 Ht2. cbn [wp fst snd].
  unfold uint64 in Ht2. rewrite Z.mod_small, Ht1, Ht in Ht2 by lia.
  exists l. rewrite Hv. split; [done|]. rewrite Ht2. split.
  - replace (h + (1 + len l)) with (h + 1 + len l) by lia.
    apply queue_at_metadata; [lia|lia|]. intros j y Hj Hy.
    pose proof (lookup_lt_Some _ _ _ Hy). rewrite lookup_delete_ne.
    + rewrite <- Z.add_assoc. apply Hi; [lia|].
      by replace (Z.to_nat (1 + j)) with (S (Z.to_nat j)) by lia.
    + intros E. apply dataKey_inj in E as [_ E]; unfold len in *; lia.
  - apply same_others_insert; [by left|]. apply same_others_delete, same_others_refl.
    right. exists h. split; [lia|done].
Qed.

Lemma Peek_served db q h l :
  q <> [] -> queue_at (contents db) q h l ->
  wp (fun e => e = ErrQueueEmpty /\ l = []) (Peek db q) (fun v => head l = Some v).
Proof.
  intros Hq HQ. pose proof HQ as (Hm & H0 & H64 & Hi). unfold Peek. rewrite decide_False by done.
  apply wp_view. intros t Ht. apply wp_getMetadata. rewrite Ht, Hm. cbn [Head Tail].
  destruct l as [|x l].
  { rewrite len_nil, Z.add_0_r, Z.leb_refl. by right. }
  rewrite len_cons in *. pose proof (len_nonneg l).
  rewrite (proj2 (Z.leb_gt _ _)) by lia.
  eapply wp_get_some; [done|rewrite Ht; by eapply queue_at_head|]. intros i Hv.
  rewrite <- (bind_ret (ItemValue i)). apply wp_value. by rewrite Hv.
Qed.

Lemma Len_served db q h l :
  q <> [] -> queue_at (contents db) q h l ->
  wp (fun _ => False) (Len db q) (fun n => n = len l).
Proof.
  intros Hq (Hm & H0 & H64 & Hi). unfold Len. rewrite decide_False by done.
  apply wp_view. intros t Ht. apply wp_getMetadata. rewrite Ht, Hm. cbn [Head Tail].
  pose proof (len_nonneg l). destruct (Z.ltb_spec h (h + len l)); cbn; [|lia].
  unfold uint64. rewrite Z.mod_small; lia.
Qed.

Lemma Clear_served db q h l :
  q <> [] -> queue_at (contents db) q h l ->
  served db (Clear db q) (fun _ => False) (fun m _ => queue_becomes db q 0 [] m).
Proof.
  intros Hq (Hm & H0 & H64 & Hi). unfold Clear. rewrite decide_False by done.
  apply served_update. intros t Ht. apply wp_getMetadata. rewrite Ht, Hm. cbn [Head Tail].
  rewrite Z.add_simpl_l. apply wp_bind. eapply wp_mono.
  - apply (wp_for_n _ _ _ _ _ (fun _ t => same_others q (contents db) (snapshot t))).
    + rewrite Ht. apply same_others_refl.
    + intros j s Hj Hs. cbv zeta.
      pose proof (TxnDelete_law s (dataKey q j) ltac:(done)) as HD.
      destruct (TxnDelete s (dataKey q j)); cbn; [|done|done].
      rewrite (proj1 HD). apply same_others_delete; [|done]. right. exists j.
      split; [unfold len in *; lia|done].
  - intros t2 Hs. apply wp_setMetadata. intros t3 Ht3. cbn [wp fst snd]. rewrite Ht3. split.
    + apply (queue_at_metadata _ _ 0 []); [done|done|]. by intros i x _ Hx.
    + apply same_others_insert; [by left|done].
Qed.
End Fifo.

(** ** Refinement: a store of queues is a function from names to lists *)

Inductive QueueOp : Type :=
| OpPush (q v : bytes)
| OpPop (q : bytes)
| OpPeek (q : bytes)
| OpLen (q : bytes)
| OpClear (q : bytes).

Inductive QueueReply : Type :=
| Done
| Item (v : bytes)
| Count (n : Z).

Definition op_queue (op : QueueOp) : bytes :=
  match op with OpPush q _ | OpPop q | OpPeek q | OpLen q | OpClear q => q end.

Definition reply_with {D A} (k : A -> QueueReply) (x : D * result A) : D * result QueueReply :=
  (x.1, a ← x.2; Ok (k a)).

(** One operation of the code. *)
Definition exec {bdg : Badger} (db : DB) (op : QueueOp) : DB * result QueueReply :=
  match op with
  | OpPush q v => reply_with (fun _ => Done) (Push db q v)
  | OpPop q => reply_with Item (Pop db q)
  | OpPeek q => reply_with Item (db, Peek db q)
  | OpLen q => reply_with Count (db, Len db q)
  | OpClear q => reply_with (fun _ => Done) (Clear db q)
  end.

(** One operation of the specification. *)
Abbreviation queues := (bytes -> list bytes).
Definition spec (s : queues) (op : QueueOp) : queues * result QueueReply :=
  if decide (op_queue op = []) then (s, Err ErrInvalidQueue) else
  match op with
  | OpPush q v => (<[q := s q ++ [v]]> s, Ok Done)
  | OpPop q => match s q with
               | [] => (s, Err ErrQueueEmpty)
               | x :: l => (<[q := l]> s, Ok (Item x))
               end
  | OpPeek q => match s q with [] => (s, Err ErrQueueEmpty) | x :: _ => (s, Ok (Item x)) end
  | OpLen q => (s, Ok (Count (len (s q))))
  | OpClear q => (<[q := []]> s, Ok Done)
  end.

(** The simulation relation; [n] bounds the positions in use. *)
Definition represents (n : Z) (s : queues) (m : store) : Prop :=
  forall q, exists h, queue_at m q h (s q) /\ h + len (s q) <= n.

Lemma represents_mono n n' s m : n <= n' -> represents n s m -> represents n' s m.
Proof. intros Hn H q. destruct (H q) as (h & ? & ?). exists h. split; [done|lia]. Qed.

Lemma represents_update n n' s q m m' h l :
  n <= n' -> represents n s m -> same_others q m m' ->
  queue_at m' q h l -> h + len l <= n' -> represents n' (<[q := l]> s) m'.
Proof.
  intros Hn HR Hs HQ Hb q'. destruct (decide (q' = q)) as [->|Hne].
  - exists h. by rewrite fn_lookup_insert.
  - rewrite fn_lookup_insert_ne by congruence.
    destruct (HR q') as (h' & HQ' & Hb'). exists h'. split; [|lia].
    by eapply queue_at_others.
Qed.

Section Refinement.
Context {bdg : Badger} {laws : BadgerLaws}.
Implicit Types (db : DB) (s : queues).

(** What an operation may do: answer as the specification, or report a fault
    and change nothing. *)
Definition refined (n : Z) s (op : QueueOp) db (x : DB * result QueueReply) : Prop :=
  (x.2 = (spec s op).2 /\ represents (n + 1) (spec s op).1 (contents x.1)) \/
  (exists e, x.2 = Err e /\ fault e /\ contents x.1 = contents db).

Lemma served_refined {A} n s op db (x : DB * result A) E (Q : store -> A -> Prop) k :
  represents n s (contents db) ->
  served db x E Q ->
  (forall e, E e -> spec s op = (s, Err e)) ->
  (forall m a, Q m a -> (spec s op).2 = Ok (k a) /\ represents (n + 1) (spec s op).1 m) ->
  refined n s op db (reply_with k x).
Proof.
  intros HR Hx HE HQ. unfold refined, reply_with, served in *. cbn [fst snd].
  destruct (x.2) as [a|e|]; cbn; [..|done].
  - left. destruct (HQ _ _ Hx) as [-> ?]. done.
  - destruct Hx as [Hc [Hf|He]]; [right; by exists e|left].
    rewrite (HE e He), Hc. cbn. split; [done|]. by apply (represents_mono n); [lia|].
Qed.

Lemma wp_refined {A} n s op db (r : result A) E (Q : A -> Prop) k :
  represents n s (contents db) ->
  wp E r Q ->
  (forall e, E e -> spec s op = (s, Err e)) ->
  (forall a, Q a -> spec s op = (s, Ok (k a))) ->
  refined n s op db (reply_with k (db, r)).
Proof.
  intros HR Hr HE HQ.
  apply (served_refined n s op db (db, r) E (fun m a => Q a /\ m = contents db)); [done| |done|].
  - unfold served. cbn. destruct r; cbn in *; auto.
  - intros m a [Ha ->]. rewrite (HQ a Ha). cbn. split; [done|].
    by apply (represents_mono n); [lia|].
Qed.

Lemma exec_refined n s op db :
  represents n s (contents db) -> n + 1 < 2 ^ 64 -> refined n s op db (exec db op).
Proof.
  intros HR Hn. destruct (decide (op_queue op = [])) as [Hq|Hq].
  { left. unfold spec. rewrite decide_True by done.
    assert (Hc : (exec db op) = (db, Err ErrInvalidQueue))
      by (destruct op; cbn in Hq; by subst q).
    rewrite Hc. split; [done|]. by apply (represents_mono n); [lia|]. }
  assert (Hs : spec s op = match op with
    | OpPush q v => (<[q := s q ++ [v]]> s, Ok Done)
    | OpPop q => match s q with
                 | [] => (s, Err ErrQueueEmpty)
                 | x :: l => (<[q := l]> s, Ok (Item x))
                 end
    | OpPeek q => match s q with [] => (s, Err ErrQueueEmpty) | x :: _ => (s, Ok (Item x)) end
    | OpLen q => (s, Ok (Count (len (s q))))
    | OpClear q => (<[q := []]> s, Ok Done)
    end) by (unfold spec; by rewrite decide_False).
  destruct op as [q v|q|q|q|q]; cbn [op_queue exec] in *;
    destruct (HR q) as (h & HQ & Hb); pose proof (len_nonneg (s q)).
  - eapply served_refined; [done|apply (Push_served db q v h (s q)); [done|done|lia]|done|].
    rewrite Hs. intros m [] [HQ' Ho]. split; [done|].
    eapply represents_update; [|done|done|done|]; [lia|len_lia].
  - eapply served_refined; [done|by eapply Pop_served|..]; rewrite Hs.
    + by intros e [-> ->].
    + intros m a (l & El & HQ' & Ho). rewrite El in *. split; [done|].
      eapply represents_update; [|done|done|done|]; [lia|len_lia].
  - eapply wp_refined; [done|by eapply Peek_served|..]; rewrite Hs.
    + by intros e [-> ->].
    + intros a Ha. destruct (s q); [done|]. by injection Ha as ->.
  - eapply wp_refined; [done|by eapply Len_served|done|].
    rewrite Hs. by intros a ->.
  - eapply served_refined; [done|by eapply Clear_served|done|].
    rewrite Hs. intros m [] [HQ' Ho]. split; [done|].
    destruct HQ as (_ & ? & _).
    eapply represents_update; [|done|done|done|]; [lia|len_lia].
Qed.

(** ** Runs *)

Fixpoint exec_all db (ops : list QueueOp) : list (result QueueReply) :=
  match ops with
  | [] => []
  | op :: ops => let x := exec db op in x.2 :: exec_all x.1 ops
  end.

Fixpoint spec_all s (ops : list QueueOp) : list (result QueueReply) :=
  match ops with
  | [] => []
  | op :: ops => let x := spec s op in x.2 :: spec_all x.1 ops
  end.

(** A run of the specification in which any operation may instead be refused
    by the engine, with no effect. *)
Inductive Run : queues -> list QueueOp -> list (result QueueReply) -> Prop :=
| Run_nil s : Run s [] []
| Run_step s op ops rs :
    Run (spec s op).1 ops rs -> Run s (op :: ops) ((spec s op).2 :: rs)
| Run_fault s op ops rs e : fault e -> Run s ops rs -> Run s (op :: ops) (Err e :: rs).

Lemma exec_all_run n s db ops :
  represents n s (contents db) -> n + len ops < 2 ^ 64 -> Run s ops (exec_all db ops).
Proof.
  revert n s db. induction ops as [|op ops IH]; intros n s db HR Hn; [constructor|].
  cbn [exec_all]. rewrite len_cons in Hn. pose proof (len_nonneg ops).
  destruct (exec_refined n s op db HR) as [[-> HR']|(e & -> & He & Hc)]; [lia| |].
  - apply Run_step, (IH (n + 1)); [done|lia].
  - apply Run_fault; [done|]. apply (IH n); [by rewrite Hc|lia].
Qed.

Lemma Run_reliable `{!BadgerReliable} s ops rs : Run s ops rs -> rs = spec_all s ops.
Proof.
  induction 1 as [|s op ops rs _ IH|s op ops rs e He]; cbn [spec_all]; [done|by rewrite IH|].
  by destruct (no_fault e).
Qed.

Lemma represents_fresh db : contents db = ∅ -> represents 0 (fun _ => []) (contents db).
Proof. intros -> q. exists 0. split; [apply queue_at_empty|done]. Qed.

(** ** Properties *)

(** C7: started on an empty database, any sequence of [Push], [Pop], [Peek],
    [Len] and [Clear] on any queue names is answered as by one FIFO list per
    name, except that an operation the storage engine refuses is answered with
    the engine's error and has no effect. *)
Theorem queue_refines_fifo db ops :
  contents db = ∅ -> len ops < 2 ^ 64 -> Run (fun _ => []) ops (exec_all db ops).
Proof. intros Hc Hl. apply (exec_all_run 0); [by apply represents_fresh|lia]. Qed.

(** An operation on one queue changes no key of another queue, nor any
    other key of the database, in particular no message of the acknowledged
    queues. *)
Theorem queue_isolation n s op db k :
  represents n s (contents db) -> n + 1 < 2 ^ 64 -> ~ owned (op_queue op) k ->
  contents (exec db op).1 !! k = contents db !! k.
Proof.
  intros HR Hn Hk. destruct (decide (op_queue op = [])) as [Hq|Hq].
  { assert (Hc : (exec db op) = (db, Err ErrInvalidQueue))
      by (destruct op; cbn in Hq; by subst q). by rewrite Hc. }
  destruct op as [q v|q|q|q|q]; cbn [op_queue exec reply_with fst] in *; try done;
    destruct (HR q) as (h & HQ & Hb).
  - pose proof (Push_served db q v h (s q) Hq HQ ltac:(lia)) as H.
    unfold served in H. destruct ((Push db q v).2); [by apply H|by rewrite (proj1 H)|done].
  - pose proof (Pop_served db q h (s q) Hq HQ) as H. unfold served in H.
    destruct ((Pop db q).2); [|by rewrite (proj1 H)|done]. destruct H as (l & _ & _ & H).
    by apply H.
  - pose proof (Clear_served db q h (s q) Hq HQ) as H.
    unfold served in H. destruct ((Clear db q).2); [by apply H|by rewrite (proj1 H)|done].
Qed.
End Refinement.

(** On an engine that refuses nothing, the answers are exactly those of
    the FIFO lists. *)
Theorem queue_runs_fifo {bdg : Badger} {laws : BadgerLaws} `{!BadgerReliable} (db : DB) ops :
  contents db = ∅ -> len ops < 2 ^ 64 -> exec_all db ops = spec_all (fun _ => []) ops.
Proof.
  intros Hc Hl. apply Run_reliable, (exec_all_run 0); [by apply represents_fresh|lia].
Qed.

(** A run on the map instance: two queues, in order, then empty. *)
Definition sample_ops : list QueueOp :=
  [OpPush (str "a") [1]; OpPush (str "a") [2]; OpPush (str "b") [3]; OpLen (str "a");
   OpPop (str "a"); OpPeek (str "a"); OpPop (str "b"); OpPop (str "b"); OpPop [];
   OpClear (str "a"); OpPop (str "a")].

Lemma sample_run :
  exec_all (bdg := mem_badger) mem_empty sample_ops
  = [Ok Done; Ok Done; Ok Done; Ok (Count 2); Ok (Item [1]); Ok (Item [2]); Ok (Item [3]);
     Err ErrQueueEmpty; Err ErrInvalidQueue; Ok Done; Err ErrQueueEmpty].
Proof. by vm_compute. Qed.

Lemma queue_refines_fifo_witness :
  Run (fun _ => []) sample_ops (exec_all (bdg := mem_badger) mem_empty sample_ops).
Proof. apply (queue_refines_fifo (bdg := mem_badger) mem_empty); by vm_compute. Defined.

Lemma queue_isolation_witness :
  contents (bdg := mem_badger) (exec (bdg := mem_badger) mem_empty (OpPush (str "a") [1])).1 !! str "queue:msg:b:x"
  = contents (bdg := mem_badger) mem_empty !! str "queue:msg:b:x".
Proof.
  apply (queue_isolation (bdg := mem_badger) 0 (fun _ => []) (OpPush (str "a") [1]) mem_empty).
  - by apply (represents_fresh (bdg := mem_badger)).
  - by vm_compute.
  - by intros [E|(i & _ & E)].
Defined.

Lemma queue_runs_fifo_witness :
  exec_all (bdg := mem_badger) mem_empty sample_ops = spec_all (fun _ => []) sample_ops.
Proof. apply (queue_runs_fifo (bdg := mem_badger) mem_empty); by vm_compute. Defined.
