(* ===== verification/QueueCodec.v ===== *)
(** The stored form of queue messages and queue configurations
    (internal/queue/storage.go), with their round trips and the records on
    which the decoder panics. *)
From stdpp Require Import base list numbers strings.
From Stdlib Require Import ZArith Lia.
From S2P Require Import Prelude GoBytes Fields Fmt.

(** ** Data *)

(** [type MessageState int] *)
Definition StatePending : Z := 0.
Definition StateInFlight : Z := 1.
Definition StateAcked : Z := 2.
Definition StateNacked : Z := 3.
Definition StateDeadLetter : Z := 4.

Record QueueMessage : Type := mkQueueMessage {
  ID : bytes;
  Value : bytes;
  State : Z;
  DeliveryCount : Z;
  ConsumerID : bytes;
  EnqueuedAt : Z;
  InFlightAt : Z;
  VisibilityTimeout : Z;
  MaxRetries : Z;
}.

Record QueueConfig : Type := mkQueueConfig {
  Name : bytes;
  DeadLetterQueue : bytes;
  CfgMaxRetries : Z;
  DefaultVisibilityTimeout : Z;
}.

#[export] Instance QueueMessage_eq_dec : EqDecision QueueMessage.
Proof. solve_decision. Defined.
#[export] Instance QueueConfig_eq_dec : EqDecision QueueConfig.
Proof. solve_decision. Defined.

(** ** Messages *)

Definition encodeQueueMessage (msg : QueueMessage) : result bytes :=
  let idLen := len (ID msg) in
  let valueLen := len (Value msg) in
  let consumerIDLen := len (ConsumerID msg) in
  let size := 2 + idLen + 4 + valueLen + 1 + 4 + 2 + consumerIDLen + 8 + 8 + 8 + 4 in
  data ← make_bytes size;
  let pos := 0 in
  data ← PutUint16 data pos (uint16 idLen);
  let pos := pos + 2 in
  data ← copy_at data pos (ID msg);
  let pos := pos + idLen in
  data ← PutUint32 data pos (uint32 valueLen);
  let pos := pos + 4 in
  data ← copy_at data pos (Value msg);
  let pos := pos + valueLen in
  data ← set_byte data pos (uint8 (State msg));
  let pos := pos + 1 in
  data ← PutUint32 data pos (uint32 (DeliveryCount msg));
  let pos := pos + 4 in
  data ← PutUint16 data pos (uint16 consumerIDLen);
  let pos := pos + 2 in
  data ← copy_at data pos (ConsumerID msg);
  let pos := pos + consumerIDLen in
  data ← PutUint64 data pos (uint64 (EnqueuedAt msg));
  let pos := pos + 8 in
  data ← PutUint64 data pos (uint64 (InFlightAt msg));
  let pos := pos + 8 in
  data ← PutUint64 data pos (uint64 (VisibilityTimeout msg));
  let pos := pos + 8 in
  data ← PutUint32 data pos (uint32 (MaxRetries msg));
  mret data.

Definition decodeQueueMessage (data : bytes) : result QueueMessage :=
  if len data <? 39 then Err (errorf "invalid message data: too short") else
  let pos := 0 in
  idLen ← Uint16 data pos;
  let pos := pos + 2 in
  if len data <? pos + idLen then Err (errorf "invalid message data: id length overflow") else
  id ← slice data pos (pos + idLen);
  let pos := pos + idLen in
  valueLen ← Uint32 data pos;
  let pos := pos + 4 in
  if len data <? pos + valueLen
  then Err (errorf "invalid message data: value length overflow") else
  value ← slice data pos (pos + valueLen);
  let pos := pos + valueLen in
  state ← index data pos;
  let pos := pos + 1 in
  deliveryCount ← Uint32 data pos;
  let pos := pos + 4 in
  consumerIDLen ← Uint16 data pos;
  let pos := pos + 2 in
  if len data <? pos + consumerIDLen
  then Err (errorf "invalid message data: consumerID length overflow") else
  consumerID ← slice data pos (pos + consumerIDLen);
  let pos := pos + consumerIDLen in
  enqueuedAt ← Uint64 data pos;
  let pos := pos + 8 in
  inFlightAt ← Uint64 data pos;
  let pos := pos + 8 in
  visibilityTimeout ← Uint64 data pos;
  let pos := pos + 8 in
  maxRetries ← Uint32 data pos;
  mret (mkQueueMessage id value state deliveryCount consumerID (int64 enqueuedAt)
    (int64 inFlightAt) (int64 visibilityTimeout) maxRetries).

(** ** Configurations *)

Definition encodeQueueConfig (cfg : QueueConfig) : result bytes :=
  let nameLen := len (Name cfg) in
  let dlqLen := len (DeadLetterQueue cfg) in
  let size := 2 + nameLen + 2 + dlqLen + 4 + 8 in
  data ← make_bytes size;
  let pos := 0 in
  data ← PutUint16 data pos (uint16 nameLen);
  let pos := pos + 2 in
  data ← copy_at data pos (Name cfg);
  let pos := pos + nameLen in
  data ← PutUint16 data pos (uint16 dlqLen);
  let pos := pos + 2 in
  data ← copy_at data pos (DeadLetterQueue cfg);
  let pos := pos + dlqLen in
  data ← PutUint32 data pos (uint32 (CfgMaxRetries cfg));
  let pos := pos + 4 in
  data ← PutUint64 data pos (uint64 (DefaultVisibilityTimeout cfg));
  mret data.

Definition decodeQueueConfig (data : bytes) : result QueueConfig :=
  if len data <? 16 then Err (errorf "invalid config data: too short") else
  let pos := 0 in
  nameLen ← Uint16 data pos;
  let pos := pos + 2 in
  if len data <? pos + nameLen then Err (errorf "invalid config data: name length overflow") else
  name ← slice data pos (pos + nameLen);
  let pos := pos + nameLen in
  dlqLen ← Uint16 data pos;
  let pos := pos + 2 in
  if len data <? pos + dlqLen then Err (errorf "invalid config data: dlq length overflow") else
  dlq ← slice data pos (pos + dlqLen);
  let pos := pos + dlqLen in
  maxRetries ← Uint32 data pos;
  let pos := pos + 4 in
  defaultVisibilityTimeout ← Uint64 data pos;
  mret (mkQueueConfig name dlq maxRetries (int64 defaultVisibilityTimeout)).

(** ** The stored form *)

(** The part of a record after the consumer's name, which no check guards. *)
Definition message_times (msg : QueueMessage) : bytes :=
  be64 (EnqueuedAt msg) ++ be64 (InFlightAt msg) ++ be64 (VisibilityTimeout msg)
  ++ be32 (MaxRetries msg).
Definition message_wire (msg : QueueMessage) : bytes :=
  str16 (ID msg) ++ blob32 (Value msg) ++ [uint8 (State msg)] ++ be32 (DeliveryCount msg)
  ++ str16 (ConsumerID msg) ++ message_times msg.
Definition config_wire (cfg : QueueConfig) : bytes :=
  str16 (Name cfg) ++ str16 (DeadLetterQueue cfg) ++ be32 (CfgMaxRetries cfg)
  ++ be64 (DefaultVisibilityTimeout cfg).

Definition message_fits (msg : QueueMessage) : Prop :=
  short (ID msg) /\ long (Value msg) /\ short (ConsumerID msg).
Definition config_fits (cfg : QueueConfig) : Prop :=
  short (Name cfg) /\ short (DeadLetterQueue cfg).

(** What is left of a message's numbers after a round trip. *)
Definition stored (msg : QueueMessage) : QueueMessage :=
  mkQueueMessage (ID msg) (Value msg) (uint8 (State msg)) (uint32 (DeliveryCount msg))
    (ConsumerID msg) (int64 (EnqueuedAt msg)) (int64 (InFlightAt msg))
    (int64 (VisibilityTimeout msg)) (uint32 (MaxRetries msg)).
Definition stored_config (cfg : QueueConfig) : QueueConfig :=
  mkQueueConfig (Name cfg) (DeadLetterQueue cfg) (uint32 (CfgMaxRetries cfg))
    (int64 (DefaultVisibilityTimeout cfg)).

Lemma encodeQueueMessage_wire msg : encodeQueueMessage msg = Ok (message_wire msg).
Proof. unfold encodeQueueMessage, message_wire, message_times. writes. Qed.

Lemma encodeQueueConfig_wire cfg : encodeQueueConfig cfg = Ok (config_wire cfg).
Proof. unfold encodeQueueConfig, config_wire. writes. Qed.

Lemma decodeQueueMessage_wire msg :
  message_fits msg -> decodeQueueMessage (message_wire msg) = Ok (stored msg).
Proof.
  intros (Hi & Hv & Hc). unfold short, long, u16, u32 in *.
  unfold message_wire, message_times.
  rewrite <- (be32_uint32 (DeliveryCount msg)), <- (be32_uint32 (MaxRetries msg)).
  pose proof (uint32_range (DeliveryCount msg)). pose proof (uint32_range (MaxRetries msg)).
  unfold u32 in *.
  rewrite <- (app_nil_r (be32 (uint32 (MaxRetries msg)))).
  unfold decodeQueueMessage, str16, blob32. cbv zeta. go_read.
  unfold stored. by rewrite !int64_uint64_any.
Qed.

Lemma decodeQueueConfig_wire cfg :
  config_fits cfg -> decodeQueueConfig (config_wire cfg) = Ok (stored_config cfg).
Proof.
  intros (Hn & Hd). unfold short, u16 in *. unfold config_wire.
  rewrite <- (be32_uint32 (CfgMaxRetries cfg)).
  pose proof (uint32_range (CfgMaxRetries cfg)). unfold u32 in *.
  rewrite <- (app_nil_r (be64 (DefaultVisibilityTimeout cfg))).
  unfold decodeQueueConfig, str16. cbv zeta. go_read.
  unfold stored_config. by rewrite !int64_uint64_any.
Qed.

(** Numbers that fit the stored widths. *)
Definition message_in_range (msg : QueueMessage) : Prop :=
  0 <= State msg < 256 /\ u32 (DeliveryCount msg) /\ i64 (EnqueuedAt msg) /\
  i64 (InFlightAt msg) /\ i64 (VisibilityTimeout msg) /\ u32 (MaxRetries msg).

Lemma stored_in_range msg : message_in_range msg -> stored msg = msg.
Proof.
  intros (Hs & Hd & He & Hf & Hv & Hm). unfold stored, uint8, uint32, u32 in *.
  rewrite !int64_small, !Z.mod_small by (done || lia). by destruct msg.
Qed.

Lemma in_range_stored msg : message_in_range (stored msg).
Proof.
  split_and!; cbn; try apply int64_i64; try apply uint32_range.
  all: pose proof (Z.mod_pos_bound (State msg) (2 ^ 8) ltac:(lia)); unfold uint8; lia.
Qed.

(** The reads after the consumer's name are not guarded. *)
Lemma times_panic data pos (f : Z -> Z -> Z -> Z -> result QueueMessage) :
  0 <= pos -> len data < pos + 28 ->
  (a ← Uint64 data pos; b ← Uint64 data (pos + 8); c ← Uint64 data (pos + 8 + 8);
   d ← Uint32 data (pos + 8 + 8 + 8); f a b c d) = Panic.
Proof.
  intros Hp Hl. unfold Uint64, Uint32.
  destruct (Z.ltb_spec (len data) (pos + 8)).
  { by rewrite (GetUint_panic 8 data pos) by lia. }
  rewrite (GetUint_ok 8 data pos), bind_ok by lia.
  destruct (Z.ltb_spec (len data) (pos + 16)).
  { by rewrite (GetUint_panic 8 data (pos + 8)) by lia. }
  rewrite (GetUint_ok 8 data (pos + 8)), bind_ok by lia.
  destruct (Z.ltb_spec (len data) (pos + 24)).
  { by rewrite (GetUint_panic 8 data (pos + 8 + 8)) by lia. }
  rewrite (GetUint_ok 8 data (pos + 8 + 8)), bind_ok by lia.
  by rewrite (GetUint_panic 4 data (pos + 8 + 8 + 8)) by lia.
Qed.

(** ** Properties *)

(** C35: a stored message whose id, value and consumer name fit their length
    fields decodes to the message that was encoded, its numbers reduced to the
    stored widths; when they fit, to the message itself. *)
Theorem message_roundtrip msg :
  message_fits msg ->
  (data ← encodeQueueMessage msg; decodeQueueMessage data) = Ok (stored msg) /\
  (message_in_range msg -> stored msg = msg).
Proof.
  intros Hf. rewrite encodeQueueMessage_wire, bind_ok, decodeQueueMessage_wire by done.
  split; [done|apply stored_in_range].
Qed.

Definition sample_message : QueueMessage :=
  mkQueueMessage (str "id-1") (str "hello") StateInFlight 2 (str "worker") 1700000000000
    1700000000500 30000 0.

Lemma message_roundtrip_witness :
  message_fits sample_message /\
  (data ← encodeQueueMessage sample_message; decodeQueueMessage data)
  = Ok (stored sample_message) /\
  (message_in_range sample_message -> stored sample_message = sample_message).
Proof.
  split; [by vm_compute|]. apply (message_roundtrip sample_message). by vm_compute.
Defined.

(** A queue configuration whose names fit decodes to what was stored. *)
Theorem config_roundtrip cfg :
  config_fits cfg ->
  (data ← encodeQueueConfig cfg; decodeQueueConfig data) = Ok (stored_config cfg).
Proof. intros. rewrite encodeQueueConfig_wire, bind_ok. by apply decodeQueueConfig_wire. Qed.

Lemma config_roundtrip_witness :
  let cfg := mkQueueConfig (str "jobs") (str "dead") 3 30000 in
  (data ← encodeQueueConfig cfg; decodeQueueConfig data) = Ok (stored_config cfg).
Proof. intros cfg. apply (config_roundtrip cfg). by vm_compute. Defined.

(** The decoder's length check lets truncated records through: a record
    that lost any 1 to 28 bytes at its end, but still has the 39 bytes the check
    asks for, makes the decoder panic instead of returning an error. *)
Theorem truncated_message_panics msg data cut :
  message_fits msg -> data ++ cut = message_wire msg ->
  1 <= len cut <= 28 -> 39 <= len data -> decodeQueueMessage data = Panic.
Proof.
  intros (Hi & Hv & Hc) E Hcut H39. unfold short, long, u16, u32 in *.
  unfold message_wire in E. rewrite !app_assoc in E.
  assert (Hm : len (message_times msg) = 28) by (unfold message_times; len_lia).
  apply app_cut in E as (t & -> & Et); [|lia].
  apply (f_equal len) in Et. rewrite len_app in Et.
  rewrite <- !app_assoc, <- (be32_uint32 (DeliveryCount msg)) in *.
  pose proof (uint32_range (DeliveryCount msg)). unfold u32 in *.
  unfold decodeQueueMessage, str16, blob32 in *. cbv zeta.
  do 12 go_read1.
  apply times_panic; len_lia.
Qed.

Lemma truncated_message_panics_witness :
  decodeQueueMessage (takeZ 50 (message_wire sample_message)) = Panic.
Proof.
  apply (truncated_message_panics sample_message _ (dropZ 50 (message_wire sample_message))).
  - by vm_compute.
  - by vm_compute.
  - by vm_compute.
  - by vm_compute.
Defined.
