(* ===== verification/QueueAck.v ===== *)
(** The acknowledged queue of internal/queue/storage_ack.go: messages stored
    under their identifier, an index of identifiers by state, and the
    operations that move a message between states.  [uuid.New().String()] and
    [time.Now().UnixMilli()] are arguments. *)
From stdpp Require Import base list numbers gmap strings.
From Stdlib Require Import ZArith Lia.
From S2P Require Import Prelude GoBytes Fields Fmt Badger QueueStorage QueueCodec.

(** ** Keys *)

Definition messageKey (queueName messageID : bytes) : bytes :=
  str "queue:msg:" ++ queueName ++ str ":" ++ messageID.
Definition messageIndexKey (queueName : bytes) (state : Z) (messageID : bytes) : bytes :=
  str "queue:idx:" ++ queueName ++ str ":" ++ fmt_d state ++ str ":" ++ messageID.
Definition queueConfigKey (queueName : bytes) : bytes := str "queue:config:" ++ queueName.

(** [fmt.Sprintf("queue:idx:%s:%d:", queueName, state)] *)
Definition messageIndexPrefix (queueName : bytes) (state : Z) : bytes :=
  str "queue:idx:" ++ queueName ++ str ":" ++ fmt_d state ++ str ":".

(** [time.Duration.Milliseconds()]; a duration is a number of nanoseconds. *)
Definition Milliseconds (d : Z) : Z := Z.quot d 1000000.

(** Field assignments of the operations. *)
Definition take_message (consumerID : bytes) (now ms : Z) (msg : QueueMessage) : QueueMessage :=
  mkQueueMessage (ID msg) (Value msg) StateInFlight (DeliveryCount msg + 1) consumerID
    (EnqueuedAt msg) now ms (MaxRetries msg).
Definition return_message (msg : QueueMessage) : QueueMessage :=
  mkQueueMessage (ID msg) (Value msg) StatePending (DeliveryCount msg) []
    (EnqueuedAt msg) 0 (VisibilityTimeout msg) (MaxRetries msg).
Definition new_message (uuid value : bytes) (count now : Z) : QueueMessage :=
  mkQueueMessage uuid value StatePending count [] now 0 0 0.
Definition default_config (queueName : bytes) : QueueConfig :=
  mkQueueConfig queueName [] 3 30000.

Section Ack.
Context {bdg : Badger}.
Implicit Types (db : DB) (txn : Txn).

(** ** Configuration *)

Definition SetQueueConfig db (cfg : QueueConfig) : DB * result unit :=
  if decide (Name cfg = []) then (db, Err ErrInvalidQueue) else
  Update db (fun txn =>
    let key := queueConfigKey (Name cfg) in
    data ← encodeQueueConfig cfg;
    txn ← TxnSet txn key data;
    Ok (txn, tt)).

Definition GetQueueConfig db (queueName : bytes) : result QueueConfig :=
  if decide (queueName = []) then Err ErrInvalidQueue else
  View db (fun txn =>
    let key := queueConfigKey queueName in
    on_err (TxnGet txn key)
      (fun err => if is_sentinel err ErrKeyNotFound then Ok (default_config queueName)
                  else Err err)
      (fun item => val ← ItemValue item; decodeQueueConfig val)).

(** ** Messages *)

Definition PushMessage db (uuid : bytes) (now : Z) (queueName value : bytes) : DB * result bytes :=
  if decide (queueName = []) then (db, Err ErrInvalidQueue) else
  let messageID := uuid in
  let msg := new_message messageID value 0 now in
  Update db (fun txn =>
    let msgKey := messageKey queueName messageID in
    msgData ← encodeQueueMessage msg;
    txn ← TxnSet txn msgKey msgData;
    let idxKey := messageIndexKey queueName StatePending messageID in
    txn ← TxnSet txn idxKey [1];
    Ok (txn, messageID)).

Definition PopMessage db (now : Z) (queueName consumerID : bytes) (visibilityTimeout : Z)
    : DB * result QueueMessage :=
  if decide (queueName = []) then (db, Err ErrInvalidQueue) else
  Update db (fun txn =>
    let prefix := messageIndexPrefix queueName StatePending in
    match Iterate txn prefix with
    | [] => Err ErrQueueEmpty
    | it :: _ =>
        messageID ← slice_from (ItemKey it) (len prefix);
        let msgKey := messageKey queueName messageID in
        item ← TxnGet txn msgKey;
        val ← ItemValue item;
        msg ← decodeQueueMessage val;
        let msg := take_message consumerID now (Milliseconds visibilityTimeout) msg in
        msgData ← encodeQueueMessage msg;
        txn ← TxnSet txn msgKey msgData;
        let oldIdxKey := messageIndexKey queueName StatePending messageID in
        txn ← TxnDelete txn oldIdxKey;
        let newIdxKey := messageIndexKey queueName StateInFlight messageID in
        txn ← TxnSet txn newIdxKey [1];
        Ok (txn, msg)
    end).

(** Reading a message in the operations that report a missing one. *)
Definition load_message txn (queueName messageID : bytes) : result QueueMessage :=
  on_err (TxnGet txn (messageKey queueName messageID))
    (fun err => if is_sentinel err ErrKeyNotFound then Err ErrMessageNotFound else Err err)
    (fun item => val ← ItemValue item; decodeQueueMessage val).

Definition AckMessage db (queueName messageID : bytes) : DB * result unit :=
  if decide (queueName = [] \/ messageID = []) then (db, Err ErrInvalidQueue) else
  Update db (fun txn =>
    msg ← load_message txn queueName messageID;
    txn ← TxnDelete txn (messageKey queueName messageID);
    let idxKey := messageIndexKey queueName (State msg) messageID in
    txn ← TxnDelete txn idxKey;
    Ok (txn, tt)).

Definition moveToDeadLetter txn (uuid : bytes) (now : Z) (sourceQueue dlqName : bytes)
    (msg : QueueMessage) : result Txn :=
  let srcMsgKey := messageKey sourceQueue (ID msg) in
  txn ← TxnDelete txn srcMsgKey;
  let srcIdxKey := messageIndexKey sourceQueue (State msg) (ID msg) in
  txn ← TxnDelete txn srcIdxKey;
  let dlqMessageID := uuid in
  let dlqMsg := new_message dlqMessageID (Value msg) (DeliveryCount msg) now in
  let dlqMsgKey := messageKey dlqName dlqMessageID in
  dlqMsgData ← encodeQueueMessage dlqMsg;
  txn ← TxnSet txn dlqMsgKey dlqMsgData;
  let dlqIdxKey := messageIndexKey dlqName StatePending dlqMessageID in
  TxnSet txn dlqIdxKey [1].

Definition NackMessage db (uuid : bytes) (now : Z) (queueName messageID : bytes) (requeue : bool)
    : DB * result unit :=
  if decide (queueName = [] \/ messageID = []) then (db, Err ErrInvalidQueue) else
  Update db (fun txn =>
    let msgKey := messageKey queueName messageID in
    msg ← load_message txn queueName messageID;
    cfg ← GetQueueConfig db queueName;
    if (CfgMaxRetries cfg <=? DeliveryCount msg) && (0 <? CfgMaxRetries cfg) then
      if decide (DeadLetterQueue cfg <> []) then
        txn ← moveToDeadLetter txn uuid now queueName (DeadLetterQueue cfg) msg;
        Ok (txn, tt)
      else
        txn ← TxnDelete txn msgKey;
        let idxKey := messageIndexKey queueName (State msg) messageID in
        txn ← TxnDelete txn idxKey;
        Ok (txn, tt)
    else if negb requeue then
      txn ← TxnDelete txn msgKey;
      let idxKey := messageIndexKey queueName (State msg) messageID in
      txn ← TxnDelete txn idxKey;
      Ok (txn, tt)
    else
      let oldState := State msg in
      let msg := return_message msg in
      msgData ← encodeQueueMessage msg;
      txn ← TxnSet txn msgKey msgData;
      let oldIdxKey := messageIndexKey queueName oldState messageID in
      txn ← TxnDelete txn oldIdxKey;
      let newIdxKey := messageIndexKey queueName StatePending messageID in
      txn ← TxnSet txn newIdxKey [1];
      Ok (txn, tt)).

(** ** Expiry *)

(** [InFlightAt+VisibilityTimeout] is an [int64] addition. *)
Definition is_expired (now : Z) (msg : QueueMessage) : bool :=
  (0 <? VisibilityTimeout msg) && (int64 (InFlightAt msg + VisibilityTimeout msg) <? now).

(** The first loop: the identifiers of the expired messages; a message that
    cannot be read is skipped. *)
Definition collect_step txn (now : Z) (queueName prefix : bytes)
    (expiredMessages : list bytes) (it : Item) : result (list bytes) :=
  messageID ← slice_from (ItemKey it) (len prefix);
  on_err (TxnGet txn (messageKey queueName messageID)) (fun _ => Ok expiredMessages) (fun item =>
  on_err (val ← ItemValue item; decodeQueueMessage val) (fun _ => Ok expiredMessages) (fun msg =>
    Ok (if is_expired now msg then expiredMessages ++ [messageID] else expiredMessages))).

(** The second loop: each of them becomes pending again; the errors of [Set]
    skip the message, the error of [Delete] is ignored. *)
Definition requeue_step (queueName : bytes) (st : Txn * Z) (messageID : bytes)
    : result (Txn * Z) :=
  let '(txn, count) := st in
  let msgKey := messageKey queueName messageID in
  on_err (TxnGet txn msgKey) (fun _ => Ok (txn, count)) (fun item =>
  on_err (val ← ItemValue item; decodeQueueMessage val) (fun _ => Ok (txn, count)) (fun msg =>
    msgData ← encodeQueueMessage (return_message msg);
    on_err (TxnSet txn msgKey msgData) (fun _ => Ok (txn, count)) (fun txn =>
    let oldIdxKey := messageIndexKey queueName StateInFlight messageID in
    txn ← on_err (TxnDelete txn oldIdxKey) (fun _ => Ok txn) Ok;
    let newIdxKey := messageIndexKey queueName StatePending messageID in
    on_err (TxnSet txn newIdxKey [1]) (fun _ => Ok (txn, count)) (fun txn =>
    Ok (txn, count + 1))))).

Definition RequeueExpiredMessages db (now : Z) (queueName : bytes) : DB * result Z :=
  if decide (queueName = []) then (db, Err ErrInvalidQueue) else
  Update db (fun txn =>
    let prefix := messageIndexPrefix queueName StateInFlight in
    expiredMessages ← for_each (Iterate txn prefix) [] (collect_step txn now queueName prefix);
    for_each expiredMessages (txn, 0) (requeue_step queueName)).
End Ack.
