(* ===== verification/QueueMailbox.v ===== *)
(** What the acknowledged queue promises: a mailbox, a finite map from queue
    and identifier to message, of which the stored messages and the index of
    identifiers by state are a faithful image. *)
From stdpp Require Import base list numbers gmap sorting strings.
From Stdlib Require Import ZArith Lia.
From S2P Require Import Prelude GoBytes Fields Fmt Badger QueueStorage QueueCodec QueueAck.

(** ** The keys of the acknowledged queue are unambiguous *)

Lemma messageKey_inj q q' id id' :
  name_ok q -> name_ok q' -> messageKey q id = messageKey q' id' -> (q, id) = (q', id').
Proof.
  unfold messageKey. intros Hq Hq' E. apply app_inv_head in E.
  apply split_colon in E as [-> ->]; done.
Qed.

Lemma messageIndexKey_inj q q' s s' id id' :
  name_ok q -> name_ok q' -> 0 <= s -> 0 <= s' ->
  messageIndexKey q s id = messageIndexKey q' s' id' -> (q, id) = (q', id') /\ s = s'.
Proof.
  unfold messageIndexKey. intros Hq Hq' Hs Hs' E. apply app_inv_head in E.
  apply split_colon in E as [-> E]; [|done..].
  apply split_colon in E as [E ->]; [|by apply digits_name_ok..].
  apply fmt_d_inj in E; [|done..]. done.
Qed.

(** ** The representation *)

Abbreviation mailbox := (gmap (list Z * list Z) QueueMessage).

(** A message as the code stores it under queue [q]. *)
Definition good (q id : bytes) (msg : QueueMessage) : Prop :=
  name_ok q /\ ID msg = id /\ message_fits msg /\ message_in_range msg.

Definition index_entry (M : mailbox) (q : bytes) (s : Z) (id : bytes) : option bytes :=
  msg ← M !! (q, id); if decide (State msg = s) then Some [1] else None.

Definition holds (M : mailbox) (m : store) : Prop :=
  (forall q id msg, M !! (q, id) = Some msg -> good q id msg) /\
  (forall q id, name_ok q -> m !! messageKey q id = message_wire <$> M !! (q, id)) /\
  (forall q s id, name_ok q -> 0 <= s -> m !! messageIndexKey q s id = index_entry M q s id).

(** The keys of the mailbox; stores that agree on everything else. *)
Definition mail_key (k : bytes) : Prop :=
  (exists q id, k = messageKey q id) \/ (exists q s id, k = messageIndexKey q s id).
Definition same_rest (m m' : store) : Prop := forall k, ~ mail_key k -> m' !! k = m !! k.

Lemma holds_empty : holds ∅ ∅.
Proof.
  split_and!; intros *; rewrite ?lookup_empty; try done.
Qed.

Section Updates.
Context (q id : bytes).
Implicit Types (M : mailbox) (m : store) (msg : QueueMessage).

(** The four writes of the operations, and where they show. *)
Definition put_index (s : Z) (m : store) : store := <[messageIndexKey q s id := [1]]> m.
Definition drop_index (s : Z) (m : store) : store := delete (messageIndexKey q s id) m.
Definition put_message msg (m : store) : store := <[messageKey q id := message_wire msg]> m.
Definition drop_message (m : store) : store := delete (messageKey q id) m.

Lemma key_index q' id' s' id'' q'' : messageKey q' id' <> messageIndexKey q'' s' id''.
Proof. done. Qed.

Lemma message_decide q' id' :
  name_ok q -> name_ok q' ->
  messageKey q id = messageKey q' id' <-> (q, id) = (q', id').
Proof.
  intros Hq Hq'. split; [by apply messageKey_inj|]. by intros [= -> ->].
Qed.

Lemma index_decide s q' s' id' :
  name_ok q -> name_ok q' -> 0 <= s -> 0 <= s' ->
  messageIndexKey q s id = messageIndexKey q' s' id' <-> (q, id) = (q', id') /\ s = s'.
Proof.
  intros Hq Hq' Hs Hs'. split; [by apply messageIndexKey_inj|]. by intros [[= -> ->] ->].
Qed.

Lemma holds_new M m msg :
  holds M m -> good q id msg -> M !! (q, id) = None ->
  holds (<[(q, id) := msg]> M) (put_index (State msg) (put_message msg m)).
Proof.
  intros (Hg & Hm & Hi) Hgood Hnone. pose proof Hgood as (Hq & _ & _ & (Hs & _)).
  unfold put_index, put_message. split_and!.
  - intros q' id' msg'. rewrite lookup_insert. case_decide as E; [|by apply Hg].
    injection E as <- <-. by intros [= <-].
  - intros q' id' Hq'. rewrite lookup_insert_ne by (intros E; by apply (key_index q' id' (State msg) id q)).
    rewrite !lookup_insert, Hm by done.
    pose proof (message_decide q' id' Hq Hq'). repeat case_decide; tauto || done.
  - intros q' s' id' Hq' Hs'. rewrite lookup_insert.
    rewrite (lookup_insert_ne m) by apply key_index. rewrite Hi by done.
    unfold index_entry. rewrite lookup_insert.
    pose proof (index_decide (State msg) q' s' id' Hq Hq' ltac:(lia) Hs').
    destruct (decide ((q, id) = (q', id'))) as [E|]; repeat case_decide; try tauto; cbn.
    + by rewrite decide_True by tauto.
    + rewrite decide_False by tauto. injection E as <- <-. by rewrite Hnone.
Qed.

Lemma holds_drop M m msg :
  holds M m -> M !! (q, id) = Some msg ->
  holds (delete (q, id) M) (drop_index (State msg) (drop_message m)).
Proof.
  intros (Hg & Hm & Hi) Hsome. pose proof (Hg _ _ _ Hsome) as (Hq & _ & _ & (Hs & _)).
  unfold drop_index, drop_message. split_and!.
  - intros q' id' msg'. rewrite lookup_delete. case_decide; [done|by apply Hg].
  - intros q' id' Hq'. rewrite lookup_delete_ne by (intros E; by apply (key_index q' id' (State msg) id q)).
    rewrite !lookup_delete, Hm by done.
    pose proof (message_decide q' id' Hq Hq'). repeat case_decide; tauto || done.
  - intros q' s' id' Hq' Hs'. rewrite lookup_delete.
    rewrite (lookup_delete_ne m) by apply key_index. rewrite Hi by done.
    unfold index_entry. rewrite lookup_delete.
    pose proof (index_decide (State msg) q' s' id' Hq Hq' ltac:(lia) Hs').
    destruct (decide ((q, id) = (q', id'))) as [E|]; repeat case_decide; try tauto; cbn.
    injection E as <- <-. rewrite Hsome. cbn. rewrite decide_False by tauto. done.
Qed.

(** Dropping a message and storing another one under the same identifier. *)
Lemma holds_replace M m msg msg' :
  holds M m -> M !! (q, id) = Some msg -> good q id msg' ->
  holds (<[(q, id) := msg']> M)
    (put_index (State msg') (drop_index (State msg) (put_message msg' m))).
Proof.
  intros HM Hsome Hg'. pose proof (holds_drop M m msg HM Hsome) as HD.
  pose proof (holds_new _ _ msg' HD Hg' (lookup_delete_eq M (q, id))) as HN.
  rewrite insert_delete_eq in HN.
  unfold put_index, put_message, drop_index, drop_message in *.
  rewrite <- delete_insert_ne in HN by (intros E; symmetry in E; by apply key_index in E).
  by rewrite insert_delete_eq in HN.
Qed.
End Updates.

(** ** Everything else is left alone *)

Lemma same_rest_refl m : same_rest m m.
Proof. by intros k _. Qed.

Lemma same_rest_insert m m' k v : mail_key k -> same_rest m m' -> same_rest m (<[k := v]> m').
Proof. intros Hk Hs k' Hk'. rewrite lookup_insert_ne; [by apply Hs|]. by intros ->. Qed.

Lemma same_rest_delete m m' k : mail_key k -> same_rest m m' -> same_rest m (delete k m').
Proof. intros Hk Hs k' Hk'. rewrite lookup_delete_ne; [by apply Hs|]. by intros ->. Qed.

Lemma message_mail q id : mail_key (messageKey q id).
Proof. left. by exists q, id. Qed.
Lemma index_mail q s id : mail_key (messageIndexKey q s id).
Proof. right. by exists q, s, id. Qed.

Create HintDb mail.
#[export] Hint Resolve same_rest_refl same_rest_insert same_rest_delete message_mail index_mail : mail.
#[export] Hint Unfold put_message drop_message put_index drop_index : mail.

(** ** Messages in transit *)

Lemma message_wire_stored msg : message_wire (stored msg) = message_wire msg.
Proof.
  unfold message_wire, message_times, stored.
  cbn [ID Value State DeliveryCount ConsumerID EnqueuedAt InFlightAt VisibilityTimeout MaxRetries].
  rewrite !be32_uint32, !be64_int64. unfold uint8. by rewrite Z.mod_mod.
Qed.

Lemma decode_good q id msg :
  good q id msg -> decodeQueueMessage (message_wire msg) = Ok msg.
Proof.
  intros (_ & _ & Hf & Hr). by rewrite decodeQueueMessage_wire, stored_in_range.
Qed.

Lemma good_stored q id msg :
  name_ok q -> ID msg = id -> message_fits msg -> good q id (stored msg).
Proof. intros. split_and!; try done. apply in_range_stored. Qed.

Section Mailbox.
Context {bdg : Badger} {laws : BadgerLaws}.
Implicit Types (db : DB) (t : Txn) (M : mailbox) (E : error -> Prop).

Definition mail_becomes db (M : mailbox) (m : store) : Prop :=
  holds M m /\ same_rest (contents db) m.

Lemma wp_load {B} E t M q id (f : QueueMessage -> result B) Q :
  holds M (snapshot t) -> name_ok q ->
  (forall msg, M !! (q, id) = Some msg -> wp E (f msg) Q) ->
  (M !! (q, id) = None -> E ErrMessageNotFound) ->
  wp E (load_message t q id ≫= f) Q.
Proof.
  intros (Hg & Hm & _) Hq Hf Hn. apply wp_bind. unfold load_message. apply wp_get; [done|..].
  - intros i Hi. apply wp_value. rewrite Hm in Hi by done.
    destruct (M !! (q, id)) as [msg|] eqn:HM; [|done]. injection Hi as <-.
    rewrite (decode_good q id msg) by auto. by apply Hf.
  - intros Hi. rewrite Hm in Hi by done. right. apply Hn.
    by destruct (M !! (q, id)).
  - intros e He. rewrite fault_not_found by done. by left.
Qed.

Lemma AckMessage_served db M q id :
  holds M (contents db) -> name_ok q -> q <> [] -> id <> [] ->
  served db (AckMessage db q id) (fun e => e = ErrMessageNotFound /\ M !! (q, id) = None)
    (fun m _ => is_Some (M !! (q, id)) /\ mail_becomes db (delete (q, id) M) m).
Proof.
  intros HM Hq Hq0 Hid. unfold AckMessage. rewrite decide_False by tauto.
  apply served_update. intros t Ht. rewrite <- Ht in HM.
  eapply wp_load; [done|done| |done]. intros msg Hmsg.
  txn_write t1 Ht1. txn_write t2 Ht2. cbn. split; [done|].
  rewrite Ht2, Ht1. split; [by apply (holds_drop q id)|]. rewrite Ht. auto with mail.
Qed.

Lemma PushMessage_served db M uuid now q v :
  holds M (contents db) -> name_ok q -> q <> [] -> short uuid -> long v ->
  M !! (q, uuid) = None ->
  served db (PushMessage db uuid now q v) (fun _ => False)
    (fun m id => id = uuid /\
       mail_becomes db (<[(q, uuid) := stored (new_message uuid v 0 now)]> M) m).
Proof.
  intros HM Hq Hq0 Hu Hv Hnone. unfold PushMessage. rewrite decide_False by done.
  apply served_update. intros t Ht. cbv zeta.
  rewrite encodeQueueMessage_wire, bind_ok, <- message_wire_stored.
  txn_write t1 Ht1. txn_write t2 Ht2. cbn. split; [done|]. rewrite Ht2, Ht1, Ht. split.
  - apply (holds_new q uuid); [done| |done]. by apply good_stored.
  - auto with mail.
Qed.

(** ** Taking a message *)

(** The index entries of a state, in order. *)
Definition first_in_state M (q : bytes) (s : Z) (id : bytes) : Prop :=
  (exists msg, M !! (q, id) = Some msg /\ State msg = s) /\
  (forall id' msg', M !! (q, id') = Some msg' -> State msg' = s -> lex_leb id id' = true).
Definition none_in_state M (q : bytes) (s : Z) : Prop :=
  forall id msg, M !! (q, id) = Some msg -> State msg <> s.

Lemma index_prefix q s id : messageIndexKey q s id = messageIndexPrefix q s ++ id.
Proof. unfold messageIndexKey, messageIndexPrefix. by rewrite <- !app_assoc. Qed.

Lemma index_entry_some M q s id v :
  index_entry M q s id = Some v <->
  v = [1] /\ exists msg, M !! (q, id) = Some msg /\ State msg = s.
Proof.
  unfold index_entry. destruct (M !! (q, id)) as [msg|]; cbn.
  - case_decide.
    + split; [intros [= <-]; eauto|]. by intros [-> _].
    + split; [done|]. intros (_ & msg' & [= <-] & ?). done.
  - split; [done|]. by intros (_ & msg' & ? & _).
Qed.

(** What an iteration over the index of a state lists. *)
Lemma index_items t M q s :
  holds M (snapshot t) -> name_ok q -> 0 <= s ->
  exists ids, map ItemKey (Iterate t (messageIndexPrefix q s)) = map (messageIndexKey q s) ids /\
    StronglySorted lex_lt ids /\
    forall id, id ∈ ids <-> exists msg, M !! (q, id) = Some msg /\ State msg = s.
Proof.
  intros (_ & _ & Hi) Hq Hs. set (p := messageIndexPrefix q s).
  destruct (Iterate_law t p) as [Hsort Hin].
  set (items := Iterate t p) in *.
  assert (Hkey : forall k, k ∈ map ItemKey items <->
      exists id, k = p ++ id /\ exists msg, M !! (q, id) = Some msg /\ State msg = s).
  { intros k. rewrite list_elem_of_fmap. split.
    - intros (i & -> & Hitem).
      destruct (Hin (ItemKey i) (item_value i)) as [[Hl [id Hk]] _];
        [by apply (list_elem_of_fmap_2 (fun i => (ItemKey i, item_value i)))|].
      exists id. split; [done|]. rewrite Hk in Hl. unfold p in Hl.
      rewrite <- index_prefix, Hi in Hl by done. by apply index_entry_some in Hl as [_ ?].
    - intros (id & -> & Hm).
      destruct (Hin (p ++ id) [1]) as [_ Hx].
      apply list_elem_of_fmap in Hx as (i & [= Hk _] & Hitem); [by exists i|].
      split; [|by exists id]. unfold p. rewrite <- index_prefix, Hi by done.
      by apply index_entry_some. }
  exists (map (dropZ (len p)) (map ItemKey items)).
  assert (Hdrop : forall id, dropZ (len p) (p ++ id) = id) by (intros; by apply dropZ_app_eq).
  assert (E : map (messageIndexKey q s) (map (dropZ (len p)) (map ItemKey items))
    = map ItemKey items).
  { rewrite map_map. rewrite <- (map_id (map ItemKey items)) at 2.
    apply map_ext_in. intros k Hk. apply list_elem_of_In, Hkey in Hk as (id & -> & _).
    by rewrite Hdrop, index_prefix. }
  split; [done|]. split.
  - rewrite <- E in Hsort. clear -Hsort.
    induction (map (dropZ (len p)) (map ItemKey items)) as [|x l IH]; cbn [map] in *; [constructor|].
    apply StronglySorted_inv in Hsort as [Hs Hx]. constructor; [by apply IH|].
    rewrite Forall_map in Hx. eapply Forall_impl; [exact Hx|]. intros y [Hle Hne].
    rewrite !index_prefix, lex_leb_app in Hle. split; [done|]. congruence.
  - intros id. rewrite list_elem_of_fmap. split.
    + intros (k & -> & Hk). apply Hkey in Hk as (id' & -> & Hm). by rewrite Hdrop.
    + intros Hm. exists (p ++ id). rewrite Hdrop. split; [done|]. apply Hkey. by exists id.
Qed.
Lemma message_at M m q id msg :
  holds M m -> M !! (q, id) = Some msg ->
  m !! messageKey q id = Some (message_wire msg) /\ good q id msg.
Proof.
  intros (Hg & Hm & _) HM. pose proof (Hg _ _ _ HM) as Hgood. split; [|done].
  destruct Hgood as (Hq & _). by rewrite Hm, HM.
Qed.

Lemma PopMessage_served db M now q c vt :
  holds M (contents db) -> name_ok q -> q <> [] -> short c ->
  served db (PopMessage db now q c vt)
    (fun e => e = ErrQueueEmpty /\ none_in_state M q StatePending)
    (fun m msg => exists id old, M !! (q, id) = Some old /\ first_in_state M q StatePending id /\
       msg = take_message c now (Milliseconds vt) old /\
       mail_becomes db (<[(q, id) := stored msg]> M) m).
Proof.
  intros HM Hq Hq0 Hc. unfold PopMessage. rewrite decide_False by done.
  apply served_update. intros t Ht. rewrite <- Ht in HM. cbv zeta.
  destruct (index_items t M q StatePending HM Hq) as (ids & Hitems & Hsort & Hids); [done|].
  destruct (Iterate t _) as [|it its]; cbn [map] in Hitems; destruct ids as [|id ids]; try done.
  { right. split; [done|]. intros id msg HMs Hs. assert (id ∈ []) as Hx by (apply Hids; eauto).
    by apply elem_of_nil in Hx. }
  injection Hitems as Hkey _. rewrite Hkey, index_prefix.
  rewrite slice_from_ok, bind_ok by len_lia. rewrite dropZ_app_eq by done.
  destruct (Hids id) as [Hin _]. destruct Hin as (old & Hold & Hst); [left|].
  destruct (message_at M _ q id old HM Hold) as [Hat Hgood].
  eapply wp_get_some; [done|exact Hat|]. intros i Hv. apply wp_value.
  rewrite Hv, (decode_good q id old Hgood), bind_ok.
  rewrite encodeQueueMessage_wire, bind_ok, <- message_wire_stored.
  txn_write t1 Ht1. txn_write t2 Ht2. txn_write t3 Ht3. cbn [wp fst snd].
  exists id, old. split_and!; [done| |done|]; [split|split].
  - by exists old.
  - intros id' msg' HM' Hs'. assert (id' ∈ id :: ids) as [->|Hin]%elem_of_cons
      by (apply Hids; eauto); [apply lex_leb_refl|].
    apply StronglySorted_inv in Hsort as [_ Hall]. rewrite Forall_forall in Hall.
    by apply Hall.
  - rewrite Ht3, Ht2, Ht1, <- Hst. apply (holds_replace q id); [done|done|].
    destruct Hgood as (_ & Hid & (? & ? & _) & _). by apply good_stored.
  - rewrite Ht3, Ht2, Ht1, Ht. auto with mail.
Qed.

(** ** Rejecting a message *)

(** The configuration of a queue in a store. *)
Definition config_at (m : store) (q : bytes) (cfg : QueueConfig) : Prop :=
  match m !! queueConfigKey q with
  | Some v => decodeQueueConfig v = Ok cfg
  | None => cfg = default_config q
  end.

Lemma wp_config {B} E db q cfg (f : QueueConfig -> result B) Q :
  q <> [] -> config_at (contents db) q cfg -> wp E (f cfg) Q ->
  wp E (GetQueueConfig db q ≫= f) Q.
Proof.
  intros Hq Hcfg Hf. apply wp_bind. unfold GetQueueConfig. rewrite decide_False by done.
  apply wp_view. intros t Ht. unfold config_at in Hcfg. rewrite <- Ht in Hcfg.
  apply wp_get; [done|..].
  - intros i Hi. rewrite Hi in Hcfg. apply wp_value. by rewrite Hcfg.
  - intros Hn. rewrite Hn in Hcfg. by subst cfg.
  - intros e He. rewrite fault_not_found by done. by left.
Qed.

Lemma SetQueueConfig_served db cfg :
  Name cfg <> [] -> config_fits cfg ->
  served db (SetQueueConfig db cfg) (fun _ => False)
    (fun m _ => config_at m (Name cfg) (stored_config cfg) /\
       forall k, k <> queueConfigKey (Name cfg) -> m !! k = contents db !! k).
Proof.
  intros Hn Hf. unfold SetQueueConfig. rewrite decide_False by done.
  apply served_update. intros t Ht. cbv zeta. rewrite encodeQueueConfig_wire, bind_ok.
  txn_write t1 Ht1. cbn [wp fst snd]. rewrite Ht1, Ht. split.
  - unfold config_at. rewrite lookup_insert_eq. by apply decodeQueueConfig_wire.
  - intros k Hk. by apply lookup_insert_ne.
Qed.

(** The mailbox after a rejection of [msg]. *)
Definition exhausted (cfg : QueueConfig) (msg : QueueMessage) : bool :=
  (CfgMaxRetries cfg <=? DeliveryCount msg) && (0 <? CfgMaxRetries cfg).

Definition rejected M (uuid : bytes) (now : Z) (q id : bytes) (requeue : bool)
    (cfg : QueueConfig) (msg : QueueMessage) : mailbox :=
  if exhausted cfg msg then
    if decide (DeadLetterQueue cfg <> []) then
      <[(DeadLetterQueue cfg, uuid) := stored (new_message uuid (Value msg) (DeliveryCount msg) now)]>
        (delete (q, id) M)
    else delete (q, id) M
  else if requeue then <[(q, id) := return_message msg]> M
  else delete (q, id) M.

Lemma good_return q id msg : good q id msg -> good q id (return_message msg).
Proof.
  intros (Hq & Hid & (? & ? & _) & (_ & ? & ? & _ & ? & ?)).
  split_and!; try done; split_and!; try done; cbn; unfold short, u16, i64; cbn; lia.
Qed.

Lemma moveToDeadLetter_wp E t M uuid now q dlq msg id :
  holds M (snapshot t) -> M !! (q, id) = Some msg -> name_ok dlq -> short uuid ->
  M !! (dlq, uuid) = None ->
  wp E (moveToDeadLetter t uuid now q dlq msg) (fun t' =>
    holds (<[(dlq, uuid) := stored (new_message uuid (Value msg) (DeliveryCount msg) now)]>
      (delete (q, id) M)) (snapshot t') /\ same_rest (snapshot t) (snapshot t')).
Proof.
  intros HM Hmsg Hdlq Hu Hnone. destruct (message_at M _ q id msg HM Hmsg) as [_ Hgood].
  destruct Hgood as (Hq & Hid & (_ & Hv & _) & _). unfold moveToDeadLetter. cbv zeta.
  rewrite encodeQueueMessage_wire, <- message_wire_stored, Hid.
  txn_write t1 Ht1. txn_write t2 Ht2. rewrite bind_ok. txn_write t3 Ht3.
  rewrite <- (bind_ret (TxnSet _ _ _)). txn_write t4 Ht4. cbn [wp mret result_ret].
  rewrite Ht4, Ht3, Ht2, Ht1. split; [|auto with mail].
  apply (holds_new dlq uuid).
  - by apply (holds_drop q id).
  - by apply good_stored.
  - rewrite lookup_delete. by case_decide.
Qed.

Lemma NackMessage_served db M uuid now q id requeue cfg :
  holds M (contents db) -> name_ok q -> q <> [] -> id <> [] ->
  config_at (contents db) q cfg -> name_ok (DeadLetterQueue cfg) -> short uuid ->
  M !! (DeadLetterQueue cfg, uuid) = None ->
  served db (NackMessage db uuid now q id requeue)
    (fun e => e = ErrMessageNotFound /\ M !! (q, id) = None)
    (fun m _ => exists msg, M !! (q, id) = Some msg /\
       mail_becomes db (rejected M uuid now q id requeue cfg msg) m).
Proof.
  intros HM Hq Hq0 Hid Hcfg Hdlq Hu Hnone. unfold NackMessage. rewrite decide_False by tauto.
  apply served_update. intros t Ht. rewrite <- Ht in HM. cbv zeta.
  eapply wp_load; [done|done| |done]. intros msg Hmsg.
  eapply wp_config; [done|done|]. fold (exhausted cfg msg).
  assert (Hdrop : wp (fun e => e = ErrMessageNotFound /\ M !! (q, id) = None)
    (txn ← TxnDelete t (messageKey q id);
     txn ← TxnDelete txn (messageIndexKey q (State msg) id); Ok (txn, tt))
    (fun ta => mail_becomes db (delete (q, id) M) (snapshot ta.1))).
  { txn_write t1 Ht1. txn_write t2 Ht2. cbn [wp fst]. rewrite Ht2, Ht1. split.
    - by apply (holds_drop q id).
    - rewrite Ht. auto with mail. }
  unfold rejected. destruct (exhausted cfg msg) eqn:Hex.
  - case_decide as Hd.
    + apply wp_bind. eapply wp_mono; [by apply (moveToDeadLetter_wp _ t M uuid now q _ msg id)|].
      intros t' [HM' Hs]. exists msg. rewrite Hex. split; [done|].
      split; [done|]. by rewrite <- Ht.
    + eapply wp_mono; [exact Hdrop|]. intros ta Hta. exists msg. by rewrite Hex.
  - destruct requeue; cbn [negb].
    + rewrite encodeQueueMessage_wire, bind_ok.
      txn_write t1 Ht1. txn_write t2 Ht2. txn_write t3 Ht3. cbn [wp fst snd].
      exists msg. rewrite Hex. split; [done|]. rewrite Ht3, Ht2, Ht1. split.
      * apply (holds_replace q id); [done|done|]. apply good_return.
        by apply (message_at M (snapshot t)).
      * rewrite Ht. auto with mail.
    + eapply wp_mono; [exact Hdrop|]. intros ta Hta. exists msg. by rewrite Hex.
Qed.
End Mailbox.
