(* ===== verification/QueueDelivery.v ===== *)
(** Expiry in the acknowledged queue: on an engine that refuses nothing,
    [RequeueExpiredMessages] makes exactly the expired in-flight messages of its
    queue pending again, and counts them.  The queue as a state machine over
    mailboxes: the steps a client can observe, the refinement theorem that the
    storage takes exactly these steps, and what follows for the delivery of a
    message. *)
From stdpp Require Import base functions list numbers gmap sorting strings.
From Stdlib Require Import ZArith Lia.
From S2P Require Import Prelude GoBytes Fields Fmt Badger QueueStorage QueueCodec QueueAck QueueMailbox.

(** ** The specification *)

Definition expires (now : Z) (q q' : bytes) (msg : QueueMessage) : bool :=
  bool_decide (q' = q) && (State msg =? StateInFlight) && is_expired now msg.

(** The mailbox with every expired in-flight message of [q] pending again. *)
Definition expire (now : Z) (q : bytes) (M : mailbox) : mailbox :=
  map_imap (fun k msg => Some (if expires now q k.1 msg then return_message msg else msg)) M.

Lemma lookup_expire now q M q' id :
  expire now q M !! (q', id)
  = (fun msg => if expires now q q' msg then return_message msg else msg) <$> M !! (q', id).
Proof. unfold expire. rewrite map_lookup_imap. by destruct (M !! (q', id)). Qed.

(** The identifiers the first loop collects. *)
Definition due (now : Z) (q : bytes) (M : mailbox) (id : bytes) : Prop :=
  exists msg, M !! (q, id) = Some msg /\ expires now q q msg = true.

(** ** An engine without faults, equationally *)

Section Reliable.
Context {bdg : Badger} {laws : BadgerLaws} {rel : BadgerReliable}.
Implicit Types (t : Txn) (M : mailbox).

Lemma reliable_get t k v :
  k <> [] -> snapshot t !! k = Some v ->
  exists i, TxnGet t k = Ok i /\ ItemValue i = Ok v.
Proof.
  intros Hk Hv. pose proof (TxnGet_law t k Hk) as H.
  destruct (TxnGet t k) as [i|e|]; [|by destruct H as [H|[_ ?]]; [by destruct (no_fault e)|congruence]|done].
  exists i. split; [done|]. destruct (ItemValue_law i) as [->|(e & _ & He)];
    [congruence|by destruct (no_fault e)].
Qed.

Lemma reliable_set t k v :
  k <> [] -> exists t', TxnSet t k v = Ok t' /\ snapshot t' = <[k := v]> (snapshot t).
Proof.
  intros Hk. pose proof (TxnSet_law t k v Hk) as H.
  destruct (TxnSet t k v) as [t'|e|]; [by exists t'; destruct H|by destruct (no_fault e)|done].
Qed.

Lemma reliable_delete t k :
  k <> [] -> exists t', TxnDelete t k = Ok t' /\ snapshot t' = delete k (snapshot t).
Proof.
  intros Hk. pose proof (TxnDelete_law t k Hk) as H.
  destruct (TxnDelete t k) as [t'|e|]; [by exists t'; destruct H|by destruct (no_fault e)|done].
Qed.

(** Reading a message of the mailbox. *)
Lemma reliable_message t M q id msg :
  holds M (snapshot t) -> M !! (q, id) = Some msg ->
  exists i, TxnGet t (messageKey q id) = Ok i /\
    (val ← ItemValue i; decodeQueueMessage val) = Ok msg.
Proof.
  intros HM Hmsg. destruct (message_at M _ q id msg HM Hmsg) as [Hat Hgood].
  destruct (reliable_get t (messageKey q id) _ ltac:(done) Hat) as (i & Hi & Hv).
  exists i. split; [done|]. rewrite Hv, bind_ok. by apply (decode_good q id).
Qed.

(** ** The first loop *)

Definition due_b (now : Z) (q : bytes) M (id : bytes) : bool :=
  match M !! (q, id) with Some msg => is_expired now msg | None => false end.

Lemma collect_step_ok t M now q it id acc :
  holds M (snapshot t) -> ItemKey it = messageIndexKey q StateInFlight id ->
  is_Some (M !! (q, id)) ->
  collect_step t now q (messageIndexPrefix q StateInFlight) acc it
  = Ok (if due_b now q M id then acc ++ [id] else acc).
Proof.
  intros HM Hk [msg Hmsg]. unfold collect_step.
  rewrite Hk, index_prefix, slice_from_ok, bind_ok by len_lia.
  rewrite dropZ_app_eq by done.
  destruct (reliable_message t M q id msg HM Hmsg) as (i & -> & Hd). cbn [on_err].
  rewrite Hd. cbn [on_err]. unfold due_b. by rewrite Hmsg.
Qed.

Lemma collect_ok t M now q items ids acc :
  holds M (snapshot t) ->
  map ItemKey items = map (messageIndexKey q StateInFlight) ids ->
  (forall id, id ∈ ids -> is_Some (M !! (q, id))) ->
  for_each items acc (collect_step t now q (messageIndexPrefix q StateInFlight))
  = Ok (acc ++ filter (fun id => due_b now q M id = true) ids).
Proof.
  intros HM. revert items acc. induction ids as [|id ids IH]; intros [|it items] acc Hk Hin;
    try done; cbn [map for_each] in *; [by rewrite app_nil_r|].
  injection Hk as Hk Hks. rewrite (collect_step_ok t M now q it id), bind_ok;
    [|done|done|apply Hin; left].
  rewrite IH by (try done; intros; apply Hin; by right).
  destruct (due_b now q M id) eqn:Hb.
  - by rewrite filter_cons_True, <- app_assoc.
  - by rewrite filter_cons_False by congruence.
Qed.

(** ** The second loop *)

Definition requeue_one (q : bytes) M (id : bytes) : mailbox :=
  match M !! (q, id) with
  | Some msg => <[(q, id) := return_message msg]> M
  | None => M
  end.

Lemma requeue_step_ok t M q id msg count :
  holds M (snapshot t) -> M !! (q, id) = Some msg -> State msg = StateInFlight ->
  exists t', requeue_step q (t, count) id = Ok (t', count + 1) /\
    holds (requeue_one q M id) (snapshot t') /\ same_rest (snapshot t) (snapshot t').
Proof.
  intros HM Hmsg Hst. unfold requeue_step, requeue_one. rewrite Hmsg. cbv zeta.
  destruct (reliable_message t M q id msg HM Hmsg) as (i & -> & Hd). cbn [on_err].
  rewrite Hd. cbn [on_err]. rewrite encodeQueueMessage_wire, bind_ok.
  destruct (reliable_set t (messageKey q id) (message_wire (return_message msg)))
    as (t1 & -> & Ht1); [done|]. cbn [on_err].
  destruct (reliable_delete t1 (messageIndexKey q StateInFlight id)) as (t2 & -> & Ht2); [done|].
  cbn [on_err]. rewrite bind_ok.
  destruct (reliable_set t2 (messageIndexKey q StatePending id) [1]) as (t3 & -> & Ht3); [done|].
  cbn [on_err]. exists t3. split; [done|]. rewrite Ht3, Ht2, Ht1, <- Hst. split.
  - apply (holds_replace q id); [done|done|]. apply good_return.
    by apply (message_at M (snapshot t)).
  - auto with mail.
Qed.

Lemma requeue_ok t M q ids count :
  holds M (snapshot t) -> NoDup ids ->
  (forall id, id ∈ ids -> exists msg, M !! (q, id) = Some msg /\ State msg = StateInFlight) ->
  exists t', for_each ids (t, count) (requeue_step q) = Ok (t', count + len ids) /\
    holds (foldl (requeue_one q) M ids) (snapshot t') /\ same_rest (snapshot t) (snapshot t').
Proof.
  revert t M count. induction ids as [|id ids IH]; intros t M count HM Hnd Hin.
  { exists t. cbn. by rewrite Z.add_0_r. }
  apply NoDup_cons in Hnd as [Hni Hnd]. cbn [for_each foldl].
  destruct (Hin id) as (msg & Hmsg & Hst); [left|].
  destruct (requeue_step_ok t M q id msg count HM Hmsg Hst) as (t1 & -> & HM1 & Hs1).
  rewrite bind_ok. destruct (IH t1 _ (count + 1) HM1 Hnd) as (t' & -> & HM' & Hs).
  - intros id' Hid'. unfold requeue_one. rewrite Hmsg.
    rewrite lookup_insert_ne by congruence. apply Hin. by right.
  - exists t'. split; [f_equal; f_equal; len_lia|]. split; [done|].
    intros k Hk. by rewrite Hs, Hs1.
Qed.

Lemma lookup_requeued q M ids q' id :
  NoDup ids ->
  foldl (requeue_one q) M ids !! (q', id)
  = if decide (q' = q /\ id ∈ ids) then return_message <$> M !! (q', id) else M !! (q', id).
Proof.
  revert M. induction ids as [|x ids IH]; intros M Hnd; cbn [foldl].
  { rewrite decide_False; [done|]. intros [_ H]. by apply elem_of_nil in H. }
  apply NoDup_cons in Hnd as [Hni Hnd]. rewrite IH by done.
  assert (Hx : forall y, (q', y) <> (q, x) -> requeue_one q M x !! (q', y) = M !! (q', y)).
  { intros y Hy. unfold requeue_one. destruct (M !! (q, x)); [|done].
    by apply lookup_insert_ne. }
  destruct (decide ((q', id) = (q, x))) as [[= -> ->]|Hne].
  - rewrite decide_False by tauto. rewrite decide_True by (split; [done|left]).
    unfold requeue_one. destruct (M !! (q, x)) eqn:E; [by rewrite lookup_insert_eq|by rewrite E].
  - rewrite Hx by done. apply decide_ext. rewrite elem_of_cons. split.
    + intros [-> ?]. auto.
    + intros [-> [->|?]]; [by destruct Hne|done].
Qed.

Lemma RequeueExpiredMessages_served db M now q :
  holds M (contents db) -> name_ok q -> q <> [] ->
  served db (RequeueExpiredMessages db now q) (fun _ => False)
    (fun m n => mail_becomes db (expire now q M) m /\
       exists ids, NoDup ids /\ n = len ids /\ forall id, id ∈ ids <-> due now q M id).
Proof.
  intros HM Hq Hq0. unfold RequeueExpiredMessages. rewrite decide_False by done.
  apply served_update. intros t Ht. rewrite <- Ht in HM. cbv zeta.
  destruct (index_items t M q StateInFlight HM Hq) as (ids & Hitems & Hsort & Hids); [done|].
  rewrite (collect_ok t M now q _ ids []); [|done|done|]; cycle 1.
  { intros id Hid. apply Hids in Hid as (msg & Hmsg & _). by exists msg. }
  rewrite bind_ok. cbn [app]. set (L := filter _ ids).
  assert (HL : forall id, id ∈ L <-> due now q M id).
  { intros id. unfold L. rewrite list_elem_of_filter, Hids. unfold due_b, due, expires.
    rewrite bool_decide_true by done. cbn [andb]. split.
    - intros (Hd & msg & Hm & Hs). exists msg. rewrite Hm in Hd. rewrite Hs, Hd. done.
    - intros (msg & Hm & He). apply andb_true_iff in He as [Hs He].
      rewrite Hm. split; [done|]. exists msg. split; [done|]. by apply Z.eqb_eq. }
  assert (HLnd : NoDup L).
  { apply NoDup_filter. clear -Hsort. induction Hsort as [|x l _ IH Hx]; constructor; [|done].
    intros Hin. rewrite Forall_forall in Hx. by destruct (Hx x Hin). }
  destruct (requeue_ok t M q L 0 HM HLnd) as (t' & Hrun & HM' & Hs).
  { intros id Hid. unfold L in Hid. apply list_elem_of_filter in Hid as [_ Hid].
    by apply Hids. }
  rewrite Hrun. cbn [wp fst snd].
  split; [split|]; [|by rewrite <- Ht|by exists L].
  replace (expire now q M) with (foldl (requeue_one q) M L); [done|].
  apply map_eq. intros [q' id]. rewrite lookup_requeued, lookup_expire by done.
  destruct (M !! (q', id)) as [msg|] eqn:Hm; [|by case_decide]. cbn.
  case_decide as Hd.
  - destruct Hd as [-> Hd]. apply HL in Hd as (msg' & Hm' & He).
    assert (msg' = msg) as -> by congruence. by rewrite He.
  - destruct (expires now q q' msg) eqn:He; [|done]. destruct Hd.
    assert (q' = q) as -> by (unfold expires in He; by destruct (decide (q' = q));
      [|rewrite bool_decide_false in He]).
    split; [done|]. apply HL. by exists msg.
Qed.
End Reliable.

(** ** The abstract machine *)

(** Its state: the messages, and a configuration per queue name. *)
Record Mail : Type := mkMail { box : mailbox; conf : bytes -> QueueConfig }.

Inductive MailOp : Type :=
| MPush (q v uuid : bytes) (now : Z)
| MPop (q consumer : bytes) (visibilityTimeout now : Z)
| MAck (q id : bytes)
| MNack (q id : bytes) (requeue : bool) (uuid : bytes) (now : Z)
| MConfig (cfg : QueueConfig)
| MExpire (q : bytes) (now : Z).

Inductive MailReply : Type :=
| MDone
| MId (id : bytes)
| MMessage (msg : QueueMessage)
| MCount (n : Z).

Definition with_box (M : mailbox) (s : Mail) : Mail := mkMail M (conf s).

Inductive mail_step (s : Mail) : MailOp -> result MailReply -> Mail -> Prop :=
| step_push q v uuid now : q <> [] ->
    mail_step s (MPush q v uuid now) (Ok (MId uuid))
      (with_box (<[(q, uuid) := stored (new_message uuid v 0 now)]> (box s)) s)
| step_pop q c vt now id msg : q <> [] ->
    first_in_state (box s) q StatePending id -> box s !! (q, id) = Some msg ->
    let msg' := take_message c now (Milliseconds vt) msg in
    mail_step s (MPop q c vt now) (Ok (MMessage msg'))
      (with_box (<[(q, id) := stored msg']> (box s)) s)
| step_pop_empty q c vt now : q <> [] ->
    none_in_state (box s) q StatePending ->
    mail_step s (MPop q c vt now) (Err ErrQueueEmpty) s
| step_ack q id : q <> [] -> id <> [] -> is_Some (box s !! (q, id)) ->
    mail_step s (MAck q id) (Ok MDone) (with_box (delete (q, id) (box s)) s)
| step_ack_missing q id : q <> [] -> id <> [] -> box s !! (q, id) = None ->
    mail_step s (MAck q id) (Err ErrMessageNotFound) s
| step_nack q id requeue uuid now msg : q <> [] -> id <> [] ->
    box s !! (q, id) = Some msg ->
    mail_step s (MNack q id requeue uuid now) (Ok MDone)
      (with_box (rejected (box s) uuid now q id requeue (conf s q) msg) s)
| step_nack_missing q id requeue uuid now : q <> [] -> id <> [] ->
    box s !! (q, id) = None ->
    mail_step s (MNack q id requeue uuid now) (Err ErrMessageNotFound) s
| step_config cfg : Name cfg <> [] ->
    mail_step s (MConfig cfg) (Ok MDone)
      (mkMail (box s) (<[Name cfg := stored_config cfg]> (conf s)))
| step_expire q now ids : q <> [] ->
    NoDup ids -> (forall id, id ∈ ids <-> due now q (box s) id) ->
    mail_step s (MExpire q now) (Ok (MCount (len ids))) (with_box (expire now q (box s)) s)
| step_invalid op :
    match op with
    | MPush q _ _ _ | MPop q _ _ _ | MExpire q _ => q = []
    | MConfig cfg => Name cfg = []
    | MAck q id | MNack q id _ _ _ => q = [] \/ id = []
    end -> mail_step s op (Err ErrInvalidQueue) s.

(** What the environment provides: queue names without a colon, fields that
    fit their length bytes, identifiers that are new. *)
Definition op_ok (s : Mail) (op : MailOp) : Prop :=
  match op with
  | MPush q v uuid _ => name_ok q /\ long v /\ short uuid /\ box s !! (q, uuid) = None
  | MPop q c _ _ => name_ok q /\ short c
  | MAck q _ => name_ok q
  | MNack q _ _ uuid _ => name_ok q /\ name_ok (DeadLetterQueue (conf s q)) /\ short uuid /\
      box s !! (DeadLetterQueue (conf s q), uuid) = None
  | MConfig cfg => config_fits cfg
  | MExpire q _ => name_ok q
  end.

(** ** The operations of the code *)

Definition answer {D A} (k : A -> MailReply) (x : D * result A) : D * result MailReply :=
  (x.1, a ← x.2; Ok (k a)).

Definition mail_exec {bdg : Badger} (db : DB) (op : MailOp) : DB * result MailReply :=
  match op with
  | MPush q v uuid now => answer MId (PushMessage db uuid now q v)
  | MPop q c vt now => answer MMessage (PopMessage db now q c vt)
  | MAck q id => answer (fun _ => MDone) (AckMessage db q id)
  | MNack q id requeue uuid now => answer (fun _ => MDone) (NackMessage db uuid now q id requeue)
  | MConfig cfg => answer (fun _ => MDone) (SetQueueConfig db cfg)
  | MExpire q now => answer MCount (RequeueExpiredMessages db now q)
  end.

Definition mail_at (s : Mail) (m : store) : Prop :=
  holds (box s) m /\ forall q, config_at m q (conf s q).

Lemma mail_at_fresh : mail_at (mkMail ∅ default_config) ∅.
Proof. split; [apply holds_empty|]. intros q. unfold config_at. by rewrite lookup_empty. Qed.

Lemma config_not_mail q : ~ mail_key (queueConfigKey q).
Proof. by intros [(q' & id & E)|(q' & s & id & E)]. Qed.

Section Delivery.
Context {bdg : Badger} {laws : BadgerLaws}.
Implicit Types (db : DB) (s : Mail).

Lemma mail_at_box s db M m :
  mail_at s (contents db) -> mail_becomes db M m -> mail_at (with_box M s) m.
Proof.
  intros [_ Hc] [HM Hr]. split; [done|]. intros q. unfold config_at. cbn [conf with_box].
  rewrite Hr by apply config_not_mail. apply Hc.
Qed.

(** Writing a configuration touches no mail. *)
Lemma mail_at_config s db m cfg :
  mail_at s (contents db) -> config_at m (Name cfg) (stored_config cfg) ->
  (forall k, k <> queueConfigKey (Name cfg) -> m !! k = contents db !! k) ->
  mail_at (mkMail (box s) (<[Name cfg := stored_config cfg]> (conf s))) m.
Proof.
  intros [(Hg & Hm & Hi) Hc] Hcfg Hs. split; [split_and!; [done|..]|]; cbn [box conf].
  - intros q id Hq. by rewrite Hs, Hm.
  - intros q st id Hq Hst. by rewrite Hs, Hi.
  - intros q. destruct (decide (q = Name cfg)) as [->|Hne]; [by rewrite fn_lookup_insert|].
    rewrite fn_lookup_insert_ne by congruence. unfold config_at.
    rewrite Hs; [apply Hc|]. intros E. by apply app_inv_head in E.
Qed.

(** A step of the machine, or a refusal of the engine without effect. *)
Definition mail_refined s op db (x : DB * result MailReply) : Prop :=
  (exists s', mail_step s op x.2 s' /\ mail_at s' (contents x.1)) \/
  (exists e, x.2 = Err e /\ fault e /\ contents x.1 = contents db).

Lemma served_mail {A} s op db (x : DB * result A) E (Q : store -> A -> Prop) k :
  mail_at s (contents db) -> served db x E Q ->
  (forall e, E e -> mail_step s op (Err e) s) ->
  (forall m a, Q m a -> exists s', mail_step s op (Ok (k a)) s' /\ mail_at s' m) ->
  mail_refined s op db (answer k x).
Proof.
  intros HM Hx HE HQ. unfold mail_refined, answer, served in *. cbn [fst snd].
  destruct (x.2) as [a|e|]; cbn; [|destruct Hx as [Hc [Hf|He]]|done].
  - left. by apply HQ.
  - right. by exists e.
  - left. exists s. rewrite Hc. auto.
Qed.

Lemma invalid_mail s op db :
  mail_at s (contents db) -> mail_step s op (Err ErrInvalidQueue) s ->
  mail_exec db op = (db, Err ErrInvalidQueue) -> mail_refined s op db (mail_exec db op).
Proof. intros HM Hs ->. left. by exists s. Qed.

Lemma mail_exec_refined s op db :
  mail_at s (contents db) -> op_ok s op ->
  (match op with MExpire _ _ => forall e, ~ fault e | _ => True end) ->
  mail_refined s op db (mail_exec db op).
Proof.
  intros HM Hop Hrel. pose proof HM as [Hbox Hconf].
  destruct op as [q v uuid now|q c vt now|q id|q id requeue uuid now|cfg|q now]; cbn [op_ok] in Hop.
  - destruct (decide (q = [])) as [->|Hq]; [by apply invalid_mail; [|by constructor|]|].
    destruct Hop as (? & ? & ? & ?).
    eapply served_mail; [done|by apply PushMessage_served|done|].
    intros m id [-> Hm]. eexists. split; [by constructor|by eapply mail_at_box].
  - destruct (decide (q = [])) as [->|Hq]; [by apply invalid_mail; [|by constructor|]|].
    destruct Hop as (? & ?).
    eapply served_mail; [done|by apply PopMessage_served|..].
    + intros e [-> ?]. by constructor.
    + intros m msg (id & old & Hold & Hfirst & -> & Hm).
      eexists. split; [by eapply step_pop|by eapply mail_at_box].
  - destruct (decide (q = [] \/ id = [])) as [Hi|Hi].
    { apply invalid_mail; [done|by constructor|]. cbn. unfold AckMessage.
      by rewrite decide_True. }
    assert (q <> [] /\ id <> []) as [? ?] by tauto.
    eapply served_mail; [done|by apply AckMessage_served|..].
    + intros e [-> ?]. by constructor.
    + intros m [] [? Hm]. eexists. split; [by constructor|by eapply mail_at_box].
  - destruct (decide (q = [] \/ id = [])) as [Hi|Hi].
    { apply invalid_mail; [done|by constructor|]. cbn. unfold NackMessage.
      by rewrite decide_True. }
    assert (q <> [] /\ id <> []) as [? ?] by tauto. destruct Hop as (? & ? & ? & ?).
    eapply served_mail; [done|by eapply NackMessage_served|..].
    + intros e [-> ?]. by constructor.
    + intros m [] (msg & ? & Hm). eexists. split; [by constructor|by eapply mail_at_box].
  - destruct (decide (Name cfg = [])) as [Hn|Hn].
    { apply invalid_mail; [done|by constructor|]. cbn. unfold SetQueueConfig.
      by rewrite decide_True. }
    eapply served_mail; [done|by apply SetQueueConfig_served|done|].
    intros m [] [Hc Hs]. eexists. split; [by constructor|by eapply mail_at_config].
  - destruct (decide (q = [])) as [->|Hq]; [by apply invalid_mail; [|by constructor|]|].
    eapply served_mail; [done|by apply (RequeueExpiredMessages_served (rel := Hrel))|done|].
    intros m n (Hm & ids & Hnd & -> & Hids). eexists.
    split; [by apply step_expire|by eapply mail_at_box].
Qed.
(** ** Properties *)

(** C8: every operation of the acknowledged queue (push, pop, ack, nack,
    configuration, expiry) on a database that represents a mailbox takes a step
    of the abstract machine: the answer is the one the machine allows, and the
    database then represents the machine's new state.  An operation the engine
    refuses has no effect (for expiry, the engine refuses nothing). *)
Theorem mail_refines s op db :
  mail_at s (contents db) -> op_ok s op ->
  (match op with MExpire _ _ => forall e, ~ fault e | _ => True end) ->
  mail_refined s op db (mail_exec db op).
Proof. by apply mail_exec_refined. Qed.

Lemma pop_result db now q c vt db' msg M :
  holds M (contents db) -> name_ok q -> q <> [] -> short c ->
  PopMessage db now q c vt = (db', Ok msg) ->
  exists id old, M !! (q, id) = Some old /\ State old = StatePending /\ ID msg = id /\
    msg = take_message c now (Milliseconds vt) old /\
    holds (<[(q, id) := stored msg]> M) (contents db').
Proof.
  intros HM Hq Hq0 Hc Hp. pose proof (PopMessage_served db M now q c vt HM Hq Hq0 Hc) as H.
  rewrite Hp in H. cbn in H. destruct H as (id & old & Hold & [(old' & Hold' & Hs) _] & -> & Hb & _).
  assert (old' = old) as -> by congruence. exists id, old. split_and!; try done.
  destruct HM as (Hg & _). by destruct (Hg _ _ _ Hold) as (_ & ? & _).
Qed.

(** C33: exclusive delivery: a message that was popped is not handed out
    again by the next pop of its queue, whoever asks. *)
Theorem delivery_exclusive M db q c1 c2 vt1 vt2 now1 now2 db1 db2 m1 m2 :
  holds M (contents db) -> name_ok q -> q <> [] -> short c1 -> short c2 ->
  PopMessage db now1 q c1 vt1 = (db1, Ok m1) ->
  PopMessage db1 now2 q c2 vt2 = (db2, Ok m2) ->
  ID m1 <> ID m2.
Proof.
  intros HM Hq Hq0 Hc1 Hc2 H1 H2.
  destruct (pop_result _ _ _ _ _ _ _ _ HM Hq Hq0 Hc1 H1) as (id1 & o1 & _ & _ & -> & E1 & HM1).
  destruct (pop_result _ _ _ _ _ _ _ _ HM1 Hq Hq0 Hc2 H2) as (id2 & o2 & Ho2 & Hs2 & -> & _).
  intros <-. rewrite lookup_insert_eq in Ho2. injection Ho2 as <-. by rewrite E1 in Hs2.
Qed.

(** *** Delivery in order *)

Definition pending (M : mailbox) (q id : bytes) : Prop := exists msg, M !! (q, id) = Some msg /\ State msg = StatePending.
Definition taken (M : mailbox) (q id : bytes) : Prop := exists msg, M !! (q, id) = Some msg /\ State msg = StateInFlight.

(** The pending messages that are delivered before [uuid], in their order. *)
Definition ahead (M : mailbox) (q uuid : bytes) (ids : list bytes) : Prop :=
  StronglySorted lex_lt ids /\ forall id, id ∈ ids <-> pending M q id /\ lex_lt id uuid.

(** [ids] are the first pending messages. *)
Definition leads (M : mailbox) (q : bytes) (ids : list bytes) : Prop :=
  StronglySorted lex_lt ids /\ (forall id, id ∈ ids -> pending M q id) /\
  forall id id', id ∈ ids -> pending M q id' -> id' ∉ ids -> lex_lt id id'.

Lemma lex_lt_irrefl a : ~ lex_lt a a.
Proof. by intros []. Qed.

Lemma not_lex_lt a b : ~ lex_lt a b -> lex_leb b a = true.
Proof.
  intros H. destruct (lex_leb_total a b) as [E|E]; [|done]. destruct (decide (a = b)) as [->|Hne].
  - apply lex_leb_refl.
  - by destruct H.
Qed.

(** There are such lists. *)
Lemma ahead_exists (M : mailbox) q uuid : exists ids, ahead M q uuid ids.
Proof.
  set (l := filter (fun kv : (list Z * list Z) * QueueMessage =>
    (kv.1.1 = q /\ State kv.2 = StatePending) /\ lex_leb kv.1.2 uuid = true /\ kv.1.2 <> uuid) (map_to_list M)).
  set (m := list_to_map (map (fun kv => (kv.1.2, [])) l) : store).
  destruct (mem_items_law m []) as [Hs Hin]. exists (map fst (mem_items m [])). split; [done|].
  intros id.
  assert (Hm : is_Some (m !! id) <-> pending M q id /\ lex_lt id uuid).
  { assert (Hd : is_Some (m !! id) <-> id ∈ map (fun kv => kv.1.2) l).
    { unfold m. rewrite <- not_eq_None_Some, <- not_elem_of_list_to_map.
      change (map ?f l) with (f <$> l). rewrite <- list_fmap_compose.
      split; [intros H; by apply dec_stable in H|]. intros H1 H2. by apply H2. }
    rewrite Hd, list_elem_of_fmap. split.
    - intros ([[q' id'] msg] & -> & Hl). unfold l in Hl.
      apply list_elem_of_filter in Hl as [H Hl]. cbn in H. destruct H as [[-> Hs'] Hlt].
      apply elem_of_map_to_list in Hl. split; [by exists msg|done].
    - intros [(msg & HM & Hp) Hlt]. exists ((q, id), msg). split; [done|].
      apply list_elem_of_filter. split; [done|]. by apply elem_of_map_to_list. }
  rewrite <- Hm, list_elem_of_fmap. rewrite (map_ext _ Datatypes.id), map_id in Hin by (by intros []). split.
  - intros ([k v] & -> & H). apply Hin in H as [H _]. by exists v.
  - intros [v H]. exists (id, v). split; [done|]. apply Hin. split; [done|]. apply prefix_nil.
Qed.

(** A pop, on an engine that refuses nothing. *)
Lemma pop_first {rel : BadgerReliable} M db q now c vt id :
  holds M (contents db) -> name_ok q -> q <> [] -> short c -> first_in_state M q StatePending id ->
  exists old, M !! (q, id) = Some old /\ (PopMessage db now q c vt).2 = Ok (take_message c now (Milliseconds vt) old) /\
    holds (<[(q, id) := stored (take_message c now (Milliseconds vt) old)]> M) (contents (PopMessage db now q c vt).1).
Proof.
  intros HM Hq Hq0 Hc [(first & Hf & Hs) Hmin].
  pose proof (served_reliable _ _ _ _ (PopMessage_served db M now q c vt HM Hq Hq0 Hc)) as H.
  destruct ((PopMessage db now q c vt).2) as [msg|e|]; [|destruct H as (_ & _ & H); by destruct (H id first)|done].
  destruct H as (id' & old & Hold & [(old' & Hold' & Hs') Hmin'] & -> & [HM' _]).
  assert (old' = old) as -> by congruence.
  assert (id' = id) as ->; [|by exists old]. apply lex_leb_antisym; [by eapply Hmin'|by eapply Hmin].
Qed.

(** Pops one after the other: when, for whom, for how long. *)
Record Popping : Type := mkPopping { pop_time : Z; pop_consumer : bytes; pop_timeout : Z }.
Fixpoint pop_all db (q : bytes) (ps : list Popping) : DB * list (result QueueMessage) :=
  match ps with
  | [] => (db, [])
  | p :: ps =>
      let x := PopMessage db (pop_time p) q (pop_consumer p) (pop_timeout p) in
      let y := pop_all x.1 q ps in (y.1, x.2 :: y.2)
  end.
Definition delivers (r : result QueueMessage) (id : bytes) : Prop := exists msg, r = Ok msg /\ ID msg = id.

Lemma leads_first M q id ids : leads M q (id :: ids) -> first_in_state M q StatePending id.
Proof.
  intros (Hs & Hp & Hl). split; [apply Hp; by left|]. intros id' msg' H' Hs'.
  apply StronglySorted_inv in Hs as [_ Hf]. rewrite Forall_forall in Hf.
  destruct (decide (id' = id)) as [->|Hne]; [apply lex_leb_refl|].
  destruct (decide (id' ∈ ids)) as [Hi|Hi]; [by apply Hf|].
  apply (Hl id id'); [by left|by exists msg'|]. rewrite elem_of_cons. tauto.
Qed.

Lemma leads_rest M q id ids msg :
  leads M q (id :: ids) -> State msg = StateInFlight -> leads (<[(q, id) := msg]> M) q ids.
Proof.
  intros (Hs & Hp & Hl) Hm. apply StronglySorted_inv in Hs as [Hs Hf]. rewrite Forall_forall in Hf.
  assert (Hne : forall i, i ∈ ids -> i <> id).
  { intros i Hi ->. by apply (lex_lt_irrefl id), Hf. }
  split_and!; [done|..].
  - intros i Hi. unfold pending. rewrite lookup_insert_ne by (intros [= E]; by apply (Hne i Hi)).
    apply Hp. by right.
  - intros i i' Hi (msg' & H' & Hs') Hi'. destruct (decide (i' = id)) as [->|Hd].
    + rewrite lookup_insert_eq in H'. injection H' as <-. by rewrite Hm in Hs'.
    + rewrite lookup_insert_ne in H' by congruence. apply Hl; [by right|by exists msg'|].
      rewrite elem_of_cons. tauto.
Qed.

Lemma pop_all_run {rel : BadgerReliable} M db q ids ps :
  holds M (contents db) -> name_ok q -> q <> [] -> leads M q ids ->
  Forall (fun p => short (pop_consumer p)) ps -> length ps = length ids ->
  Forall2 delivers (pop_all db q ps).2 ids /\
  exists M', holds M' (contents (pop_all db q ps).1) /\ (forall id, id ∈ ids -> taken M' q id) /\
    forall q' id, q' <> q \/ id ∉ ids -> M' !! (q', id) = M !! (q', id).
Proof.
  intros HM Hq Hq0 Hl Hps. revert M db ids HM Hl.
  induction Hps as [|p ps Hc _ IH]; intros M db [|id ids] HM Hl Hlen; try done.
  { split; [constructor|]. exists M. split_and!; [done| |done]. by intros id Hi%elem_of_nil. }
  cbn [pop_all fst snd].
  destruct (pop_first M db q (pop_time p) (pop_consumer p) (pop_timeout p) id HM Hq Hq0 Hc)
    as (old & Hold & E & HM'); [by eapply leads_first|]. rewrite E.
  set (msg := stored _) in HM'.
  destruct (IH _ _ ids HM') as [HF (M' & HM2 & Htk & Hsame)]; [by eapply leads_rest|by injection Hlen|].
  assert (Hid : id ∉ ids).
  { destruct Hl as [Hs _]. apply StronglySorted_inv in Hs as [_ Hf]. rewrite Forall_forall in Hf.
    intros Hi. by apply (lex_lt_irrefl id), Hf. }
  split.
  - constructor; [|done]. eexists. split; [done|]. cbn. destruct HM as (Hg & _).
    by destruct (Hg _ _ _ Hold) as (_ & ? & _).
  - exists M'. split_and!; [done|..].
    + intros i [->|Hi]%elem_of_cons; [|by apply Htk]. exists msg. split; [|done].
      rewrite Hsame by by right. apply lookup_insert_eq.
    + intros q' i Hi. rewrite elem_of_cons in Hi. rewrite Hsame by tauto.
      apply lookup_insert_ne. intros [= E1 E2]. subst. tauto.
Qed.

(** C34: delivery in order: on an engine that refuses nothing, a message pushed to
    a queue is delivered after the pending messages whose identifiers come before
    its own, one pop each and in the order of their identifiers, whoever pops; it
    has the pushed value and a delivery count of one.  Acknowledging it succeeds
    and leaves the mailbox as it was before the push, but for the messages
    that were delivered first. *)
Theorem delivery_cycle {rel : BadgerReliable} M db q v uuid now :
  holds M (contents db) -> name_ok q -> q <> [] -> uuid <> [] -> short uuid -> long v ->
  M !! (q, uuid) = None ->
  let x1 := PushMessage db uuid now q v in
  x1.2 = Ok uuid /\
  exists ids, ahead M q uuid ids /\ forall ps c vt now',
    Forall (fun p => short (pop_consumer p)) ps -> length ps = length ids -> short c ->
    let x2 := pop_all x1.1 q ps in
    let x3 := PopMessage x2.1 now' q c vt in
    let x4 := AckMessage x3.1 q uuid in
    Forall2 delivers x2.2 ids /\
    (exists msg, x3.2 = Ok msg /\ ID msg = uuid /\ Value msg = v /\ DeliveryCount msg = 1) /\
    x4.2 = Ok tt /\
    exists M', holds M' (contents x4.1) /\ (forall id, id ∈ ids -> taken M' q id) /\
      forall q' id, q' <> q \/ id ∉ ids -> M' !! (q', id) = M !! (q', id).
Proof.
  intros HM Hq Hq0 Hu0 Hu Hv Hnone x1.
  pose proof (served_reliable _ _ _ _ (PushMessage_served db M uuid now q v HM Hq Hq0 Hu Hv Hnone))
    as H1. fold x1 in H1.
  destruct (x1.2) as [u|e|]; [|by destruct H1|done]. destruct H1 as [-> [HM1 _]]. split; [done|].
  set (new := stored (new_message uuid v 0 now)) in *.
  destruct (ahead_exists M q uuid) as [ids Ha]. exists ids. split; [done|].
  intros ps c vt now' Hps Hlen Hc x2 x3 x4. destruct Ha as [Hs Ha].
  assert (Huid : uuid ∉ ids) by (intros [_ H]%Ha; by apply (lex_lt_irrefl uuid)).
  assert (Hother : forall i, pending (<[(q, uuid) := new]> M) q i -> i <> uuid -> pending M q i).
  { intros i (msg & H & Hm) Hne. rewrite lookup_insert_ne in H by congruence. by exists msg. }
  assert (Hlate : forall i, pending M q i -> i ∉ ids -> lex_leb uuid i = true).
  { intros i Hp Hi. apply not_lex_lt. intros Hlt. by apply Hi, Ha. }
  destruct (pop_all_run (<[(q, uuid) := new]> M) x1.1 q ids ps HM1 Hq Hq0) as [HF (M2 & HM2 & Htk & Hsame)];
    [|done|done|].
  { split_and!; [done|..].
    - intros i [(msg & H & Hm) Hlt]%Ha. exists msg. split; [|done]. rewrite lookup_insert_ne; [done|].
      intros [= <-]. by apply (lex_lt_irrefl uuid).
    - intros i i' [_ Hlt]%Ha Hp Hi'. destruct (decide (i' = uuid)) as [->|Hne]; [done|].
      pose proof (Hlate i' (Hother i' Hp Hne) Hi') as Hle. destruct Hlt as [Hlt Hd]. split.
      + by eapply lex_leb_trans.
      + intros ->. by destruct Hd; apply lex_leb_antisym. }
  fold x2 in HF, HM2.
  assert (Hnew : M2 !! (q, uuid) = Some new) by (rewrite Hsame; [apply lookup_insert_eq|by right]).
  destruct (pop_first M2 x2.1 q now' c vt uuid HM2 Hq Hq0 Hc) as (old & Hold & E & HM3).
  { split; [by exists new|]. intros i msg Hi Hm. destruct (decide (i = uuid)) as [->|Hne]; [apply lex_leb_refl|].
    destruct (decide (i ∈ ids)) as [Hin|Hin].
    - destruct (Htk i Hin) as (msg' & H' & Hm'). assert (msg' = msg) as -> by congruence. by rewrite Hm in Hm'.
    - apply Hlate; [|done]. apply Hother; [|done]. exists msg. by rewrite <- Hsame by by right. }
  fold x3 in E, HM3. assert (old = new) as -> by congruence.
  pose proof (served_reliable _ _ _ _ (AckMessage_served x3.1 _ q uuid HM3 Hq Hq0 Hu0)) as H4.
  fold x4 in H4. destruct (x4.2) as [[]|e|]; [|destruct H4 as (_ & _ & H4); by rewrite lookup_insert_eq in H4|done].
  destruct H4 as [_ [HM4 _]]. rewrite delete_insert_eq in HM4.
  split_and!; [done|by eexists|done|]. eexists. split_and!; [exact HM4|..].
  - intros i Hi. destruct (Htk i Hi) as (msg & H & Hm). exists msg. split; [|done].
    by rewrite lookup_delete_ne by congruence.
  - intros q' i Hi. destruct (decide ((q', i) = (q, uuid))) as [[= -> ->]|Hne].
    + by rewrite lookup_delete_eq.
    + rewrite lookup_delete_ne, Hsame, lookup_insert_ne by done. done.
Qed.
End Delivery.

(** ** Witnesses on the map instance *)

Lemma mail_refines_witness :
  let s := mkMail ∅ default_config in
  let op := MPush (str "jobs") [1; 2] (str "id-1") 1700000000000 in
  mail_refined (bdg := mem_badger) s op mem_empty (mail_exec (bdg := mem_badger) mem_empty op).
Proof.
  intros s op. apply (mail_refines (bdg := mem_badger) s op mem_empty).
  - apply mail_at_fresh.
  - split_and!; [|by vm_compute..].
    unfold name_ok. by apply (bool_decide_unpack _); vm_compute.
  - done.
Defined.

(** Two messages in the queue "jobs". *)
Definition jobs : bytes := str "jobs".
Definition one_job : mem :=
  (PushMessage (bdg := mem_badger) mem_empty (str "id-1") 100 jobs (str "first")).1.
Definition two_jobs : mem :=
  (PushMessage (bdg := mem_badger) one_job (str "id-2") 200 jobs (str "second")).1.
Definition two_messages : mailbox :=
  <[(jobs, str "id-2") := stored (new_message (str "id-2") (str "second") 0 200)]>
    (<[(jobs, str "id-1") := stored (new_message (str "id-1") (str "first") 0 100)]> ∅).

Lemma jobs_ok : name_ok jobs.
Proof. unfold name_ok. by apply (bool_decide_unpack _); vm_compute. Qed.

Lemma two_jobs_hold : holds two_messages (contents (bdg := mem_badger) two_jobs).
Proof.
  assert (H1 : holds (<[(jobs, str "id-1") := stored (new_message (str "id-1") (str "first") 0 100)]> ∅)
    (contents (bdg := mem_badger) one_job)).
  { pose proof (PushMessage_served (bdg := mem_badger) mem_empty ∅ (str "id-1") 100 jobs
      (str "first") holds_empty jobs_ok ltac:(done) ltac:(by vm_compute) ltac:(by vm_compute)
      (lookup_empty _)) as H.
    destruct (served_ok _ _ _ _ (str "id-1") H) as [_ [Hm _]]; [by vm_compute|exact Hm]. }
  pose proof (PushMessage_served (bdg := mem_badger) one_job _ (str "id-2") 200 jobs
    (str "second") H1 jobs_ok ltac:(done) ltac:(by vm_compute) ltac:(by vm_compute)
    ltac:(by vm_compute)) as H.
  destruct (served_ok _ _ _ _ (str "id-2") H) as [_ [Hm _]]; [by vm_compute|exact Hm].
Qed.

Lemma pair_ok {D A} (x : D * result A) a : x.2 = Ok a -> x = (x.1, Ok a).
Proof. destruct x. by intros [= ->]. Qed.

Definition first_pop : mem * result QueueMessage :=
  PopMessage (bdg := mem_badger) two_jobs 300 jobs (str "worker-a") 30000000000.
Definition second_pop : mem * result QueueMessage :=
  PopMessage (bdg := mem_badger) first_pop.1 301 jobs (str "worker-b") 30000000000.
Definition first_job : QueueMessage :=
  mkQueueMessage (str "id-1") (str "first") StateInFlight 1 (str "worker-a") 100 300 30000 0.
Definition second_job : QueueMessage :=
  mkQueueMessage (str "id-2") (str "second") StateInFlight 1 (str "worker-b") 200 301 30000 0.

Lemma first_pop_ok : first_pop = (first_pop.1, Ok first_job).
Proof. apply pair_ok. by vm_compute. Qed.
Lemma second_pop_ok : second_pop = (second_pop.1, Ok second_job).
Proof. apply pair_ok. by vm_compute. Qed.

Lemma delivery_exclusive_witness : ID first_job <> ID second_job.
Proof.
  apply (delivery_exclusive (bdg := mem_badger) two_messages two_jobs jobs
    (str "worker-a") (str "worker-b") 30000000000 30000000000 300 301
    first_pop.1 second_pop.1 first_job second_job two_jobs_hold jobs_ok);
    [done|by vm_compute|by vm_compute|exact first_pop_ok|exact second_pop_ok].
Defined.

(** Pushed between the two jobs: one pop later. *)
Lemma delivery_cycle_witness :
  let x1 := PushMessage (bdg := mem_badger) two_jobs (str "id-1a") 250 jobs (str "v") in
  x1.2 = Ok (str "id-1a") /\
  exists ids, ahead two_messages jobs (str "id-1a") ids /\ forall ps c vt now',
    Forall (fun p => short (pop_consumer p)) ps -> length ps = length ids -> short c ->
    let x2 := pop_all x1.1 jobs ps in
    let x3 := PopMessage x2.1 now' jobs c vt in
    let x4 := AckMessage x3.1 jobs (str "id-1a") in
    Forall2 delivers x2.2 ids /\
    (exists msg, x3.2 = Ok msg /\ ID msg = str "id-1a" /\ Value msg = str "v" /\ DeliveryCount msg = 1) /\
    x4.2 = Ok tt /\
    exists M', holds M' (contents x4.1) /\ (forall id, id ∈ ids -> taken M' jobs id) /\
      forall q' id, q' <> jobs \/ id ∉ ids -> M' !! (q', id) = two_messages !! (q', id).
Proof.
  apply (delivery_cycle (bdg := mem_badger) two_messages two_jobs jobs (str "v") (str "id-1a") 250);
    [exact two_jobs_hold|exact jobs_ok|done|done|by vm_compute..].
Defined.

(** The pops, run. *)
Example delivery_order :
  let x1 := PushMessage (bdg := mem_badger) two_jobs (str "id-1a") 250 jobs (str "v") in
  map (fun r => match r with Ok msg => ID msg | _ => [] end)
    (pop_all x1.1 jobs (replicate 3 (mkPopping 300 (str "w") 1000000))).2 = [str "id-1"; str "id-1a"; str "id-2"].
Proof. by vm_compute. Qed.
