(* ===== verification/QueueService.v ===== *)
(** The queue package's interface (internal/queue/queue.go) and its background
    worker (internal/queue/worker.go), on top of the two storages. *)
From stdpp Require Import base list numbers gmap strings.
From Stdlib Require Import ZArith Lia.
From S2P Require Import Prelude GoBytes Fields Fmt Badger QueueStorage QueueFifo QueueCodec QueueAck QueueMailbox QueueDelivery.

(** ** The interface *)

(** The handle of a popped message; its [queue] field is the queue it is
    passed with. *)
Record MessageHandle : Type := mkHandle {
  QueueName : bytes;
  MessageID : bytes;
  HandleValue : bytes;
  HandleDeliveryCount : Z;
}.

(** [(A, error)] with the value mapped. *)
Definition map_reply {D A B} (f : A -> B) (x : D * result A) : D * result B :=
  (x.1, a ← x.2; Ok (f a)).

Section Service.
Context {bdg : Badger}.
Implicit Types db : DB.

Definition Handle_Ack db (m : MessageHandle) : DB * result unit :=
  AckMessage db (QueueName m) (MessageID m).
Definition Handle_Nack db (uuid : bytes) (now : Z) (m : MessageHandle) (requeue : bool)
    : DB * result unit :=
  NackMessage db uuid now (QueueName m) (MessageID m) requeue.

Definition Queue_Push db (uuid : bytes) (now : Z) (queueName value : bytes) : DB * result unit :=
  map_reply (fun _ => tt) (PushMessage db uuid now queueName value).
Definition Queue_PushMessage db (uuid : bytes) (now : Z) (queueName value : bytes)
    : DB * result bytes :=
  PushMessage db uuid now queueName value.
Definition Queue_Pop db (queueName : bytes) : DB * result bytes := Pop db queueName.
Definition Queue_PopMessage db (now : Z) (queueName consumerID : bytes) (visibilityTimeout : Z)
    : DB * result MessageHandle :=
  map_reply (fun msg => mkHandle queueName (ID msg) (Value msg) (DeliveryCount msg))
    (PopMessage db now queueName consumerID visibilityTimeout).
Definition Queue_Peek db (queueName : bytes) : result bytes := Peek db queueName.
Definition Queue_Len db (queueName : bytes) : result Z := Len db queueName.
Definition Queue_Clear db (queueName : bytes) : DB * result unit := Clear db queueName.
Definition Queue_RequeueExpiredMessages db (now : Z) (queueName : bytes) : DB * result Z :=
  RequeueExpiredMessages db now queueName.

Definition SetDeadLetterQueue db (queueName dlqName : bytes) (maxRetries : Z)
    : DB * result unit :=
  match GetQueueConfig db queueName with
  | Ok cfg => SetQueueConfig db
      (mkQueueConfig (Name cfg) dlqName maxRetries (DefaultVisibilityTimeout cfg))
  | Err e => (db, Err e)
  | Panic => (db, Panic)
  end.

Definition SetVisibilityTimeout db (queueName : bytes) (timeout : Z) : DB * result unit :=
  match GetQueueConfig db queueName with
  | Ok cfg => SetQueueConfig db
      (mkQueueConfig (Name cfg) (DeadLetterQueue cfg) (CfgMaxRetries cfg) (Milliseconds timeout))
  | Err e => (db, Err e)
  | Panic => (db, Panic)
  end.
End Service.

(** [New] and [Close] of the queue. *)
Definition Queue_New {bdg : Badger} {opening : BadgerOpen} (files : option DB) : result DB :=
  QueueNewStorage files.
Definition Queue_Close {bdg : Badger} {batch : BadgerBatch} (db : DB) : DB * result unit :=
  QueueStorageClose db.

(** ** The worker *)

Record VisibilityTimeoutWorker : Type := mkWorker {
  queueNames : list bytes;
  checkInterval : Z;
}.

(** The default interval is ten seconds, in nanoseconds. *)
Definition NewVisibilityTimeoutWorker (interval : Z) : VisibilityTimeoutWorker :=
  mkWorker [] (if interval =? 0 then 10 * 1000000000 else interval).

Definition AddQueue (w : VisibilityTimeoutWorker) (queueName : bytes) : VisibilityTimeoutWorker :=
  if existsb (fun name => bool_decide (name = queueName)) (queueNames w) then w
  else mkWorker (queueNames w ++ [queueName]) (checkInterval w).

(** [append(names[:i], names[i+1:]...)] at the first match. *)
Fixpoint remove_first (queueName : bytes) (names : list bytes) : list bytes :=
  match names with
  | [] => []
  | name :: names =>
      if decide (name = queueName) then names else name :: remove_first queueName names
  end.
Definition RemoveQueue (w : VisibilityTimeoutWorker) (queueName : bytes)
    : VisibilityTimeoutWorker :=
  mkWorker (remove_first queueName (queueNames w)) (checkInterval w).

(** An error is logged and the next queue is checked; a panic is not
    recovered. *)
Definition checkExpiredMessages {bdg : Badger} (w : VisibilityTimeoutWorker) (db : DB) (now : Z)
    : result DB :=
  for_each (queueNames w) db (fun db queueName =>
    let '(db, r) := RequeueExpiredMessages db now queueName in
    match r with Panic => Panic | _ => Ok db end).

(** The worker's loop together with the calls of other goroutines, which the
    mutex serialises: a tick at a time, a change of the watched queues, or the
    signal that ends the loop. *)
Inductive WorkerEvent : Type :=
| Ticked (now : Z)
| Added (queueName : bytes)
| Removed (queueName : bytes)
| Stopped.

Fixpoint run {bdg : Badger} (w : VisibilityTimeoutWorker) (db : DB) (events : list WorkerEvent)
    : result (VisibilityTimeoutWorker * DB) :=
  match events with
  | [] | Stopped :: _ => Ok (w, db)
  | Ticked now :: events => db ← checkExpiredMessages w db now; run w db events
  | Added q :: events => run (AddQueue w q) db events
  | Removed q :: events => run (RemoveQueue w q) db events
  end.

(** ** Starting and stopping

    [loops] counts the goroutines of [Start] in the wait group, [stopping] the
    calls of [Stop] that wait for them. *)
Section Life.
Context {bdg : Badger}.

Record WorkerState : Type := mkWorkerState {
  worker : VisibilityTimeoutWorker;
  wdb : DB;
  stopChan_closed : bool;
  loops : nat;
  stopping : nat;
}.

(** The steps of a worker.  A loop that finds both a tick and the closed channel
    may take either; a second [Stop] closes a closed channel, which panics. *)
Inductive life_step : WorkerState -> result WorkerState -> Prop :=
| WStart w db c n k :
    life_step (mkWorkerState w db c n k) (Ok (mkWorkerState w db c (S n) k))
| WTick w db db' c n k now :
    checkExpiredMessages w db now = Ok db' ->
    life_step (mkWorkerState w db c (S n) k) (Ok (mkWorkerState w db' c (S n) k))
| WAdd w db c n k q :
    life_step (mkWorkerState w db c n k) (Ok (mkWorkerState (AddQueue w q) db c n k))
| WRemove w db c n k q :
    life_step (mkWorkerState w db c n k) (Ok (mkWorkerState (RemoveQueue w q) db c n k))
| WStop w db n k :
    life_step (mkWorkerState w db false n k) (Ok (mkWorkerState w db true n (S k)))
| WStopAgain w db n k :
    life_step (mkWorkerState w db true n k) Panic
| WLoopEnds w db n k :
    life_step (mkWorkerState w db true (S n) k) (Ok (mkWorkerState w db true n k))
| WStopReturns w db c k :
    life_step (mkWorkerState w db c 0 (S k)) (Ok (mkWorkerState w db c 0 k)).

(** Steps other than [Start]: the number of loops does not grow. *)
Definition quiet_step (s s' : WorkerState) : Prop :=
  life_step s (Ok s') /\ (loops s' <= loops s)%nat.
End Life.

(** ** The watched queues form a set *)

Lemma elem_of_remove_first q x l :
  NoDup l -> x ∈ remove_first q l <-> x <> q /\ x ∈ l.
Proof.
  induction l as [|y l IH]; cbn.
  { intros _. split; [intros H; by apply elem_of_nil in H|by intros [_ ?]]. }
  intros [Hy Hl]%NoDup_cons. case_decide as Hd.
  - subst y. rewrite elem_of_cons. split; [|tauto]. intros Hx. split; [by intros ->|auto].
  - rewrite !elem_of_cons, IH by done. split; [|tauto]. intros [->|?]; tauto.
Qed.

Lemma NoDup_remove_first q l : NoDup l -> NoDup (remove_first q l).
Proof.
  induction l as [|y l IH]; cbn; [done|]. intros [Hy Hl]%NoDup_cons.
  case_decide; [done|]. apply NoDup_cons. split; [|by apply IH].
  rewrite elem_of_remove_first by done. tauto.
Qed.

Lemma watched_spec w q :
  existsb (fun name => bool_decide (name = q)) (queueNames w) = bool_decide (q ∈ queueNames w).
Proof.
  apply eq_bool_prop_intro. rewrite bool_decide_spec, Is_true_true, existsb_exists.
  setoid_rewrite bool_decide_eq_true. split.
  - intros (x & Hx & ->). by apply list_elem_of_In.
  - intros Hq. exists q. split; [by apply list_elem_of_In|done].
Qed.

(** ** Properties *)

(** The watched queues are a duplicate-free set: [AddQueue] adds its
    argument, [RemoveQueue] removes it, and nothing else changes. *)
Theorem worker_watches_set w q :
  NoDup (queueNames w) ->
  NoDup (queueNames (AddQueue w q)) /\ NoDup (queueNames (RemoveQueue w q)) /\
  (forall x, x ∈ queueNames (AddQueue w q) <-> x = q \/ x ∈ queueNames w) /\
  (forall x, x ∈ queueNames (RemoveQueue w q) <-> x <> q /\ x ∈ queueNames w).
Proof.
  intros Hnd. unfold AddQueue. rewrite watched_spec. split_and!.
  - case_bool_decide as Hq; [done|]. cbn. apply NoDup_app. split_and!; [done| |by apply NoDup_singleton].
    intros x Hx ->%list_elem_of_singleton. done.
  - by apply NoDup_remove_first.
  - intros x. case_bool_decide as Hq.
    + split; [auto|]. by intros [->|?].
    + cbn. rewrite elem_of_app, list_elem_of_singleton. tauto.
  - intros x. by apply elem_of_remove_first.
Qed.

Lemma worker_watches_set_witness :
  let w := AddQueue (NewVisibilityTimeoutWorker 0) (str "a") in
  NoDup (queueNames w) /\ NoDup (queueNames (AddQueue w (str "b"))) /\
  str "b" ∈ queueNames (AddQueue w (str "b")).
Proof.
  intros w. assert (Hw : NoDup (queueNames w)) by apply NoDup_singleton.
  destruct (worker_watches_set w (str "b") Hw) as (H1 & _ & H2 & _).
  split_and!; [exact Hw|exact H1|]. apply H2. by left.
Defined.

Section Stopping.
Context {bdg : Badger}.
Implicit Types s : WorkerState.

(** Once its loops have ended, a worker that is not started again leaves the
    messages alone. *)
Theorem ended_worker_rests s s' :
  loops s = O -> rtc quiet_step s s' -> loops s' = O /\ wdb s' = wdb s.
Proof.
  intros H0 Hr. induction Hr as [s|s s1 s2 [Hs Hl] _ IH]; [done|].
  destruct IH as [IH1 IH2]; [lia|]. split; [done|]. rewrite IH2.
  by inversion Hs; subst; cbn in *; try lia.
Qed.

(** [Stop] can return whatever the loops were doing: each of them can end, and
    the messages are as they were. *)
Theorem stop_can_return s :
  stopChan_closed s = true -> (0 < stopping s)%nat ->
  exists s', rtc quiet_step s s' /\ S (stopping s') = stopping s /\ wdb s' = wdb s.
Proof.
  destruct s as [w db c n k]. cbn. intros -> Hk. destruct k as [|k]; [lia|].
  exists (mkWorkerState w db true 0 k). split; [|done].
  induction n as [|n IH].
  - apply rtc_once. split; [constructor|cbn; lia].
  - eapply rtc_l; [split; [apply WLoopEnds|cbn; lia]|exact IH].
Qed.
End Stopping.

Section Worker.
Context {bdg : Badger} {laws : BadgerLaws} {rel : BadgerReliable}.
Implicit Types db : DB.

(** One tick of the worker on an engine that refuses nothing expires, in
    every watched queue, exactly the in-flight messages whose visibility timeout
    has passed, and never fails or panics. *)
Theorem worker_tick_expires w M db now :
  holds M (contents db) -> Forall (fun q => name_ok q /\ q <> []) (queueNames w) ->
  exists db', checkExpiredMessages w db now = Ok db' /\
    holds (foldl (fun M q => expire now q M) M (queueNames w)) (contents db').
Proof.
  unfold checkExpiredMessages. revert M db. induction (queueNames w) as [|q names IH];
    intros M db HM Hn; cbn [for_each foldl]; [by exists db|].
  inversion_clear Hn as [|? ? [Hq Hq0] Hns].
  pose proof (served_reliable _ _ _ _ (RequeueExpiredMessages_served db M now q HM Hq Hq0)) as H.
  destruct (RequeueExpiredMessages db now q) as [db1 r]. cbn [fst snd] in H.
  destruct r as [n|e|]; [|by destruct H|done]. destruct H as [[HM1 _] _].
  rewrite bind_ok. by apply IH.
Qed.

(** What the acknowledged queue writes is no key of a head/tail queue. *)
Lemma PushMessage_frame db uuid now q v :
  same_rest (contents db) (contents (PushMessage db uuid now q v).1).
Proof.
  assert (H : served db (PushMessage db uuid now q v) (fun e => True)
    (fun m _ => same_rest (contents db) m)).
  { unfold PushMessage. case_decide; [unfold served; cbn; auto|].
    apply served_update. intros t Ht. cbv zeta. rewrite encodeQueueMessage_wire, bind_ok.
    txn_write t1 Ht1. txn_write t2 Ht2. cbn. rewrite Ht2, Ht1, Ht. auto with mail. }
  unfold served in H. destruct ((PushMessage db uuid now q v).2); [done|by rewrite (proj1 H)|done].
Qed.

Lemma owned_not_mail q k : owned q k -> ~ mail_key k.
Proof. by intros [->|(i & _ & ->)] [(q' & id & E)|(q' & s & id & E)]. Qed.

Lemma queue_at_frame q m m' h l : same_rest m m' -> queue_at m q h l -> queue_at m' q h l.
Proof.
  intros Hs (Hm & H0 & H64 & Hi).
  assert (Hk : forall k, owned q k -> m' !! k = m !! k)
    by (intros k Hk; apply Hs; by eapply owned_not_mail).
  split_and!; [|done|done|].
  - unfold metadata_in. by rewrite Hk by (by left).
  - intros i x Hi0 Hx. rewrite Hk; [by apply Hi|]. right. exists (h + i).
    split; [|done]. apply lookup_lt_Some in Hx. unfold len in *. lia.
Qed.

(** Any number of pushes through the package's interface. *)
Fixpoint push_all db (q : bytes) (items : list (bytes * Z * bytes)) : DB :=
  match items with
  | [] => db
  | (uuid, now, v) :: items => push_all (Queue_Push db uuid now q v).1 q items
  end.

(** [Queue.Push] and [Queue.Pop] do not belong together: however many
    items were pushed to a queue whose head/tail storage is empty, [Pop] and
    [Peek] report an empty queue and [Len] is zero. *)
Theorem pushed_items_are_not_popped db q items h :
  q <> [] -> queue_at (contents db) q h [] ->
  let db' := push_all db q items in
  (Queue_Pop db' q).2 = Err ErrQueueEmpty /\ Queue_Peek db' q = Err ErrQueueEmpty /\
  Queue_Len db' q = Ok 0.
Proof.
  intros Hq HQ db'. assert (HQ' : queue_at (contents db') q h []).
  { unfold db'. clear db'. revert db HQ.
    induction items as [|[[uuid now] v] items IH]; intros db HQ; cbn [push_all]; [done|].
    apply IH. eapply queue_at_frame; [apply PushMessage_frame|exact HQ]. }
  split_and!.
  - pose proof (served_reliable _ _ _ _ (Pop_served db' q h [] Hq HQ')) as H.
    unfold Queue_Pop. destruct ((Pop db' q).2) as [v|e|]; [by destruct H as (? & ? & _)| |done].
    by destruct H as (_ & -> & _).
  - pose proof (Peek_served db' q h [] Hq HQ') as H. unfold Queue_Peek.
    destruct (Peek db' q) as [v|e|]; [done| |done].
    destruct H as [Hf|[-> _]]; [by destruct (no_fault e)|done].
  - pose proof (Len_served db' q h [] Hq HQ') as H. unfold Queue_Len.
    destruct (Len db' q) as [n|e|]; [by rewrite H| |done].
    destruct H as [Hf|[]]. by destruct (no_fault e).
Qed.
End Worker.

Lemma ended_worker_rests_witness :
  let s := mkWorkerState (bdg := mem_badger) (NewVisibilityTimeoutWorker 0) mem_empty true 0 0 in
  let s' := mkWorkerState (bdg := mem_badger) (AddQueue (NewVisibilityTimeoutWorker 0) (str "a")) mem_empty true 0 0 in
  loops s' = O /\ wdb s' = wdb s.
Proof.
  intros s s'. apply (ended_worker_rests s s'); [done|]. apply rtc_once. split; [constructor|done].
Defined.

Lemma stop_can_return_witness :
  let s := mkWorkerState (bdg := mem_badger) (NewVisibilityTimeoutWorker 0) mem_empty true 2 1 in
  exists s', rtc quiet_step s s' /\ S (stopping s') = stopping s /\ wdb s' = wdb s.
Proof. intros s. by apply (stop_can_return s); [|cbn; lia]. Defined.

Lemma worker_tick_expires_witness :
  exists db', checkExpiredMessages (bdg := mem_badger)
      (AddQueue (NewVisibilityTimeoutWorker 0) (str "a")) mem_empty 5 = Ok db' /\
    holds (foldl (fun M q => expire 5 q M) ∅ [str "a"]) (contents (bdg := mem_badger) db').
Proof.
  apply (worker_tick_expires (bdg := mem_badger)
    (AddQueue (NewVisibilityTimeoutWorker 0) (str "a")) ∅ mem_empty 5).
  - apply holds_empty.
  - repeat constructor; [|done]. unfold name_ok. by apply (bool_decide_unpack _); vm_compute.
Defined.

Lemma pushed_items_are_not_popped_witness :
  let db' := push_all (bdg := mem_badger) mem_empty (str "q") [(str "id-1", 0, [1])] in
  (Queue_Pop (bdg := mem_badger) db' (str "q")).2 = Err ErrQueueEmpty /\
  Queue_Peek (bdg := mem_badger) db' (str "q") = Err ErrQueueEmpty /\
  Queue_Len (bdg := mem_badger) db' (str "q") = Ok 0.
Proof.
  apply (pushed_items_are_not_popped (bdg := mem_badger) mem_empty (str "q")
    [(str "id-1", 0, [1])] 0); [done|apply queue_at_empty].
Defined.

(** A colon in a queue's name breaks the separation of queues: the pop of
    queue "a" takes the message that was pushed to queue "a:0", whose own pop
    then finds nothing. *)
Theorem colon_name_leaks :
  let db1 := (PushMessage (bdg := mem_badger) mem_empty (str "id-1") 100 (str "a:0") (str "v")).1 in
  let x := PopMessage (bdg := mem_badger) db1 200 (str "a") (str "w") 0 in
  (exists msg, x.2 = Ok msg /\ ID msg = str "id-1" /\ Value msg = str "v") /\
  (PopMessage (bdg := mem_badger) x.1 300 (str "a:0") (str "w") 0).2 = Err ErrQueueEmpty.
Proof. split; [eexists; split; [by vm_compute|by vm_compute]|by vm_compute]. Qed.
