(* ===== verification/KVStorage.v ===== *)
(** The key-value storage of internal/kv/storage.go.  Its state is the engine
    and the [closed] flag; a Go map argument is the list of its entries in the
    order of the [range] loops, a Go map result a finite map. *)
From stdpp Require Import base list numbers gmap strings.
From Stdlib Require Import ZArith Lia.
From S2P Require Import Prelude GoBytes Fmt Badger.

Module KV.

Definition ErrKeyNotFound : error := Sentinel "kv.ErrKeyNotFound" (str "key not found").
Definition ErrInvalidKey : error := Sentinel "kv.ErrInvalidKey" (str "invalid key").
Definition ErrClosed : error := Sentinel "kv.ErrClosed" (str "storage closed").

Abbreviation kv_map := (bmap bytes).

Section Storage.
Context {bdg : Badger} {batch : BadgerBatch}.

Record Storage : Type := mkStorage { sdb : DB; closed : bool }.
Implicit Types s : Storage.

(** Run an operation of the engine on the storage. *)
Definition on_db {A} s (x : DB * result A) : Storage * result A := (mkStorage x.1 (closed s), x.2).

(** Open the directory that was left as [files], and start the garbage
    collector. *)
Definition NewKVStorage {opening : BadgerOpen} (files : option DB) : result Storage :=
  db ← DBOpen files; Ok (mkStorage db false).

(** The storage [d] nanoseconds later. *)
Definition elapse (d : Z) s : Storage := mkStorage (Elapse d (sdb s)) (closed s).

(** A tick of the loop of [startGC], which drops the error. *)
Definition startGC_tick s : Storage := mkStorage (RunValueLogGC (sdb s)).1 (closed s).

(** [s.closed.CompareAndSwap(false, true)], then stop the garbage collector
    and close the engine. *)
Definition Close s : Storage * result unit :=
  if closed s then (s, Err ErrClosed) else
  let '(db, r) := DBClose (sdb s) in
  (mkStorage db true, r).

(** ** Single keys *)

Definition Set_ s (key value : bytes) (ttl : Z) : Storage * result unit :=
  if closed s then (s, Err ErrClosed) else
  if decide (key = []) then (s, Err ErrInvalidKey) else
  on_db s (Update (sdb s) (fun txn =>
    txn ← (if 0 <? ttl then TxnSetTTL txn key value ttl else TxnSet txn key value);
    Ok (txn, tt))).

Definition Get s (key : bytes) : result bytes :=
  if closed s then Err ErrClosed else
  if decide (key = []) then Err ErrInvalidKey else
  View (sdb s) (fun txn =>
    on_err (TxnGet txn key)
      (fun err => if is_sentinel err Badger.ErrKeyNotFound then Err ErrKeyNotFound else Err err)
      (fun item => ItemValue item)).

(** [int64(binary.BigEndian.Uint64(val))] of an eight-byte value, else zero. *)
Definition counter_value (val : bytes) : result Z :=
  if len val =? 8 then v ← Uint64 val 0; Ok (int64 v) else Ok 0.

(** [Incr] and [Decr], which differ in the [delta] of one. *)
Definition add_counter s (key : bytes) (delta : Z) : Storage * result Z :=
  if closed s then (s, Err ErrClosed) else
  if decide (key = []) then (s, Err ErrInvalidKey) else
  on_db s (Update (sdb s) (fun txn =>
    currentValue ← on_err (TxnGet txn key)
      (fun err => if is_sentinel err Badger.ErrKeyNotFound then Ok 0 else Err err)
      (fun item => val ← ItemValue item; counter_value val);
    let currentValue := int64 (currentValue + delta) in
    buf ← make_bytes 8;
    buf ← PutUint64 buf 0 (uint64 currentValue);
    txn ← TxnSet txn key buf;
    Ok (txn, currentValue))).
Definition Incr s (key : bytes) : Storage * result Z := add_counter s key 1.
Definition Decr s (key : bytes) : Storage * result Z := add_counter s key (-1).

Definition Delete s (key : bytes) : Storage * result unit :=
  if closed s then (s, Err ErrClosed) else
  if decide (key = []) then (s, Err ErrInvalidKey) else
  on_db s (Update (sdb s) (fun txn => txn ← TxnDelete txn key; Ok (txn, tt))).

Definition Exists s (key : bytes) : result bool :=
  if closed s then Err ErrClosed else
  if decide (key = []) then Err ErrInvalidKey else
  on_err (View (sdb s) (fun txn => _ ← TxnGet txn key; Ok tt))
    (fun err => if is_sentinel err Badger.ErrKeyNotFound then Ok false else Err err)
    (fun _ => Ok true).

(** ** Scans *)

(** [for it.Rewind(); it.Valid() && (limit <= 0 || count < limit); it.Next()] *)
Fixpoint scan_loop {A} (items : list Item) (limit count : Z) (acc : A)
    (visit : A -> Item -> result A) : result A :=
  match items with
  | [] => Ok acc
  | item :: items =>
      if (limit <=? 0) || (count <? limit)
      then acc ← visit acc item; scan_loop items limit (count + 1) acc visit
      else Ok acc
  end.

Definition Scan s (prefix : bytes) (limit : Z) : result (list bytes) :=
  if closed s then Err ErrClosed else
  View (sdb s) (fun txn =>
    scan_loop (Iterate txn prefix) limit 0 [] (fun values item =>
      val ← ItemValue item; Ok (values ++ [val]))).

Definition ScanKeys s (prefix : bytes) (limit : Z) : result (list bytes) :=
  if closed s then Err ErrClosed else
  View (sdb s) (fun txn =>
    scan_loop (Iterate txn prefix) limit 0 [] (fun keys item => Ok (keys ++ [ItemKey item]))).

Definition ScanKeysWithValues s (prefix : bytes) (limit : Z) : result kv_map :=
  if closed s then Err ErrClosed else
  View (sdb s) (fun txn =>
    scan_loop (Iterate txn prefix) limit 0 (∅ : kv_map) (fun kvPairs item =>
      val ← ItemValue item; Ok (<[ItemKey item := val]> kvPairs))).

(** ** Batches *)

(** The loop that fills a batch: it stops at the first error. *)
Fixpoint fill {A} (l : list A) (wb : Batch) (add : Batch -> A -> result Batch)
    : Batch * result unit :=
  match l with
  | [] => (wb, Ok tt)
  | x :: l =>
      match add wb x with
      | Ok wb => fill l wb add
      | Err e => (wb, Err e)
      | Panic => (wb, Panic)
      end
  end.

(** Fill a new batch and flush it; an error cancels the batch. *)
Definition with_batch {A} s (l : list A) (add : Batch -> A -> result Batch)
    : Storage * result unit :=
  match fill l (NewWriteBatch (sdb s)) add with
  | (wb, Ok _) => on_db s (Flush (sdb s) wb)
  | (wb, Err e) => (mkStorage (Cancel (sdb s) wb) (closed s), Err e)
  | (wb, Panic) => (s, Panic)
  end.

Definition has_empty (keys : list bytes) : bool :=
  existsb (fun key => bool_decide (key = [])) keys.

Definition BatchSet s (kvPairs : list (bytes * bytes)) (ttl : Z) : Storage * result unit :=
  if closed s then (s, Err ErrClosed) else
  if len kvPairs =? 0 then (s, Ok tt) else
  if has_empty (map fst kvPairs) then (s, Err ErrInvalidKey) else
  with_batch s kvPairs (fun wb '(key, value) =>
    if 0 <? ttl then BatchSetTTL wb key value ttl else Badger.BatchSet wb key value).

Definition BatchSetNoTTL s (kvPairs : list (bytes * bytes)) : Storage * result unit :=
  if closed s then (s, Err ErrClosed) else
  if len kvPairs =? 0 then (s, Ok tt) else
  if has_empty (map fst kvPairs) then (s, Err ErrInvalidKey) else
  with_batch s kvPairs (fun wb '(key, value) => Badger.BatchSet wb key value).

(** The loop over the keys inside a transaction; missing keys are skipped. *)
Definition get_keys (keys : list bytes) (txn : Txn) (result : kv_map) : Prelude.result kv_map :=
  for_each keys result (fun result key =>
    on_err (TxnGet txn key)
      (fun err => if is_sentinel err Badger.ErrKeyNotFound then Ok result else Err err)
      (fun item => value ← ItemValue item; Ok (<[key := value]> result))).

(** [for i := 0; i < len(keys); i += chunkSize], a transaction per chunk. *)
Fixpoint get_chunks (fuel : nat) s (keys : list bytes) (i : Z) (result : kv_map)
    : Prelude.result kv_map :=
  if len keys <=? i then Ok result else
  match fuel with
  | O => Ok result
  | S fuel =>
      let end_ := if len keys <? i + 100 then len keys else i + 100 in
      chunk ← slice keys i end_;
      result ← View (sdb s) (fun txn => get_keys chunk txn result);
      get_chunks fuel s keys (i + 100) result
  end.

Definition BatchGet s (keys : list bytes) : result kv_map :=
  if closed s then Err ErrClosed else
  if len keys =? 0 then Ok ∅ else
  if has_empty keys then Err ErrInvalidKey else
  if len keys <=? 100
  then View (sdb s) (fun txn => get_keys keys txn ∅)
  else get_chunks (length keys) s keys 0 ∅.

Definition BatchDelete s (keys : list bytes) : Storage * result unit :=
  if closed s then (s, Err ErrClosed) else
  if len keys =? 0 then (s, Ok tt) else
  if has_empty keys then (s, Err ErrInvalidKey) else
  with_batch s keys (fun wb key => Badger.BatchDelete wb key).

Definition Sync s : Storage * result unit :=
  if closed s then (s, Err ErrClosed) else on_db s (DBSync (sdb s)).
Definition RunGC s : Storage * result unit :=
  if closed s then (s, Err ErrClosed) else on_db s (RunValueLogGC (sdb s)).
End Storage.
End KV.
