(* ===== verification/KVCorrect.v ===== *)
(** The key-value storage implements a finite map with times to live: the
    specification and the lemmas on scans and batches. *)
From stdpp Require Import base list numbers gmap sorting strings.
From Stdlib Require Import ZArith Lia.
From S2P Require Import Prelude GoBytes Fields Fmt Badger KVStorage.
Import KV.

(** ** The specification *)

Record KVState : Type := mkKV { kmap : store; kttl : ttls; kclosed : bool }.

Inductive KVOp : Type :=
| OSet (key value : bytes) (ttl : Z)
| OGet (key : bytes)
| OIncr (key : bytes)
| ODecr (key : bytes)
| ODelete (key : bytes)
| OExists (key : bytes)
| OScan (prefix : bytes) (limit : Z)
| OScanKeys (prefix : bytes) (limit : Z)
| OScanKeysWithValues (prefix : bytes) (limit : Z)
| OBatchSet (kvPairs : list (bytes * bytes)) (ttl : Z)
| OBatchSetNoTTL (kvPairs : list (bytes * bytes))
| OBatchGet (keys : list bytes)
| OBatchDelete (keys : list bytes)
| OClose.

Inductive KVReply : Type :=
| RDone
| RValue (v : bytes)
| RNumber (n : Z)
| RBool (b : bool)
| RList (l : list bytes)
| RMap (m : kv_map).

(** The counter in an entry: its eight bytes, or zero. *)
Definition counter_in (m : store) (key : bytes) : Z :=
  match m !! key with
  | Some val => if len val =? 8 then int64 (be_get val) else 0
  | None => 0
  end.

(** At most [limit] elements; all of them when it is not positive. *)
Definition limited {A} (limit : Z) (l : list A) : list A :=
  if limit <=? 0 then l else take (Z.to_nat limit) l.

(** The time to live an entry is stored with. *)
Definition ttl_of (ttl : Z) : option Z := if 0 <? ttl then Some ttl else None.

(** The entries of a map under some keys. *)
Definition restrict (m : store) (keys : list bytes) : kv_map :=
  filter (fun kv => kv.1 ∈ keys) m.

(** The writes of an operation that writes. *)
Definition op_writes (op : KVOp) : list write :=
  match op with
  | OBatchSet kvs ttl => map (fun kv => WSet kv.1 kv.2 (ttl_of ttl)) kvs
  | OBatchSetNoTTL kvs => map (fun kv => WSet kv.1 kv.2 None) kvs
  | OBatchDelete keys => map WDelete keys
  | _ => []
  end.

Definition written (s : KVState) (ws : list write) : KVState :=
  mkKV (apply_writes ws (kmap s)) (apply_ttls ws (kttl s)) (kclosed s).

(** The keys an operation must be given non-empty. *)
Definition op_keys (op : KVOp) : list bytes :=
  match op with
  | OSet k _ _ | OGet k | OIncr k | ODecr k | ODelete k | OExists k => [k]
  | OBatchSet kvs _ | OBatchSetNoTTL kvs => map fst kvs
  | OBatchGet ks | OBatchDelete ks => ks
  | OScan _ _ | OScanKeys _ _ | OScanKeysWithValues _ _ | OClose => []
  end.

(** The operations on an open storage and valid keys. *)
Definition kv_open (s : KVState) (op : KVOp) : KVState * result KVReply :=
  match op with
  | OSet k v ttl => (written s [WSet k v (ttl_of ttl)], Ok RDone)
  | OGet k => (s, match kmap s !! k with Some v => Ok (RValue v) | None => Err ErrKeyNotFound end)
  | OIncr k => let n := int64 (counter_in (kmap s) k + 1) in
      (written s [WSet k (be64 n) None], Ok (RNumber n))
  | ODecr k => let n := int64 (counter_in (kmap s) k - 1) in
      (written s [WSet k (be64 n) None], Ok (RNumber n))
  | ODelete k => (written s [WDelete k], Ok RDone)
  | OExists k => (s, Ok (RBool (bool_decide (is_Some (kmap s !! k)))))
  | OScan p limit => (s, Ok (RList (map snd (limited limit (mem_items (kmap s) p)))))
  | OScanKeys p limit => (s, Ok (RList (map fst (limited limit (mem_items (kmap s) p)))))
  | OScanKeysWithValues p limit =>
      (s, Ok (RMap (list_to_map (limited limit (mem_items (kmap s) p)))))
  | OBatchSet _ _ | OBatchSetNoTTL _ | OBatchDelete _ => (written s (op_writes op), Ok RDone)
  | OBatchGet ks => (s, Ok (RMap (restrict (kmap s) ks)))
  | OClose => (mkKV (kmap s) (kttl s) true, Ok RDone)
  end.

Definition kv_spec (s : KVState) (op : KVOp) : KVState * result KVReply :=
  if kclosed s then (s, Err ErrClosed)
  else if decide ([] ∈ op_keys op) then (s, Err ErrInvalidKey)
  else kv_open s op.

(** ** The operations of the code *)

Section Exec.
Context {bdg : Badger} {batch : BadgerBatch}.

Definition with_reply {A} (k : A -> KVReply) (x : Storage * result A) : Storage * result KVReply :=
  (x.1, a ← x.2; Ok (k a)).

Definition kv_exec (s : Storage) (op : KVOp) : Storage * result KVReply :=
  match op with
  | OSet k v ttl => with_reply (fun _ => RDone) (Set_ s k v ttl)
  | OGet k => with_reply RValue (s, Get s k)
  | OIncr k => with_reply RNumber (Incr s k)
  | ODecr k => with_reply RNumber (Decr s k)
  | ODelete k => with_reply (fun _ => RDone) (Delete s k)
  | OExists k => with_reply RBool (s, Exists s k)
  | OScan p limit => with_reply RList (s, Scan s p limit)
  | OScanKeys p limit => with_reply RList (s, ScanKeys s p limit)
  | OScanKeysWithValues p limit => with_reply RMap (s, ScanKeysWithValues s p limit)
  | OBatchSet kvs ttl => with_reply (fun _ => RDone) (KV.BatchSet s kvs ttl)
  | OBatchSetNoTTL kvs => with_reply (fun _ => RDone) (BatchSetNoTTL s kvs)
  | OBatchGet ks => with_reply RMap (s, BatchGet s ks)
  | OBatchDelete ks => with_reply (fun _ => RDone) (KV.BatchDelete s ks)
  | OClose => with_reply (fun _ => RDone) (Close s)
  end.

(** Times to live are absent or at least a second. *)
Definition ttl_ok (op : KVOp) : Prop :=
  match op with
  | OSet _ _ ttl | OBatchSet _ ttl => ttl <= 0 \/ second <= ttl
  | _ => True
  end.
End Exec.

(** ** Scans *)

Section Entries.
Context {bdg : Badger} {laws : BadgerLaws}.

Lemma wp_scan {A} E items limit count acc (visit : A -> Item -> result A) (g : A -> Item -> A) :
  (forall acc i, wp E (visit acc i) (fun a => a = g acc i)) ->
  wp E (scan_loop items limit count acc visit) (fun a =>
    a = foldl g acc (if limit <=? 0 then items else take (Z.to_nat (limit - count)) items)).
Proof.
  intros Hv. revert count acc. induction items as [|i items IH]; intros count acc; cbn [scan_loop].
  { by destruct (limit <=? 0); rewrite ?take_nil. }
  destruct (Z.leb_spec limit 0) as [Hl|Hl]; cbn [orb].
  - apply wp_bind. eapply wp_mono; [apply Hv|]. intros a ->.
    eapply wp_mono; [apply IH|]. by intros a ->.
  - destruct (Z.ltb_spec count limit) as [Hc|Hc].
    + apply wp_bind. eapply wp_mono; [apply Hv|]. intros a ->.
      eapply wp_mono; [apply IH|]. intros a ->.
      by replace (Z.to_nat (limit - count)) with (S (Z.to_nat (limit - (count + 1)))) by lia.
    + cbn [wp]. by replace (Z.to_nat (limit - count)) with 0%nat by lia.
Qed.

Lemma foldl_snoc {A B} (f : A -> B) l acc :
  foldl (fun acc i => acc ++ [f i]) acc l = acc ++ map f l.
Proof.
  revert acc. induction l as [|x l IH]; intros acc; cbn; [by rewrite app_nil_r|].
  by rewrite IH, <- app_assoc.
Qed.

Lemma limited_items t p limit :
  map (fun i => (ItemKey i, item_value i)) (limited limit (Iterate t p))
  = limited limit (mem_items (snapshot t) p).
Proof.
  unfold limited. rewrite <- iterate_items. destruct (limit <=? 0); [done|].
  symmetry. apply firstn_map.
Qed.
End Entries.

(** Inserting the entries one after the other builds their map. *)
Lemma foldl_entries (l : list (bytes * bytes)) (m : kv_map) :
  NoDup (map fst l) ->
  foldl (fun (m : kv_map) kv => <[kv.1 := kv.2]> m) m l = list_to_map l ∪ m.
Proof.
  revert m. induction l as [|[k v] l IH]; intros m Hnd; cbn.
  { by rewrite (left_id_L ∅ (∪)). }
  apply NoDup_cons in Hnd as [Hk Hnd]. rewrite IH by done. cbn.
  rewrite <- insert_union_r by (by apply not_elem_of_list_to_map_1).
  by rewrite insert_union_l.
Qed.

Lemma mem_items_NoDup m p : NoDup (map fst (mem_items m p)).
Proof.
  destruct (mem_items_law m p) as [Hs _].
  induction Hs as [|k l _ IH HF]; constructor; [|done].
  intros Hk. rewrite Forall_forall in HF. by destruct (HF k Hk).
Qed.

(** ** Batches *)

Section Batches.
Context {bdg : Badger} {laws : BadgerLaws} {batch : BadgerBatch} {blaws : BadgerBatchLaws}.

Definition view (s : Storage) : KVState := mkKV (contents (sdb s)) (expiry (sdb s)) (closed s).

(** The specified answer, or a fault after which a prefix of the operation's
    writes may have been committed. *)
Definition kv_refined (s : Storage) (op : KVOp) (x : Storage * result KVReply) : Prop :=
  (x.2 = (kv_spec (view s) op).2 /\ view x.1 = (kv_spec (view s) op).1) \/
  (exists e ws, x.2 = Err e /\ fault e /\ ws `prefix_of` op_writes op /\
     kmap (view x.1) = apply_writes ws (kmap (view s)) /\
     kttl (view x.1) = apply_ttls ws (kttl (view s)) /\
     kclosed (view x.1) = kclosed (kv_spec (view s) op).1).

Lemma fill_writes {A} (w : A -> write) add (l : list A) wb :
  (forall wb x, x ∈ l -> match add wb x with
                | Ok wb' => writes wb' = writes wb ++ [w x]
                | Err e => fault e
                | Panic => False
                end) ->
  let '(wb', r) := fill l wb add in
  (r = Ok tt /\ writes wb' = writes wb ++ map w l) \/
  (exists e ws, r = Err e /\ fault e /\ ws `prefix_of` map w l /\ writes wb' = writes wb ++ ws).
Proof.
  revert wb. induction l as [|x l IH]; intros wb Hadd; cbn [fill map].
  { left. by rewrite app_nil_r. }
  pose proof (Hadd wb x ltac:(left)) as Hx. destruct (add wb x) as [wb1|e|]; [| |done].
  - specialize (IH wb1 ltac:(intros; apply Hadd; by right)).
    destruct (fill l wb1 add) as [wb' r]. rewrite Hx in IH.
    destruct IH as [[-> Hw]|(e & ws & -> & He & Hp & Hw)].
    + left. split; [done|]. by rewrite Hw, <- app_assoc.
    + right. exists e, (w x :: ws). split_and!; [done|done|by apply prefix_cons|].
      by rewrite Hw, <- app_assoc.
  - right. exists e, []. split_and!; [done|done|apply prefix_nil|by rewrite app_nil_r].
Qed.

Lemma with_batch_refined {A} s op (w : A -> write) add (l : list A) k :
  kclosed (view s) = false -> op_writes op = map w l ->
  kv_spec (view s) op = (written (view s) (op_writes op), Ok (k tt)) ->
  (forall wb x, x ∈ l -> match add wb x with
                | Ok wb' => writes wb' = writes wb ++ [w x]
                | Err e => fault e
                | Panic => False
                end) ->
  kv_refined s op (with_reply k (with_batch s l add)).
Proof.
  intros Hc Hw Hs Hadd. unfold kv_refined, with_batch, with_reply. rewrite Hs. cbn [fst snd].
  pose proof (fill_writes w add l (NewWriteBatch (sdb s)) Hadd) as Hf.
  destruct (fill l _ add) as [wb r]. rewrite NewWriteBatch_law in Hf. cbn [app] in Hf.
  destruct Hf as [[-> Hwb]|(e & ws & -> & He & Hp & Hwb)].
  - pose proof (Flush_law (sdb s) wb) as HF. unfold on_db.
    destruct (Flush (sdb s) wb) as [db' r]. cbn [fst snd] in *. rewrite Hwb, <- Hw in HF.
    destruct HF as [(-> & Hm & Hx)|(e & ws & -> & He & Hp & Hm & Hx)].
    + left. split; [done|]. unfold view, written. cbn. by rewrite Hm, Hx.
    + right. exists e, ws. split_and!; done.
  - right. destruct (Cancel_law (sdb s) wb) as (ws' & Hp' & Hm & Hx). exists e, ws'.
    rewrite Hwb in Hp'. split_and!; try done. rewrite Hw. by etrans.
Qed.
End Batches.
