(* ===== verification/KVRefine.v ===== *)
(** The refinement of the key-value storage, operation by operation, and its
    properties. *)
From stdpp Require Import base list numbers gmap sorting strings.
From Stdlib Require Import ZArith Lia.
From S2P Require Import Prelude GoBytes Fields Fmt Badger KVStorage KVCorrect.
Import KV.

(** ** Reading several keys *)

Definition get_step (m : store) (r : kv_map) (key : bytes) : kv_map :=
  match m !! key with Some v => <[key := v]> r | None => r end.

Lemma lookup_get_steps m r keys k :
  foldl (get_step m) r keys !! k
  = if decide (k ∈ keys) then match m !! k with Some v => Some v | None => r !! k end else r !! k.
Proof.
  revert r. induction keys as [|x keys IH]; intros r; cbn [foldl].
  { by rewrite decide_False by apply not_elem_of_nil. }
  rewrite IH. assert (Hx : get_step m r x !! k =
    if decide (k = x) then match m !! k with Some v => Some v | None => r !! k end else r !! k).
  { unfold get_step. destruct (decide (k = x)) as [->|Hk].
    - destruct (m !! x); [by rewrite lookup_insert_eq|done].
    - destruct (m !! x); [by rewrite lookup_insert_ne by congruence|done]. }
  rewrite Hx. destruct (decide (k = x)), (decide (k ∈ keys)), (m !! k);
    rewrite ?decide_True by (by apply elem_of_cons; tauto);
    rewrite ?decide_False by (rewrite elem_of_cons; tauto); done.
Qed.

Lemma get_steps_restrict m keys : foldl (get_step m) ∅ keys = restrict m keys.
Proof.
  apply map_eq. intros k. rewrite lookup_get_steps, lookup_empty. unfold restrict.
  rewrite map_lookup_filter. destruct (m !! k) as [v|]; cbn; [|by case_decide].
  case_decide; by simplify_option_eq.
Qed.

Section Refine.
Context {bdg : Badger} {laws : BadgerLaws} {batch : BadgerBatch} {blaws : BadgerBatchLaws}.
Implicit Types (s : Storage) (E : error -> Prop).

Lemma wp_get_keys keys t r :
  [] ∉ keys ->
  wp (fun _ => False) (get_keys keys t r) (fun r' => r' = foldl (get_step (snapshot t)) r keys).
Proof.
  revert r. unfold get_keys. induction keys as [|k keys IH]; intros r Hk; cbn [for_each foldl]; [done|].
  apply not_elem_of_cons in Hk as [Hk Hks].
  apply wp_bind. eapply wp_mono.
  - apply (wp_get _ _ _ _ _ (fun r' => r' = get_step (snapshot t) r k)); [done|..].
    + intros i Hi. apply wp_value. unfold get_step. by rewrite Hi.
    + intros Hn. unfold get_step. by rewrite Hn.
    + intros e He. rewrite fault_not_found by done. by left.
  - intros r' ->. by apply IH.
Qed.

Lemma wp_get_chunks fuel s keys i r :
  [] ∉ keys -> 0 <= i -> len keys <= i + 100 * Z.of_nat fuel ->
  wp (fun _ => False) (get_chunks fuel s keys i r)
    (fun r' => r' = foldl (get_step (contents (sdb s))) r (dropZ i keys)).
Proof.
  intros Hk. revert i r. induction fuel as [|fuel IH]; intros i r Hi Hf; cbn [get_chunks];
    destruct (Z.leb_spec (len keys) i) as [Hd|Hd]; try (cbn [wp]; by rewrite dropZ_all by lia).
  set (j := if len keys <? i + 100 then len keys else i + 100).
  assert (Hj : (i <= j <= len keys /\ j <= i + 100) /\ (j = i + 100 \/ j = len keys))
    by (unfold j; destruct (Z.ltb_spec (len keys) (i + 100)); lia).
  clearbody j.
  rewrite slice_ok, bind_ok by lia. apply wp_bind.
  eapply wp_mono; [apply (wp_view _ _ _ (fun r' => r' =
    foldl (get_step (contents (sdb s))) r (takeZ (j - i) (dropZ i keys))))|].
  - intros t Ht. rewrite <- Ht. apply wp_get_keys. intros Hin. apply Hk.
    unfold takeZ, dropZ in Hin. by apply subseteq_take, subseteq_drop in Hin.
  - intros r' ->. eapply wp_mono; [apply IH; lia|]. intros r' ->.
    rewrite <- foldl_app.
    replace (dropZ (i + 100) keys) with (dropZ j keys); [by rewrite <- dropZ_split by lia|].
    destruct Hj as [? [->| ->]]; [done|]. by rewrite !dropZ_all by lia.
Qed.

(** ** From the engine to the specification *)

Lemma update_refined {A} s op (x : DB * result A) E (Q : store -> ttls -> A -> Prop) k :
  kclosed (view s) = false ->
  served_full (sdb s) x E Q ->
  (forall e, E e -> kv_spec (view s) op = (view s, Err e)) ->
  (forall m t a, Q m t a -> kv_spec (view s) op = (mkKV m t false, Ok (k a))) ->
  kclosed (kv_spec (view s) op).1 = false ->
  kv_refined s op (with_reply k (on_db s x)).
Proof.
  intros Hc Hx HE HQ Hcl. unfold kv_refined, with_reply, on_db, served_full in *.
  cbn [fst snd]. destruct x as [db r]. cbn [fst snd] in *. destruct r as [a|e|]; [| |done].
  - left. rewrite (HQ _ _ _ Hx). unfold view in *. cbn in *. by rewrite Hc.
  - destruct Hx as [[Hm Ht] [Hf|He]].
    + right. exists e, []. unfold view in *. cbn in *.
      split_and!; [done|done|apply prefix_nil|done|done|by rewrite Hcl].
    + left. rewrite (HE e He). unfold view. cbn. by rewrite Hm, Ht.
Qed.

Lemma view_refined {A} s op (r : result A) E (Q : A -> Prop) k :
  kclosed (view s) = false ->
  wp E r Q ->
  (forall e, E e -> kv_spec (view s) op = (view s, Err e)) ->
  (forall a, Q a -> kv_spec (view s) op = (view s, Ok (k a))) ->
  kclosed (kv_spec (view s) op).1 = false ->
  kv_refined s op (with_reply k (s, r)).
Proof.
  intros Hc Hr HE HQ Hcl. unfold kv_refined, with_reply. cbn [fst snd].
  destruct r as [a|e|]; [| |done]; cbn in Hr.
  - left. by rewrite (HQ _ Hr).
  - destruct Hr as [Hf|He]; [right; exists e, []|left; by rewrite (HE e He)].
    split_and!; [done|done|apply prefix_nil|done|done|by rewrite Hcl].
Qed.

(** An open storage and valid keys. *)
Lemma spec_open s op :
  closed s = false -> [] ∉ op_keys op -> kv_spec (view s) op = kv_open (view s) op.
Proof.
  intros Hc Hk. unfold kv_spec. cbn [kclosed view]. rewrite Hc. by rewrite decide_False.
Qed.

Lemma counter_value_ok val :
  counter_value val = Ok (if len val =? 8 then int64 (be_get val) else 0).
Proof.
  unfold counter_value. destruct (Z.eqb_spec (len val) 8) as [Hl|]; [|done].
  unfold Uint64. rewrite GetUint_ok, bind_ok, dropZ_0, takeZ_all by lia. done.
Qed.

Lemma wp_counter {B} E t key (f : Z -> result B) Q :
  key <> [] -> wp E (f (counter_in (snapshot t) key)) Q ->
  wp E ((on_err (TxnGet t key)
      (fun err => if is_sentinel err Badger.ErrKeyNotFound then Ok 0 else Err err)
      (fun item => val ← ItemValue item; counter_value val)) ≫= f) Q.
Proof.
  intros Hk Hf. apply wp_bind. apply wp_get; [done|..].
  - intros i Hi. apply wp_value. rewrite counter_value_ok. unfold counter_in in Hf.
    by rewrite Hi in Hf.
  - intros Hn. unfold counter_in in Hf. by rewrite Hn in Hf.
  - intros e He. rewrite fault_not_found by done. by left.
Qed.

Lemma add_counter_served s key delta :
  closed s = false -> key <> [] ->
  exists x, add_counter s key delta = on_db s x /\
  served_full (sdb s) x (fun _ => False) (fun m t n =>
    n = int64 (counter_in (contents (sdb s)) key + delta) /\
    m = <[key := be64 n]> (contents (sdb s)) /\ t = delete key (expiry (sdb s))).
Proof.
  intros Hc Hk. unfold add_counter. rewrite Hc, decide_False by done.
  eexists. split; [done|]. apply served_full_update. intros t Ht Hx.
  apply wp_counter; [done|]. cbv zeta. go_write. rewrite zeros_done by len_lia.
  apply wp_set_full; [done|]. intros t1 Ht1 Hx1. cbn [wp fst snd].
  rewrite Ht1, Hx1, Ht, Hx. cbn [app]. done.
Qed.

Lemma Set_served s k v ttl :
  closed s = false -> k <> [] -> ttl <= 0 \/ second <= ttl ->
  exists x, Set_ s k v ttl = on_db s x /\
  served_full (sdb s) x (fun _ => False) (fun m t _ =>
    m = <[k := v]> (contents (sdb s)) /\ t = apply_ttl (WSet k v (ttl_of ttl)) (expiry (sdb s))).
Proof.
  intros Hc Hk Httl. unfold Set_. rewrite Hc, decide_False by done.
  eexists. split; [done|]. apply served_full_update. intros t Ht Hx.
  unfold ttl_of. destruct (Z.ltb_spec 0 ttl) as [Hp|Hp].
  - pose proof (TxnSetTTL_law t k v ttl Hk ltac:(lia)) as HS.
    destruct (TxnSetTTL t k v ttl) as [t1|e|]; cbn; [|by left|done].
    destruct HS as [-> ->]. by rewrite Ht, Hx.
  - apply wp_set_full; [done|]. intros t1 Ht1 Hx1. cbn. by rewrite Ht1, Hx1, Ht, Hx.
Qed.

Lemma Delete_served s k :
  closed s = false -> k <> [] ->
  exists x, Delete s k = on_db s x /\
  served_full (sdb s) x (fun _ => False) (fun m t _ =>
    m = delete k (contents (sdb s)) /\ t = delete k (expiry (sdb s))).
Proof.
  intros Hc Hk. unfold Delete. rewrite Hc, decide_False by done.
  eexists. split; [done|]. apply served_full_update. intros t Ht Hx.
  apply wp_delete_full; [done|]. intros t1 Ht1 Hx1. cbn. by rewrite Ht1, Hx1, Ht, Hx.
Qed.

Lemma Get_wp s k :
  closed s = false -> k <> [] ->
  wp (fun e => e = ErrKeyNotFound /\ contents (sdb s) !! k = None) (Get s k)
    (fun v => contents (sdb s) !! k = Some v).
Proof.
  intros Hc Hk. unfold Get. rewrite Hc, decide_False by done.
  apply wp_view. intros t Ht. rewrite <- Ht. apply wp_get; [done|..].
  - intros i Hi. rewrite <- (bind_ret (ItemValue i)). by apply wp_value.
  - intros Hn. by right.
  - intros e He. rewrite fault_not_found by done. by left.
Qed.

Lemma Exists_wp s k :
  closed s = false -> k <> [] ->
  wp (fun _ => False) (Exists s k) (fun b => b = bool_decide (is_Some (contents (sdb s) !! k))).
Proof.
  intros Hc Hk. unfold Exists. rewrite Hc, decide_False by done.
  assert (H : wp (fun e => e = Badger.ErrKeyNotFound /\ contents (sdb s) !! k = None)
    (View (sdb s) (fun txn => _ ← TxnGet txn k; Ok tt)) (fun _ => is_Some (contents (sdb s) !! k))).
  { apply wp_view. intros t Ht. rewrite <- Ht. pose proof (TxnGet_law t k Hk) as HG.
    destruct (TxnGet t k); cbn; [by eexists|tauto|done]. }
  destruct (View _ _) as [[]|e|]; cbn in *; [|destruct H as [He|[-> Hn]]|done].
  - by rewrite bool_decide_true.
  - rewrite fault_not_found by done. by left.
  - by rewrite Hn, bool_decide_false by (by intros [? ?]).
Qed.

(** The three scans: what their loops compute. *)
Lemma scan_wp {A} s prefix limit (acc : A) visit (g : A -> bytes * bytes -> A) :
  (forall acc i, wp (fun _ => False) (visit acc i)
     (fun a => a = g acc (ItemKey i, item_value i))) ->
  wp (fun _ => False)
    (View (sdb s) (fun txn => scan_loop (Iterate txn prefix) limit 0 acc visit))
    (fun a => a = foldl g acc (limited limit (mem_items (contents (sdb s)) prefix))).
Proof.
  intros Hv. apply wp_view. intros t Ht. rewrite <- Ht.
  eapply wp_mono; [by apply (wp_scan _ _ _ _ _ _
    (fun acc i => g acc (ItemKey i, item_value i)))|]. intros a ->.
  rewrite <- limited_items. unfold limited. rewrite Z.sub_0_r.
  generalize (if limit <=? 0 then Iterate t prefix else take (Z.to_nat limit) (Iterate t prefix)).
  clear. intros l. revert acc. induction l as [|i l IH]; intros acc; cbn; [done|]. apply IH.
Qed.
(** ** Every operation *)

Lemma closed_refined s op :
  closed s = true -> kv_refined s op (kv_exec s op).
Proof.
  intros Hc. left. unfold kv_spec. cbn [kclosed view]. rewrite Hc.
  destruct op; cbn [kv_exec]; unfold Set_, Get, Incr, Decr, add_counter, Delete, Exists, Scan,
    ScanKeys, ScanKeysWithValues, KV.BatchSet, BatchSetNoTTL, BatchGet, KV.BatchDelete, Close;
    by rewrite Hc.
Qed.

Lemma has_empty_spec keys : has_empty keys = bool_decide ([] ∈ keys).
Proof.
  apply eq_bool_prop_intro. rewrite bool_decide_spec, Is_true_true.
  unfold has_empty. rewrite existsb_exists. setoid_rewrite bool_decide_eq_true. split.
  - intros (k & Hk & ->). by apply list_elem_of_In.
  - intros Hk. exists []. split; [by apply list_elem_of_In|done].
Qed.

Lemma len_0_spec {A} (l : list A) : (len l =? 0) = bool_decide (l = []).
Proof.
  destruct l; [done|]. rewrite bool_decide_false by done. apply Z.eqb_neq.
  rewrite len_cons. pose proof (len_nonneg l). lia.
Qed.

Lemma invalid_refined s op :
  closed s = false -> [] ∈ op_keys op -> kv_refined s op (kv_exec s op).
Proof.
  intros Hc Hk. left. unfold kv_spec. cbn [kclosed view]. rewrite Hc, decide_True by done.
  destruct op; cbn [op_keys] in Hk; try (by apply elem_of_nil in Hk);
    try (apply list_elem_of_singleton in Hk; subst key; cbn [kv_exec];
         unfold Set_, Get, Incr, Decr, add_counter, Delete, Exists;
         by rewrite Hc);
    cbn [kv_exec]; unfold KV.BatchSet, BatchSetNoTTL, BatchGet, KV.BatchDelete;
    rewrite Hc, has_empty_spec, bool_decide_true by done; rewrite len_0_spec;
    rewrite bool_decide_false by (intros ->; by apply elem_of_nil in Hk); done.
Qed.

Lemma close_refined s : closed s = false -> kv_refined s OClose (kv_exec s OClose).
Proof.
  intros Hc. unfold kv_refined. rewrite spec_open by (by try apply not_elem_of_nil).
  cbn [kv_exec]. unfold Close. rewrite Hc.
  pose proof (DBClose_law (sdb s)) as H. destruct (DBClose (sdb s)) as [db r].
  destruct H as (Hm & Ht & [Hr|(e & Hr & He)]); cbn in Hm, Ht, Hr; subst r.
  - left. unfold view. cbn. by rewrite Hm, Ht.
  - right. exists e, []. split_and!; [done|done|apply prefix_nil|done|done|done].
Qed.

(** The three batch writers. *)
Lemma batch_refined {A} s op (w : A -> write) add (l : list A) (keys : list bytes) k :
  closed s = false -> op_writes op = map w l -> keys = op_keys op -> [] ∉ keys ->
  kv_open (view s) op = (written (view s) (op_writes op), Ok (k tt)) ->
  (forall wb x, x ∈ l -> match add wb x with
                | Ok wb' => writes wb' = writes wb ++ [w x]
                | Err e => fault e
                | Panic => False
                end) ->
  kv_refined s op (with_reply k
    (if closed s then (s, Err ErrClosed) else
     if len l =? 0 then (s, Ok tt) else
     if has_empty keys then (s, Err ErrInvalidKey) else with_batch s l add)).
Proof.
  intros Hc Hw -> Hk Hop Hadd. rewrite Hc, has_empty_spec, bool_decide_false, len_0_spec by done.
  case_bool_decide as Hl.
  - left. rewrite spec_open, Hop, Hw, Hl by done. done.
  - apply (with_batch_refined s op w); [done|done|by rewrite spec_open|done].
Qed.

Lemma BatchGet_wp s keys :
  closed s = false -> [] ∉ keys ->
  wp (fun _ => False) (BatchGet s keys) (fun r => r = restrict (contents (sdb s)) keys).
Proof.
  intros Hc Hk. unfold BatchGet.
  rewrite Hc, has_empty_spec, bool_decide_false, len_0_spec by done.
  rewrite <- get_steps_restrict. case_bool_decide as Hl; [by subst keys|].
  destruct (len keys <=? 100).
  - apply wp_view. intros t <-. by apply wp_get_keys.
  - eapply wp_mono; [apply wp_get_chunks; [done|lia|unfold len; lia]|].
    intros r ->. by rewrite dropZ_0 by lia.
Qed.

Ltac open_op := rewrite spec_open by done; cbn [kv_open].

Lemma single_key_refined s op key :
  closed s = false ->
  match op with
  | OSet k _ _ | OGet k | OIncr k | ODecr k | ODelete k | OExists k => k = key
  | _ => False
  end -> key <> [] -> ttl_ok op ->
  kv_refined s op (kv_exec s op).
Proof.
  intros Hc Hop Hk Httl.
  assert (Hin : [] ∉ op_keys op).
  { destruct op; try done; subst; cbn; intros E%list_elem_of_singleton; congruence. }
  destruct op; try done; subst; cbn [kv_exec ttl_ok] in *.
  - destruct (Set_served s key value ttl Hc Hk Httl) as (x & -> & Hx).
    eapply update_refined; [done|exact Hx|done|..]; open_op; [|done].
    intros m t [] [-> ->]. unfold written, view. cbn. by rewrite Hc.
  - eapply view_refined; [done|by apply Get_wp|..]; open_op.
    + intros e [-> Hn]. cbn. by rewrite Hn.
    + intros v Hv. cbn. by rewrite Hv.
    + done.
  - destruct (add_counter_served s key 1 Hc Hk) as (x & Hx & Hs). unfold Incr. rewrite Hx.
    eapply update_refined; [done|exact Hs|done|..]; open_op; [|done].
    intros m t n (-> & -> & ->). unfold written, view. cbn. by rewrite Hc.
  - destruct (add_counter_served s key (-1) Hc Hk) as (x & Hx & Hs). unfold Decr. rewrite Hx.
    eapply update_refined; [done|exact Hs|done|..]; open_op; [|done].
    intros m t n (-> & -> & ->). unfold written, view. cbn. by rewrite Hc.
  - destruct (Delete_served s key Hc Hk) as (x & -> & Hx).
    eapply update_refined; [done|exact Hx|done|..]; open_op; [|done].
    intros m t [] [-> ->]. unfold written, view. cbn. by rewrite Hc.
  - eapply view_refined; [done|by apply Exists_wp|done|..]; open_op; [|done].
    by intros b ->.
Qed.

Lemma scans_refined s op :
  closed s = false ->
  match op with OScan _ _ | OScanKeys _ _ | OScanKeysWithValues _ _ => True | _ => False end ->
  kv_refined s op (kv_exec s op).
Proof.
  intros Hc Hop. assert (Hin : [] ∉ op_keys op) by (by destruct op; try apply not_elem_of_nil).
  destruct op; try done; cbn [kv_exec]; unfold Scan, ScanKeys, ScanKeysWithValues; rewrite Hc.
  - eapply (view_refined _ _ _ (fun _ => False)); [done| |done|..].
    + apply (scan_wp s _ limit [] _ (fun acc kv => acc ++ [kv.2])).
      intros acc i. apply wp_value. cbn [wp]. done.
    + intros a ->. open_op. by rewrite (foldl_snoc snd).
    + by open_op.
  - eapply (view_refined _ _ _ (fun _ => False)); [done| |done|..].
    + by apply (scan_wp s _ limit [] _ (fun acc kv => acc ++ [kv.1])).
    + intros a ->. open_op. by rewrite (foldl_snoc fst).
    + by open_op.
  - eapply (view_refined _ _ _ (fun _ => False)); [done| |done|..].
    + apply (scan_wp s _ limit ∅ _ (fun acc kv => <[kv.1 := kv.2]> acc)).
      intros acc i. apply wp_value. cbn [wp]. done.
    + intros a ->. open_op. rewrite foldl_entries, (right_id_L ∅ (∪)); [done|].
      unfold limited. pose proof (mem_items_NoDup (kmap (view s)) prefix0) as Hnd.
      destruct (limit <=? 0); [done|]. rewrite <- (take_drop (Z.to_nat limit) (mem_items _ _)) in Hnd.
      rewrite map_app in Hnd. by apply NoDup_app in Hnd as [? _].
    + by open_op.
Qed.

Lemma kv_exec_refined s op : ttl_ok op -> kv_refined s op (kv_exec s op).
Proof.
  intros Httl. destruct (closed s) eqn:Hc; [by apply closed_refined|].
  destruct (decide ([] ∈ op_keys op)) as [Hk|Hk]; [by apply invalid_refined|].
  destruct op; try (by apply scans_refined); try (by apply close_refined);
    try (eapply single_key_refined; [done|done| |done]; by intros ->; destruct Hk; left);
    cbn [kv_exec].
  - apply (batch_refined s (OBatchSet kvPairs ttl)
      (fun kv => WSet kv.1 kv.2 (ttl_of ttl))); try done.
    intros wb [k v] Hin. assert (k <> []) as Hk0.
    { intros ->. destruct Hk. by apply (list_elem_of_fmap_2 fst) in Hin. }
    unfold ttl_of. cbn in Httl. destruct (Z.ltb_spec 0 ttl);
      [by apply BatchSetTTL_law; [|lia]|by apply BatchSet_law].
  - apply (batch_refined s (OBatchSetNoTTL kvPairs) (fun kv => WSet kv.1 kv.2 None)); try done.
    intros wb [k v] Hin. assert (k <> []) as Hk0.
    { intros ->. destruct Hk. by apply (list_elem_of_fmap_2 fst) in Hin. }
    by apply BatchSet_law.
  - eapply view_refined; [done|by apply BatchGet_wp|done|..]; open_op; [|done].
    by intros r ->.
  - apply (batch_refined s (OBatchDelete keys) WDelete); try done.
    intros wb k Hin. apply BatchDelete_law. by intros ->.
Qed.
End Refine.

(** ** Runs *)

Section Runs.
Context {bdg : Badger} {laws : BadgerLaws} {batch : BadgerBatch} {blaws : BadgerBatchLaws}.
Implicit Types s : Storage.

Fixpoint kv_exec_all s (ops : list KVOp) : list (result KVReply) :=
  match ops with
  | [] => []
  | op :: ops => let x := kv_exec s op in x.2 :: kv_exec_all x.1 ops
  end.

Fixpoint kv_spec_all (v : KVState) (ops : list KVOp) : list (result KVReply) :=
  match ops with
  | [] => []
  | op :: ops => let x := kv_spec v op in x.2 :: kv_spec_all x.1 ops
  end.

(** ** Properties *)

(** C4: every operation of the key-value storage is answered and changes the
    stored map, the times to live and the closed flag as specified, key by key;
    or the engine refused it, the answer is the engine's error and at most the
    first writes of a batch took effect. *)
Theorem kv_refines_map s op : ttl_ok op -> kv_refined s op (kv_exec s op).
Proof. apply kv_exec_refined. Qed.

(** On an engine that refuses nothing, any sequence of operations,
    closing included, is answered exactly as by a finite map. *)
Theorem kv_runs {rel : BadgerReliable} s ops :
  Forall ttl_ok ops -> kv_exec_all s ops = kv_spec_all (view s) ops.
Proof.
  intros Hops. revert s. induction Hops as [|op ops Hop _ IH]; intros s; cbn; [done|].
  destruct (kv_exec_refined s op Hop) as [[-> Hv]|(e & ws & _ & He & _)].
  - by rewrite IH, Hv.
  - by destruct (no_fault e).
Qed.

(** An operation on an engine that refuses nothing. *)
Lemma kv_reliable {rel : BadgerReliable} s op :
  ttl_ok op -> (kv_exec s op).2 = (kv_spec (view s) op).2 /\
    view (kv_exec s op).1 = (kv_spec (view s) op).1.
Proof.
  intros Hop. destruct (kv_exec_refined s op Hop) as [H|(e & ws & _ & He & _)]; [done|].
  by destruct (no_fault e).
Qed.

Lemma with_reply_ok {A} (k : A -> KVReply) (x : Storage * result A) r :
  (with_reply k x).2 = Ok r -> exists a, x.2 = Ok a /\ k a = r.
Proof. unfold with_reply. destruct (x.2) as [a|e|]; cbn; try done. intros [= <-]. by exists a. Qed.

(** C22: on a stored eight-byte counter [n], [Incr] answers and
    stores [n+1], wrapping at the ends of [int64], and drops the entry's time to
    live; [Decr] after it answers [n] again and restores the stored bytes.
    The engine is assumed to refuse nothing. *)
Theorem counter_steps {rel : BadgerReliable} s key n :
  closed s = false -> key <> [] -> i64 n -> kmap (view s) !! key = Some (be64 n) ->
  let x := Incr s key in
  let y := Decr x.1 key in
  x.2 = Ok (int64 (n + 1)) /\ kmap (view x.1) = <[key := be64 (n + 1)]> (kmap (view s)) /\
  kttl (view x.1) = delete key (kttl (view s)) /\
  y.2 = Ok n /\ kmap (view y.1) = kmap (view s).
Proof.
  intros Hc Hk Hn Hkey x y.
  assert (Hget : forall v, i64 v -> (if len (be64 v) =? 8 then int64 (be_get (be64 v)) else 0) = v).
  { intros v Hv. rewrite len_be64, Z.eqb_refl. unfold be64. rewrite be_get_put.
    by apply int64_uint64. }
  assert (Hin : [] ∉ [key]) by (intros E%list_elem_of_singleton; congruence).
  destruct (kv_reliable s (OIncr key)) as [Hx Hvx]; [done|].
  rewrite spec_open in Hx, Hvx by done. cbn [kv_exec kv_open fst snd] in Hx, Hvx.
  unfold counter_in in Hx, Hvx. rewrite Hkey, Hget in Hx, Hvx by done.
  apply with_reply_ok in Hx as (a & Hx & [= ->]). unfold with_reply in Hvx.
  cbn [fst] in Hvx. fold x in Hx, Hvx. rewrite be64_int64 in Hvx.
  assert (Hcx : closed x.1 = false).
  { change (kclosed (view x.1) = false). by rewrite Hvx. }
  destruct (kv_reliable x.1 (ODecr key)) as [Hy Hvy]; [done|].
  rewrite spec_open in Hy, Hvy by done. cbn [kv_exec kv_open fst snd] in Hy, Hvy.
  unfold counter_in in Hy, Hvy. rewrite Hvx in Hy, Hvy.
  cbn [written apply_writes apply_write foldl kmap kttl] in Hy, Hvy.
  rewrite lookup_insert_eq in Hy, Hvy.
  rewrite <- (be64_int64 (n + 1)), Hget in Hy, Hvy by apply int64_i64.
  assert (E : int64 (int64 (n + 1) - 1) = n).
  { rewrite <- Z.add_opp_r, int64_add. etransitivity; [|by apply int64_small]. f_equal. lia. }
  rewrite E in Hy, Hvy. apply with_reply_ok in Hy as (b & Hy & [= ->]).
  unfold with_reply in Hvy. cbn [fst] in Hvy. fold y in Hy, Hvy.
  split_and!; [done|by rewrite Hvx|by rewrite Hvx|done|].
  rewrite Hvy. cbn. by rewrite insert_insert_eq, insert_id.
Qed.

(** On an engine that refuses nothing, [ScanKeys] lists the keys with
    the prefix in strictly increasing byte order, the first [limit] of them when
    the limit is positive and all of them otherwise. *)
Theorem scan_keys_in_order {rel : BadgerReliable} s prefix limit :
  closed s = false ->
  exists keys, ScanKeys s prefix limit = Ok (limited limit keys) /\
    StronglySorted lex_lt keys /\
    forall k, k ∈ keys <-> is_Some (kmap (view s) !! k) /\ prefix `prefix_of` k.
Proof.
  intros Hc. destruct (kv_reliable s (OScanKeys prefix limit)) as [Hx _]; [done|].
  rewrite spec_open in Hx by (done || apply not_elem_of_nil).
  apply with_reply_ok in Hx as (a & Hx & [= ->]). cbn [snd] in Hx.
  exists (map fst (mem_items (kmap (view s)) prefix)).
  destruct (mem_items_law (kmap (view s)) prefix) as [Hs Hin]. split_and!; [|done|].
  - rewrite Hx. unfold limited. destruct (limit <=? 0); [done|]. f_equal. symmetry. apply firstn_map.
  - rewrite (map_ext _ id), map_id in Hin by (by intros []).
    intros k. rewrite list_elem_of_fmap. split.
    + intros ([k' v] & -> & Hkv). apply Hin in Hkv as [Hv Hp]. split; [by exists v|done].
    + intros [[v Hv] Hp]. exists (k, v). split; [done|]. by apply Hin.
Qed.
End Runs.

(** ** Witnesses on the map instance *)

Definition empty_storage : Storage (bdg := mem_badger) := mkStorage mem_empty false.
Definition sample_kv_ops : list KVOp :=
  [OSet (str "user:2") (str "bob") 0; OSet (str "user:1") (str "ann") (5 * second);
   OScan (str "user:") 1; OIncr (str "hits"); OIncr (str "hits"); ODecr (str "hits");
   OGet (str "hits"); OBatchGet [str "user:1"; str "none"]; ODelete (str "user:1");
   OExists (str "user:1"); OGet []; OClose; OGet (str "hits"); OClose].

Lemma kv_refines_map_witness :
  kv_refined empty_storage (OSet (str "k") (str "v") (2 * second))
    (kv_exec empty_storage (OSet (str "k") (str "v") (2 * second))).
Proof. apply (kv_refines_map (bdg := mem_badger)). right. by vm_compute. Defined.

Lemma kv_runs_witness :
  kv_exec_all empty_storage sample_kv_ops = kv_spec_all (view empty_storage) sample_kv_ops.
Proof. apply (kv_runs (bdg := mem_badger)). repeat constructor; by vm_compute. Defined.

Definition full_counter : Storage (bdg := mem_badger) :=
  mkStorage (mem_set mem_empty (str "n") (be64 (2 ^ 63 - 1))) false.

Lemma counter_steps_witness : (Incr full_counter (str "n")).2 = Ok (int64 (2 ^ 63 - 1 + 1)).
Proof.
  apply (counter_steps (bdg := mem_badger) full_counter (str "n") (2 ^ 63 - 1));
    [done|done|by vm_compute|by vm_compute].
Defined.

Lemma scan_keys_in_order_witness :
  exists keys, ScanKeys empty_storage (str "a") 10 = Ok (limited 10 keys) /\
    StronglySorted lex_lt keys /\
    forall k, k ∈ keys <-> is_Some (kmap (view empty_storage) !! k) /\ str "a" `prefix_of` k.
Proof. by apply (scan_keys_in_order (bdg := mem_badger)). Defined.
