(* ===== verification/KVService.v ===== *)
(** The key-value store of internal/kv/kv.go: the interface [StorageBackend] that
    it asks of a storage, its methods, which forward to it, and what a backend
    promises ([BackendLaws]), which the storage of storage.go keeps. *)
From stdpp Require Import base list numbers gmap strings.
From Stdlib Require Import ZArith Lia.
From S2P Require Import Prelude Fmt Badger KVStorage KVCorrect KVRefine.

(** ** The interface *)

Class StorageBackend : Type := {
  Backend : Type;
  backend_Set : Backend -> bytes -> bytes -> Z -> Backend * result unit;
  backend_Get : Backend -> bytes -> result bytes;
  backend_Delete : Backend -> bytes -> Backend * result unit;
  backend_Exists : Backend -> bytes -> result bool;
  backend_Incr : Backend -> bytes -> Backend * result Z;
  backend_Decr : Backend -> bytes -> Backend * result Z;
  backend_Scan : Backend -> bytes -> Z -> result (list bytes);
  backend_ScanKeys : Backend -> bytes -> Z -> result (list bytes);
  backend_ScanKeysWithValues : Backend -> bytes -> Z -> result KV.kv_map;
  backend_BatchSet : Backend -> list (bytes * bytes) -> Z -> Backend * result unit;
  backend_BatchSetNoTTL : Backend -> list (bytes * bytes) -> Backend * result unit;
  backend_BatchGet : Backend -> list bytes -> result KV.kv_map;
  backend_BatchDelete : Backend -> list bytes -> Backend * result unit;
  backend_Close : Backend -> Backend * result unit;
}.

Definition answered {S A} (k : A -> KVReply) (x : S * result A) : S * result KVReply :=
  (x.1, a ← x.2; Ok (k a)).

(** An operation on a backend. *)
Definition backend_exec {backend : StorageBackend} (s : Backend) (op : KVOp) : Backend * result KVReply :=
  match op with
  | OSet k v ttl => answered (fun _ => RDone) (backend_Set s k v ttl)
  | OGet k => answered RValue (s, backend_Get s k)
  | OIncr k => answered RNumber (backend_Incr s k)
  | ODecr k => answered RNumber (backend_Decr s k)
  | ODelete k => answered (fun _ => RDone) (backend_Delete s k)
  | OExists k => answered RBool (s, backend_Exists s k)
  | OScan p limit => answered RList (s, backend_Scan s p limit)
  | OScanKeys p limit => answered RList (s, backend_ScanKeys s p limit)
  | OScanKeysWithValues p limit => answered RMap (s, backend_ScanKeysWithValues s p limit)
  | OBatchSet kvs ttl => answered (fun _ => RDone) (backend_BatchSet s kvs ttl)
  | OBatchSetNoTTL kvs => answered (fun _ => RDone) (backend_BatchSetNoTTL s kvs)
  | OBatchGet ks => answered RMap (s, backend_BatchGet s ks)
  | OBatchDelete ks => answered (fun _ => RDone) (backend_BatchDelete s ks)
  | OClose => answered (fun _ => RDone) (backend_Close s)
  end.

(** What a backend promises: it is a finite map with times to live. *)
Class BackendLaws {backend : StorageBackend} : Type := {
  backend_view : Backend -> KVState;
  backend_answers : forall s op, ttl_ok op ->
    (backend_exec s op).2 = (kv_spec (backend_view s) op).2 /\
    backend_view (backend_exec s op).1 = (kv_spec (backend_view s) op).1;
}.

(** ** The store *)

Module KVStore.

Section Methods.
Context {backend : StorageBackend}.

Record KVStore : Type := mkKVStore { storage : Backend }.
Implicit Types k : KVStore.

Definition on_storage {A} (x : Backend * result A) : KVStore * result A := (mkKVStore x.1, x.2).

Definition Close k : KVStore * result unit := on_storage (backend_Close (storage k)).
Definition Set_ k (key value : bytes) (ttl : Z) : KVStore * result unit :=
  on_storage (backend_Set (storage k) key value ttl).
Definition Get k (key : bytes) : result bytes := backend_Get (storage k) key.
Definition Incr k (key : bytes) : KVStore * result Z := on_storage (backend_Incr (storage k) key).
Definition Decr k (key : bytes) : KVStore * result Z := on_storage (backend_Decr (storage k) key).
Definition Delete k (key : bytes) : KVStore * result unit := on_storage (backend_Delete (storage k) key).
Definition Exists k (key : bytes) : result bool := backend_Exists (storage k) key.
Definition Scan k (prefix : bytes) (limit : Z) : result (list bytes) := backend_Scan (storage k) prefix limit.
Definition ScanKeys k (prefix : bytes) (limit : Z) : result (list bytes) :=
  backend_ScanKeys (storage k) prefix limit.
Definition ScanKeysWithValues k (prefix : bytes) (limit : Z) : result KV.kv_map :=
  backend_ScanKeysWithValues (storage k) prefix limit.
Definition BatchSet k (kvPairs : list (bytes * bytes)) (ttl : Z) : KVStore * result unit :=
  on_storage (backend_BatchSet (storage k) kvPairs ttl).
Definition BatchSetNoTTL k (kvPairs : list (bytes * bytes)) : KVStore * result unit :=
  on_storage (backend_BatchSetNoTTL (storage k) kvPairs).
Definition BatchGet k (keys : list bytes) : result KV.kv_map := backend_BatchGet (storage k) keys.
Definition BatchDelete k (keys : list bytes) : KVStore * result unit :=
  on_storage (backend_BatchDelete (storage k) keys).
End Methods.
End KVStore.

Import KVStore.

(** ** The storage of storage.go as a backend *)

#[export] Instance kv_backend {bdg : Badger} {batch : BadgerBatch} : StorageBackend := {|
  Backend := KV.Storage;
  backend_Set := KV.Set_;
  backend_Get := KV.Get;
  backend_Delete := KV.Delete;
  backend_Exists := KV.Exists;
  backend_Incr := KV.Incr;
  backend_Decr := KV.Decr;
  backend_Scan := KV.Scan;
  backend_ScanKeys := KV.ScanKeys;
  backend_ScanKeysWithValues := KV.ScanKeysWithValues;
  backend_BatchSet := KV.BatchSet;
  backend_BatchSetNoTTL := KV.BatchSetNoTTL;
  backend_BatchGet := KV.BatchGet;
  backend_BatchDelete := KV.BatchDelete;
  backend_Close := KV.Close;
|}.

Section New.
Context {bdg : Badger} {batch : BadgerBatch} {opening : BadgerOpen}.

Definition New (files : option DB) : result (KVStore (backend := kv_backend)) :=
  s ← KV.NewKVStorage files; Ok (mkKVStore (backend := kv_backend) s).

(** The number of shards is ignored. *)
Definition NewWithShards (files : option DB) (shardCount : Z) : result (KVStore (backend := kv_backend)) :=
  New files.
End New.

Section Laws.
Context {bdg : Badger} {laws : BadgerLaws} {batch : BadgerBatch} {blaws : BadgerBatchLaws}
  {rel : BadgerReliable}.

Lemma kv_backend_answers (s : KV.Storage) op :
  ttl_ok op -> (backend_exec s op).2 = (kv_spec (view s) op).2 /\
    view (backend_exec s op).1 = (kv_spec (view s) op).1.
Proof.
  intros Hop. assert (E : backend_exec s op = kv_exec s op) by (by destruct op).
  rewrite E. by apply kv_reliable.
Qed.

#[export] Instance kv_backend_laws : BackendLaws :=
  {| backend_view := view : Backend -> KVState; backend_answers := kv_backend_answers |}.
End Laws.

(** ** The store against the interface *)

Section Store.
Context {backend : StorageBackend} {laws : BackendLaws}.
Implicit Types k : KVStore.

(** An operation on the store. *)
Definition store_exec k (op : KVOp) : KVStore * result KVReply :=
  match op with
  | OSet key v ttl => answered (fun _ => RDone) (Set_ k key v ttl)
  | OGet key => answered RValue (k, Get k key)
  | OIncr key => answered RNumber (Incr k key)
  | ODecr key => answered RNumber (Decr k key)
  | ODelete key => answered (fun _ => RDone) (Delete k key)
  | OExists key => answered RBool (k, Exists k key)
  | OScan p limit => answered RList (k, Scan k p limit)
  | OScanKeys p limit => answered RList (k, ScanKeys k p limit)
  | OScanKeysWithValues p limit => answered RMap (k, ScanKeysWithValues k p limit)
  | OBatchSet kvs ttl => answered (fun _ => RDone) (BatchSet k kvs ttl)
  | OBatchSetNoTTL kvs => answered (fun _ => RDone) (BatchSetNoTTL k kvs)
  | OBatchGet ks => answered RMap (k, BatchGet k ks)
  | OBatchDelete ks => answered (fun _ => RDone) (BatchDelete k ks)
  | OClose => answered (fun _ => RDone) (Close k)
  end.

Definition store_view k : KVState := backend_view (storage k).

Lemma store_forwards k op : store_exec k op = on_storage (backend_exec (storage k) op).
Proof. destruct k as [s], op; reflexivity. Qed.

(** The methods of the store on any backend that keeps its promise. *)
Lemma store_answers k op :
  ttl_ok op -> exists k', store_exec k op = (k', (kv_spec (store_view k) op).2) /\
    store_view k' = (kv_spec (store_view k) op).1.
Proof.
  intros Hop. destruct (backend_answers (storage k) op Hop) as [H1 H2].
  exists (mkKVStore (backend_exec (storage k) op).1). rewrite store_forwards. unfold on_storage.
  by rewrite H1.
Qed.
End Store.
