(* ===== verification/FlinCli.v ===== *)
(** The command line of cmd/flincli/main.go: a process per command, on the
    key-value store in a directory.  Its commands are operations on the finite
    map that the directory holds from one process to the next. *)
From stdpp Require Import base list numbers gmap strings.
From Stdlib Require Import ZArith Lia.
From S2P Require Import Prelude Fmt GoFloat GoStrconv Badger KVStorage KVCorrect KVRefine KVService.
Import KVStore.

(** ** Processes *)

(** What a process reads: FLIN_DATA_DIR, the outcome of [os.MkdirAll],
    [strconv.Quote], which prints the argument that is no number; and for the
    benchmark FLIN_BENCHMARK_DURATION, the outcome of [os.MkdirTemp], and what
    [time.Now] returns each time it is called, in nanoseconds. *)
Record Environment : Type := mkEnvironment {
  FLIN_DATA_DIR : bytes;
  MkdirAll : bytes -> result unit;
  Quote : bytes -> bytes;
  FLIN_BENCHMARK_DURATION : bytes;
  MkdirTemp : result bytes;
  clock : list Z;
}.

Definition banner (version : bytes) : bytes :=
  str "
╔═══════════════════════════════════════╗
║   Flin - High-Performance KV Store   ║
║   Version: " ++ version ++ str "                    ║
╚═══════════════════════════════════════╝
".
Definition version : bytes := str "1.0.0".

Definition printUsage : bytes :=
  banner version ++ str "Usage: flin <command> [arguments]

Commands:
  set <key> <value> [ttl]   Set a key-value pair (optional TTL in seconds)
  get <key>                 Get value by key
  delete <key>              Delete a key
  exists <key>              Check if key exists
  benchmark                 Run performance benchmark
  version                   Show version information
  help                      Show this help message

Examples:
  flin set mykey " ++ [34] ++ str "hello world" ++ [34] ++ str "
  flin set session:123 " ++ [34] ++ str "data" ++ [34] ++ str " 3600
  flin get mykey
  flin delete mykey
  flin exists mykey
  flin benchmark

Environment Variables:
  FLIN_DATA_DIR            Data directory (default: ./data)
  FLIN_BENCHMARK_DURATION  Benchmark duration (default: 10s)
".

Section Commands.
Context {bdg : Badger} {batch : BadgerBatch} {opening : BadgerOpen}.
Implicit Types e : Environment.

(** The directories that hold an engine's files. *)
Abbreviation Disk := (bmap DB).
Implicit Types d : Disk.

(** What a process leaves behind: the directories, its output and its exit
    code. *)
Record Process : Type := mkProcess { disk : Disk; stdout : bytes; code : Z }.

Definition dataDir e : bytes := if decide (FLIN_DATA_DIR e = []) then str "./data" else FLIN_DATA_DIR e.

Definition getStore e d : result (KVStore (backend := kv_backend)) :=
  on_err (MkdirAll e (dataDir e))
    (fun err => Err (Errorf (str "failed to create data directory: " ++ error_text err)))
    (fun _ => New (d !! dataDir e)).

(** [fmt.Printf("Error: %v\n", err)], then [os.Exit(1)]. *)
Definition error_line (text : bytes) : bytes := str "Error: " ++ text ++ str "
".
Definition fatal (err : error) : bytes * Z := (error_line (error_text err), 1).

(** Open the store, run a command on it; the deferred [Close] does not run when
    the command ends the process with [os.Exit(1)]. *)
Definition with_store e d (run : KVStore -> KVStore * result (bytes * Z)) : result Process :=
  on_err (getStore e d) (fun err => Ok (mkProcess d (fatal err).1 (fatal err).2)) (fun store =>
    let '(store, r) := run store in
    '(out, status) ← r;
    let store := if status =? 0 then (Close store).1 else store in
    Ok (mkProcess (<[dataDir e := KV.sdb (storage store)]> d) out status)).

(** The output of a command by the outcome of its operation. *)
Definition printed {A} (x : KVStore * result A) (ok : A -> bytes) : KVStore * result (bytes * Z) :=
  (x.1, on_err x.2 (fun err => Ok (fatal err)) (fun a => Ok (ok a, 0))).

(** The optional argument of [set]: the time to live, or the text of the error. *)
Definition ttl_arg e (args : list bytes) : Z + bytes :=
  match args with
  | [] => inl 0
  | a :: _ =>
      match Atoi a with
      | inl seconds => inl (int64 (seconds * second))
      | inr reason => inr (str "strconv.Atoi: parsing " ++ Quote e a ++ str ": " ++ reason)
      end
  end.

Definition set_line (key : bytes) (ttl : Z) : bytes :=
  if 0 <? ttl then str "✅ Set '" ++ key ++ str "' with TTL " ++ Duration_String ttl ++ str "
"
  else str "✅ Set '" ++ key ++ str "'
".

Definition runSet e d (key value : bytes) (args : list bytes) : result Process :=
  with_store e d (fun store =>
    match ttl_arg e args with
    | inl ttl => printed (Set_ store key value ttl) (fun _ => set_line key ttl)
    | inr text => (store, Ok (error_line (str "invalid TTL value: " ++ text), 1))
    end).

Definition runGet e d (key : bytes) : result Process :=
  with_store e d (fun store => printed (store, Get store key) (fun value => value ++ str "
")).

Definition runDelete e d (key : bytes) : result Process :=
  with_store e d (fun store => printed (Delete store key) (fun _ => str "✅ Deleted '" ++ key ++ str "'
")).

Definition exists_line (key : bytes) (exists_ : bool) : bytes :=
  if exists_ then str "✅ Key '" ++ key ++ str "' exists
"
  else str "❌ Key '" ++ key ++ str "' does not exist
".

Definition runExists e d (key : bytes) : result Process :=
  with_store e d (fun store => printed (store, Exists store key) (exists_line key)).

(** ** The benchmark *)

(** The loop of [benchmarkOperation]: the number of operations that succeeded, a
    failed one is tried again, and the clock's readings that are left; None when
    they do not reach [stop]. *)
Fixpoint bench_loop (op : KVStore -> Z -> KVStore * result unit) (stop ops : Z) (store : KVStore)
    (clock : list Z) : option (KVStore * result Z * list Z) :=
  match clock with
  | [] => None
  | now :: clock =>
      if now <? stop then
        match op store ops with
        | (store, Ok _) => bench_loop op stop (ops + 1) store clock
        | (store, Err _) => bench_loop op stop ops store clock
        | (store, Panic) => Some (store, Panic, clock)
        end
      else Some (store, Ok ops, clock)
  end.

Definition benchmarkOperation (store : KVStore) (duration : Z) (op : KVStore -> Z -> KVStore * result unit)
    (clock : list Z) : option (KVStore * result Z * list Z) :=
  match clock with
  | [] => None
  | start :: clock => bench_loop op (start + duration) 0 store clock
  end.

(** [byte(i % 256)] for [i] below 1024 *)
Definition bench_value : bytes := map (fun i => i mod 256) (seqZ 0 1024).
Definition numKeys : Z := 10000.
Definition bench_key (i : Z) : bytes := str "bench_key_" ++ fmt_d i.
Definition get_key (i : Z) : bytes := str "get_key_" ++ fmt_d i.

Definition set_op (store : KVStore) (i : Z) : KVStore * result unit := Set_ store (bench_key i) bench_value 0.
Definition get_op (store : KVStore) (i : Z) : KVStore * result unit :=
  (store, _ ← Get store (get_key (Z.rem i numKeys)); Ok tt).

(** The keys of the second part; errors are dropped. *)
Definition populate (store : KVStore) : KVStore * result unit :=
  foldl (fun '(store, r) i =>
    match r with
    | Panic => (store, Panic)
    | _ => let '(store, r) := Set_ store (get_key i) bench_value 0 in (store, on_err r (fun _ => Ok tt) Ok)
    end) (store, Ok tt) (seqZ 0 numKeys).

Definition bench_duration e : Z :=
  if bool_decide (FLIN_BENCHMARK_DURATION e = []) then 10 * second
  else default (10 * second) (ParseDuration (FLIN_BENCHMARK_DURATION e)).

Definition bench_head : bytes := banner version ++ str "🚀 Running benchmark...

".
Definition throughput (ops duration : Z) : bytes :=
  str "   Throughput: " ++ fmt_2f (float_div (float_div (float_of_int ops) (Seconds duration)) (float_of_int 1000))
    ++ str "K ops/sec

".
Definition bench_text (duration setOps getOps : Z) : bytes :=
  bench_head ++ str "📝 Benchmarking SET operations (" ++ Duration_String duration ++ str ")...
" ++ throughput setOps duration
  ++ str "📖 Benchmarking GET operations (" ++ Duration_String duration ++ str ")...
" ++ throughput getOps duration
  ++ str "✅ Benchmark completed!
".

(** The store lives in a temporary directory, which the deferred calls close and
    remove; [os.Exit] skips them. *)
Definition runBenchmark e d : option (result Process) :=
  let failed err := Some (Ok (mkProcess d (bench_head ++ (fatal err).1) (fatal err).2)) in
  match MkdirTemp e with
  | Panic => Some Panic
  | Err err => failed err
  | Ok tmpDir =>
      match New (d !! tmpDir) with
      | Panic => Some Panic
      | Err err => failed err
      | Ok store =>
          let duration := bench_duration e in
          '(store, setOps, clock) ← benchmarkOperation store duration set_op (clock e);
          let '(store, populated) := populate store in
          '(store, getOps, _) ← benchmarkOperation store duration get_op clock;
          Some (setOps ← setOps; _ ← populated; getOps ← getOps;
                _ ← on_err (Close store).2 (fun _ => Ok tt) Ok;
                Ok (mkProcess (delete tmpDir d) (bench_text duration setOps getOps) 0))
      end
  end.

(** A process that only prints. *)
Definition print d (out : bytes) (status : Z) : option (result Process) := Some (Ok (mkProcess d out status)).

Definition is_one_of (command : bytes) (names : list string) : bool :=
  existsb (fun name => bool_decide (command = str name)) names.
Arguments is_one_of command names%_string.

(** None: the benchmark's clock never reaches the end. *)
Definition main e d (args : list bytes) : option (result Process) :=
  match args with
  | _ :: command :: rest =>
      if is_one_of command ["version"; "-v"; "--version"] then print d (banner version) 0
      else if is_one_of command ["benchmark"; "bench"] then runBenchmark e d
      else if is_one_of command ["set"] then
        match rest with
        | key :: value :: args => Some (runSet e d key value args)
        | _ => print d (str "Usage: flin set <key> <value> [ttl_seconds]
") 1
        end
      else if is_one_of command ["get"] then
        match rest with
        | key :: _ => Some (runGet e d key)
        | _ => print d (str "Usage: flin get <key>
") 1
        end
      else if is_one_of command ["delete"; "del"] then
        match rest with
        | key :: _ => Some (runDelete e d key)
        | _ => print d (str "Usage: flin delete <key>
") 1
        end
      else if is_one_of command ["exists"] then
        match rest with
        | key :: _ => Some (runExists e d key)
        | _ => print d (str "Usage: flin exists <key>
") 1
        end
      else if is_one_of command ["help"; "-h"; "--help"] then print d printUsage 0
      else print d (str "Unknown command: " ++ command ++ str "

" ++ printUsage) 1
  | _ => print d printUsage 1
  end.
End Commands.

(** ** The specification *)

Inductive Command : Type :=
| CSet (key value : bytes) (args : list bytes)
| CGet (key : bytes)
| CDelete (key : bytes)
| CExists (key : bytes).

(** The words of a command line. *)
Definition words (c : Command) : list bytes :=
  str "flin" ::
  match c with
  | CSet key value args => str "set" :: key :: value :: args
  | CGet key => [str "get"; key]
  | CDelete key => [str "delete"; key]
  | CExists key => [str "exists"; key]
  end.

Definition shown (r : result KVReply) (ok : KVReply -> bytes) : bytes * Z :=
  match r with Ok a => (ok a, 0) | Err err => fatal err | Panic => ([], 2) end.

Definition value_line (r : KVReply) : bytes :=
  match r with RValue value => value ++ str "
" | _ => [] end.

(** A command on the map of its directory: the next map, the output and the exit
    code. *)
Definition cli_spec e (s : KVState) (c : Command) : KVState * (bytes * Z) :=
  match c with
  | CSet key value args =>
      match ttl_arg e args with
      | inl ttl => let x := kv_spec s (OSet key value ttl) in (x.1, shown x.2 (fun _ => set_line key ttl))
      | inr text => (s, (error_line (str "invalid TTL value: " ++ text), 1))
      end
  | CGet key => let x := kv_spec s (OGet key) in (x.1, shown x.2 value_line)
  | CDelete key => let x := kv_spec s (ODelete key) in
      (x.1, shown x.2 (fun _ => str "✅ Deleted '" ++ key ++ str "'
"))
  | CExists key => let x := kv_spec s (OExists key) in
      (x.1, shown x.2 (fun r => match r with RBool b => exists_line key b | _ => [] end))
  end.

(** Times to live are absent or at least a second. *)
Definition command_ok e (c : Command) : Prop :=
  match c with
  | CSet key value args =>
      match ttl_arg e args with inl ttl => ttl <= 0 \/ second <= ttl | inr _ => True end
  | _ => True
  end.

(** A process: the time since the process before it, what it reads, and its
    command. *)
Record Launch : Type := mkLaunch { pause : Z; environment : Environment; command : Command }.

Section Correct.
Context {bdg : Badger} {laws : BadgerLaws} {batch : BadgerBatch} {blaws : BadgerBatchLaws}
  {opening : BadgerOpen} {olaws : BadgerOpenLaws}.
Implicit Types (d : bmap DB) (l : Launch).

(** The map that a directory holds. *)
Definition dir_view d (dir : bytes) : KVState :=
  mkKV (default ∅ (contents <$> d !! dir)) (default ∅ (expiry <$> d !! dir)) false.

(** One process after the other, each with its output and exit code. *)
Fixpoint processes d (ls : list Launch) : list (bytes * Z) :=
  match ls with
  | [] => []
  | l :: ls =>
      match main (environment l) (Elapse (pause l) <$> d) (words (command l)) with
      | Some (Ok p) => (stdout p, code p) :: processes (disk p) ls
      | _ => []
      end
  end.

(** A process on the map [s]: without a data directory it ends at once; else it
    prints and does what is specified of its command, or prints the error with
    which the engine refused it, which leaves the map as it was. *)
Definition launch_spec (dir : bytes) l (s s' : KVState) (out : bytes * Z) : Prop :=
  match MkdirAll (environment l) dir with
  | Ok _ => (s', out) = cli_spec (environment l) s (command l) \/
            exists err, fault err /\ out = fatal err /\ s' = s
  | Err err => out = fatal (Errorf (str "failed to create data directory: " ++ error_text err)) /\ s' = s
  | Panic => False
  end.

(** One map for all processes; between two of them, times to live run out. *)
Inductive runs (dir : bytes) : KVState -> list Launch -> list (bytes * Z) -> Prop :=
| runs_nil s : runs dir s [] []
| runs_cons s m t s' l ls out outs :
    lapse (pause l) (kmap s) (kttl s) m t -> launch_spec dir l (mkKV m t false) s' out ->
    runs dir s' ls outs -> runs dir s (l :: ls) (out :: outs).

Definition launch_ok (dir : bytes) l : Prop :=
  0 <= pause l /\ dataDir (environment l) = dir /\ MkdirAll (environment l) dir <> Panic /\
  command_ok (environment l) (command l).

(** The map of an open store. *)
Definition held (store : KVStore (backend := kv_backend)) : KVState := view (storage store).

Lemma New_held (files : option DB) :
  (exists store, New files = Ok store /\
     held store = mkKV (default ∅ (contents <$> files)) (default ∅ (expiry <$> files)) false) \/
  exists err, New files = Err err /\ fault err.
Proof.
  unfold New, KV.NewKVStorage. pose proof (DBOpen_law files) as H.
  destruct (DBOpen _) as [db|err|]; [|right; by exists err|done].
  left. eexists. split; [reflexivity|]. unfold held, view. cbn. by destruct H as [-> ->].
Qed.

(** Closing the store keeps its map. *)
Lemma Close_keeps (store : KVStore (backend := kv_backend)) :
  kmap (held (Close store).1) = kmap (held store) /\ kttl (held (Close store).1) = kttl (held store).
Proof.
  unfold held, Close, on_storage. cbn. unfold KV.Close. destruct (KV.closed _); [done|].
  pose proof (DBClose_law (KV.sdb (storage store))) as (Hm & Ht & _). destruct (DBClose _). by split.
Qed.

(** An operation other than a batch: as specified, or refused without effect. *)
Lemma store_outcome (store : KVStore (backend := kv_backend)) op :
  ttl_ok op -> op_writes op = [] -> op <> OClose -> kclosed (held store) = false ->
  exists store' r, store_exec store op = (store', r) /\
    ((held store', r) = kv_spec (held store) op \/
     exists err, r = Err err /\ fault err /\ held store' = held store).
Proof.
  intros Httl Hw Hop Hc. exists (store_exec store op).1, (store_exec store op).2.
  split; [apply surjective_pairing|].
  assert (E : backend_exec (storage store) op = kv_exec (storage store) op) by (by destruct op).
  rewrite store_forwards, E. pose proof (kv_exec_refined (storage store) op Httl) as H. clear E.
  destruct (kv_exec (storage store) op) as [k r]. unfold kv_refined, held in *. cbn in *.
  destruct H as [[-> ->]|(err & ws & -> & Hf & Hp & Hm & Ht & Hcl)].
  - left. by rewrite <- surjective_pairing.
  - right. exists err. split_and!; [done..|]. rewrite Hw in Hp. apply prefix_nil_inv in Hp as ->.
    assert (Hc' : kclosed (kv_spec (view (storage store)) op).1 = false).
    { unfold kv_spec. cbn [kclosed view]. rewrite Hc. destruct (decide _); [done|]. by destruct op. }
    rewrite Hc' in Hcl. unfold view in *. cbn in *. by rewrite Hm, Ht, Hcl, Hc.
Qed.

Lemma spec_never_panics s op : (kv_spec s op).2 <> Panic.
Proof.
  unfold kv_spec. destruct (kclosed s); [done|]. destruct (decide _); [done|].
  destruct op; cbn; try done. by destruct (_ !! _).
Qed.

Lemma printed_run {A} (x : KVStore (backend := kv_backend) * result A) k r (g : A -> KVReply) ok ok' :
  answered g x = (k, r) -> r <> Panic -> (forall a, ok a = ok' (g a)) ->
  printed x ok = (k, Ok (shown r ok')).
Proof.
  destruct x as [s [a|err|]]; unfold answered, printed; cbn; intros [= <- <-] Hp Hok; [by rewrite Hok|done..].
Qed.

(** What a process of [l] does with the directories [d]. *)
Definition launched dir l d (r : option (result Process)) : Prop :=
  exists p, r = Some (Ok p) /\ launch_spec dir l (dir_view d dir) (dir_view (disk p) dir) (stdout p, code p).

(** A command whose run is known. *)
Lemma with_store_run dir l d run :
  dataDir (environment l) = dir -> MkdirAll (environment l) dir <> Panic ->
  (forall store, held store = dir_view d dir -> exists store' out status,
    run store = (store', Ok (out, status)) /\ kclosed (held store') = false /\
    ((held store', (out, status)) = cli_spec (environment l) (dir_view d dir) (command l) \/
     exists err, fault err /\ (out, status) = fatal err /\ held store' = dir_view d dir)) ->
  launched dir l d (Some (with_store (environment l) d run)).
Proof.
  intros Hd Hm Hrun. unfold launched, launch_spec, with_store, getStore. rewrite Hd.
  destruct (MkdirAll _ dir) as [[]|err|] eqn:E; [|by eexists|done]. cbn [on_err].
  destruct (New_held (d !! dir)) as [(store & -> & Hv)|(err & -> & Hf)]; cbn [on_err].
  - destruct (Hrun store Hv) as (store' & out & status & -> & Hc & Hout). rewrite bind_ok.
    eexists. split; [reflexivity|]. cbn [disk stdout code].
    assert (Ev : dir_view (<[dir := KV.sdb (storage (if status =? 0 then (Close store').1 else store'))]> d) dir
      = held store').
    { unfold dir_view. rewrite lookup_insert_eq. cbn [fmap option_fmap option_map default].
      destruct (Close_keeps store') as [Hk Ht].
      set (x := if status =? 0 then (Close store').1 else store').
      change (mkKV (kmap (held x)) (kttl (held x)) false = held store').
      assert (kmap (held x) = kmap (held store') /\ kttl (held x) = kttl (held store')) as [-> ->]
        by (unfold x; by destruct (status =? 0)).
      destruct (held store'). cbn in Hc. by subst. }
    rewrite Ev. exact Hout.
  - eexists. split; [reflexivity|]. right. exists err. split_and!; [done| |done]. by destruct (fatal err).
Qed.

(** A command that is an operation on the store. *)
Lemma operation_run dir l d op run ok :
  dataDir (environment l) = dir -> MkdirAll (environment l) dir <> Panic ->
  ttl_ok op -> op_writes op = [] -> op <> OClose ->
  (forall store k r, store_exec store op = (k, r) -> r <> Panic -> run store = (k, Ok (shown r ok))) ->
  cli_spec (environment l) (dir_view d dir) (command l)
    = (let x := kv_spec (dir_view d dir) op in (x.1, shown x.2 ok)) ->
  launched dir l d (Some (with_store (environment l) d run)).
Proof.
  intros Hd Hm Httl Hw Hop Hrun Hspec. apply with_store_run; [done..|]. intros store Hv.
  destruct (store_outcome store op) as (k & r & E & Hout); [done..|by rewrite Hv|].
  exists k, (shown r ok).1, (shown r ok).2. rewrite <- surjective_pairing, Hspec, <- Hv.
  assert (Hr : r <> Panic).
  { destruct Hout as [Hs|(err & -> & _)]; [|done]. pose proof (spec_never_panics (held store) op) as Hn.
    by rewrite <- Hs in Hn. }
  split; [by apply Hrun|]. destruct Hout as [Hs|(err & -> & Hf & Hk)].
  - split; [|left; by rewrite <- Hs]. replace (held k) with (kv_spec (held store) op).1 by by rewrite <- Hs.
    rewrite Hv. unfold kv_spec. cbn. destruct (decide _); [done|]. by destruct op.
  - split; [by rewrite Hk, Hv|]. right. exists err. by split_and!.
Qed.

Lemma main_run dir l d :
  launch_ok dir l -> launched dir l d (main (environment l) d (words (command l))).
Proof.
  intros (_ & Hd & Hm & Hok). destruct l as [pause e c]; cbn [environment command] in *.
  set (l := mkLaunch pause e c).
  destruct c as [key value args|key|key|key].
  - change (main e d _) with (Some (runSet e d key value args)). cbn [command_ok] in Hok.
    unfold runSet. destruct (ttl_arg e args) as [ttl|text] eqn:Et.
    + apply (operation_run dir l d (OSet key value ttl) _ (fun _ => set_line key ttl)); [done..| |].
      * intros store k r E Hr. by eapply printed_run.
      * cbn. by rewrite Et.
    + apply (with_store_run dir l); [done..|]. intros store Hv. eexists store, _, _.
      split; [reflexivity|]. rewrite Hv. split; [done|]. left. cbn. by rewrite Et.
  - apply (operation_run dir l d (OGet key) _ value_line); [done..| |done].
    intros store k r E Hr. by eapply printed_run.
  - eapply (operation_run dir l d (ODelete key)); [done..| |reflexivity].
    intros store k r E Hr. by eapply printed_run.
  - eapply (operation_run dir l d (OExists key)); [done..| |reflexivity].
    intros store k r E Hr. by eapply printed_run.
Qed.

(** ** Properties *)

(** C14: processes of set, get, delete and exists, one after the other and at any
    distance in time, print and exit as the operations on one finite map do,
    which outlives them: on every outcome, for every list of command lines.
    Between two processes the keys whose time to live has passed leave the map
    (up to a second early, never late); a process that cannot make the
    data directory, or that the engine refuses, prints the error, exits with 1
    and changes nothing. *)
Theorem flin_refines_map dir d ls :
  Forall (launch_ok dir) ls -> runs dir (dir_view d dir) ls (processes d ls).
Proof.
  intros Hls. revert d. induction Hls as [|l ls Hl _ IH]; intros d; cbn [processes]; [constructor|].
  destruct (main_run dir l (Elapse (pause l) <$> d) Hl) as (p & -> & Hp).
  eapply runs_cons; [|exact Hp|apply IH]. cbn [kmap kttl dir_view]. rewrite lookup_fmap.
  destruct (d !! dir) as [db|]; cbn; [apply Elapse_law; apply Hl|]. intros k. by rewrite lookup_empty.
Qed.
End Correct.

Section Benchmark.
Context {bdg : Badger} {laws : BadgerLaws} {rel : BadgerReliable} {batch : BadgerBatch}
  {blaws : BadgerBatchLaws} {opening : BadgerOpen} {olaws : BadgerOpenLaws}.
Implicit Types d : bmap DB.

Lemma New_opens (files : option DB) :
  exists store, New files = Ok store /\
    store_view store = mkKV (default ∅ (contents <$> files)) (default ∅ (expiry <$> files)) false.
Proof. destruct (New_held files) as [H|(err & _ & Hf)]; [exact H|by destruct (no_fault err)]. Qed.

(** ** The benchmark *)

Lemma set_open (store : KVStore) key value :
  kclosed (store_view store) = false -> key <> [] ->
  exists store', Set_ store key value 0 = (store', Ok tt) /\ kclosed (store_view store') = false /\
    kmap (store_view store') = <[key := value]> (kmap (store_view store)).
Proof.
  intros Hc Hk. destruct (store_answers store (OSet key value 0)) as (store' & E & Hv); [by left|].
  unfold kv_spec in E, Hv. rewrite Hc in E, Hv.
  rewrite decide_False in E, Hv by (intros ?%list_elem_of_singleton; by subst).
  cbn in E. unfold answered in E. destruct (Set_ store key value 0) as [s [[]|err|]]; cbn in E; [|done..].
  injection E as ->. exists store'. rewrite Hv. by split_and!.
Qed.

Lemma get_present (store : KVStore) key value :
  kclosed (store_view store) = false -> key <> [] -> kmap (store_view store) !! key = Some value ->
  Get store key = Ok value.
Proof.
  intros Hc Hk Hm. destruct (store_answers store (OGet key) I) as (store' & E & _).
  unfold kv_spec in E. rewrite Hc, decide_False in E by (intros ?%list_elem_of_singleton; by subst).
  cbn in Hm, E. rewrite Hm in E. unfold answered in E. cbn in E.
  change (Get store key) with (KV.Get (storage store) key).
  destruct (KV.Get _ key) as [v|err|]; cbn in E; by inversion E.
Qed.

(** Operations that succeed are counted until the clock reaches the end. *)
Lemma bench_loop_counts (P : KVStore -> Prop) op stop ops store readings t rest :
  (forall store i, P store -> 0 <= i -> exists store', op store i = (store', Ok tt) /\ P store') ->
  P store -> 0 <= ops -> Forall (fun now => now < stop) readings -> stop <= t ->
  exists store', bench_loop op stop ops store (readings ++ t :: rest)
    = Some (store', Ok (ops + len readings), rest) /\ P store'.
Proof.
  intros Hop HP Hops Hr Ht. revert ops store HP Hops.
  induction Hr as [|now readings Hnow _ IH]; intros ops store HP Hops; cbn [bench_loop app].
  - rewrite (proj2 (Z.ltb_ge t stop)) by done. exists store. by rewrite Z.add_0_r.
  - rewrite (proj2 (Z.ltb_lt now stop)) by done. destruct (Hop store ops HP Hops) as (store' & -> & HP').
    destruct (IH (ops + 1) store' HP') as (s & -> & Hs); [lia|]. exists s. split; [|done].
    by replace (ops + len (now :: readings)) with (ops + 1 + len readings) by (rewrite len_cons; lia).
Qed.

Lemma benchmark_counts (P : KVStore -> Prop) op duration store start readings t rest :
  (forall store i, P store -> 0 <= i -> exists store', op store i = (store', Ok tt) /\ P store') ->
  P store -> Forall (fun now => now < start + duration) readings -> start + duration <= t ->
  exists store', benchmarkOperation store duration op (start :: readings ++ t :: rest)
    = Some (store', Ok (len readings), rest) /\ P store'.
Proof. intros. by apply (bench_loop_counts P op (start + duration) 0). Qed.

Definition open_store (store : KVStore (backend := kv_backend)) : Prop := kclosed (store_view store) = false.
Definition populated (n : Z) (store : KVStore (backend := kv_backend)) : Prop :=
  open_store store /\ forall i, 0 <= i < n -> kmap (store_view store) !! get_key i = Some bench_value.

Lemma populate_all (store : KVStore) :
  open_store store -> exists store', populate store = (store', Ok tt) /\ populated numKeys store'.
Proof.
  intros Hc. unfold populate.
  assert (H : forall n : nat, exists store', foldl (fun '(store, r) i =>
      match r with
      | Panic => (store, Panic)
      | _ => let '(store, r) := Set_ store (get_key i) bench_value 0 in (store, on_err r (fun _ => Ok tt) Ok)
      end) (store, Ok tt) (seqZ 0 (Z.of_nat n)) = (store', Ok tt) /\ populated (Z.of_nat n) store').
  { induction n as [|n (s & E & Hs & Hm)].
    - exists store. split; [done|]. split; [done|lia].
    - rewrite seqZ_S, foldl_app, E, Nat2Z.inj_succ. cbn [foldl].
      destruct (set_open s (get_key (0 + Z.of_nat n)) bench_value Hs) as (s' & E' & Hs' & Hm'); [done|].
      rewrite E'. exists s'. split; [done|]. split; [done|]. intros i Hi. rewrite Hm'.
      destruct (decide (get_key i = get_key (0 + Z.of_nat n))) as [->|Hne]; [apply lookup_insert_eq|].
      rewrite lookup_insert_ne by congruence. apply Hm.
      assert (i <> Z.of_nat n) by (intros ->; by rewrite Z.add_0_l in Hne). lia. }
  exact (H (Z.to_nat numKeys)).
Qed.

(** C27: the benchmark ends once the clock reaches the end of both parts, counts the
    readings before it as operations that succeeded, prints the two throughputs
    and leaves every directory as it was.  The engine is assumed to refuse nothing. *)
Theorem benchmark_measures e d tmpDir start1 readings1 end1 start2 readings2 end2 rest :
  let duration := bench_duration e in
  MkdirTemp e = Ok tmpDir -> d !! tmpDir = None ->
  clock e = start1 :: readings1 ++ end1 :: start2 :: readings2 ++ end2 :: rest ->
  Forall (fun now => now < start1 + duration) readings1 -> start1 + duration <= end1 ->
  Forall (fun now => now < start2 + duration) readings2 -> start2 + duration <= end2 ->
  main e d [str "flin"; str "benchmark"]
  = Some (Ok (mkProcess d (bench_text duration (len readings1) (len readings2)) 0)).
Proof.
  intros duration Htmp Hd Hclock Hr1 He1 Hr2 He2.
  change (main e d [str "flin"; str "benchmark"]) with (runBenchmark e d).
  unfold runBenchmark. rewrite Htmp, Hd, Hclock. fold duration.
  destruct (New_opens None) as (store & -> & Hv).
  assert (Hc : open_store store) by (unfold open_store; by rewrite Hv).
  destruct (benchmark_counts open_store set_op duration store start1 readings1 end1
    (start2 :: readings2 ++ end2 :: rest)) as (s1 & -> & Hc1); [|done..|].
  { intros s i Hs _. destruct (set_open s (bench_key i) bench_value Hs) as (s' & E & Hs' & _); [done|]. by exists s'. }
  cbn [mbind option_bind]. destruct (populate_all s1 Hc1) as (s2 & -> & Hp).
  destruct (benchmark_counts (populated numKeys) get_op duration s2 start2 readings2 end2 rest)
    as (s3 & -> & _); [|done..|].
  { intros s i [Hs Hm] Hi. exists s. split; [|done]. unfold get_op.
    rewrite (get_present s _ bench_value Hs); [done|done|]. apply Hm.
    apply Z.rem_bound_pos; [done|]. reflexivity. }
  cbn [mbind option_bind]. rewrite !bind_ok.
  assert (Hr : on_err (Close s3).2 (fun _ => Ok tt) Ok = Ok tt).
  { destruct (store_answers s3 OClose I) as (s4 & E & _). pose proof (spec_never_panics (store_view s3) OClose) as Hn.
    apply (f_equal snd) in E. cbn [store_exec snd] in E. unfold answered in E.
    destruct (Close s3) as [s5 [[]|err|]]; [done..|]. by rewrite <- E in Hn. }
  rewrite Hr, bind_ok. by rewrite delete_id.
Qed.
End Benchmark.

Definition sample_environment : Environment :=
  mkEnvironment [] (fun _ => Ok tt) (fun s => [34] ++ s ++ [34]) (str "3ns") (Ok (str "/tmp/flin-bench-1"))
    [100; 100; 101; 103; 110; 111; 112; 112; 113].
(** The second [get] comes after the time to live, the last process cannot make
    the directory. *)
Definition sample_launches : list Launch :=
  let at_ pause := mkLaunch pause sample_environment in
  [at_ 0 (CSet (str "k") (str "v") [str "90"]); at_ (60 * second) (CGet (str "k"));
   at_ (31 * second) (CGet (str "k")); at_ 0 (CExists (str "x"));
   at_ 0 (CSet (str "k") [] [str "1h"]); at_ 0 (CSet (str "k") (str "w") []);
   at_ (3600 * second) (CGet (str "k")); at_ 0 (CDelete (str "k")); at_ 0 (CGet []);
   mkLaunch 0 (mkEnvironment [] (fun _ => Err (External (str "denied"))) id [] Panic []) (CGet (str "k"))].

Lemma flin_refines_map_witness :
  runs (bdg := mem_badger) (str "./data") (dir_view (bdg := mem_badger) ∅ (str "./data")) sample_launches
    (processes (bdg := mem_badger) ∅ sample_launches).
Proof.
  apply (flin_refines_map (bdg := mem_badger) (str "./data") ∅ sample_launches).
  repeat constructor; by vm_compute.
Defined.

Lemma benchmark_measures_witness :
  main (bdg := mem_badger) sample_environment ∅ [str "flin"; str "benchmark"]
  = Some (Ok (mkProcess ∅ (bench_text 3 2 3) 0)).
Proof.
  apply (benchmark_measures (bdg := mem_badger) sample_environment ∅ (str "/tmp/flin-bench-1")
    100 [100; 101] 103 110 [111; 112; 112] 113 []); [done|done|done| |by vm_compute| |by vm_compute];
    repeat constructor; by vm_compute.
Defined.

Example sample_output :
  processes (bdg := mem_badger) ∅ sample_launches
  = [(str "✅ Set 'k' with TTL 1m30s
", 0); (str "v
", 0); (error_line (str "key not found"), 1); (str "❌ Key 'x' does not exist
", 0); (error_line (str "invalid TTL value: strconv.Atoi: parsing " ++ [34] ++ str "1h" ++ [34] ++ str ": invalid syntax"), 1);
     (str "✅ Set 'k'
", 0); (str "w
", 0); (str "✅ Deleted 'k'
", 0); (error_line (str "invalid key"), 1);
     (error_line (str "failed to create data directory: denied"), 1)].
Proof. by vm_compute. Qed.
