(* ===== verification/Pool.v ===== *)
(** The client's connection pool (internal/net/pool.go) as a transition system:
    concurrent calls of [Get], [Put] and [Close] are threads that share the
    channel of idle connections, the [closed] flag and the count of active
    connections.  A step is one channel operation, one section under the mutex,
    or one check of a connection. *)
From stdpp Require Import base list numbers strings.
From Stdlib Require Import ZArith Lia.
From S2P Require Import Prelude.

(** ** State *)

(** What the calls share.  [dead] are the connections on which [Close] was
    called, [held] those handed to callers, [drained] counts the connections
    [Close] removed, [next] names the next connection dialled. *)
Record Shared : Type := mkShared {
  conns : list Z;
  chan_open : bool;
  pool_closed : bool;
  activeCount : Z;
  held : list Z;
  dead : list Z;
  drained : Z;
  next : Z;
}.

(** Where a call is. *)
Inductive pc : Type :=
| GetStart                    (* the select of [Get] *)
| GetCheck (c : option Z)     (* received, before [IsConnected]; [None] is nil *)
| GetDead                     (* dead, before the decrement *)
| CreateStart                 (* createNewOrWait *)
| Dialing                     (* counted, before NewConnection *)
| DialFailed (e : error)      (* before the decrement *)
| Waiting                     (* blocked on the channel *)
| WaitCheck (c : option Z)
| WaitDead
| GetReturn (r : result Z)
| PutStart (c : option Z)
| PutSend (c : Z)             (* the select of [Put] *)
| PutFull (c : Z)             (* its default branch: close the connection *)
| PutDrop                     (* before the decrement *)
| PutReturn
| CloseStart
| CloseChan                   (* flag set, before close(p.conns) *)
| CloseDrain
| CloseReturn
| Crashed (c : option Z).      (* a panic, with the connection in hand *)

Definition errPoolClosed : error := errorf "pool is closed".

(** Field updates. *)
Definition set_conns (l : list Z) (s : Shared) : Shared :=
  mkShared l (chan_open s) (pool_closed s) (activeCount s) (held s) (dead s) (drained s) (next s).
Definition set_chan_open (b : bool) (s : Shared) : Shared :=
  mkShared (conns s) b (pool_closed s) (activeCount s) (held s) (dead s) (drained s) (next s).
Definition set_pool_closed (b : bool) (s : Shared) : Shared :=
  mkShared (conns s) (chan_open s) b (activeCount s) (held s) (dead s) (drained s) (next s).
Definition add_active (d : Z) (s : Shared) : Shared :=
  mkShared (conns s) (chan_open s) (pool_closed s) (activeCount s + d) (held s) (dead s)
    (drained s) (next s).
Definition set_held (l : list Z) (s : Shared) : Shared :=
  mkShared (conns s) (chan_open s) (pool_closed s) (activeCount s) l (dead s) (drained s) (next s).
Definition add_dead (c : Z) (s : Shared) : Shared :=
  mkShared (conns s) (chan_open s) (pool_closed s) (activeCount s) (held s) (c :: dead s)
    (drained s) (next s).
Definition add_drained (s : Shared) : Shared :=
  mkShared (conns s) (chan_open s) (pool_closed s) (activeCount s) (held s) (dead s)
    (drained s + 1) (next s).
Definition set_next (n : Z) (s : Shared) : Shared :=
  mkShared (conns s) (chan_open s) (pool_closed s) (activeCount s) (held s) (dead s)
    (drained s) n.

(** ** Steps of a call *)

Section Steps.
Context (maxSize : Z).

(** [<-p.conns]: a connection, nil once the channel is closed and empty;
    an open empty channel has nothing to receive. *)
Inductive receive : Shared -> option Z -> Shared -> Prop :=
| receive_conn s c rest : conns s = c :: rest -> receive s (Some c) (set_conns rest s)
| receive_nil s : conns s = [] -> chan_open s = false -> receive s None s.

Inductive call_step : Shared -> pc -> Shared -> pc -> Prop :=
(* Get *)
| get_receive s s' c : receive s c s' -> call_step s GetStart s' (GetCheck c)
| get_default s : conns s = [] -> chan_open s = true -> call_step s GetStart s CreateStart
| get_check_nil s : call_step s (GetCheck None) s (Crashed None)
| get_check_alive s c : c ∉ dead s ->
    call_step s (GetCheck (Some c)) (set_held (c :: held s) s) (GetReturn (Ok c))
| get_check_dead s c : c ∈ dead s -> call_step s (GetCheck (Some c)) s GetDead
| get_dead s : call_step s GetDead (add_active (-1) s) CreateStart
(* createNewOrWait *)
| create_closed s : pool_closed s = true ->
    call_step s CreateStart s (GetReturn (Err errPoolClosed))
| create_dial s : pool_closed s = false -> activeCount s < maxSize ->
    call_step s CreateStart (add_active 1 s) Dialing
| create_wait s : pool_closed s = false -> maxSize <= activeCount s ->
    call_step s CreateStart s Waiting
| dial_ok s :
    call_step s Dialing (set_next (next s + 1) (set_held (next s :: held s) s))
      (GetReturn (Ok (next s)))
| dial_error s e : call_step s Dialing s (DialFailed e)
| dial_failed s e : call_step s (DialFailed e) (add_active (-1) s) (GetReturn (Err e))
| wait_receive s s' c : receive s c s' -> call_step s Waiting s' (WaitCheck c)
| wait_check_nil s : call_step s (WaitCheck None) s (Crashed None)
| wait_check_alive s c : c ∉ dead s ->
    call_step s (WaitCheck (Some c)) (set_held (c :: held s) s) (GetReturn (Ok c))
| wait_check_dead s c : c ∈ dead s -> call_step s (WaitCheck (Some c)) s WaitDead
| wait_dead s : call_step s WaitDead (add_active (-1) s) CreateStart
(* Put *)
| put_nil s : call_step s (PutStart None) s PutReturn
| put_dead s c : c ∈ dead s -> call_step s (PutStart (Some c)) s PutDrop
| put_alive s c : c ∉ dead s -> call_step s (PutStart (Some c)) s (PutSend c)
| put_closed s c : chan_open s = false -> call_step s (PutSend c) s (Crashed (Some c))
| put_send s c : chan_open s = true -> len (conns s) < maxSize ->
    call_step s (PutSend c) (set_conns (conns s ++ [c]) s) PutReturn
| put_full s c : chan_open s = true -> maxSize <= len (conns s) ->
    call_step s (PutSend c) s (PutFull c)
| put_close s c : call_step s (PutFull c) (add_dead c s) PutDrop
| put_drop s : call_step s PutDrop (add_active (-1) s) PutReturn
(* Close *)
| close_again s : pool_closed s = true -> call_step s CloseStart s CloseReturn
| close_first s : pool_closed s = false ->
    call_step s CloseStart (set_pool_closed true s) CloseChan
| close_chan s : chan_open s = true ->
    call_step s CloseChan (set_chan_open false s) CloseDrain
| close_chan_again s : chan_open s = false -> call_step s CloseChan s (Crashed None)
| close_drain s c rest : conns s = c :: rest ->
    call_step s CloseDrain (add_drained (add_dead c (set_conns rest s))) CloseDrain
| close_done s : conns s = [] -> call_step s CloseDrain s CloseReturn.

(** The system: a thread takes a step, a caller starts a call ([Put] takes
    back a connection the caller holds), or closes a connection it holds. *)
Inductive pool_step : Shared * list pc -> Shared * list pc -> Prop :=
| step_thread s ths i p s' p' :
    ths !! i = Some p -> call_step s p s' p' -> pool_step (s, ths) (s', <[i := p']> ths)
| step_get s ths : pool_step (s, ths) (s, ths ++ [GetStart])
| step_put_nil s ths : pool_step (s, ths) (s, ths ++ [PutStart None])
| step_put s ths c h : held s ≡ₚ c :: h ->
    pool_step (s, ths) (set_held h s, ths ++ [PutStart (Some c)])
| step_close s ths : pool_step (s, ths) (s, ths ++ [CloseStart])
| step_conn_close s ths c : c ∈ held s -> pool_step (s, ths) (add_dead c s, ths).
End Steps.

(** ** Construction *)

(** [NewConnectionPool]: [dials] are the outcomes of the initial dials; an
    error closes the pool and is returned. *)
Fixpoint dial_initial (n : nat) (dials : list (option error)) (s : Shared) : result Shared :=
  match n with
  | O => Ok s
  | S n =>
      match dials with
      | Some e :: _ => Err (Errorf (str "failed to create initial connection: " ++ error_text e))
      | None :: dials =>
          dial_initial n dials
            (add_active 1 (set_next (next s + 1) (set_conns (conns s ++ [next s]) s)))
      | [] => Ok s
      end
  end.

Definition NewConnectionPool (minSize maxSize : Z) (dials : list (option error)) : result Shared :=
  if (minSize <? 0) || (maxSize <? minSize) then Err (errorf "invalid pool size configuration")
  else dial_initial (Z.to_nat minSize) dials (mkShared [] true false 0 [] [] 0 0).

(** [Stats], read under the mutex. *)
Record PoolStats : Type := mkPoolStats {
  ActiveCount : Z;
  AvailableCount : Z;
  MaxSize : Z;
  MinSize : Z;
}.
Definition Stats (minSize maxSize : Z) (s : Shared) : PoolStats :=
  mkPoolStats (activeCount s) (len (conns s)) maxSize minSize.

(** States reachable from a new pool. *)
Inductive reachable (minSize maxSize : Z) : Shared * list pc -> Prop :=
| reach_new dials s :
    len dials = minSize -> NewConnectionPool minSize maxSize dials = Ok s ->
    reachable minSize maxSize (s, [])
| reach_step x y :
    reachable minSize maxSize x -> pool_step maxSize x y -> reachable minSize maxSize y.

(** ** The invariant *)

(** Connections counted in [activeCount] that a call is responsible for. *)
Definition tickets (p : pc) : Z :=
  match p with
  | GetCheck (Some _) | WaitCheck (Some _) | GetDead | WaitDead | Dialing | DialFailed _
  | PutStart (Some _) | PutSend _ | PutFull _ | PutDrop | Crashed (Some _) => 1
  | _ => 0
  end.

(** The live connection in a call's hands. *)
Definition transit (p : pc) : list Z :=
  match p with
  | GetCheck (Some c) | WaitCheck (Some c) | PutStart (Some c) | PutSend c | PutFull c
  | Crashed (Some c) => [c]
  | _ => []
  end.

Fixpoint sum_tickets (ths : list pc) : Z :=
  match ths with [] => 0 | p :: ths => tickets p + sum_tickets ths end.
Definition all_transit (ths : list pc) : list Z := concat (map transit ths).

(** Every connection that has an owner, with the owner's multiplicity. *)
Definition owned_conns (x : Shared * list pc) : list Z :=
  conns x.1 ++ held x.1 ++ all_transit x.2.

(** A call that panicked, or is about to. *)
Definition crashing (p : pc) : Prop :=
  (exists c, p = Crashed c) \/ p = GetCheck None \/ p = WaitCheck None.

Record pool_ok (maxSize : Z) (x : Shared * list pc) : Prop := {
  ok_count : activeCount x.1
    = len (conns x.1) + len (held x.1) + drained x.1 + sum_tickets x.2;
  ok_drained : 0 <= drained x.1;
  ok_max : activeCount x.1 <= maxSize;
  ok_nodup : NoDup (owned_conns x);
  ok_fresh : Forall (fun c => c < next x.1) (owned_conns x);
  ok_closed : chan_open x.1 = false -> pool_closed x.1 = true;
  ok_closing : CloseChan ∈ x.2 -> pool_closed x.1 = true;
  ok_crash : forall p, p ∈ x.2 -> crashing p -> pool_closed x.1 = true;
  ok_full : forall c, PutFull c ∉ x.2;
}.

(** ** Threads *)

Lemma sum_tickets_app l k : sum_tickets (l ++ k) = sum_tickets l + sum_tickets k.
Proof. induction l as [|p l IH]; cbn [app sum_tickets]; lia. Qed.

Lemma tickets_nonneg p : 0 <= tickets p.
Proof. destruct p as [|[]| | | | | |[]| | |[]| | | | | | | | |[]]; cbn; lia. Qed.

Lemma sum_tickets_nonneg l : 0 <= sum_tickets l.
Proof. induction l as [|p l IH]; cbn; [done|]. pose proof (tickets_nonneg p). lia. Qed.

(** The other threads' share of a sum over all threads. *)
Lemma thread_split (ths : list pc) i p :
  ths !! i = Some p ->
  exists l k, ths = l ++ p :: k /\ forall p', <[i := p']> ths = l ++ p' :: k.
Proof.
  intros Hi. exists (take i ths), (drop (S i) ths). split; [by rewrite take_drop_middle|].
  intros p'. apply insert_take_drop. by eapply lookup_lt_Some.
Qed.

Lemma all_transit_mid l p k : all_transit (l ++ p :: k) ≡ₚ transit p ++ all_transit (l ++ k).
Proof.
  unfold all_transit. rewrite !map_app, !concat_app. cbn [map concat].
  by rewrite app_assoc, (Permutation_app_comm _ (transit p)), <- app_assoc.
Qed.

(** ** What a step does to the ownership of connections *)

(** Nothing, a connection dropped, or a new one. *)
Definition owners_step (s s' : Shared) (old new : list Z) : Prop :=
  (new ≡ₚ old /\ next s' = next s) \/
  (exists c, old ≡ₚ c :: new /\ next s' = next s) \/
  (new ≡ₚ next s :: old /\ next s' = next s + 1).

Lemma owners_step_ok s s' old new :
  owners_step s s' old new -> NoDup old -> Forall (fun c => c < next s) old ->
  NoDup new /\ Forall (fun c => c < next s') new.
Proof.
  intros [[-> ->]|[(c & Hold & ->)|[-> ->]]] Hnd Hf.
  - done.
  - rewrite Hold in Hnd, Hf. apply NoDup_cons in Hnd as [_ ?]. by inversion_clear Hf.
  - split.
    + apply NoDup_cons. split; [|done]. intros Hin. rewrite Forall_forall in Hf.
      apply Hf in Hin. lia.
    + constructor; [lia|]. eapply Forall_impl; [exact Hf|]. cbn. lia.
Qed.

Section Invariant.
Context (maxSize : Z).

(** The bookkeeping of one step of a call, [R] being what others own. *)
Record accounted (s : Shared) (p : pc) (s' : Shared) (p' : pc) (R : list Z) : Prop := {
  acc_count : activeCount s' - activeCount s
    = len (conns s') - len (conns s) + (len (held s') - len (held s))
      + (drained s' - drained s) + (tickets p' - tickets p);
  acc_drained : drained s <= drained s';
  acc_max : activeCount s' <= Z.max (activeCount s) maxSize;
  acc_owners : owners_step s s' (conns s ++ held s ++ transit p ++ R)
    (conns s' ++ held s' ++ transit p' ++ R);
}.

Lemma call_step_accounted s p s' p' R :
  call_step maxSize s p s' p' -> accounted s p s' p' R.
Proof.
  intros Hs. destruct Hs;
    try match goal with H : receive _ _ _ |- _ => destruct H end;
    (split; cbn; try match goal with H : conns _ = _ |- _ => rewrite H end; [len_lia..|]);
    first [ left; split; [solve_Permutation|done]
          | right; left; eexists; split; [solve_Permutation|done]
          | right; right; split; [solve_Permutation|done] ].
Qed.

(** What a step does to the flags and to the panics. *)
Lemma call_step_flags s p s' p' :
  call_step maxSize s p s' p' ->
  (pool_closed s = true -> pool_closed s' = true) /\
  (chan_open s' = false -> chan_open s = false \/ p = CloseChan) /\
  (p' = CloseChan -> pool_closed s' = true) /\
  (crashing p' -> crashing p \/ chan_open s = false) /\
  (forall c, p' = PutFull c -> maxSize <= len (conns s) /\ tickets p = 1).
Proof.
  intros Hs. destruct Hs;
    try match goal with H : receive _ _ _ |- _ => destruct H end;
    split_and!; cbn; try done; try tauto; unfold crashing.
  all: try (intros [[? E]|[E|E]]; discriminate E).
  all: auto.
Qed.

Lemma owned_mid s l p k :
  owned_conns (s, l ++ p :: k) ≡ₚ conns s ++ held s ++ transit p ++ all_transit (l ++ k).
Proof. unfold owned_conns. cbn [fst snd]. by rewrite all_transit_mid. Qed.

Lemma thread_step_ok s ths i p s' p' :
  pool_ok maxSize (s, ths) -> ths !! i = Some p -> call_step maxSize s p s' p' ->
  pool_ok maxSize (s', <[i := p']> ths).
Proof.
  intros [Hc Hd Hm Hn Hf Hcl Hcg Hcr Hfu] Hi Hs.
  destruct (thread_split ths i p Hi) as (l & k & -> & ->). cbn [fst snd] in *.
  destruct (call_step_accounted s p s' p' (all_transit (l ++ k)) Hs) as [Ac Ad Am Ao].
  destruct (call_step_flags s p s' p' Hs) as (Fc & Fo & Fg & Fp & Ff).
  rewrite sum_tickets_app in Hc. cbn [sum_tickets] in Hc.
  rewrite owned_mid in Hn, Hf. destruct (owners_step_ok _ _ _ _ Ao Hn Hf) as [Hn' Hf'].
  assert (Hp : p ∈ l ++ p :: k) by (apply elem_of_app; right; left).
  assert (Hin : forall q, q ∈ l ++ p' :: k -> q = p' \/ q ∈ l ++ p :: k).
  { intros q. rewrite !elem_of_app, !elem_of_cons. tauto. }
  assert (Hclosed : chan_open s = false -> pool_closed s' = true) by auto.
  split; cbn [fst snd].
  - rewrite sum_tickets_app. cbn [sum_tickets]. lia.
  - lia.
  - lia.
  - by rewrite owned_mid.
  - by rewrite owned_mid.
  - intros Ho. apply Fo in Ho as [Ho| ->]; auto.
  - intros Hq. apply Hin in Hq as [<-|Hq]; auto.
  - intros q Hq Hqc. apply Hin in Hq as [->|Hq]; [|by apply Fc, (Hcr q)].
    apply Fp in Hqc as [Hqc|Ho]; [by apply Fc, (Hcr p)|auto].
  - intros c Hq. apply Hin in Hq as [Hq|Hq]; [|by apply (Hfu c)].
    symmetry in Hq. apply Ff in Hq as [Hlen Ht].
    pose proof (sum_tickets_nonneg l). pose proof (sum_tickets_nonneg k).
    pose proof (len_nonneg (held s)). lia.
Qed.

(** Starting a call, with what the caller hands over. *)
Lemma call_start_ok s s' ths p :
  pool_ok maxSize (s, ths) ->
  activeCount s' = activeCount s -> conns s' = conns s -> drained s' = drained s ->
  next s' = next s -> chan_open s' = chan_open s -> pool_closed s' = pool_closed s ->
  held s ≡ₚ transit p ++ held s' -> tickets p = len (transit p) ->
  p <> CloseChan -> ~ crashing p -> (forall c, p <> PutFull c) ->
  pool_ok maxSize (s', ths ++ [p]).
Proof.
  intros [Hc Hd Hm Hn Hf Hcl Hcg Hcr Hfu] Ha Hcs Hdr Hnx Hco Hpc Hh Ht Hp1 Hp2 Hp3.
  cbn [fst snd] in *.
  assert (Hown : owned_conns (s', ths ++ [p]) ≡ₚ owned_conns (s, ths)).
  { rewrite owned_mid, app_nil_r. unfold owned_conns. cbn [fst snd]. rewrite Hh, Hcs.
    solve_Permutation. }
  assert (Hlen : len (held s) = len (transit p) + len (held s')).
  { rewrite <- len_app. unfold len. by rewrite Hh. }
  split; cbn [fst snd]; rewrite ?Hown, ?Ha, ?Hcs, ?Hdr, ?Hnx, ?Hco, ?Hpc; try done.
  - rewrite sum_tickets_app. cbn [sum_tickets]. lia.
  - rewrite elem_of_app, list_elem_of_singleton. intros [?|E]; [auto|by symmetry in E].
  - intros q. rewrite elem_of_app, list_elem_of_singleton. intros [?| ->] ?; [eauto|done].
  - intros c. rewrite elem_of_app, list_elem_of_singleton.
    intros [Hq|E]; [by apply (Hfu c)|by apply (Hp3 c)].
Qed.

Lemma pool_step_ok x y : pool_ok maxSize x -> pool_step maxSize x y -> pool_ok maxSize y.
Proof.
  intros Hx Hs. destruct Hs as [s ths i p s' p' Hi Hs|s ths|s ths|s ths c h Hh|s ths|s ths c Hc].
  - by eapply thread_step_ok.
  - apply (call_start_ok s); try done. by intros [[? E]|[E|E]].
  - apply (call_start_ok s); try done. by intros [[? E]|[E|E]].
  - apply (call_start_ok s); try done. by intros [[? E]|[E|E]].
  - apply (call_start_ok s); try done. by intros [[? E]|[E|E]].
  - by destruct Hx; split.
Qed.

Lemma dial_initial_ok n dials s s' :
  pool_ok maxSize (s, []) -> held s = [] -> drained s = 0 ->
  activeCount s + Z.of_nat n <= maxSize -> dial_initial n dials s = Ok s' ->
  pool_ok maxSize (s', []).
Proof.
  revert dials s. induction n as [|n IH]; intros dials s Hok Hh Hd Hm; cbn [dial_initial].
  { by intros [= <-]. }
  destruct dials as [|[e|] dials]; [by intros [= <-]|done|].
  apply IH; cbn; [|done|done|lia].
  destruct Hok as [Ac Ad Am Ao Af Acl Acg Acr Afu]. cbn [fst snd] in *.
  assert (Hown : owned_conns (add_active 1 (set_next (next s + 1) (set_conns (conns s ++ [next s]) s)), [])
    ≡ₚ next s :: owned_conns (s, [])).
  { unfold owned_conns. cbn. rewrite Hh. solve_Permutation. }
  destruct (owners_step_ok s (set_next (next s + 1) s) (owned_conns (s, []))
    (owned_conns (add_active 1 (set_next (next s + 1) (set_conns (conns s ++ [next s]) s)), [])))
    as [Hn Hf]; [by right; right|done|done|].
  split; cbn [fst snd]; try done; cbn in *; try lia.
  rewrite len_app, len_cons, len_nil. lia.
Qed.

Lemma reachable_ok minSize x : reachable minSize maxSize x -> pool_ok maxSize x.
Proof.
  induction 1 as [dials s Hl Hnew|x y _ IH Hs]; [|by eapply pool_step_ok].
  unfold NewConnectionPool in Hnew.
  destruct ((minSize <? 0) || (maxSize <? minSize)) eqn:Hsz; [done|].
  apply orb_false_iff in Hsz as [H1 H2]. apply Z.ltb_ge in H1, H2.
  apply (dial_initial_ok (Z.to_nat minSize) dials (mkShared [] true false 0 [] [] 0 0));
    [|done|done|cbn; lia|done].
  split; cbn; try done; try lia.
  - constructor.
  - by intros H%elem_of_nil.
  - by intros p H%elem_of_nil.
  - intros c. apply not_elem_of_nil.
Qed.
End Invariant.

(** ** Properties *)

(** C30: in every reachable state, under any interleaving of calls, the
    active count is the number of idle, held and in-transit connections and of
    pending decrements (plus those [Close] drained), it never exceeds [MaxSize]
    or becomes negative, the channel never overflows, and [Put] never takes its
    "pool is full" branch. *)
Theorem pool_accounting minSize maxSize s ths :
  reachable minSize maxSize (s, ths) ->
  activeCount s = len (conns s) + len (held s) + drained s + sum_tickets ths /\
  0 <= activeCount s <= maxSize /\ len (conns s) <= maxSize /\ forall c, PutFull c ∉ ths.
Proof.
  intros Hr. destruct (reachable_ok maxSize minSize _ Hr) as [Hc Hd Hm _ _ _ _ _ Hfu].
  cbn [fst snd] in *. pose proof (sum_tickets_nonneg ths).
  pose proof (len_nonneg (conns s)). pose proof (len_nonneg (held s)).
  split_and!; [done|lia|lia|lia|done].
Qed.

(** No connection is ever owned twice: the idle connections, the ones
    held by callers and the ones in the hands of calls are all different, so two
    callers never share a connection. *)
Theorem pool_exclusive minSize maxSize s ths :
  reachable minSize maxSize (s, ths) -> NoDup (conns s ++ held s ++ all_transit ths).
Proof. intros Hr. apply (ok_nodup maxSize (s, ths)). by eapply reachable_ok. Qed.

(** A call panics only when the pool was closed before it ended. *)
Theorem pool_panics_only_after_close minSize maxSize s ths c :
  reachable minSize maxSize (s, ths) -> Crashed c ∈ ths -> pool_closed s = true.
Proof.
  intros Hr Hc. eapply (ok_crash maxSize (s, ths)); [by eapply reachable_ok|done|].
  left. by exists c.
Qed.

(** A new pool of one connection, and its states while the calls of a list
    run one after the other. *)
Definition one_conn : Shared := mkShared [0] true false 1 [] [] 0 1.

Lemma one_conn_reachable maxSize : 1 <= maxSize -> reachable 1 maxSize (one_conn, []).
Proof.
  intros Hm. apply (reach_new 1 maxSize [None]); [done|]. unfold NewConnectionPool.
  by rewrite (proj2 (Z.ltb_ge maxSize 1)) by lia.
Qed.

Lemma reach_thread minSize maxSize s ths i p s' p' :
  reachable minSize maxSize (s, ths) -> ths !! i = Some p -> call_step maxSize s p s' p' ->
  reachable minSize maxSize (s', <[i := p']> ths).
Proof. intros Hr Hi Hs. eapply reach_step; [exact Hr|by eapply step_thread]. Qed.

(** The pool after [Get] handed out its connection and [Close] finished. *)
Definition closed_pool : Shared := mkShared [] false true 1 [0] [] 0 1.

Lemma closed_reachable maxSize :
  1 <= maxSize -> reachable 1 maxSize (closed_pool, [GetReturn (Ok 0); CloseReturn]).
Proof.
  intros Hm. pose proof (one_conn_reachable maxSize Hm) as H.
  eapply reach_step in H; [|apply step_get].
  eapply (reach_thread _ _ _ _ 0) in H; [|done|apply get_receive, (receive_conn one_conn 0 []); done].
  eapply (reach_thread _ _ _ _ 0) in H; [|done|apply get_check_alive; apply not_elem_of_nil].
  eapply reach_step in H; [|apply step_close].
  eapply (reach_thread _ _ _ _ 1) in H; [|done|by apply close_first].
  eapply (reach_thread _ _ _ _ 1) in H; [|done|by apply close_chan].
  eapply (reach_thread _ _ _ _ 1) in H; [|done|by apply close_done].
  exact H.
Qed.

(** Using a closed pool panics instead of reporting that it is closed:
    a [Get] after [Close] calls a method on the nil connection it received, and
    a [Put] of a connection that was out when the pool closed sends on a closed
    channel. *)
Theorem closed_pool_panics maxSize :
  1 <= maxSize ->
  (exists s ths, reachable 1 maxSize (s, ths) /\ last ths = Some (Crashed None)) /\
  (exists s ths, reachable 1 maxSize (s, ths) /\ last ths = Some (Crashed (Some 0))).
Proof.
  intros Hm. pose proof (closed_reachable maxSize Hm) as H. split.
  - eapply reach_step in H; [|apply step_get].
    eapply (reach_thread _ _ _ _ 2) in H; [|done|apply get_receive, receive_nil; done].
    eapply (reach_thread _ _ _ _ 2) in H; [|done|apply get_check_nil].
    eexists _, _. split; [exact H|done].
  - eapply reach_step in H; [|by apply (step_put _ _ _ 0 [])].
    eapply (reach_thread _ _ _ _ 2) in H; [|done|apply put_alive; apply not_elem_of_nil].
    eapply (reach_thread _ _ _ _ 2) in H; [|done|by apply put_closed].
    eexists _, _. split; [exact H|done].
Qed.

Lemma pool_accounting_witness :
  activeCount one_conn = len (conns one_conn) + len (held one_conn) + drained one_conn
    + sum_tickets [] /\
  0 <= activeCount one_conn <= 4 /\ len (conns one_conn) <= 4 /\ forall c, PutFull c ∉ [].
Proof. apply (pool_accounting 1 4). by apply one_conn_reachable. Defined.

Lemma pool_exclusive_witness :
  NoDup (conns closed_pool ++ held closed_pool ++ all_transit [GetReturn (Ok 0); CloseReturn]).
Proof. apply (pool_exclusive 1 4). by apply closed_reachable. Defined.

Lemma closed_pool_panics_witness :
  (exists s ths, reachable 1 8 (s, ths) /\ last ths = Some (Crashed None)) /\
  (exists s ths, reachable 1 8 (s, ths) /\ last ths = Some (Crashed (Some 0))).
Proof. by apply (closed_pool_panics 8). Defined.

(** The pool in which a late [Get] has panicked. *)
Lemma crashed_reachable :
  reachable 1 8 (closed_pool, [GetReturn (Ok 0); CloseReturn; Crashed None]).
Proof.
  pose proof (closed_reachable 8 ltac:(lia)) as H.
  eapply reach_step in H; [|apply step_get].
  eapply (reach_thread _ _ _ _ 2) in H; [|done|apply get_receive, receive_nil; done].
  eapply (reach_thread _ _ _ _ 2) in H; [|done|apply get_check_nil].
  exact H.
Qed.

Lemma pool_panics_only_after_close_witness : pool_closed closed_pool = true.
Proof.
  apply (pool_panics_only_after_close 1 8 _ _ None crashed_reachable). right; right; left.
Defined.
