(* ===== verification/StreamCodec.v ===== *)
(** The stored form of stream messages and topic metadata
    (internal/stream/storage.go): encoders, decoders, round trips, and that the
    decoders accept only encodings and never panic. *)
From stdpp Require Import base list numbers strings.
From Stdlib Require Import ZArith Lia.
From S2P Require Import Prelude GoBytes Fields.

(** ** Data *)

Record Message : Type := mkMessage {
  Topic : bytes;
  Partition : Z;
  Offset : Z;
  Key : bytes;
  Value : bytes;
  Timestamp : Z;
}.

Record TopicMetadata : Type := mkTopicMetadata {
  Name : bytes;
  Partitions : Z;
  RetentionMs : Z;
  RetentionBytes : Z;
  CreatedAt : Z;
}.

#[export] Instance Message_eq_dec : EqDecision Message.
Proof. solve_decision. Defined.
#[export] Instance TopicMetadata_eq_dec : EqDecision TopicMetadata.
Proof. solve_decision. Defined.

(** ** Messages *)

Definition encodeMessage (msg : Message) : result bytes :=
  let keyLen := len (Key msg) in
  let valueLen := len (Value msg) in
  let size := 8 + 8 + 2 + keyLen + 4 + valueLen in
  data ← make_bytes size;
  let pos := 0 in
  data ← PutUint64 data pos (uint64 (Offset msg));
  let pos := pos + 8 in
  data ← PutUint64 data pos (uint64 (Timestamp msg));
  let pos := pos + 8 in
  data ← PutUint16 data pos (uint16 keyLen);
  let pos := pos + 2 in
  data ← copy_at data pos (Key msg);
  let pos := pos + keyLen in
  data ← PutUint32 data pos (uint32 valueLen);
  let pos := pos + 4 in
  data ← copy_at data pos (Value msg);
  mret data.

(** The topic and the partition are not stored: they stay zero values. *)
Definition decodeMessage (data : bytes) : result Message :=
  if len data <? 18 then Err (errorf "invalid message data") else
  let pos := 0 in
  offset ← Uint64 data pos;
  let pos := pos + 8 in
  timestamp ← Uint64 data pos;
  let pos := pos + 8 in
  keyLen ← Uint16 data pos;
  let pos := pos + 2 in
  if len data <? pos + keyLen + 4 then Err (errorf "invalid message data") else
  key ← slice data pos (pos + keyLen);
  let pos := pos + keyLen in
  valueLen ← Uint32 data pos;
  let pos := pos + 4 in
  if len data <? pos + valueLen then Err (errorf "invalid message data") else
  value ← slice data pos (pos + valueLen);
  mret (mkMessage [] 0 (int64 offset) key value (int64 timestamp)).

(** ** Topic metadata *)

Definition encodeTopicMetadata (meta : TopicMetadata) : result bytes :=
  let nameLen := len (Name meta) in
  let size := 2 + nameLen + 4 + 8 + 8 + 8 in
  data ← make_bytes size;
  let pos := 0 in
  data ← PutUint16 data pos (uint16 nameLen);
  let pos := pos + 2 in
  data ← copy_at data pos (Name meta);
  let pos := pos + nameLen in
  data ← PutUint32 data pos (uint32 (Partitions meta));
  let pos := pos + 4 in
  data ← PutUint64 data pos (uint64 (RetentionMs meta));
  let pos := pos + 8 in
  data ← PutUint64 data pos (uint64 (RetentionBytes meta));
  let pos := pos + 8 in
  data ← PutUint64 data pos (uint64 (CreatedAt meta));
  mret data.

Definition decodeTopicMetadata (data : bytes) : result TopicMetadata :=
  if len data <? 30 then Err (errorf "invalid topic metadata") else
  let pos := 0 in
  nameLen ← Uint16 data pos;
  let pos := pos + 2 in
  if len data <? pos + nameLen + 28 then Err (errorf "invalid topic metadata") else
  name ← slice data pos (pos + nameLen);
  let pos := pos + nameLen in
  partitions ← Uint32 data pos;
  let pos := pos + 4 in
  retentionMs ← Uint64 data pos;
  let pos := pos + 8 in
  retentionBytes ← Uint64 data pos;
  let pos := pos + 8 in
  createdAt ← Uint64 data pos;
  mret (mkTopicMetadata name partitions (int64 retentionMs) (int64 retentionBytes)
    (int64 createdAt)).

(** ** The stored form *)

Definition message_wire (msg : Message) : bytes :=
  be64 (Offset msg) ++ be64 (Timestamp msg) ++ str16 (Key msg) ++ blob32 (Value msg).
Definition topic_wire (meta : TopicMetadata) : bytes :=
  str16 (Name meta) ++ be32 (Partitions meta) ++ be64 (RetentionMs meta)
  ++ be64 (RetentionBytes meta) ++ be64 (CreatedAt meta).

Definition message_fits (msg : Message) : Prop := short (Key msg) /\ long (Value msg).
Definition topic_fits (meta : TopicMetadata) : Prop := short (Name meta).

(** What a fetch returns of a message. *)
Definition fetched (msg : Message) : Message :=
  mkMessage [] 0 (int64 (Offset msg)) (Key msg) (Value msg) (int64 (Timestamp msg)).
Definition reloaded (meta : TopicMetadata) : TopicMetadata :=
  mkTopicMetadata (Name meta) (uint32 (Partitions meta)) (int64 (RetentionMs meta))
    (int64 (RetentionBytes meta)) (int64 (CreatedAt meta)).

Lemma encodeMessage_wire msg : encodeMessage msg = Ok (message_wire msg).
Proof. unfold encodeMessage, message_wire. writes. Qed.

Lemma encodeTopicMetadata_wire meta : encodeTopicMetadata meta = Ok (topic_wire meta).
Proof. unfold encodeTopicMetadata, topic_wire. writes. Qed.

Lemma decodeMessage_wire msg junk :
  message_fits msg -> decodeMessage (message_wire msg ++ junk) = Ok (fetched msg).
Proof.
  intros (Hk & Hv). unfold short, long, u16, u32 in *.
  unfold message_wire, decodeMessage, str16, blob32. cbv zeta. go_read.
  unfold fetched. by rewrite !int64_uint64_any.
Qed.

Lemma decodeTopicMetadata_wire meta junk :
  topic_fits meta -> decodeTopicMetadata (topic_wire meta ++ junk) = Ok (reloaded meta).
Proof.
  intros Hn. unfold topic_fits, short, u16 in *. unfold topic_wire.
  rewrite <- (be32_uint32 (Partitions meta)).
  pose proof (uint32_range (Partitions meta)). unfold u32 in *.
  unfold decodeTopicMetadata, str16. cbv zeta. go_read.
  unfold reloaded. by rewrite !int64_uint64_any.
Qed.

(** Close a walk: the fields read, one after the other, are the encoding. *)
Ltac stored_form data :=
  cbn [safe mret result_ret]; eexists; cycle 1;
  [ rewrite <- (dropZ_0 0 data ltac:(lia)) at 1;
    repeat match goal with
    | H : dropZ ?a data = _ |- context [dropZ ?a data] => rewrite H; clear H
    end;
    subst; unfold message_wire, topic_wire, str16, blob32;
    cbn [Offset Timestamp Key Value Name Partitions RetentionMs RetentionBytes CreatedAt];
    rewrite ?be64_int64, <- ?app_assoc; reflexivity ].

(** ** Properties *)

(** A stored stream message whose key and value fit their length fields
    decodes to its offset, key, value and time, but with an empty topic and
    partition 0; topic metadata whose name fits decodes to what was stored,
    with the number of partitions modulo [2 ^ 32]. *)
Theorem stream_roundtrip :
  (forall msg, message_fits msg ->
     (data ← encodeMessage msg; decodeMessage data) = Ok (fetched msg)) /\
  (forall meta, topic_fits meta ->
     (data ← encodeTopicMetadata meta; decodeTopicMetadata data) = Ok (reloaded meta)).
Proof.
  split; intros x H.
  - rewrite encodeMessage_wire, bind_ok, <- (app_nil_r (message_wire x)).
    by apply decodeMessage_wire.
  - rewrite encodeTopicMetadata_wire, bind_ok, <- (app_nil_r (topic_wire x)).
    by apply decodeTopicMetadata_wire.
Qed.

Definition sample_msg : Message := mkMessage (str "events") 2 7 (str "k") (str "v") 1700000000000.

Lemma stream_roundtrip_witness :
  (data ← encodeMessage sample_msg; decodeMessage data) = Ok (fetched sample_msg).
Proof. apply (proj1 stream_roundtrip sample_msg). by vm_compute. Defined.

(** Neither decoder panics on any bytes, and what it accepts is the
    encoding of what it returns, followed by bytes it ignores. *)
Theorem stream_decoders_sound data :
  bytes_ok data ->
  safe (decodeMessage data) (fun msg => exists junk, data = message_wire msg ++ junk) /\
  safe (decodeTopicMetadata data) (fun meta => exists junk, data = topic_wire meta ++ junk).
Proof.
  intros Hok. split.
  - unfold decodeMessage. go_safe. stored_form data.
  - unfold decodeTopicMetadata. go_safe. stored_form data.
Qed.

Lemma stream_decoders_sound_witness :
  safe (decodeMessage (str "eighteen bytes ---")) (fun msg =>
    exists junk, str "eighteen bytes ---" = message_wire msg ++ junk).
Proof. apply (stream_decoders_sound (str "eighteen bytes ---")). repeat constructor; done. Defined.
