(* ===== verification/StreamStorage.v ===== *)
(** The stream storage of internal/stream/storage.go, storage_atomic.go and
    storage_batch.go: keys, the offset counters, the write buffer and its
    flushes, fetching, retention, consumer offsets and topic metadata. *)
From stdpp Require Import base list numbers gmap strings.
From Stdlib Require Import ZArith Lia.
From S2P Require Import Prelude GoBytes Fmt Badger StreamCodec.

(** ** Keys *)

Definition makeMessageKey (topic : bytes) (partition offset : Z) : bytes :=
  str "stream:msg:" ++ topic ++ str ":" ++ fmt_d partition ++ str ":" ++ fmt_020d offset.
Definition makeMessagePrefix (topic : bytes) (partition : Z) : bytes :=
  str "stream:msg:" ++ topic ++ str ":" ++ fmt_d partition ++ str ":".
Definition makeOffsetKey (topic : bytes) (partition : Z) : bytes :=
  str "stream:offset:" ++ topic ++ str ":" ++ fmt_d partition.
Definition makeConsumerOffsetKey (group topic : bytes) (partition : Z) : bytes :=
  str "stream:consumer:" ++ group ++ str ":" ++ topic ++ str ":" ++ fmt_d partition.
Definition makeTopicMetaKey (topic : bytes) : bytes := str "stream:meta:" ++ topic.

(** [fmt.Sprintf("%s:%d", topic, partition)] *)
Definition partKey (topic : bytes) (partition : Z) : bytes :=
  topic ++ str ":" ++ fmt_d partition.

Abbreviation buffer_map := (bmap (list Message)).

(** [PublishMessage] of stream.go. *)
Record PublishMessage : Type := mkPublish { pmPartition : Z; pmKey : bytes; pmValue : bytes }.

(** The orders in which [range] visits the buffer. *)
Abbreviation range_order := (buffer_map -> list (bytes * list Message)).

(** The groups of a batch: messages with their indices. *)
Abbreviation group_map := (gmap Z (list (PublishMessage * Z))).

Section Storage.
Context {bdg : Badger} {batch : BadgerBatch}.

(** Beside the fields of the source: [flushes] counts the goroutines started
    to flush that have not run yet, [flushCh] says whether the channel, of
    capacity one, holds a signal, and [stopped] that [stopFlush] is closed. *)
Record StreamStorage : Type := mkStreamStorage {
  db : DB;
  partitionOffsets : bmap Z;
  writeBuffer : buffer_map;
  flushes : nat;
  flushCh : bool;
  stopped : bool;
}.
Implicit Types s : StreamStorage.

Definition set_db s (d : DB) : StreamStorage :=
  mkStreamStorage d (partitionOffsets s) (writeBuffer s) (flushes s) (flushCh s) (stopped s).
Definition set_offsets s (offsets : bmap Z) : StreamStorage :=
  mkStreamStorage (db s) offsets (writeBuffer s) (flushes s) (flushCh s) (stopped s).
Definition set_buffer s (buffer : buffer_map) : StreamStorage :=
  mkStreamStorage (db s) (partitionOffsets s) buffer (flushes s) (flushCh s) (stopped s).
Definition set_flushes s (n : nat) (ch : bool) : StreamStorage :=
  mkStreamStorage (db s) (partitionOffsets s) (writeBuffer s) n ch (stopped s).
Definition set_stopped s : StreamStorage :=
  mkStreamStorage (db s) (partitionOffsets s) (writeBuffer s) (flushes s) (flushCh s) true.

Definition on_db {A} s (x : DB * result A) : StreamStorage * result A := (set_db s x.1, x.2).

(** [NewStorage] on the database that was opened. *)
Definition NewStorage (d : DB) : StreamStorage := mkStreamStorage d ∅ ∅ 0 false false.

(** ** Offset counters *)

(** The closure's assignment to [currentOffset]; its error is dropped. *)
Definition load_offset s (topic : bytes) (partition : Z) : result Z :=
  on_err (View (db s) (fun txn =>
    on_err (TxnGet txn (makeOffsetKey topic partition))
      (fun err => if is_sentinel err ErrKeyNotFound then Ok (-1) else Err err)
      (fun item => val ← ItemValue item; v ← Uint64 val 0; Ok (int64 v))))
    (fun _ => Ok (-1)) Ok.

(** The counter, created when it is missing; the pointer the code returns is
    the entry under [partKey]. *)
Definition getPartitionOffset s (topic : bytes) (partition : Z) : StreamStorage * result Z :=
  let key := partKey topic partition in
  match partitionOffsets s !! key with
  | Some offset => (s, Ok offset)
  | None =>
      match load_offset s topic partition with
      | Ok currentOffset => (set_offsets s (<[key := currentOffset]> (partitionOffsets s)), Ok currentOffset)
      | Err err => (s, Err err)
      | Panic => (s, Panic)
      end
  end.

(** [getPartitionOffset(topic, partition).Add(1)], then the new message in
    the buffer of its partition. *)
Definition buffer_message (now : Z) s (topic : bytes) (partition : Z) (key value : bytes)
    : StreamStorage * result Z :=
  match getPartitionOffset s topic partition with
  | (s, Ok current) =>
      let offset := int64 (current + 1) in
      let k := partKey topic partition in
      let s := set_offsets s (<[k := offset]> (partitionOffsets s)) in
      let msg := mkMessage topic partition offset key value now in
      let buffered := default [] (writeBuffer s !! k) ++ [msg] in
      (set_buffer s (<[k := buffered]> (writeBuffer s)), Ok offset)
  | (s, Err err) => (s, Err err)
  | (s, Panic) => (s, Panic)
  end.

Definition AppendMessage (now : Z) s (topic : bytes) (partition : Z) (key value : bytes)
    : StreamStorage * result Z :=
  match buffer_message now s topic partition key value with
  | (s, Ok offset) =>
      let bufferSize := len (default [] (writeBuffer s !! partKey topic partition)) in
      (if 1000 <=? bufferSize then set_flushes s (S (flushes s)) (flushCh s) else s, Ok offset)
  | (s, r) => (s, r)
  end.

Definition GetOffset s (topic : bytes) (partition : Z) : StreamStorage * result Z :=
  getPartitionOffset s topic partition.

(** ** Batches *)

(** [partitionMessages]: the messages of each partition, with their indices. *)
Fixpoint group_messages (i : Z) (messages : list PublishMessage) (groups : group_map) : group_map :=
  match messages with
  | [] => groups
  | msg :: messages =>
      group_messages (i + 1) messages
        (<[pmPartition msg := default [] (groups !! pmPartition msg) ++ [(msg, i)]]> groups)
  end.

(** The loops over the groups; [clock i] is the time at which the message of
    index [i] is created. *)
Definition batch_item (clock : Z -> Z) (topic : bytes) (partition : Z)
    (st : StreamStorage * list Z) (item : PublishMessage * Z) : StreamStorage * result (list Z) :=
  let '(s, offsets) := st in
  let '(msg, idx) := item in
  match buffer_message (clock idx) s topic partition (pmKey msg) (pmValue msg) with
  | (s, Ok offset) => (s, Ok (<[Z.to_nat idx := offset]> offsets))
  | (s, Err err) => (s, Err err)
  | (s, Panic) => (s, Panic)
  end.

Fixpoint batch_items (clock : Z -> Z) (topic : bytes) (partition : Z)
    (items : list (PublishMessage * Z)) s (offsets : list Z) : StreamStorage * result (list Z) :=
  match items with
  | [] => (s, Ok offsets)
  | item :: items =>
      match batch_item clock topic partition (s, offsets) item with
      | (s, Ok offsets) => batch_items clock topic partition items s offsets
      | r => r
      end
  end.

Fixpoint batch_groups (clock : Z -> Z) (topic : bytes)
    (groups : list (Z * list (PublishMessage * Z))) s (offsets : list Z)
    : StreamStorage * result (list Z) :=
  match groups with
  | [] => (s, Ok offsets)
  | (partition, msgs) :: groups =>
      match batch_items clock topic partition msgs s offsets with
      | (s, Ok offsets) => batch_groups clock topic groups s offsets
      | r => r
      end
  end.

Definition totalBuffered (buffer : buffer_map) : Z :=
  foldr (fun kv n => len kv.2 + n) 0 (map_to_list buffer).

(** [order] is the order in which [range] visits the groups; a full channel
    drops the signal. *)
Definition AppendMessageBatch (clock : Z -> Z)
    (order : group_map -> list (Z * list (PublishMessage * Z))) s (topic : bytes)
    (messages : list PublishMessage) : StreamStorage * result (list Z) :=
  let offsets := replicate (length messages) 0 in
  let partitionMessages := group_messages 0 messages ∅ in
  match batch_groups clock topic (order partitionMessages) s offsets with
  | (s, Ok offsets) =>
      (if 1000 <=? totalBuffered (writeBuffer s) then set_flushes s (flushes s) true else s,
       Ok offsets)
  | r => r
  end.

(** ** Flushing *)

(** The buffer is taken and emptied before the transaction starts. *)
Definition flushWrites (order : range_order) s : StreamStorage * result unit :=
  if decide (writeBuffer s = ∅) then (s, Ok tt) else
  let buffer := writeBuffer s in
  let s := set_buffer s ∅ in
  on_db s (Update (db s) (fun txn =>
    txn ← for_each (order buffer) txn (fun txn '(_, messages) =>
      for_each messages txn (fun txn msg =>
        let msgKey := makeMessageKey (Topic msg) (Partition msg) (Offset msg) in
        msgData ← encodeMessage msg;
        TxnSet txn msgKey msgData));
    Ok (txn, tt))).

(** The turns of [flushWorker]: the ticker, the channel, and the stop signal,
    all of which flush and drop the error. *)
Definition flushed {A} (r : StreamStorage * result A) : StreamStorage * result unit :=
  match r with
  | (s, Panic) => (s, Panic)
  | (s, _) => (s, Ok tt)
  end.

Definition worker_tick (order : range_order) s : StreamStorage * result unit :=
  flushed (flushWrites order s).
Definition worker_signal (order : range_order) s : StreamStorage * result unit :=
  if flushCh s then flushed (flushWrites order (set_flushes s (flushes s) false)) else (s, Ok tt).
(** A goroutine started by [AppendMessage]. *)
Definition run_flush (order : range_order) s : StreamStorage * result unit :=
  match flushes s with
  | O => (s, Ok tt)
  | Datatypes.S n => flushed (flushWrites order (set_flushes s n (flushCh s)))
  end.

(** ** Reading *)

(** [it.Seek(key)]: the first item that is not below the key, and those after it. *)
Fixpoint seek (items : list Item) (key : bytes) : list Item :=
  match items with
  | [] => []
  | item :: rest => if lex_leb key (ItemKey item) then items else seek rest key
  end.

Fixpoint fetch_loop (items : list Item) (count maxCount : Z) (messages : list Message)
    : result (list Message) :=
  match items with
  | [] => Ok messages
  | item :: items =>
      if count <? maxCount
      then val ← ItemValue item;
           msg ← decodeMessage val;
           fetch_loop items (count + 1) maxCount (messages ++ [msg])
      else Ok messages
  end.

Definition FetchMessages (order : range_order) s (topic : bytes)
    (partition startOffset maxCount : Z) : StreamStorage * result (list Message) :=
  match flushWrites order s with
  | (s, Panic) => (s, Panic)
  | (s, _) =>
      if maxCount <? 0 then (s, Panic) else
      (s, View (db s) (fun txn =>
        let prefix := makeMessagePrefix topic partition in
        let seekKey := makeMessageKey topic partition startOffset in
        fetch_loop (seek (Iterate txn prefix) seekKey) 0 maxCount []))
  end.

(** ** Consumer offsets and topics *)

Definition CommitOffset (now : Z) s (group topic : bytes) (partition offset : Z)
    : StreamStorage * result unit :=
  on_db s (Update (db s) (fun txn =>
    let key := makeConsumerOffsetKey group topic partition in
    data ← make_bytes 16;
    data ← PutUint64 data 0 (uint64 offset);
    data ← PutUint64 data 8 (uint64 now);
    txn ← TxnSet txn key data;
    Ok (txn, tt))).

Definition GetConsumerOffset s (group topic : bytes) (partition : Z) : result Z :=
  View (db s) (fun txn =>
    let key := makeConsumerOffsetKey group topic partition in
    on_err (TxnGet txn key)
      (fun err => if is_sentinel err ErrKeyNotFound then Ok 0 else Err err)
      (fun item =>
        val ← ItemValue item;
        hd ← slice val 0 8;
        offset ← Uint64 hd 0;
        Ok (int64 offset))).

Definition CreateTopic s (meta : TopicMetadata) : StreamStorage * result unit :=
  on_db s (Update (db s) (fun txn =>
    let key := makeTopicMetaKey (Name meta) in
    data ← encodeTopicMetadata meta;
    txn ← TxnSet txn key data;
    Ok (txn, tt))).

Definition GetTopicMetadata s (topic : bytes) : result TopicMetadata :=
  View (db s) (fun txn =>
    let key := makeTopicMetaKey topic in
    item ← TxnGet txn key;
    val ← ItemValue item;
    decodeTopicMetadata val).

(** ** Retention *)

Definition DeleteOldMessages (now : Z) s (topic : bytes) (partition retentionMs : Z)
    : StreamStorage * result Z :=
  let cutoffTime := int64 (now - retentionMs) in
  on_db s (Update (db s) (fun txn =>
    let prefix := makeMessagePrefix topic partition in
    keysToDelete ← for_each (seek (Iterate txn prefix) prefix) [] (fun keys item =>
      val ← ItemValue item;
      msg ← decodeMessage val;
      Ok (if Timestamp msg <? cutoffTime then keys ++ [ItemKey item] else keys));
    for_each keysToDelete (txn, 0) (fun '(txn, deleted) key =>
      txn ← TxnDelete txn key; Ok (txn, deleted + 1)))).

(** A second [Close] closes a closed channel.  The worker's final flush and
    the one of [Close] are one: the second finds an empty buffer. *)
Definition Close (order : range_order) s : StreamStorage * result unit :=
  if stopped s then (s, Panic) else
  match flushWrites order (set_stopped s) with
  | (s, Panic) => (s, Panic)
  | (s, _) => on_db s (DBClose (db s))
  end.
End Storage.
