(* ===== verification/StreamKeys.v ===== *)
(** The keys of the stream storage: they are told apart as long as topic and
    group names hold no colon, and the messages of a partition are ordered by
    offset; what a seek and a fetch loop return on sorted items. *)
From stdpp Require Import base list numbers gmap sorting strings.
From Stdlib Require Import ZArith Lia.
From S2P Require Import Prelude GoBytes Fields Fmt Badger StreamCodec StreamStorage.

(** ** Injectivity *)

Definition part_ok (t : bytes) (p : Z) : Prop := name_ok t /\ 0 <= p.

Lemma partKey_inj t p t' p' :
  part_ok t p -> part_ok t' p' -> partKey t p = partKey t' p' -> t = t' /\ p = p'.
Proof.
  intros [Ht Hp] [Ht' Hp'] E. apply split_colon in E as [-> E]; [|done..].
  split; [done|]. by apply fmt_d_inj in E.
Qed.

Lemma partKey_ne t p t' p' :
  part_ok t p -> part_ok t' p' -> ~ (t' = t /\ p' = p) -> partKey t p <> partKey t' p'.
Proof. intros H H' Hne E. apply Hne. destruct (partKey_inj t p t' p' H H' E) as [-> ->]. done. Qed.

Lemma prefix_inj t p t' p' o :
  part_ok t p -> part_ok t' p' ->
  makeMessagePrefix t p `prefix_of` makeMessageKey t' p' o -> t = t' /\ p = p'.
Proof.
  intros [Ht Hp] [Ht' Hp'] [r E]. unfold makeMessagePrefix, makeMessageKey in E.
  rewrite <- app_assoc in E. apply app_inv_head in E. rewrite <- !app_assoc in E.
  apply split_colon in E as [-> E]; [|done..].
  apply split_colon in E as [E _]; [|by apply digits_name_ok..].
  split; [done|]. symmetry. by apply fmt_d_inj in E.
Qed.

Lemma key_prefix t p o : makeMessageKey t p o = makeMessagePrefix t p ++ fmt_020d o.
Proof. unfold makeMessageKey, makeMessagePrefix. by rewrite <- !app_assoc. Qed.

Lemma prefix_of_key t p o : makeMessagePrefix t p `prefix_of` makeMessageKey t p o.
Proof. rewrite key_prefix. by exists (fmt_020d o). Qed.

Lemma streamKey_inj t p o t' p' o' :
  part_ok t p -> part_ok t' p' -> 0 <= o < 2 ^ 63 -> 0 <= o' < 2 ^ 63 ->
  makeMessageKey t p o = makeMessageKey t' p' o' -> (t = t' /\ p = p') /\ o = o'.
Proof.
  intros H H' Ho Ho' E.
  assert (t = t' /\ p = p') as [-> ->].
  { apply (prefix_inj t p t' p' o'); [done..|]. rewrite <- E. apply prefix_of_key. }
  split; [done|]. rewrite !key_prefix in E. apply app_inv_head in E.
  apply fmt_020d_inj in E; lia.
Qed.

Lemma consumerKey_inj g t p g' t' p' :
  name_ok g -> name_ok g' -> part_ok t p -> part_ok t' p' ->
  makeConsumerOffsetKey g t p = makeConsumerOffsetKey g' t' p' -> g = g' /\ t = t' /\ p = p'.
Proof.
  unfold makeConsumerOffsetKey. intros Hg Hg' H H' E. apply app_inv_head in E.
  apply split_colon in E as [-> E]; [|done..].
  apply (partKey_inj t p t' p') in E as [-> ->]; done.
Qed.

Lemma topicKey_inj t t' : makeTopicMetaKey t = makeTopicMetaKey t' -> t = t'.
Proof. apply app_inv_head. Qed.

(** ** Order *)

Lemma lex_leb_020d n m :
  n < 10 ^ 20 -> 0 <= m < 10 ^ 20 -> lex_leb (fmt_020d n) (fmt_020d m) = (n <=? m).
Proof.
  intros Hn Hm. destruct (Z.ltb_spec n 0) as [Hneg|Hneg].
  - rewrite (fmt_020d_fixed m) by done. unfold fmt_020d.
    rewrite (proj2 (Z.ltb_lt n 0)), (proj2 (Z.leb_le n m)) by lia.
    cbn [fixed lex_leb]. pose proof (Z.mod_pos_bound (m / 10 ^ Z.of_nat 19) 10).
    by rewrite (proj2 (Z.ltb_lt 45 _)) by lia.
  - rewrite !fmt_020d_fixed by lia. apply lex_leb_fixed; lia.
Qed.

Lemma lex_leb_message t p o o' :
  o < 2 ^ 63 -> 0 <= o' < 2 ^ 63 ->
  lex_leb (makeMessageKey t p o) (makeMessageKey t p o') = (o <=? o').
Proof. intros. rewrite !key_prefix, lex_leb_app. apply lex_leb_020d; lia. Qed.

Definition before (a b : Message) : Prop := Offset a < Offset b.

Definition offsets_ok (l : list Message) : Prop := Forall (fun m => 0 <= Offset m < 2 ^ 63) l.

(** The entries that store a list of messages. *)
Definition entry (t : bytes) (p : Z) (m : Message) : bytes * bytes :=
  (makeMessageKey t p (Offset m), message_wire m).

Lemma entries_sorted t p l :
  offsets_ok l -> StronglySorted before l -> StronglySorted lex_lt (map fst (map (entry t p) l)).
Proof.
  induction l as [|m l IH]; intros Ho Hs; [constructor|]. cbn [map].
  apply Forall_cons in Ho as [Hm Ho]. apply StronglySorted_inv in Hs as [Hs Hb].
  constructor; [by apply IH|]. rewrite !Forall_map. apply Forall_forall. intros x Hx.
  unfold offsets_ok in Ho. rewrite Forall_forall in Ho, Hb.
  specialize (Ho x Hx). specialize (Hb x Hx). cbn beta in *. unfold before in Hb.
  change (lex_lt (makeMessageKey t p (Offset m)) (makeMessageKey t p (Offset x))). split.
  - rewrite lex_leb_message by lia. lia.
  - rewrite !key_prefix. intros E. apply app_inv_head, fmt_020d_inj in E; lia.
Qed.

Lemma filter_all {A} (P : A -> Prop) `{!forall x, Decision (P x)} l :
  Forall P l -> filter P l = l.
Proof.
  induction 1 as [|x l Hx _ IH]; [done|]. by rewrite filter_cons, decide_True, IH.
Qed.

Lemma Forall_filter {A} (P Q : A -> Prop) `{!forall x, Decision (P x)} l :
  Forall Q l -> Forall Q (filter P l).
Proof. rewrite !Forall_forall. intros HQ x Hx. apply list_elem_of_filter in Hx as [_ ?]. auto. Qed.

(** ** Stored messages *)

(** [f] gives, for each partition, the messages the database holds. *)
Definition stored_logs (f : bytes -> Z -> list Message) (m : store) : Prop :=
  forall t p, part_ok t p -> forall k v,
    (m !! k = Some v /\ makeMessagePrefix t p `prefix_of` k) <->
    exists x, x ∈ f t p /\ (k, v) = entry t p x.

(** The entry of a message under its own topic and partition. *)
Definition own_entry (m : Message) : bytes * bytes := entry (Topic m) (Partition m) m.

Definition put_all (l : list (bytes * bytes)) (m : store) : store :=
  foldl (fun m kv => <[kv.1 := kv.2]> m) m l.

Lemma put_all_lookup l m k v :
  (forall v v', (k, v) ∈ l -> (k, v') ∈ l -> v = v') ->
  (put_all l m !! k = Some v) <-> ((k, v) ∈ l) \/ (~ (k ∈ l.*1) /\ m !! k = Some v).
Proof.
  revert m. induction l as [|[k0 v0] l IH]; intros m Hf.
  - cbn. split; [intros; right; split; [apply not_elem_of_nil|done]|].
    intros [Hx|[_ ?]]; [by apply not_elem_of_nil in Hx|done].
  - unfold put_all. cbn [foldl fst snd]. fold (put_all l (<[k0:=v0]> m)).
    rewrite IH by (intros v1 v2 H1 H2; apply Hf; by right).
    rewrite fmap_cons, not_elem_of_cons, elem_of_cons. cbn [fst].
    destruct (decide (k = k0)) as [->|Hne].
    + rewrite lookup_insert_eq. destruct (decide (k0 ∈ l.*1)) as [Hin|Hin].
      * apply list_elem_of_fmap in Hin as ([k1 v1] & -> & Hin). cbn in *.
        assert (v1 = v0) as -> by (apply Hf; rewrite elem_of_cons; auto).
        assert ((k1, v0) ∈ l -> forall v, (k1, v) ∈ l -> v = v0)
          by (intros; apply Hf; rewrite elem_of_cons; auto).
        split; [intros [?|[Hn _]]|].
        -- left. by right.
        -- destruct Hn. by apply (list_elem_of_fmap_2 fst) in Hin.
        -- intros [[[= ->]|?]|[[? _] _]]; [by left|by left|done].
      * split; [intros [?|[_ [= ->]]]; auto|]. intros [[[= ->]|?]|[[? _] _]]; auto; done.
    + rewrite lookup_insert_ne by done. split; intros [?|[? ?]]; auto.
      * destruct H as [[= -> _]|?]; [done|auto].
      * right. tauto.
Qed.

Section Items.
Context {bdg : Badger} {laws : BadgerLaws}.

Definition item_pair (i : Item) : bytes * bytes := (ItemKey i, item_value i).

Lemma partition_items f txn t p :
  stored_logs f (snapshot txn) -> part_ok t p ->
  offsets_ok (f t p) -> StronglySorted before (f t p) ->
  map item_pair (Iterate txn (makeMessagePrefix t p)) = map (entry t p) (f t p).
Proof.
  intros Hst Hok Ho Hs. destruct (Iterate_law txn (makeMessagePrefix t p)) as [Hsort Hin].
  apply entries_unique; [by rewrite map_map|by apply entries_sorted|].
  intros [k v]. rewrite (Hin k v), (Hst t p Hok k v).
  split.
  - intros (x & Hx & ->). by apply list_elem_of_fmap_2.
  - intros Hx. apply list_elem_of_fmap in Hx as (x & E & Hx). by exists x.
Qed.

(** Seeking to an offset skips the messages below it. *)
Lemma seek_items t p start l items :
  start < 2 ^ 63 -> offsets_ok l -> StronglySorted before l ->
  map item_pair items = map (entry t p) l ->
  map item_pair (seek items (makeMessageKey t p start))
  = map (entry t p) (filter (fun m => start <= Offset m) l).
Proof.
  intros Hst. revert items. induction l as [|m l IH]; intros [|i items] Ho Hs E; try done.
  cbn [map] in E. pose proof (f_equal (fun l => hd ([], []) l) E) as Ei.
  pose proof (f_equal tail E) as El. cbn in Ei, El. injection Ei as Ek _.
  apply Forall_cons in Ho as [Hm Ho]. apply StronglySorted_inv in Hs as [Hs Hb].
  cbn [seek]. rewrite Ek, lex_leb_message by lia. rewrite filter_cons.
  destruct (Z.leb_spec start (Offset m)).
  - rewrite decide_True by done. cbn [map]. f_equal; [exact (f_equal (fun l => hd ([], []) l) E)|].
    rewrite El. f_equal. symmetry. apply filter_all.
    eapply Forall_impl; [exact Hb|]. unfold before. cbn. lia.
  - rewrite decide_False by lia. by apply IH.
Qed.

(** Seeking to the prefix skips nothing. *)
Lemma seek_prefix txn p : seek (Iterate txn p) p = Iterate txn p.
Proof.
  destruct (Iterate_law txn p) as [_ Hin].
  destruct (Iterate txn p) as [|i items] eqn:E; [done|]. cbn [seek].
  assert (p `prefix_of` ItemKey i) as [r ->].
  { apply (Hin (ItemKey i) (item_value i)). cbn. apply list_elem_of_here. }
  rewrite <- (app_nil_r p) at 1. by rewrite lex_leb_app.
Qed.
End Items.
