(* ===== verification/StreamLog.v ===== *)
(** What the stream storage promises: for every partition a log, of which a
    part is saved and the rest pending, the offsets committed by the consumer
    groups, and the topics; the state of the storage as an image of it, and
    what appending, flushing, fetching and retention do to it. *)
From stdpp Require Import base list numbers gmap sorting strings.
From Stdlib Require Import ZArith Lia.
From S2P Require Import Prelude GoBytes Fields Fmt Badger StreamCodec StreamStorage StreamKeys.

(** ** The abstract state *)

(** [next] is the offset of the next message. *)
Record plog : Type := mkLog { next : Z; saved : list Message; pending : list Message }.

Definition all_messages (l : plog) : list Message := saved l ++ pending l.

Record slog : Type := mkSlog {
  logs : bytes -> Z -> plog;
  committed : bytes -> bytes -> Z -> Z;
  topics : bytes -> option TopicMetadata;
}.
Implicit Types (G : slog).

Definition empty_slog : slog :=
  mkSlog (fun _ _ => mkLog 0 [] []) (fun _ _ _ => 0) (fun _ => None).

Definition update_log G (t : bytes) (p : Z) (l : plog) : slog :=
  mkSlog (fun t' p' => if decide (t' = t /\ p' = p) then l else logs G t' p')
    (committed G) (topics G).

Definition log_append G (now : Z) (t : bytes) (p : Z) (key value : bytes) : slog :=
  let l := logs G t p in
  update_log G t p (mkLog (next l + 1) (saved l)
    (pending l ++ [mkMessage t p (next l) key value now])).

Definition log_flush G : slog :=
  mkSlog (fun t p => let l := logs G t p in mkLog (next l) (all_messages l) [])
    (committed G) (topics G).

(** The messages from an offset on, at most [max]. *)
Definition log_fetch G (t : bytes) (p start max : Z) : list Message :=
  take (Z.to_nat max)
    (map fetched (filter (fun m => start <= Offset m) (all_messages (logs G t p)))).

Definition log_retain G (t : bytes) (p cutoff : Z) : slog :=
  let l := logs G t p in
  update_log G t p (mkLog (next l) (filter (fun m => cutoff <= Timestamp m) (saved l)) (pending l)).

Definition log_commit G (g t : bytes) (p offset : Z) : slog :=
  mkSlog (logs G)
    (fun g' t' p' => if decide (g' = g /\ t' = t /\ p' = p) then offset else committed G g' t' p')
    (topics G).

Definition log_topic G (meta : TopicMetadata) : slog :=
  mkSlog (logs G) (committed G)
    (fun t => if decide (t = Name meta) then Some meta else topics G t).

(** ** The representation *)

Definition log_wf (t : bytes) (p N : Z) (l : plog) : Prop :=
  0 <= next l <= N /\
  Forall (fun m => (Topic m = t /\ Partition m = p /\ 0 <= Offset m < next l) /\
    message_fits m /\ i64 (Timestamp m)) (all_messages l) /\
  StronglySorted before (all_messages l).

Section Representation.
Context {bdg : Badger} {laws : BadgerLaws}.
Implicit Types (s : StreamStorage) (m : store).

(** The keys of a database beside those of the messages. *)
Definition stored_rest G m : Prop :=
  (forall t p, m !! makeOffsetKey t p = None) /\
  (forall t, match topics G t with
             | Some meta => topic_fits meta /\ m !! makeTopicMetaKey t = Some (topic_wire meta)
             | None => m !! makeTopicMetaKey t = None
             end) /\
  (forall g t p, name_ok g -> part_ok t p ->
     (m !! makeConsumerOffsetKey g t p = None /\ committed G g t p = 0) \/
     (exists now, m !! makeConsumerOffsetKey g t p = Some (be64 (committed G g t p) ++ be64 now) /\
        i64 (committed G g t p))).

Record holds (N : Z) G s : Prop := {
  h_wf : forall t p, part_ok t p -> log_wf t p N (logs G t p);
  h_counter : forall t p, part_ok t p ->
    default (-1) (partitionOffsets s !! partKey t p) = next (logs G t p) - 1;
  h_buffer : forall t p, part_ok t p ->
    default [] (writeBuffer s !! partKey t p) = pending (logs G t p);
  h_keys : forall k ms, writeBuffer s !! k = Some ms -> exists t p, part_ok t p /\ k = partKey t p;
  h_store : stored_logs (fun t p => saved (logs G t p)) (contents (db s));
  h_rest : stored_rest G (contents (db s));
}.

Lemma logs_new (d : DB) : contents d = ∅ -> holds 0 empty_slog (NewStorage d).
Proof.
  intros E. split; cbn.
  - intros t p _. split_and!; [done|done|constructor|constructor].
  - intros t p _. by rewrite lookup_empty.
  - intros t p _. by rewrite lookup_empty.
  - intros k ms. by rewrite lookup_empty.
  - intros t p _ k v. rewrite E, lookup_empty. split; [by intros []|].
    intros (x & Hx & _). by apply not_elem_of_nil in Hx.
  - rewrite E. split_and!; intros; cbn; rewrite ?lookup_empty; [done..|by left].
Qed.

Lemma wf_offsets t p N l : N <= 2 ^ 63 -> log_wf t p N l -> offsets_ok (all_messages l).
Proof.
  intros HN (Hn & Hf & _). eapply Forall_impl; [exact Hf|]. cbn. lia.
Qed.

(** ** Appending *)

Lemma load_offset_none s t p :
  contents (db s) !! makeOffsetKey t p = None -> load_offset s t p = Ok (-1).
Proof.
  intros H. unfold load_offset.
  match goal with |- context [View (db s) ?f] =>
    destruct (View_law Z (db s) f) as [(e & -> & _)|(t0 & Ht & _ & ->)] end; [done|].
  pose proof (TxnGet_law t0 (makeOffsetKey t p) ltac:(done)) as HG. rewrite Ht, H in HG.
  destruct (TxnGet t0 _) as [i|e|]; cbn; [done| |done].
  destruct HG as [Hf|[-> _]]; [|done]. by rewrite (fault_not_found e Hf).
Qed.

Lemma getPartitionOffset_holds N G s t p :
  holds N G s -> part_ok t p ->
  exists offs, getPartitionOffset s t p = (set_offsets s offs, Ok (next (logs G t p) - 1)) /\
    holds N G (set_offsets s offs).
Proof.
  intros H Hok. pose proof (h_counter _ _ _ H t p Hok) as Hc. unfold getPartitionOffset.
  destruct (partitionOffsets s !! partKey t p) as [c|] eqn:E.
  - exists (partitionOffsets s). cbn in Hc. subst c. by destruct s.
  - rewrite load_offset_none by apply (h_rest _ _ _ H). cbn in Hc. rewrite <- Hc.
    exists (<[partKey t p := -1]> (partitionOffsets s)). split; [done|].
    destruct H as [H1 H2 H3 H4 H5 H6]. split; try done. cbn. intros t' p' Hok'.
    destruct (decide (partKey t' p' = partKey t p)) as [E'|].
    + apply partKey_inj in E' as [-> ->]; [|done..]. by rewrite lookup_insert_eq.
    + rewrite lookup_insert_ne by done. by apply H2.
Qed.

Lemma log_append_wf N G now t p key value t' p' :
  log_wf t' p' N (logs G t' p') -> short key -> long value -> i64 now ->
  log_wf t' p' (N + 1) (logs (log_append G now t p key value) t' p').
Proof.
  intros (Hn & Hf & Hs) Hk Hv Hnow. cbn. destruct (decide _) as [[-> ->]|].
  2: { by split; [lia|]. }
  unfold log_wf, all_messages in *. cbn. rewrite app_assoc. split_and!; [lia|lia| |].
  - apply Forall_app. split; [eapply Forall_impl; [exact Hf|]; cbn; intuition lia|].
    apply Forall_singleton. cbn. unfold message_fits; cbn. split_and!; try done; lia.
  - apply StronglySorted_app_2; [|done|by repeat constructor].
    rewrite Forall_forall in Hf. intros a b Ha Hb. apply list_elem_of_singleton in Hb as ->.
    apply Hf in Ha. unfold before. cbn. lia.
Qed.

Lemma buffer_message_holds N G s now t p key value :
  holds N G s -> N < 2 ^ 63 -> part_ok t p -> short key -> long value -> i64 now ->
  exists s', buffer_message now s t p key value = (s', Ok (next (logs G t p))) /\
    holds (N + 1) (log_append G now t p key value) s'.
Proof.
  intros H HN Hok Hk Hv Hnow.
  destruct (getPartitionOffset_holds N G s t p H Hok) as (offs & E & H').
  unfold buffer_message. rewrite E. clear E H.
  pose proof (h_wf _ _ _ H' t p Hok) as [Hn _].
  rewrite (int64_small (_ - 1 + 1)) by (unfold i64; lia). rewrite Z.sub_add.
  eexists. split; [reflexivity|]. destruct H' as [H1 H2 H3 H4 H5 H6]. cbn in *. split; cbn.
  - intros t' p' Hok'. apply log_append_wf; auto.
  - intros t' p' Hok'. destruct (decide (t' = t /\ p' = p)) as [[-> ->]|Hne].
    + rewrite lookup_insert_eq. cbn. lia.
    + rewrite lookup_insert_ne by (by apply partKey_ne).
      by apply H2.
  - intros t' p' Hok'. destruct (decide (t' = t /\ p' = p)) as [[-> ->]|Hne].
    + rewrite lookup_insert_eq. cbn. by rewrite <- H3.
    + rewrite lookup_insert_ne by (by apply partKey_ne).
      by apply H3.
  - intros k ms. destruct (decide (k = partKey t p)) as [->|]; [by eauto|].
    rewrite lookup_insert_ne by done. apply H4.
  - intros t' p' Hok' k v. rewrite (H5 t' p' Hok').
    destruct (decide (t' = t /\ p' = p)) as [[-> ->]|]; done.
  - exact H6.
Qed.

(** ** Flushing *)

Definition valid_order (order : range_order) : Prop :=
  forall buffer, order buffer ≡ₚ map_to_list buffer.

Definition buffered (order : range_order) s : list Message :=
  concat ((order (writeBuffer s)).*2).

(** A flush that succeeds writes the buffered messages; one that fails has
    emptied the buffer nevertheless. *)
Lemma flushWrites_served order s :
  valid_order order ->
  (flushWrites order s).1 = set_db (set_buffer s ∅) (db (flushWrites order s).1) /\
  served (db s) (db (flushWrites order s).1, (flushWrites order s).2) (fun _ => False)
    (fun m _ => m = put_all (map own_entry (buffered order s)) (contents (db s))).
Proof.
  intros Ho. unfold flushWrites. destruct (decide _) as [E|E].
  - cbn. split; [destruct s; cbn in *; by subst|].
    unfold served, buffered. cbn. specialize (Ho (writeBuffer s)).
    rewrite E, map_to_list_empty in *. apply Permutation_nil_r in Ho. by rewrite Ho.
  - unfold on_db. cbv zeta. cbn [fst snd db set_db set_buffer writeBuffer]. split; [done|].
    match goal with |- served ?d (?x.1, ?x.2) ?E ?Q => change (served d (x.1, x.2) E Q) end.
    rewrite <- surjective_pairing. apply served_update. intros t Ht. apply wp_bind.
    eapply wp_mono.
    + apply wp_for_each with (I := fun done txn => snapshot txn
        = put_all (map own_entry (concat (done.*2))) (snapshot t)); [done|].
      intros dn [k ms] txn Hdn.
      eapply wp_mono.
      * apply wp_for_each with (I := fun done txn => snapshot txn
          = put_all (map own_entry (concat (dn.*2) ++ done)) (snapshot t)).
        { by rewrite app_nil_r. }
        intros dn' x txn' Hdn'. rewrite encodeMessage_wire, bind_ok.
        rewrite <- (bind_ret (TxnSet _ _ _)). txn_write t1 Ht1. cbn [wp mret result_ret].
        rewrite Ht1, Hdn', app_assoc, (map_app _ (concat _ ++ _)). unfold put_all.
        by rewrite foldl_app.
      * cbn beta. intros txn' ->. by rewrite (fmap_app snd), concat_app; cbn; rewrite app_nil_r.
    + intros txn' Htxn. cbn. by rewrite Htxn, Ht.
Qed.

(** What a database whose message keys alone changed still stores. *)
Definition message_key (k : bytes) : Prop := str "stream:msg:" `prefix_of` k.

Lemma stored_rest_frame G G' m m' :
  committed G' = committed G -> topics G' = topics G ->
  (forall k, ~ message_key k -> m' !! k = m !! k) -> stored_rest G m -> stored_rest G' m'.
Proof.
  intros Ec Et Hk (H1 & H2 & H3). split_and!.
  - intros t p. by rewrite Hk by (by intros []).
  - intros t. rewrite Et. specialize (H2 t).
    by destruct (topics G t); rewrite Hk by (by intros []).
  - intros g t p ? ?. rewrite Ec, Hk by (by intros []). by apply H3.
Qed.

Lemma put_all_other (l : list Message) m k :
  ~ message_key k -> put_all (map own_entry l) m !! k = m !! k.
Proof.
  intros Hk. unfold put_all. revert m. induction l as [|x l IH]; intros m; cbn; [done|].
  rewrite IH, lookup_insert_ne; [done|]. intros <-. apply Hk. by eexists.
Qed.

(** The buffered messages are the pending messages of the logs. *)
Lemma buffered_pending N G s order x :
  holds N G s -> valid_order order ->
  x ∈ buffered order s <-> exists t p, part_ok t p /\ x ∈ pending (logs G t p).
Proof.
  intros H Ho. unfold buffered. rewrite list_elem_of_In, in_concat. split.
  - intros (ms & Hms & Hx). apply list_elem_of_In in Hms. apply list_elem_of_In in Hx.
    apply list_elem_of_fmap in Hms as ([k ms'] & -> & Hkms). cbn in *.
    rewrite (Ho (writeBuffer s)), elem_of_map_to_list in Hkms.
    destruct (h_keys _ _ _ H k ms' Hkms) as (t & p & Hok & ->). exists t, p. split; [done|].
    rewrite <- (h_buffer _ _ _ H t p Hok), Hkms. done.
  - intros (t & p & Hok & Hx). rewrite <- (h_buffer _ _ _ H t p Hok) in Hx.
    destruct (writeBuffer s !! partKey t p) as [ms|] eqn:E; [|by apply not_elem_of_nil in Hx].
    exists ms. rewrite <- !list_elem_of_In. split; [|done].
    apply (list_elem_of_fmap_2' snd _ (partKey t p, ms)); [|done].
    by rewrite (Ho (writeBuffer s)), elem_of_map_to_list.
Qed.

(** A message of a log is stored under its own entry. *)
Lemma wf_entry t p N l x : log_wf t p N l -> x ∈ all_messages l -> own_entry x = entry t p x.
Proof.
  intros (_ & Hf & _) Hx. rewrite Forall_forall in Hf.
  destruct (Hf x Hx) as ((Et & Ep & _) & _). unfold own_entry. by rewrite Et, Ep.
Qed.

(** Messages with the same offset in a log are the same message. *)
Lemma wf_unique t p N l x y :
  log_wf t p N l -> x ∈ all_messages l -> y ∈ all_messages l -> Offset x = Offset y -> x = y.
Proof.
  intros (_ & _ & Hs). revert Hs. induction (all_messages l) as [|z k IH]; intros Hs Hx Hy E.
  - by apply not_elem_of_nil in Hx.
  - apply StronglySorted_inv in Hs as [Hs Hz]. rewrite Forall_forall in Hz. unfold before in Hz.
    apply elem_of_cons in Hx as [->|Hx], Hy as [->|Hy]; auto.
    + specialize (Hz y Hy). lia.
    + specialize (Hz x Hx). lia.
Qed.

Lemma wf_key N G t p t' p' x y :
  N <= 2 ^ 63 -> (forall t p, part_ok t p -> log_wf t p N (logs G t p)) ->
  part_ok t p -> part_ok t' p' ->
  x ∈ all_messages (logs G t p) -> y ∈ all_messages (logs G t' p') ->
  (own_entry x).1 = (own_entry y).1 -> (t = t' /\ p = p') /\ x = y.
Proof.
  intros HN Hw Hok Hok' Hx Hy E.
  rewrite (wf_entry t p N _ x (Hw t p Hok) Hx), (wf_entry t' p' N _ y (Hw t' p' Hok') Hy) in E.
  pose proof (wf_offsets _ _ _ _ HN (Hw t p Hok)) as Ho.
  pose proof (wf_offsets _ _ _ _ HN (Hw t' p' Hok')) as Ho'.
  unfold offsets_ok in *. rewrite Forall_forall in Ho, Ho'.
  apply streamKey_inj in E as [[-> ->] E]; [|by auto..].
  split; [done|]. by apply (wf_unique t' p' N (logs G t' p')); auto.
Qed.

(** A pending message is stored under its partition's key. *)
Lemma pending_entry N G s t p x :
  holds N G s -> part_ok t p -> x ∈ pending (logs G t p) -> own_entry x = entry t p x.
Proof.
  intros H Hok Hx. apply (wf_entry t p N (logs G t p)); [by apply (h_wf _ _ _ H)|].
  apply elem_of_app. auto.
Qed.

(** What a flush writes: the entries of the pending messages. *)
Lemma buffered_entries N G s order k v :
  holds N G s -> valid_order order ->
  (k, v) ∈ map own_entry (buffered order s) <->
  exists t p x, part_ok t p /\ x ∈ pending (logs G t p) /\ (k, v) = entry t p x.
Proof.
  intros H Ho. rewrite list_elem_of_fmap. split.
  - intros (x & E & Hx). apply (buffered_pending N G s order x H Ho) in Hx as (t & p & Hok & Hx).
    exists t, p, x. by rewrite E, (pending_entry N G s t p x H Hok Hx).
  - intros (t & p & x & Hok & Hx & ->). exists x. rewrite (pending_entry N G s t p x H Hok Hx).
    split; [done|]. apply (buffered_pending N G s order x H Ho). eauto.
Qed.

(** Entries under one key are one message's. *)
Lemma stored_message_unique N G s t p x t' p' y k v v' :
  holds N G s -> N <= 2 ^ 63 -> part_ok t p -> part_ok t' p' ->
  x ∈ all_messages (logs G t p) -> y ∈ all_messages (logs G t' p') ->
  (k, v) = entry t p x -> (k, v') = entry t' p' y -> (t = t' /\ p = p') /\ x = y.
Proof.
  intros H HN Hok Hok' Hx Hy E E'. pose proof (h_wf _ _ _ H) as Hw.
  rewrite <- (wf_entry t p N _ x (Hw t p Hok) Hx) in E. rewrite <- (wf_entry t' p' N _ y (Hw t' p' Hok') Hy) in E'.
  apply (wf_key N G t p t' p' x y); auto. by rewrite <- E, <- E'.
Qed.

Lemma buffered_functional N G s order k v v' :
  holds N G s -> N <= 2 ^ 63 -> valid_order order ->
  (k, v) ∈ map own_entry (buffered order s) -> (k, v') ∈ map own_entry (buffered order s) -> v = v'.
Proof.
  intros H HN Ho Hk Hk'. apply (buffered_entries N G s order k v H Ho) in Hk as (t & p & x & Hok & Hx & E).
  apply (buffered_entries N G s order k v' H Ho) in Hk' as (t' & p' & y & Hok' & Hy & E').
  assert (Hxa : x ∈ all_messages (logs G t p)) by (apply elem_of_app; auto).
  assert (Hya : y ∈ all_messages (logs G t' p')) by (apply elem_of_app; auto).
  destruct (stored_message_unique N G s t p x t' p' y k v v' H HN Hok Hok' Hxa Hya E E') as [[-> ->] ->]. congruence.
Qed.

(** A partition's entries after a flush are those of its whole log. *)
Lemma flushed_store N G s order t p k v :
  holds N G s -> N <= 2 ^ 63 -> valid_order order -> part_ok t p ->
  put_all (map own_entry (buffered order s)) (contents (db s)) !! k = Some v /\
    makeMessagePrefix t p `prefix_of` k <->
  exists x, x ∈ saved (logs G t p) ++ pending (logs G t p) /\ (k, v) = entry t p x.
Proof.
  intros H HN Ho Hok.
  rewrite (put_all_lookup _ _ k v (fun v v' => buffered_functional N G s order k v v' H HN Ho)),
    (buffered_entries N G s order k v H Ho). split.
  - intros [[(t' & p' & x & Hok' & Hx & E)|[_ Hm]] Hp].
    + assert (t = t' /\ p = p') as [-> ->] by (injection E as -> _; by apply prefix_inj in Hp).
      exists x. rewrite elem_of_app. auto.
    + destruct (h_store _ _ _ H t p Hok k v) as [Hs _].
      destruct Hs as (x & Hx & E); [done|]. exists x. rewrite elem_of_app. auto.
  - intros (x & Hx & E). split; [|injection E as -> _; apply prefix_of_key].
    pose proof Hx as Hxa. apply elem_of_app in Hx as [Hx|Hx]; [|left; by exists t, p, x].
    destruct (decide (k ∈ (map own_entry (buffered order s)).*1)) as [Hk|Hk].
    + left. apply list_elem_of_fmap in Hk as ([k' v'] & -> & Hk).
      apply (buffered_entries N G s order k' v' H Ho) in Hk as (t' & p' & y & Hok' & Hy & E').
      assert (Hya : y ∈ all_messages (logs G t' p')) by (apply elem_of_app; auto).
      destruct (stored_message_unique N G s t p x t' p' y _ _ _ H HN Hok Hok' Hxa Hya E E') as [[-> ->] ->].
      by exists t', p', y.
    + right. split; [done|]. apply (h_store _ _ _ H t p Hok k v). by exists x.
Qed.

Lemma holds_flush N G s order d :
  holds N G s -> N <= 2 ^ 63 -> valid_order order ->
  contents d = put_all (map own_entry (buffered order s)) (contents (db s)) ->
  holds N (log_flush G) (set_db (set_buffer s ∅) d).
Proof.
  intros H HN Ho Hd. split; cbn [db partitionOffsets writeBuffer set_db set_buffer].
  - intros t p Hok. pose proof (h_wf _ _ _ H t p Hok) as Hw. unfold log_wf, all_messages in *. cbn.
    by rewrite app_nil_r.
  - intros t p Hok. apply (h_counter _ _ _ H t p Hok).
  - intros t p Hok. by rewrite lookup_empty.
  - intros k ms. by rewrite lookup_empty.
  - intros t p Hok k v. rewrite Hd. by apply (flushed_store N).
  - rewrite Hd. eapply stored_rest_frame; [..|exact (h_rest _ _ _ H)]; [done..|].
    intros k Hk. by apply put_all_other.
Qed.

(** ** Fetching *)

Lemma wp_fetch E t p l items count max acc :
  map item_pair items = map (entry t p) l -> Forall message_fits l ->
  wp E (fetch_loop items count max acc) (fun r =>
    r = acc ++ take (Z.to_nat (max - count)) (map fetched l)).
Proof.
  revert items count acc. induction l as [|x l IH]; intros [|i items] count acc Hi Hf; try done.
  - cbn. by rewrite take_nil, app_nil_r.
  - cbn [map] in Hi. injection Hi as _ Hv Hl. apply Forall_cons in Hf as [Hx Hf].
    cbn [fetch_loop]. destruct (Z.ltb_spec count max).
    + apply wp_value. rewrite Hv, <- (app_nil_r (message_wire x)), decodeMessage_wire, bind_ok by done.
      eapply wp_mono; [by apply IH|]. cbn beta. intros r ->. rewrite <- app_assoc.
      by replace (Z.to_nat (max - count)) with (S (Z.to_nat (max - (count + 1)))) by lia.
    + cbn [wp]. replace (Z.to_nat (max - count)) with 0%nat by lia. by rewrite app_nil_r.
Qed.

Lemma StronglySorted_filter {A} (R : A -> A -> Prop) (P : A -> Prop) `{!forall x, Decision (P x)} l :
  StronglySorted R l -> StronglySorted R (filter P l).
Proof.
  induction 1 as [|x l _ IH Hx]; [constructor|]. rewrite filter_cons.
  destruct (decide (P x)); [|done]. constructor; [done|]. by apply Forall_filter.
Qed.

Lemma wf_saved t p N l : log_wf t p N l ->
  Forall message_fits (all_messages l) /\ StronglySorted before (saved l) /\
  Forall (fun x => i64 (Timestamp x)) (all_messages l).
Proof.
  intros (_ & Hf & Hs). split_and!.
  - eapply Forall_impl; [exact Hf|]. by intros x (_ & ? & _).
  - by apply StronglySorted_app_1_l in Hs.
  - eapply Forall_impl; [exact Hf|]. by intros x (_ & _ & ?).
Qed.

Lemma fetch_saved E N G s t p start max :
  holds N G s -> N <= 2 ^ 63 -> part_ok t p -> start < 2 ^ 63 ->
  wp E (View (db s) (fun txn =>
      fetch_loop (seek (Iterate txn (makeMessagePrefix t p)) (makeMessageKey t p start)) 0 max []))
    (fun r => r = take (Z.to_nat max)
       (map fetched (filter (fun x => start <= Offset x) (saved (logs G t p))))).
Proof.
  intros H HN Hok Hst. apply wp_view. intros txn Htxn.
  pose proof (h_wf _ _ _ H t p Hok) as Hw.
  pose proof (wf_offsets _ _ _ _ HN Hw) as Ho. apply Forall_app in Ho as [Ho _].
  destruct (wf_saved _ _ _ _ Hw) as (Hf & Hs & _). apply Forall_app in Hf as [Hf _].
  pose proof (h_store _ _ _ H) as Hsto. rewrite <- Htxn in Hsto.
  pose proof (partition_items _ txn t p Hsto Hok Ho Hs) as Hitems.
  eapply wp_mono; [eapply wp_fetch; [by apply seek_items|by apply Forall_filter]|].
  cbn beta. intros r ->. by rewrite Z.sub_0_r.
Qed.

(** ** Retention *)

Definition delete_all (ks : list bytes) m : store := foldl (fun m k => delete k m) m ks.

Lemma delete_all_lookup ks m k :
  delete_all ks m !! k = if decide (k ∈ ks) then None else m !! k.
Proof.
  revert m. induction ks as [|k0 ks IH]; intros m; [done|].
  unfold delete_all. cbn [foldl]. fold (delete_all ks (delete k0 m)). rewrite IH.
  destruct (decide (k ∈ ks)) as [Hin|Hin].
  - by rewrite decide_True by by right.
  - destruct (decide (k = k0)) as [->|Hne].
    + by rewrite lookup_delete_eq, decide_True by left.
    + rewrite lookup_delete_ne, decide_False by (by rewrite ?not_elem_of_cons). done.
Qed.

Definition old_keys (t : bytes) (p cutoff : Z) (l : list Message) : list bytes :=
  map (fun x => makeMessageKey t p (Offset x)) (filter (fun x => Timestamp x < cutoff) l).

Lemma wp_old_keys E t p cutoff l items acc :
  map item_pair items = map (entry t p) l ->
  Forall message_fits l -> Forall (fun x => i64 (Timestamp x)) l ->
  wp E (for_each items acc (fun keys item =>
      val ← ItemValue item; msg ← decodeMessage val;
      Ok (if Timestamp msg <? cutoff then keys ++ [ItemKey item] else keys)))
    (fun r => r = acc ++ old_keys t p cutoff l).
Proof.
  revert items acc. induction l as [|x l IH]; intros [|i items] acc Hi Hf Ht; try done.
  - cbn. by rewrite app_nil_r.
  - cbn [map] in Hi. injection Hi as Hk Hv Hl.
    apply Forall_cons in Hf as [Hx Hf], Ht as [Htx Ht]. cbn [for_each]. rewrite bind_assoc.
    apply wp_value.
    rewrite Hv, <- (app_nil_r (message_wire x)), decodeMessage_wire, bind_ok by done.
    rewrite bind_ok. cbn [fetched Timestamp]. rewrite int64_small, Hk by done.
    eapply wp_mono; [by apply IH|]. cbn beta. intros r ->.
    unfold old_keys. rewrite filter_cons. destruct (Z.ltb_spec (Timestamp x) cutoff).
    + rewrite decide_True by done. cbn [map]. by rewrite <- app_assoc.
    + by rewrite decide_False by lia.
Qed.

Lemma wp_delete_keys E ks (txn : Txn) :
  Forall (fun k => k <> []) ks ->
  wp E (for_each ks (txn, 0) (fun '(txn, deleted) key =>
      txn ← TxnDelete txn key; Ok (txn, deleted + 1)))
    (fun r => snapshot r.1 = delete_all ks (snapshot txn) /\ r.2 = len ks).
Proof.
  intros Hks.
  enough (Hgen : forall n, wp E (for_each ks (txn, n) (fun '(txn, deleted) key =>
      txn ← TxnDelete txn key; Ok (txn, deleted + 1)))
    (fun r => snapshot r.1 = delete_all ks (snapshot txn) /\ r.2 = n + len ks)) by exact (Hgen 0).
  revert txn. induction Hks as [|k ks Hk _ IH]; intros txn n; cbn [for_each].
  - cbn. split; [done|]. len_lia.
  - rewrite bind_assoc. apply wp_delete; [done|]. intros t' Ht'. rewrite bind_ok.
    eapply wp_mono; [apply IH|]. intros [t2 n2] [H1 H2]. cbn [fst snd] in *.
    split; [by rewrite H1, Ht'|]. len_lia.
Qed.

Lemma DeleteOldMessages_served N G s now t p retentionMs :
  holds N G s -> N <= 2 ^ 63 -> part_ok t p ->
  served (db s) (db (DeleteOldMessages now s t p retentionMs).1,
      (DeleteOldMessages now s t p retentionMs).2) (fun _ => False)
    (fun m n =>
      m = delete_all (old_keys t p (int64 (now - retentionMs)) (saved (logs G t p))) (contents (db s)) /\
      n = len (filter (fun x => Timestamp x < int64 (now - retentionMs)) (saved (logs G t p)))).
Proof.
  intros H HN Hok. pose proof (h_wf _ _ _ H t p Hok) as Hw.
  pose proof (wf_offsets _ _ _ _ HN Hw) as Ho. apply Forall_app in Ho as [Ho _].
  destruct (wf_saved _ _ _ _ Hw) as (Hf & Hs & Ht).
  apply Forall_app in Hf as [Hf _], Ht as [Ht _].
  unfold DeleteOldMessages, on_db. cbv zeta. cbn [fst snd db set_db].
  match goal with |- served ?d (?x.1, ?x.2) ?E ?Q => change (served d (x.1, x.2) E Q) end.
  rewrite <- surjective_pairing. apply served_update. intros txn Htxn. apply wp_bind.
  rewrite seek_prefix. pose proof (h_store _ _ _ H) as Hsto. rewrite <- Htxn in Hsto.
  eapply wp_mono; [eapply wp_old_keys; [by eapply partition_items|done|done]|].
  cbn beta. intros ks ->. cbn [app]. eapply wp_mono; [apply wp_delete_keys|].
  - unfold old_keys. apply Forall_map, Forall_forall. done.
  - intros [t' n] [H1 H2]. cbn [fst snd] in *. rewrite H1, H2, Htxn. split; [done|].
    unfold old_keys, len. by rewrite length_map.
Qed.
End Representation.
