(* ===== verification/StreamBatch.v ===== *)
(** [AppendMessageBatch] groups its messages by partition and visits the groups
    in an unspecified order: it has the effect, and returns the offsets, of
    appending the messages one by one in the order they were given. *)
From stdpp Require Import base list numbers gmap sorting strings.
From Stdlib Require Import ZArith Lia.
From S2P Require Import Prelude GoBytes Fields Fmt Badger StreamCodec StreamStorage StreamKeys StreamLog.

(** ** The specification *)

(** Appending one by one; [clock i] is the time of the message of index [i]. *)
Fixpoint log_batch (clock : Z -> Z) (t : bytes) (i : Z) (messages : list PublishMessage)
    (G : slog) : slog * list Z :=
  match messages with
  | [] => (G, [])
  | msg :: messages =>
      let p := pmPartition msg in
      let G' := log_append G (clock i) t p (pmKey msg) (pmValue msg) in
      let '(G'', offsets) := log_batch clock t (i + 1) messages G' in
      (G'', next (logs G t p) :: offsets)
  end.

(** States that agree on every partition. *)
#[export] Instance slog_equiv : Equiv slog := fun G G' =>
  (forall t p, logs G t p = logs G' t p) /\ committed G = committed G' /\ topics G = topics G'.

#[export] Instance slog_equivalence : Equivalence (≡@{slog}).
Proof.
  split; [done|by intros G G' (? & ? & ?)|].
  intros G G' G'' (E1 & E2 & E3) (E4 & E5 & E6). split_and!; [|congruence..].
  intros. by rewrite E1.
Qed.

#[export] Instance holds_proper `{laws : BadgerLaws} N :
  Proper ((≡) ==> (=) ==> iff) (holds N).
Proof.
  enough (Hd : forall G G' s, G ≡ G' -> holds N G s -> holds N G' s)
    by (intros G G' E s _ <-; split; apply Hd; [|symmetry]; done).
  intros G G' s (E & Ec & Et) [H1 H2 H3 H4 H5 H6]. split; [..|exact H4| |].
  - intros t p ?. rewrite <- E. by apply H1.
  - intros t p ?. rewrite <- E. by apply H2.
  - intros t p ?. rewrite <- E. by apply H3.
  - intros t p Hok k v. rewrite <- E. by apply H5.
  - by apply (stored_rest_frame G G' (contents (db s))).
Qed.

(** ** Appending in some order *)

Section Order.
Context (clock : Z -> Z) (t : bytes).
Implicit Types (σ : list (PublishMessage * Z)).

Definition append_item (st : slog * list Z) (x : PublishMessage * Z) : slog * list Z :=
  let p := pmPartition x.1 in
  (log_append st.1 (clock x.2) t p (pmKey x.1) (pmValue x.1),
   <[Z.to_nat x.2 := next (logs st.1 t p)]> st.2).
Definition append_items σ (st : slog * list Z) : slog * list Z := foldl append_item st σ.

(** The items of a partition, and its log after them. *)
Definition mine (p : Z) σ : list (PublishMessage * Z) := filter (fun x => pmPartition x.1 = p) σ.
Definition extend_log (p : Z) (l : plog) σ : plog :=
  foldl (fun l x => mkLog (next l + 1) (saved l)
    (pending l ++ [mkMessage t p (next l) (pmKey x.1) (pmValue x.1) (clock x.2)])) l σ.

Lemma append_items_logs σ st t' p :
  logs (append_items σ st).1 t' p
  = if decide (t' = t) then extend_log p (logs st.1 t p) (mine p σ) else logs st.1 t' p.
Proof.
  revert st. induction σ as [|x σ IH]; intros st; [by destruct (decide _) as [->|]|].
  unfold append_items. cbn [foldl]. fold (append_items σ (append_item st x)). rewrite IH.
  unfold mine. rewrite filter_cons. cbn [append_item fst log_append update_log logs].
  destruct (decide (t' = t)) as [->|].
  - destruct (decide (pmPartition x.1 = p)) as [<-|Hne].
    + by rewrite decide_True.
    + rewrite decide_False; [done|]. intros [_ E]. by apply Hne.
  - rewrite decide_False; [done|]. by intros [E _].
Qed.

Lemma append_items_rest σ st :
  committed (append_items σ st).1 = committed st.1 /\ topics (append_items σ st).1 = topics st.1
  /\ length (append_items σ st).2 = length st.2.
Proof.
  revert st. induction σ as [|x σ IH]; intros st; [done|].
  unfold append_items. cbn [foldl]. fold (append_items σ (append_item st x)).
  destruct (IH (append_item st x)) as (-> & -> & ->). cbn. by rewrite length_insert.
Qed.

Lemma append_items_other σ st i :
  0 <= i -> Forall (fun x => 0 <= x.2) σ -> i ∉ σ.*2 ->
  (append_items σ st).2 !! Z.to_nat i = st.2 !! Z.to_nat i.
Proof.
  intros Hi. revert st. induction σ as [|x σ IH]; intros st Hp Hx; [done|].
  apply Forall_cons in Hp as [Hp0 Hp]. rewrite fmap_cons, not_elem_of_cons in Hx.
  unfold append_items. cbn [foldl]. fold (append_items σ (append_item st x)).
  rewrite IH by tauto. cbn. apply list_lookup_insert_ne. lia.
Qed.

(** The offset of an item: its rank among the items of its partition. *)
Lemma append_items_offset σ st m i j :
  NoDup (σ.*2) -> Forall (fun x => 0 <= x.2 < len st.2) σ ->
  mine (pmPartition m) σ !! j = Some (m, i) ->
  (append_items σ st).2 !! Z.to_nat i = Some (next (logs st.1 t (pmPartition m)) + Z.of_nat j).
Proof.
  revert st j. induction σ as [|x σ IH]; intros st j Hnd Hb Hj; [done|].
  rewrite fmap_cons in Hnd. apply NoDup_cons in Hnd as [Hx Hnd].
  apply Forall_cons in Hb as [Hx0 Hb].
  unfold append_items. cbn [foldl]. fold (append_items σ (append_item st x)).
  assert (Hb' : Forall (fun x => 0 <= x.2 < len (append_item st x).2) σ).
  { unfold len in *. cbn. eapply Forall_impl; [exact Hb|]. intros y. by rewrite length_insert. }
  unfold mine in Hj. rewrite filter_cons in Hj. fold (mine (pmPartition m) σ) in Hj.
  destruct (decide (pmPartition x.1 = pmPartition m)) as [Ep|Ep].
  - destruct j as [|j].
    + injection Hj as ->. rewrite append_items_other; [|cbn in *; lia| |done].
      * cbn. rewrite Z.add_0_r. apply list_lookup_insert_eq. unfold len in *. cbn in *. lia.
      * eapply Forall_impl; [exact Hb|]. cbn. lia.
    + cbn in Hj. rewrite (IH _ j) by (eauto; clear -Hb; cbn in *; unfold len in *; rewrite length_insert; done).
      cbn [append_item fst log_append update_log logs]. rewrite decide_True by done.
      cbn [next]. rewrite Ep. f_equal. lia.
  - rewrite (IH _ j) by (eauto; clear -Hb; cbn in *; unfold len in *; rewrite length_insert; done).
    cbn [append_item fst log_append update_log logs].
    by rewrite decide_False by (intros [_ E]; by rewrite E in Ep).
Qed.
End Order.

(** ** The groups *)

(** Messages with their indices, from [i]. *)
Fixpoint enum {A} (i : Z) (l : list A) : list (A * Z) :=
  match l with [] => [] | x :: l => (x, i) :: enum (i + 1) l end.

Lemma enum_bounds {A} i (l : list A) : Forall (fun x => i <= x.2 < i + len l) (enum i l).
Proof.
  revert i. induction l as [|x l IH]; intros i; cbn [enum]; constructor.
  - cbn. len_lia.
  - eapply Forall_impl; [apply IH|]. cbn beta. intros y. len_lia.
Qed.

Lemma enum_nodup {A} i (l : list A) : NoDup ((enum i l).*2).
Proof.
  revert i. induction l as [|x l IH]; intros i; cbn [enum]; rewrite ?fmap_cons; constructor; [|done].
  intros Hi. apply list_elem_of_fmap in Hi as (y & E & Hy).
  pose proof (enum_bounds (i + 1) l) as Hb. rewrite Forall_forall in Hb. apply Hb in Hy.
  cbn in *. lia.
Qed.

Lemma enum_lookup {A} i (l : list A) k x :
  l !! k = Some x -> (x, i + Z.of_nat k) ∈ enum i l.
Proof.
  revert i k. induction l as [|y l IH]; intros i [|k] Hk; try done; cbn [enum].
  - injection Hk as ->. rewrite Z.add_0_r. by left.
  - right. replace (i + Z.of_nat (S k)) with (i + 1 + Z.of_nat k) by lia. by apply IH.
Qed.

Lemma enum_same {A} i (l : list A) x y n : (x, n) ∈ enum i l -> (y, n) ∈ enum i l -> x = y.
Proof.
  intros Hx Hy. apply list_elem_of_lookup in Hx as [a Ha], Hy as [b Hb].
  pose proof (enum_nodup i l) as Hnd. rewrite NoDup_alt in Hnd.
  assert (a = b) as -> by (apply (Hnd a b n); by rewrite list_lookup_fmap, ?Ha, ?Hb).
  congruence.
Qed.

Lemma group_messages_lookup i l g p :
  default [] (group_messages i l g !! p) = default [] (g !! p) ++ mine p (enum i l).
Proof.
  revert i g. induction l as [|x l IH]; intros i g; cbn [group_messages enum].
  - by rewrite app_nil_r.
  - rewrite IH. unfold mine. rewrite filter_cons. cbn [fst].
    destruct (decide (pmPartition x = p)) as [->|Hne].
    + rewrite lookup_insert_eq. cbn. by rewrite <- app_assoc.
    + by rewrite lookup_insert_ne.
Qed.

(** What the loops over the groups rely on, of the groups they visit. *)
Definition groups_of (l : list PublishMessage) (gs : list (Z * list (PublishMessage * Z))) : Prop :=
  NoDup (gs.*1) /\ (forall p items, (p, items) ∈ gs -> items = mine p (enum 0 l)) /\
  (forall p, p ∉ gs.*1 -> mine p (enum 0 l) = []).

Definition valid_groups (order : group_map -> list (Z * list (PublishMessage * Z))) : Prop :=
  forall groups, order groups ≡ₚ map_to_list groups.

Lemma groups_of_order order l :
  valid_groups order -> groups_of l (order (group_messages 0 l ∅)).
Proof.
  intros Ho. pose proof (Ho (group_messages 0 l ∅)) as HP.
  assert (Hg : forall p, default [] (group_messages 0 l ∅ !! p) = mine p (enum 0 l))
    by (intros; by rewrite group_messages_lookup, lookup_empty).
  split_and!.
  - rewrite HP. apply NoDup_fst_map_to_list.
  - intros p items Hp. rewrite HP, elem_of_map_to_list in Hp. by rewrite <- Hg, Hp.
  - intros p Hp. rewrite <- Hg. destruct (_ !! p) as [items|] eqn:E; [|done].
    destruct Hp. rewrite HP. apply (list_elem_of_fmap_2' fst _ (p, items)); [|done].
    by apply elem_of_map_to_list.
Qed.

Lemma elem_of_mine p σ x : x ∈ mine p σ <-> pmPartition x.1 = p /\ x ∈ σ.
Proof. unfold mine. by rewrite list_elem_of_filter. Qed.

Lemma mine_all p σ : Forall (fun x => pmPartition x.1 = p) σ -> mine p σ = σ.
Proof. apply filter_all. Qed.

Lemma mine_none p q σ : p <> q -> Forall (fun x => pmPartition x.1 = q) σ -> mine p σ = [].
Proof.
  intros Hne. induction 1 as [|x σ Hx _ IH]; [done|]. unfold mine.
  rewrite filter_cons, decide_False; [done|]. rewrite Hx. congruence.
Qed.

Lemma mine_app p σ σ' : mine p (σ ++ σ') = mine p σ ++ mine p σ'.
Proof. apply filter_app. Qed.

Lemma mine_partition p σ : Forall (fun x => pmPartition x.1 = p) (mine p σ).
Proof. apply Forall_forall. intros x Hx. by apply elem_of_mine in Hx as [? _]. Qed.

Lemma mine_nodup p σ : NoDup (σ.*2) -> NoDup ((mine p σ).*2).
Proof.
  induction σ as [|x σ IH]; [done|]. rewrite fmap_cons. intros Hnd.
  apply NoDup_cons in Hnd as [Hx Hnd]. unfold mine. rewrite filter_cons. fold (mine p σ).
  destruct (decide _); [|by apply IH]. rewrite fmap_cons. apply NoDup_cons. split; [|by apply IH].
  intros Hin. apply Hx. apply list_elem_of_fmap in Hin as (y & -> & Hy).
  apply elem_of_mine in Hy as [_ Hy]. by apply list_elem_of_fmap_2.
Qed.

(** The concatenated groups keep the order within each partition. *)
Lemma mine_concat l (gs : list (Z * list (PublishMessage * Z))) p :
  NoDup (gs.*1) -> (forall p items, (p, items) ∈ gs -> items = mine p (enum 0 l)) ->
  mine p (concat (gs.*2)) = if decide (p ∈ gs.*1) then mine p (enum 0 l) else [].
Proof.
  induction gs as [|[q items] gs IH]; intros Hnd Hg; [done|].
  rewrite !fmap_cons in *. cbn [fst snd concat] in *. apply NoDup_cons in Hnd as [Hq Hnd].
  rewrite mine_app, IH by (done || (intros; apply Hg; by right)).
  rewrite (Hg q items) by left. destruct (decide (p = q)) as [->|Hne].
  - rewrite (decide_False (P := q ∈ gs.*1)), decide_True by (done || left).
    rewrite app_nil_r. apply mine_all, mine_partition.
  - rewrite (mine_none p q _ Hne (mine_partition q _)).
    destruct (decide (p ∈ gs.*1)) as [Hp|Hp].
    + by rewrite decide_True by (by right).
    + by rewrite decide_False by (by rewrite not_elem_of_cons).
Qed.

Lemma concat_elem l (gs : list (Z * list (PublishMessage * Z))) x :
  (forall p items, (p, items) ∈ gs -> items = mine p (enum 0 l)) ->
  x ∈ concat (gs.*2) -> x ∈ enum 0 l /\ pmPartition x.1 ∈ gs.*1.
Proof.
  intros Hg Hx. rewrite list_elem_of_In, in_concat in Hx. destruct Hx as (items & Hi & Hx).
  apply list_elem_of_In in Hi, Hx. apply list_elem_of_fmap in Hi as ([p items'] & -> & Hi).
  cbn in Hx. rewrite (Hg p items' Hi) in Hx. apply elem_of_mine in Hx as [Hp Hx].
  split; [done|]. rewrite Hp. by apply (list_elem_of_fmap_2' fst _ (p, items')).
Qed.

Lemma concat_nodup l (gs : list (Z * list (PublishMessage * Z))) :
  NoDup (gs.*1) -> (forall p items, (p, items) ∈ gs -> items = mine p (enum 0 l)) ->
  NoDup ((concat (gs.*2)).*2).
Proof.
  induction gs as [|[q items] gs IH]; intros Hnd Hg; [constructor|].
  rewrite !fmap_cons in *. cbn [fst snd concat] in *. apply NoDup_cons in Hnd as [Hq Hnd].
  assert (Hg' : forall p items, (p, items) ∈ gs -> items = mine p (enum 0 l))
    by (intros; apply Hg; by right).
  rewrite fmap_app. apply NoDup_app. split_and!; [| |by apply IH].
  - rewrite (Hg q items) by left. apply mine_nodup, enum_nodup.
  - intros n Hn Hn'. apply list_elem_of_fmap in Hn as ([m n'] & -> & Hm), Hn' as ([m' n''] & E & Hm').
    cbn in E. subst n''.
    rewrite (Hg q items) in Hm by left. apply elem_of_mine in Hm as [Hp Hm].
    apply (concat_elem l gs _ Hg') in Hm' as [Hm' Hp']. cbn in *.
    apply Hq. rewrite <- Hp. by rewrite (enum_same 0 l m m' n').
Qed.

(** ** Any order of the groups has the effect of the order of the messages *)

Lemma log_batch_items clock t i l G offs :
  length offs = (Z.to_nat i + length l)%nat -> 0 <= i ->
  append_items clock t (enum i l) (G, offs)
  = ((log_batch clock t i l G).1, take (Z.to_nat i) offs ++ (log_batch clock t i l G).2).
Proof.
  revert i G offs. induction l as [|x l IH]; intros i G offs Hl Hi; cbn [enum log_batch].
  - cbn in *. rewrite app_nil_r, take_ge by lia. done.
  - change (append_items clock t ((x, i) :: enum (i + 1) l) (G, offs))
      with (append_items clock t (enum (i + 1) l) (append_item clock t (G, offs) (x, i))).
    unfold append_item. cbn [fst snd length] in *. rewrite IH by (rewrite ?length_insert; lia).
    destruct (log_batch clock t (i + 1) l _) as [G' os]. cbn [fst snd]. f_equal.
    replace (Z.to_nat (i + 1)) with (S (Z.to_nat i)) by lia.
    rewrite (take_S_r _ _ (next (logs G t (pmPartition x)))).
    + rewrite take_insert_ge by lia. by rewrite <- app_assoc.
    + apply list_lookup_insert_eq. lia.
Qed.

Lemma length_log_batch clock t i l G : length (log_batch clock t i l G).2 = length l.
Proof.
  revert i G. induction l as [|x l IH]; intros i G; cbn [log_batch]; [done|].
  specialize (IH (i + 1) (log_append G (clock i) t (pmPartition x) (pmKey x) (pmValue x))).
  destruct (log_batch clock t (i + 1) l _) as [G' os]. cbn in *. by rewrite IH.
Qed.

Lemma any_order clock t l gs G :
  groups_of l gs ->
  let st := append_items clock t (concat (gs.*2)) (G, replicate (length l) 0) in
  st.1 ≡ (log_batch clock t 0 l G).1 /\ st.2 = (log_batch clock t 0 l G).2.
Proof.
  intros (Hnd & Hg & Hn) st.
  assert (Hmine : forall p, mine p (concat (gs.*2)) = mine p (enum 0 l)).
  { intros p. rewrite (mine_concat l) by done. destruct (decide _); [done|]. by rewrite Hn. }
  pose proof (log_batch_items clock t 0 l G (replicate (length l) 0)) as E.
  rewrite length_replicate in E. specialize (E eq_refl ltac:(lia)). cbn [take Z.to_nat app] in E.
  set (st' := append_items clock t (enum 0 l) (G, replicate (length l) 0)) in *.
  replace (log_batch clock t 0 l G) with st' by (rewrite E; by destruct (log_batch _ _ _ _ _)).
  destruct (append_items_rest clock t (concat (gs.*2)) (G, replicate (length l) 0)) as (Ec & Et & El).
  destruct (append_items_rest clock t (enum 0 l) (G, replicate (length l) 0)) as (Ec' & Et' & El').
  fold st in Ec, Et, El. fold st' in Ec', Et', El'. split.
  - split_and!; [|congruence..]. intros t' p. unfold st, st'. rewrite !append_items_logs.
    by rewrite Hmine.
  - assert (Hb : Forall (fun x => 0 <= x.2 < len (replicate (length l) 0)) (enum 0 l)).
    { eapply Forall_impl; [apply enum_bounds|]. unfold len. rewrite length_replicate. cbn. lia. }
    apply list_eq. intros k. destruct (decide (k < length l)%nat) as [Hk|Hk].
    2: { cbn in El, El'. rewrite length_replicate in El, El'. rewrite !lookup_ge_None_2 by lia. done. }
    apply lookup_lt_is_Some in Hk as [m Hm]. pose proof (enum_lookup 0 l k m Hm) as Hin.
    rewrite Z.add_0_l in Hin.
    assert (Hin' : (m, Z.of_nat k) ∈ mine (pmPartition m) (enum 0 l)) by (by apply elem_of_mine).
    apply list_elem_of_lookup in Hin' as [j Hj]. rewrite <- (Nat2Z.id k).
    unfold st, st'. rewrite !(append_items_offset clock t _ _ m (Z.of_nat k) j); [done|..].
    + apply enum_nodup.
    + done.
    + done.
    + by apply (concat_nodup l).
    + apply Forall_forall. intros x Hx. apply (concat_elem l gs x Hg) in Hx as [Hx _].
      rewrite Forall_forall in Hb. by apply Hb.
    + by rewrite Hmine.
Qed.
