(* ===== verification/StreamRefine.v ===== *)
(** The stream storage implements logs: the specification of its operations
    and the refinement, over any sequence of operations and any order of the
    loops over Go maps. *)
From stdpp Require Import base list numbers gmap sorting strings.
From Stdlib Require Import ZArith Lia.
From S2P Require Import Prelude GoBytes Fields Fmt Badger StreamCodec StreamStorage StreamKeys StreamLog StreamBatch.

(** ** The specification *)

Inductive SOp : Type :=
| SAppend (now : Z) (t : bytes) (p : Z) (key value : bytes)
| SBatch (clock : Z -> Z) (order : group_map -> list (Z * list (PublishMessage * Z)))
    (t : bytes) (messages : list PublishMessage)
| STick (order : range_order)
| SSignal (order : range_order)
| SRun (order : range_order)
| SFetch (order : range_order) (t : bytes) (p start max : Z)
| SOffset (t : bytes) (p : Z)
| SDelete (now : Z) (t : bytes) (p retentionMs : Z)
| SCommit (now : Z) (g t : bytes) (p offset : Z)
| SCommitted (g t : bytes) (p : Z)
| SCreate (meta : TopicMetadata)
| STopic (t : bytes).

Inductive SReply : Type :=
| SDone
| SNumber (n : Z)
| SNumbers (l : list Z)
| SMessages (l : list Message)
| SMeta (meta : TopicMetadata).

(** What an operation may do and answer.  A signal or a started goroutine
    flushes if it was there. *)
Definition stream_spec (G : slog) (op : SOp) (G' : slog) (r : result SReply) : Prop :=
  match op with
  | SAppend now t p key value =>
      G' = log_append G now t p key value /\ r = Ok (SNumber (next (logs G t p)))
  | SBatch clock _ t messages =>
      G' = (log_batch clock t 0 messages G).1 /\ r = Ok (SNumbers (log_batch clock t 0 messages G).2)
  | STick _ => G' = log_flush G /\ r = Ok SDone
  | SSignal _ | SRun _ => (G' = G \/ G' = log_flush G) /\ r = Ok SDone
  | SFetch _ t p start max => G' = log_flush G /\ r = Ok (SMessages (log_fetch G t p start max))
  | SOffset t p => G' = G /\ r = Ok (SNumber (next (logs G t p) - 1))
  | SDelete now t p retentionMs =>
      let cutoff := int64 (now - retentionMs) in
      G' = log_retain G t p cutoff /\
      r = Ok (SNumber (len (filter (fun x => Timestamp x < cutoff) (saved (logs G t p)))))
  | SCommit _ g t p offset => G' = log_commit G g t p offset /\ r = Ok SDone
  | SCommitted g t p => G' = G /\ r = Ok (SNumber (committed G g t p))
  | SCreate meta => G' = log_topic G meta /\ r = Ok SDone
  | STopic t => G' = G /\
      r = match topics G t with Some meta => Ok (SMeta (reloaded meta)) | None => Err ErrKeyNotFound end
  end.

(** The messages an operation appends. *)
Definition appends (op : SOp) : Z :=
  match op with SAppend _ _ _ _ _ => 1 | SBatch _ _ _ messages => len messages | _ => 0 end.

(** Names without colons, lengths that fit, times and offsets of Go's [int64]. *)
Definition op_ok (op : SOp) : Prop :=
  match op with
  | SAppend now t p key value => part_ok t p /\ short key /\ long value /\ i64 now
  | SBatch clock order t messages => valid_groups order /\ name_ok t /\
      Forall (fun m => 0 <= pmPartition m /\ short (pmKey m) /\ long (pmValue m)) messages /\
      forall i, 0 <= i < len messages -> i64 (clock i)
  | STick order | SSignal order | SRun order => valid_order order
  | SFetch order t p start max => valid_order order /\ part_ok t p /\ i64 start /\ 0 <= max
  | SOffset t p | SDelete _ t p _ => part_ok t p
  | SCommit now g t p offset => name_ok g /\ part_ok t p /\ i64 offset
  | SCommitted g t p => name_ok g /\ part_ok t p
  | SCreate meta => topic_fits meta
  | STopic _ => True
  end.

(** ** The operations of the code *)

Section Exec.
Context {bdg : Badger}.

Definition with_sreply {A} (k : A -> SReply) (x : StreamStorage * result A)
    : StreamStorage * result SReply := (x.1, a ← x.2; Ok (k a)).

Definition stream_exec (s : StreamStorage) (op : SOp) : StreamStorage * result SReply :=
  match op with
  | SAppend now t p key value => with_sreply SNumber (AppendMessage now s t p key value)
  | SBatch clock order t messages => with_sreply SNumbers (AppendMessageBatch clock order s t messages)
  | STick order => with_sreply (fun _ => SDone) (worker_tick order s)
  | SSignal order => with_sreply (fun _ => SDone) (worker_signal order s)
  | SRun order => with_sreply (fun _ => SDone) (run_flush order s)
  | SFetch order t p start max => with_sreply SMessages (FetchMessages order s t p start max)
  | SOffset t p => with_sreply SNumber (GetOffset s t p)
  | SDelete now t p ret => with_sreply SNumber (DeleteOldMessages now s t p ret)
  | SCommit now g t p offset => with_sreply (fun _ => SDone) (CommitOffset now s g t p offset)
  | SCommitted g t p => with_sreply SNumber (s, GetConsumerOffset s g t p)
  | SCreate meta => with_sreply (fun _ => SDone) (CreateTopic s meta)
  | STopic t => with_sreply SMeta (s, GetTopicMetadata s t)
  end.

Fixpoint stream_run (s : StreamStorage) (ops : list SOp) : StreamStorage * list (result SReply) :=
  match ops with
  | [] => (s, [])
  | op :: ops =>
      let '(s, r) := stream_exec s op in
      let '(s, rs) := stream_run s ops in (s, r :: rs)
  end.
End Exec.

(** ** Each operation *)

Section Operations.
Context {bdg : Badger} {laws : BadgerLaws}.
Implicit Types (s : StreamStorage) (G : slog).

(** The fields that only count flushes do not matter. *)
Lemma holds_flushes N G s n ch : holds N G s -> holds N G (set_flushes s n ch).
Proof. intros [H1 H2 H3 H4 H5 H6]. by split. Qed.

Lemma holds_mono N N' G s : N <= N' -> holds N G s -> holds N' G s.
Proof.
  intros HN [H1 H2 H3 H4 H5 H6]. split; try done. intros t p Hok.
  destruct (H1 t p Hok) as ([? ?] & Hf & Hs). split_and!; [lia|lia|done|done].
Qed.

Definition item_ok (clock : Z -> Z) (x : PublishMessage * Z) : Prop :=
  0 <= pmPartition x.1 /\ short (pmKey x.1) /\ long (pmValue x.1) /\ i64 (clock x.2).

Lemma batch_items_holds N G s clock t p items offs :
  holds N G s -> N + len items <= 2 ^ 63 -> name_ok t ->
  Forall (fun x => pmPartition x.1 = p) items -> Forall (item_ok clock) items ->
  exists s', batch_items clock t p items s offs = (s', Ok (append_items clock t items (G, offs)).2) /\
    holds (N + len items) (append_items clock t items (G, offs)).1 s'.
Proof.
  revert N G s offs. induction items as [|[m i] items IH]; intros N G s offs H HN Ht Hp Hi.
  - exists s. split; [done|]. by rewrite len_nil, Z.add_0_r.
  - apply Forall_cons in Hp as [Hm Hp], Hi as [(Hpos & Hk & Hv & Hc) Hi]. cbn in Hm, Hpos, Hk, Hv, Hc. subst p.
    rewrite len_cons in HN. pose proof (len_nonneg items).
    destruct (buffer_message_holds N G s (clock i) t (pmPartition m) (pmKey m) (pmValue m))
      as (s1 & E1 & H1); [done|lia|done|done..|].
    cbn [batch_items batch_item]. rewrite E1.
    destruct (IH (N + 1) (log_append G (clock i) t (pmPartition m) (pmKey m) (pmValue m)) s1
      (<[Z.to_nat i := next (logs G t (pmPartition m))]> offs)) as (s2 & E2 & H2); [done|lia|done..|].
    exists s2. split; [exact E2|]. rewrite len_cons, Z.add_assoc. exact H2.
Qed.

Lemma batch_groups_holds N G s clock t gs offs :
  holds N G s -> N + len (concat (gs.*2)) <= 2 ^ 63 -> name_ok t ->
  Forall (fun g => Forall (fun x => pmPartition x.1 = g.1 /\ item_ok clock x) g.2) gs ->
  exists s', batch_groups clock t gs s offs = (s', Ok (append_items clock t (concat (gs.*2)) (G, offs)).2) /\
    holds (N + len (concat (gs.*2))) (append_items clock t (concat (gs.*2)) (G, offs)).1 s'.
Proof.
  revert N G s offs. induction gs as [|[p items] gs IH]; intros N G s offs H HN Ht Hg.
  - exists s. split; [done|]. cbn. by rewrite len_nil, Z.add_0_r.
  - apply Forall_cons in Hg as [Hi Hg]. cbn in Hi. apply Forall_and in Hi as [Hp Hi].
    rewrite fmap_cons in *. cbn [snd concat] in *. rewrite len_app in *.
    pose proof (len_nonneg (concat (gs.*2))).
    destruct (batch_items_holds N G s clock t p items offs) as (s1 & E1 & H1); [done|lia|done..|].
    cbn [batch_groups]. rewrite E1.
    destruct (append_items clock t items (G, offs)) as [G1 offs1] eqn:E. cbn [fst snd] in *.
    destruct (IH (N + len items) G1 s1 offs1) as (s2 & E2 & H2); [done|lia|done..|].
    exists s2. rewrite E2. unfold append_items in *. rewrite foldl_app, E, Z.add_assoc. done.
Qed.

Lemma AppendMessageBatch_holds N G s clock order t l :
  holds N G s -> N + len l <= 2 ^ 63 -> op_ok (SBatch clock order t l) ->
  exists s', AppendMessageBatch clock order s t l = (s', Ok (log_batch clock t 0 l G).2) /\
    holds (N + len l) (log_batch clock t 0 l G).1 s'.
Proof.
  intros H HN (Ho & Ht & Hl & Hc). pose proof (groups_of_order order l Ho) as Hgs.
  unfold AppendMessageBatch. set (gs := order (group_messages 0 l ∅)) in *.
  pose proof (any_order clock t l gs G Hgs) as [HG Hoff]. destruct Hgs as (Hnd & Hg & Hn).
  assert (Hall : forall x, x ∈ enum 0 l -> item_ok clock x).
  { intros [m i] Hx. assert (m ∈ l) as Hm.
    { clear -Hx. revert Hx. generalize 0. induction l as [|y l IH]; intros z Hx; cbn [enum] in Hx.
      - by apply not_elem_of_nil in Hx.
      - apply elem_of_cons in Hx as [[= -> _]|Hx]; [by left|right; by eapply IH]. }
    rewrite Forall_forall in Hl. destruct (Hl m Hm) as (? & ? & ?).
    split_and!; [done..|]. apply Hc. pose proof (enum_bounds 0 l) as Hb.
    rewrite Forall_forall in Hb. by apply Hb in Hx. }
  assert (Hlen : len (concat (gs.*2)) <= len l).
  { unfold len. apply inj_le. rewrite <- (length_fmap snd).
    transitivity (length ((enum 0 l).*2)).
    - apply submseteq_length, NoDup_submseteq; [by apply (concat_nodup l)|]. intros n Hin.
      apply list_elem_of_fmap in Hin as (x & -> & Hx).
      apply (concat_elem l gs x Hg) in Hx as [Hx _]. by apply list_elem_of_fmap_2.
    - rewrite length_fmap. clear. generalize 0. induction l as [|y l IH]; intros z; cbn; [done|].
      specialize (IH (z + 1)). lia. }
  destruct (batch_groups_holds N G s clock t gs (replicate (length l) 0)) as (s' & E & H').
  - done.
  - lia.
  - done.
  - apply Forall_forall. intros [p items] Hp. apply Forall_forall. intros x Hx. cbn in *.
    rewrite (Hg p items Hp) in Hx. apply elem_of_mine in Hx as [? ?]. auto.
  - rewrite E. eexists. split; [by rewrite <- Hoff|].
    rewrite HG in H'. apply (holds_mono _ (N + len l)) in H'; [|lia].
    destruct (1000 <=? _); [by apply holds_flushes|done].
Qed.

Lemma AppendMessage_holds N G s now t p key value :
  holds N G s -> N < 2 ^ 63 -> op_ok (SAppend now t p key value) ->
  exists s', AppendMessage now s t p key value = (s', Ok (next (logs G t p))) /\
    holds (N + 1) (log_append G now t p key value) s'.
Proof.
  intros H HN (Hok & Hk & Hv & Hnow).
  destruct (buffer_message_holds N G s now t p key value) as (s' & E & H'); [done..|].
  unfold AppendMessage. rewrite E. eexists. split; [done|].
  destruct (1000 <=? _); [by apply holds_flushes|done].
Qed.

Lemma stored_logs_frame f m m' :
  (forall k, message_key k -> m' !! k = m !! k) -> stored_logs f m -> stored_logs f m'.
Proof.
  intros Hk Hs t p Hok k v. rewrite <- (Hs t p Hok k v).
  split; intros [Hm Hp]; (split; [|done]).
  - rewrite <- Hk; [done|]. destruct Hp as [r ->]. by eexists.
  - rewrite Hk; [done|]. destruct Hp as [r ->]. by eexists.
Qed.

Lemma holds_retain N G s t p cutoff d :
  holds N G s -> N <= 2 ^ 63 -> part_ok t p ->
  contents d = delete_all (old_keys t p cutoff (saved (logs G t p))) (contents (db s)) ->
  holds N (log_retain G t p cutoff) (set_db s d).
Proof.
  intros H HN Hok Hd. pose proof (h_wf _ _ _ H) as Hw. split; cbn [db partitionOffsets writeBuffer set_db].
  - intros t' p' Hok'. specialize (Hw t' p' Hok'). cbn. destruct (decide _) as [[-> ->]|]; [|done].
    destruct Hw as (Hn & Hf & Hs). unfold log_wf, all_messages in *. cbn.
    apply Forall_app in Hf as [Hf Hf']. apply StronglySorted_app in Hs as (Hlt & Hs & Hs').
    split_and!; [lia|lia| |].
    + apply Forall_app. split; [by apply Forall_filter|done].
    + apply StronglySorted_app. split_and!; [|by apply StronglySorted_filter|done].
      intros x y Hx Hy. apply list_elem_of_filter in Hx as [_ Hx]. by apply Hlt.
  - intros t' p' Hok'. rewrite (h_counter _ _ _ H t' p' Hok'). cbn. by destruct (decide _) as [[-> ->]|].
  - intros t' p' Hok'. rewrite (h_buffer _ _ _ H t' p' Hok'). cbn. by destruct (decide _) as [[-> ->]|].
  - exact (h_keys _ _ _ H).
  - intros t' p' Hok' k v. rewrite Hd, delete_all_lookup.
    assert (Hdel : forall x, x ∈ saved (logs G t' p') ->
      makeMessageKey t' p' (Offset x) ∈ old_keys t p cutoff (saved (logs G t p)) <->
      ((t' = t /\ p' = p) /\ Timestamp x < cutoff)).
    { intros x Hx. unfold old_keys. rewrite list_elem_of_fmap. split.
      - intros (y & E & Hy). apply list_elem_of_filter in Hy as [Hold Hy].
        destruct (wf_key N G t' p' t p x y) as [? ->]; auto.
        1,2: by apply elem_of_app; left.
        rewrite (wf_entry t' p' N _ x (Hw t' p' Hok')), (wf_entry t p N _ y (Hw t p Hok))
          by (by apply elem_of_app; left). exact E.
      - intros [[-> ->] Hold]. exists x. split; [done|]. by apply list_elem_of_filter. }
    pose proof (h_store _ _ _ H t' p' Hok' k v) as Hs. split.
    + intros [Hm Hp]. destruct (decide (k ∈ old_keys t p cutoff (saved (logs G t p)))) as [|Hk]; [done|].
      destruct Hs as [Hs _]. destruct Hs as (x & Hx & E); [done|]. exists x. split; [|done].
      cbn. destruct (decide _) as [[-> ->]|]; [|done]. apply list_elem_of_filter. split; [|done].
      injection E as -> _. rewrite (Hdel x Hx) in Hk.
      apply Z.nlt_ge. intros Hold. apply Hk. by split.
    + intros (x & Hx & E). cbn in Hx.
      assert (Hx' : x ∈ saved (logs G t' p') /\ ~ ((t' = t /\ p' = p) /\ Timestamp x < cutoff)).
      { destruct (decide _) as [[-> ->]|]; [|by split; [|tauto]].
        apply list_elem_of_filter in Hx as [? ?]. split; [done|]. intros [_ ?]. lia. }
      destruct Hx' as [Hx' Hkeep]. destruct Hs as [_ Hs]. destruct Hs as [Hm Hp]; [by exists x|].
      split; [|done]. rewrite decide_False; [done|]. injection E as -> _. by rewrite (Hdel x Hx').
  - rewrite Hd. eapply stored_rest_frame; [..|exact (h_rest _ _ _ H)]; [done..|].
    intros k Hk. rewrite delete_all_lookup. rewrite decide_False; [done|]. intros Hin.
    apply list_elem_of_fmap in Hin as (x & -> & _). apply Hk. by eexists.
Qed.

(** A write outside the message keys. *)
Lemma holds_rest N G G' s d k v :
  holds N G s -> logs G' = logs G -> ~ message_key k ->
  contents d = <[k := v]> (contents (db s)) -> stored_rest G' (contents d) ->
  holds N G' (set_db s d).
Proof.
  intros [H1 H2 H3 H4 H5 H6] El Hk Hd Hr. split; cbn [db partitionOffsets writeBuffer set_db];
    rewrite ?El; try done.
  eapply stored_logs_frame; [|exact H5]. intros k' Hk'. rewrite Hd, lookup_insert_ne; [done|].
  by intros <-.
Qed.

Lemma stored_commit G m now g t p offset :
  name_ok g -> part_ok t p -> i64 offset -> stored_rest G m ->
  stored_rest (log_commit G g t p offset)
    (<[makeConsumerOffsetKey g t p := be64 offset ++ be64 now]> m).
Proof.
  intros Hg Hok Hoff (H1 & H2 & H3). split_and!.
  - intros. by rewrite lookup_insert_ne.
  - intros t'. rewrite lookup_insert_ne by done. apply H2.
  - intros g' t' p' Hg' Hok'. cbn. destruct (decide _) as [(-> & -> & ->)|Hne].
    + right. exists now. by rewrite lookup_insert_eq.
    + rewrite lookup_insert_ne; [by apply H3|]. intros E.
      apply consumerKey_inj in E as (-> & -> & ->); naive_solver.
Qed.

Lemma stored_topic G m meta :
  topic_fits meta -> stored_rest G m ->
  stored_rest (log_topic G meta) (<[makeTopicMetaKey (Name meta) := topic_wire meta]> m).
Proof.
  intros Hf (H1 & H2 & H3). split_and!.
  - intros. by rewrite lookup_insert_ne.
  - intros t. cbn. destruct (decide (t = Name meta)) as [->|Hne].
    + by rewrite lookup_insert_eq.
    + rewrite lookup_insert_ne; [apply H2|]. intros E. by apply topicKey_inj in E.
  - intros g t p ? ?. rewrite lookup_insert_ne by done. by apply H3.
Qed.

Lemma CommitOffset_served s now g t p offset :
  served (db s) (db (CommitOffset now s g t p offset).1, (CommitOffset now s g t p offset).2)
    (fun _ => False)
    (fun m _ => m = <[makeConsumerOffsetKey g t p := be64 offset ++ be64 now]> (contents (db s))).
Proof.
  unfold CommitOffset, on_db. cbn [fst snd db set_db].
  match goal with |- served ?d (?x.1, ?x.2) ?E ?Q => change (served d (x.1, x.2) E Q) end.
  rewrite <- surjective_pairing. apply served_update. intros txn Htxn. cbv zeta. go_write.
  rewrite zeros_done by len_lia. txn_write t1 Ht1. cbn [wp fst]. by rewrite Ht1, Htxn.
Qed.

Lemma CreateTopic_served s meta :
  served (db s) (db (CreateTopic s meta).1, (CreateTopic s meta).2) (fun _ => False)
    (fun m _ => m = <[makeTopicMetaKey (Name meta) := topic_wire meta]> (contents (db s))).
Proof.
  unfold CreateTopic, on_db. cbn [fst snd db set_db].
  match goal with |- served ?d (?x.1, ?x.2) ?E ?Q => change (served d (x.1, x.2) E Q) end.
  rewrite <- surjective_pairing. apply served_update. intros txn Htxn. cbv zeta.
  rewrite encodeTopicMetadata_wire, bind_ok. txn_write t1 Ht1. cbn [wp fst]. by rewrite Ht1, Htxn.
Qed.

Lemma GetConsumerOffset_wp N G s g t p :
  holds N G s -> name_ok g -> part_ok t p ->
  wp (fun _ => False) (GetConsumerOffset s g t p) (fun r => r = committed G g t p).
Proof.
  intros H Hg Hok. destruct (h_rest _ _ _ H) as (_ & _ & Hc). specialize (Hc g t p Hg Hok).
  apply wp_view. intros txn Htxn. rewrite <- Htxn in Hc. cbv zeta. apply wp_get; [done|..].
  - intros i Hi. destruct Hc as [[Hc _]|(now & Hc & Hr)]; [congruence|].
    apply wp_value. assert (item_value i = be64 (committed G g t p) ++ be64 now) as -> by congruence.
    rewrite (slice_put _ 0 8 (be64 (committed G g t p)) (be64 now)) by (done || len_lia).
    rewrite bind_ok, (Uint64_read _ 0 (committed G g t p) []) by (rewrite ?app_nil_r; done || len_lia).
    cbn [mbind result_bind wp]. by rewrite int64_uint64.
  - intros Hn. destruct Hc as [[_ ->]|(now & Hc & _)]; [|congruence]. done.
  - intros e He. rewrite (fault_not_found e He). by left.
Qed.

Lemma GetTopicMetadata_wp N G s t :
  holds N G s ->
  wp (fun e => e = ErrKeyNotFound /\ topics G t = None) (GetTopicMetadata s t)
    (fun r => exists meta, topics G t = Some meta /\ r = reloaded meta).
Proof.
  intros H. destruct (h_rest _ _ _ H) as (_ & Ht & _). specialize (Ht t).
  apply wp_view. intros txn Htxn. rewrite <- Htxn in Ht. cbv zeta.
  pose proof (TxnGet_law txn (makeTopicMetaKey t) ltac:(done)) as HG.
  destruct (TxnGet txn _) as [i|e|]; cbn [mbind result_bind]; [|..|done].
  - destruct (topics G t) as [meta|]; [|congruence]. destruct Ht as [Hf Ht].
    apply wp_value. assert (item_value i = topic_wire meta) as -> by congruence.
    rewrite <- (app_nil_r (topic_wire meta)), decodeTopicMetadata_wire by done. cbn. eauto.
  - destruct HG as [Hf|[-> Hn]]; [by left|]. right. split; [done|].
    destruct (topics G t) as [meta|]; [|done]. destruct Ht as [_ Ht]. congruence.
Qed.
End Operations.

(** ** On an engine without faults *)

Section Reliable.
Context {bdg : Badger} {laws : BadgerLaws} {rel : BadgerReliable}.
Implicit Types (s : StreamStorage) (G : slog).

Lemma wp_reliable {A} (m : result A) (Q : A -> Prop) :
  wp (fun _ => False) m Q -> exists a, m = Ok a /\ Q a.
Proof.
  destruct m as [a|e|]; cbn; [by eauto| |done]. intros [Hf|[]]. by destruct (no_fault _ Hf).
Qed.

Lemma flush_holds N G s order :
  holds N G s -> N <= 2 ^ 63 -> valid_order order ->
  exists s', flushWrites order s = (s', Ok tt) /\ holds N (log_flush G) s'.
Proof.
  intros H HN Ho. destruct (flushWrites_served order s Ho) as [E Hs].
  apply served_reliable in Hs. destruct (flushWrites order s) as [s' r]. cbn [fst snd] in *.
  destruct r as [[]|e|]; [|by destruct Hs|done]. exists s'. split; [done|]. rewrite E.
  by apply (holds_flush N G s order).
Qed.

Lemma flushed_holds N G s order :
  holds N G s -> N <= 2 ^ 63 -> valid_order order ->
  exists s', flushed (flushWrites order s) = (s', Ok tt) /\ holds N (log_flush G) s'.
Proof.
  intros H HN Ho. destruct (flush_holds N G s order H HN Ho) as (s' & E & H'). rewrite E. by exists s'.
Qed.

Lemma saved_flush G t p : saved (logs (log_flush G) t p) = all_messages (logs G t p).
Proof. reflexivity. Qed.

Lemma FetchMessages_holds N G s order t p start max :
  holds N G s -> N <= 2 ^ 63 -> valid_order order -> part_ok t p -> start < 2 ^ 63 -> 0 <= max ->
  exists s', FetchMessages order s t p start max = (s', Ok (log_fetch G t p start max)) /\
    holds N (log_flush G) s'.
Proof.
  intros H HN Ho Hok Hst Hmax. destruct (flush_holds N G s order H HN Ho) as (s' & E & H').
  unfold FetchMessages. rewrite E, (proj2 (Z.ltb_ge max 0)) by lia. exists s'. split; [|done].
  f_equal. pose proof (fetch_saved (fun _ => False) N _ s' t p start max H' HN Hok Hst) as Hf.
  apply wp_reliable in Hf as (r & -> & ->). by rewrite saved_flush.
Qed.

(** The operations that only write to the engine. *)
Lemma DeleteOldMessages_holds N G s now t p ret :
  holds N G s -> N <= 2 ^ 63 -> part_ok t p ->
  let cutoff := int64 (now - ret) in
  exists s', DeleteOldMessages now s t p ret
      = (s', Ok (len (filter (fun x => Timestamp x < cutoff) (saved (logs G t p))))) /\
    holds N (log_retain G t p cutoff) s'.
Proof.
  intros H HN Hok cutoff. pose proof (DeleteOldMessages_served N G s now t p ret H HN Hok) as Hs.
  apply served_reliable in Hs. unfold DeleteOldMessages, on_db in *. cbv zeta in *.
  cbn [fst snd db set_db] in Hs.
  destruct (Update _ _) as [d [n|e|]]; cbn [fst snd] in *; [|by destruct Hs|done].
  destruct Hs as [Hd ->]. eexists. split; [reflexivity|]. by apply holds_retain.
Qed.

Lemma CommitOffset_holds N G s now g t p offset :
  holds N G s -> name_ok g -> part_ok t p -> i64 offset ->
  exists s', CommitOffset now s g t p offset = (s', Ok tt) /\
    holds N (log_commit G g t p offset) s'.
Proof.
  intros H Hg Hok Hoff. pose proof (CommitOffset_served s now g t p offset) as Hs.
  apply served_reliable in Hs. unfold CommitOffset, on_db in *. cbn [fst snd db set_db] in Hs.
  destruct (Update _ _) as [d [[]|e|]]; cbn [fst snd] in *; [|by destruct Hs|done].
  eexists. split; [reflexivity|]. eapply holds_rest; [exact H|done| |exact Hs|]; [by intros []|].
  rewrite Hs. apply stored_commit; [done..|apply (h_rest _ _ _ H)].
Qed.

Lemma CreateTopic_holds N G s meta :
  holds N G s -> topic_fits meta ->
  exists s', CreateTopic s meta = (s', Ok tt) /\ holds N (log_topic G meta) s'.
Proof.
  intros H Hf. pose proof (CreateTopic_served s meta) as Hs.
  apply served_reliable in Hs. unfold CreateTopic, on_db in *. cbn [fst snd db set_db] in Hs.
  destruct (Update _ _) as [d [[]|e|]]; cbn [fst snd] in *; [|by destruct Hs|done].
  eexists. split; [reflexivity|]. eapply holds_rest; [exact H|done| |exact Hs|]; [by intros []|].
  rewrite Hs. apply stored_topic; [done|apply (h_rest _ _ _ H)].
Qed.

(** A flush that may have been asked for. *)
Lemma maybe_flush_holds N G s s0 order (b : bool) :
  holds N G s -> holds N G s0 -> N <= 2 ^ 63 -> valid_order order ->
  exists s' G', (if b then flushed (flushWrites order s) else (s0, Ok tt)) = (s', Ok tt) /\
    (G' = G \/ G' = log_flush G) /\ holds N G' s'.
Proof.
  intros H H0 HN Ho. destruct b.
  - destruct (flushed_holds N G s order H HN Ho) as (s' & E & H'). exists s', (log_flush G). auto.
  - exists s0, G. auto.
Qed.

Ltac step H := eexists _, _, _; split; [reflexivity|]; split; [split; reflexivity|exact H].

(** An operation implements its specification. *)
Lemma stream_step N G s op :
  holds N G s -> N + appends op <= 2 ^ 63 -> op_ok op ->
  exists s' G' r, stream_exec s op = (s', r) /\ stream_spec G op G' r /\ holds (N + appends op) G' s'.
Proof.
  intros H HN Hop. destruct op as [now t p key value|clock order t l|order|order|order|
    order t p start max|t p|now t p ret|now g t p offset|g t p|meta|t]; cbn [appends op_ok] in *;
    rewrite ?Z.add_0_r in *; cbn [stream_exec].
  - destruct (AppendMessage_holds N G s now t p key value H ltac:(lia) Hop) as (s' & -> & H').
    step H'.
  - destruct (AppendMessageBatch_holds N G s clock order t l H HN Hop) as (s' & -> & H').
    step H'.
  - destruct (flushed_holds N G s order H HN Hop) as (s' & E & H'). unfold worker_tick. rewrite E.
    step H'.
  - destruct (maybe_flush_holds N G (set_flushes s (flushes s) false) s order (flushCh s))
      as (s' & G' & E & HG & H'); [by apply holds_flushes|done..|].
    unfold worker_signal. rewrite E. exists s', G', (Ok SDone). by split_and!.
  - destruct (maybe_flush_holds N G (set_flushes s (pred (flushes s)) (flushCh s)) s order
      (negb (flushes s =? 0)%nat)) as (s' & G' & E & HG & H'); [by apply holds_flushes|done..|].
    exists s', G', (Ok SDone). split; [|done]. unfold run_flush.
    destruct (flushes s) as [|n]; cbn in E; by rewrite ?E; simplify_eq.
  - destruct Hop as (Ho & Hok & Hst & Hmax).
    destruct (FetchMessages_holds N G s order t p start max H HN Ho Hok) as (s' & -> & H');
      [apply Hst|done|]. step H'.
  - destruct (getPartitionOffset_holds N G s t p H Hop) as (offs & E & H').
    unfold GetOffset. rewrite E. step H'.
  - destruct (DeleteOldMessages_holds N G s now t p ret H HN Hop) as (s' & -> & H'). step H'.
  - destruct Hop as (Hg & Hok & Hoff).
    destruct (CommitOffset_holds N G s now g t p offset H Hg Hok Hoff) as (s' & -> & H'). step H'.
  - destruct Hop as [Hg Hok]. pose proof (GetConsumerOffset_wp N G s g t p H Hg Hok) as Hw.
    apply wp_reliable in Hw as (r & E & ->). rewrite E. step H.
  - destruct (CreateTopic_holds N G s meta H Hop) as (s' & -> & H'). step H'.
  - pose proof (GetTopicMetadata_wp N G s t H) as Hw.
    destruct (GetTopicMetadata s t) as [meta|e|]; cbn [wp] in Hw; [|..|done].
    + destruct Hw as (meta' & Ht & ->). exists s, G, (Ok (SMeta (reloaded meta'))). cbn. by rewrite Ht.
    + destruct Hw as [Hf|[-> Ht]]; [by destruct (no_fault _ Hf)|].
      exists s, G, (Err ErrKeyNotFound). cbn. by rewrite Ht.
Qed.
End Reliable.

(** A run of the specification. *)
Inductive spec_run : slog -> list SOp -> slog -> list (result SReply) -> Prop :=
| spec_nil G : spec_run G [] G []
| spec_cons G op G' r ops G'' rs :
    stream_spec G op G' r -> spec_run G' ops G'' rs -> spec_run G (op :: ops) G'' (r :: rs).

Definition total_appends (ops : list SOp) : Z := foldr (fun op n => appends op + n) 0 ops.

Lemma appends_nonneg op : 0 <= appends op.
Proof. destruct op; cbn; try lia. apply len_nonneg. Qed.

Lemma total_appends_nonneg ops : 0 <= total_appends ops.
Proof.
  induction ops as [|op ops IH]; [done|]. pose proof (appends_nonneg op).
  change (0 <= appends op + total_appends ops). lia.
Qed.

Lemma run_refines {bdg : Badger} {laws : BadgerLaws} {rel : BadgerReliable} N G s ops :
  holds N G s -> N + total_appends ops <= 2 ^ 63 -> Forall op_ok ops ->
  exists G', spec_run G ops G' (stream_run s ops).2 /\
    holds (N + total_appends ops) G' (stream_run s ops).1.
Proof.
  revert N G s. induction ops as [|op ops IH]; intros N G s H HN Hops.
  - exists G. split; [constructor|]. by rewrite Z.add_0_r.
  - apply Forall_cons in Hops as [Hop Hops]. cbn [total_appends foldr] in *. fold (total_appends ops) in *.
    pose proof (total_appends_nonneg ops).
    destruct (stream_step N G s op H ltac:(lia) Hop) as (s' & G' & r & E & Hspec & H').
    destruct (IH (N + appends op) G' s' H' ltac:(lia) Hops) as (G'' & Hrun & H'').
    exists G''. cbn [stream_run]. rewrite E. destruct (stream_run s' ops) as [s'' rs]. cbn in *.
    split; [by econstructor|]. by rewrite Z.add_assoc.
Qed.

(** ** Properties *)

(** C9: on an engine without faults, and for topic and group names without a
    colon, the stream storage implements logs: whatever the sequence of
    appends, batches, flushes (by the ticker, a signal or a started goroutine),
    fetches, commits and retention runs, and whatever the order of the loops
    over maps, every answer is the one the specification gives: consecutive
    offsets per partition, fetches that see every message appended before, in
    offset order, batches equal to single appends. *)
Theorem stream_storage_refines {bdg : Badger} {laws : BadgerLaws} {rel : BadgerReliable}
    (d : DB) (ops : list SOp) :
  contents d = ∅ -> Forall op_ok ops -> total_appends ops <= 2 ^ 63 ->
  exists G, spec_run empty_slog ops G (stream_run (NewStorage d) ops).2 /\
    holds (total_appends ops) G (stream_run (NewStorage d) ops).1.
Proof.
  intros Hd Hops Hn. apply (run_refines 0 empty_slog (NewStorage d)); [by apply logs_new|lia|done].
Qed.

Definition sample_stream_ops : list SOp := [
  SAppend 1000 (str "events") 0 (str "k") (str "a");
  SBatch (fun i => 1001 + i) map_to_list (str "events")
    [mkPublish 1 (str "") (str "b"); mkPublish 0 (str "") (str "c")];
  SFetch map_to_list (str "events") 0 0 10;
  SAppend 1003 (str "events") 0 (str "k") (str "d");
  SCommit 1004 (str "workers") (str "events") 0 2;
  SFetch map_to_list (str "events") 0 1 10].

Lemma stream_storage_refines_witness :
  (stream_run (bdg := mem_badger) (NewStorage mem_empty) sample_stream_ops).2 = [
    Ok (SNumber 0); Ok (SNumbers [0; 1]);
    Ok (SMessages [mkMessage [] 0 0 (str "k") (str "a") 1000; mkMessage [] 0 1 [] (str "c") 1002]);
    Ok (SNumber 2); Ok SDone;
    Ok (SMessages [mkMessage [] 0 1 [] (str "c") 1002; mkMessage [] 0 2 (str "k") (str "d") 1003])] /\
  exists G, spec_run empty_slog sample_stream_ops G
      (stream_run (bdg := mem_badger) (NewStorage mem_empty) sample_stream_ops).2 /\
    holds (total_appends sample_stream_ops) G
      (stream_run (bdg := mem_badger) (NewStorage mem_empty) sample_stream_ops).1.
Proof.
  split; [by vm_compute|].
  apply (stream_storage_refines (bdg := mem_badger) mem_empty sample_stream_ops).
  - done.
  - assert (Hp : forall p, 0 <= p -> part_ok (str "events") p)
      by (intros; split; [by apply (bool_decide_unpack _)|done]).
    repeat constructor; cbn; split_and?; try done; try (by apply Hp); try (by apply (bool_decide_unpack _)).
    all: try (unfold i64, len in *; cbn in *; lia).
    all: intros g; reflexivity.
  - by vm_compute.
Defined.
