(* ===== verification/StreamLoss.v ===== *)
(** What the stream storage loses: the acknowledged messages of a buffer whose
    flush fails, and, after a restart, the messages whose offsets are handed
    out again. *)
From stdpp Require Import base list numbers gmap sorting strings.
From Stdlib Require Import ZArith Lia.
From S2P Require Import Prelude GoBytes Fields Fmt Badger StreamCodec StreamStorage StreamKeys StreamLog StreamRefine.

(** The logs without their pending messages. *)
Definition log_lose (G : slog) : slog :=
  mkSlog (fun t p => mkLog (next (logs G t p)) (saved (logs G t p)) []) (committed G) (topics G).

Section Loss.
Context {bdg : Badger} {laws : BadgerLaws}.
Implicit Types (s : StreamStorage) (G : slog).

Lemma holds_lose N G s d :
  holds N G s -> contents d = contents (db s) ->
  holds N (log_lose G) (set_db (set_buffer s ∅) d).
Proof.
  intros [H1 H2 H3 H4 H5 H6] Hd.
  split; cbn [db partitionOffsets writeBuffer set_db set_buffer]; rewrite ?Hd; try done.
  - intros t p Hok. destruct (H1 t p Hok) as (Hn & Hf & Hs). unfold log_wf, all_messages in *. cbn.
    rewrite app_nil_r. apply Forall_app in Hf as [Hf _]. apply StronglySorted_app_1_l in Hs.
    by split_and!; try apply Hn.
Qed.

(** A flush that the engine refuses has already emptied the buffer: the
    messages whose offsets [AppendMessage] returned are gone, while the offset
    counters have moved past them. *)
Theorem failed_flush_loses_messages N G s order s' e :
  holds N G s -> valid_order order -> flushWrites order s = (s', Err e) ->
  holds N (log_lose G) s'.
Proof.
  intros H Ho E. destruct (flushWrites_served order s Ho) as [Es Hs]. rewrite E in *.
  cbn [fst snd] in *. destruct Hs as [Hd _]. rewrite Es. by apply holds_lose.
Qed.

(** The buffer after one append to an empty one. *)
Lemma single_order order k (ms : list Message) :
  valid_order order -> order ({[ k := ms ]} : buffer_map) = [(k, ms)].
Proof.
  intros Ho. apply Permutation_singleton_r. rewrite (Ho _), map_to_list_singleton. done.
Qed.
End Loss.

(** An engine that refuses every transaction. *)
Definition refusal : error := External (str "Txn is too big to fit into one request").

Definition full_badger : Badger := {|
  DB := mem;
  Txn := mem;
  Item := bytes * bytes;
  Update A db _ := (db, Err refusal);
  View A db f := f db;
  TxnGet := @TxnGet mem_badger;
  TxnSet := @TxnSet mem_badger;
  TxnDelete := @TxnDelete mem_badger;
  Iterate := @Iterate mem_badger;
  ItemKey := @ItemKey mem_badger;
  ItemValue := @ItemValue mem_badger;
|}.

Definition full_laws : BadgerLaws (bdg := full_badger).
Proof.
  refine {| contents := mem_store : DB (Badger := full_badger) -> _; expiry := mem_ttls;
    snapshot := mem_store : Txn (Badger := full_badger) -> _; snapshot_expiry := mem_ttls;
    item_value := snd : Item (Badger := full_badger) -> _; fault e := e = refusal |}.
  - intros e ->. by eexists.
  - intros A db f. left. split_and!; [done|done|by exists refusal].
  - intros A db f. right. by exists db.
  - intros t k _. cbn. destruct (mem_store t !! k); cbn; auto.
  - done.
  - done.
  - intros t p. apply mem_items_law.
  - intros i. by left.
Defined.

Lemma failed_flush_loses_messages_witness :
  let s := fst (AppendMessage (bdg := full_badger) 1000 (NewStorage (bdg := full_badger) mem_empty)
    (str "events") 0 (str "k") (str "v")) in
  let G := log_append empty_slog 1000 (str "events") 0 (str "k") (str "v") in
  snd (flushWrites (bdg := full_badger) map_to_list s) = Err refusal /\
  holds (laws := full_laws) 1 (log_lose G)
    (fst (flushWrites (bdg := full_badger) map_to_list s)).
Proof.
  intros s G. split; [by vm_compute|].
  apply (failed_flush_loses_messages (laws := full_laws) 1 G s map_to_list _ refusal).
  - destruct (AppendMessage_holds (laws := full_laws) 0 empty_slog (NewStorage (bdg := full_badger) mem_empty)
      1000 (str "events") 0 (str "k") (str "v")) as (s' & E & H).
    + by apply (logs_new (laws := full_laws)).
    + done.
    + split_and!; try done; by apply (bool_decide_unpack _).
    + unfold s. rewrite E. exact H.
  - intros buffer. reflexivity.
  - by vm_compute.
Defined.

(** C40: the counters are not stored: after any run, a storage opened again on
    the database gives the first message of a partition the offset 0, and
    flushing it overwrites the message that had this offset.
    The engine is assumed to refuse nothing. *)
Theorem restart_overwrites {bdg : Badger} {laws : BadgerLaws} {rel : BadgerReliable}
    (d0 : DB) (ops : list SOp) t p now key value order :
  contents d0 = ∅ -> Forall op_ok ops -> total_appends ops <= 2 ^ 63 ->
  valid_order order ->
  let d := db (stream_run (NewStorage d0) ops).1 in
  exists s1 s2,
    AppendMessage now (NewStorage d) t p key value = (s1, Ok 0) /\
    flushWrites order s1 = (s2, Ok tt) /\
    contents (db s2)
    = <[makeMessageKey t p 0 := message_wire (mkMessage t p 0 key value now)]> (contents d).
Proof.
  intros Hd Hops Hn Ho d.
  destruct (run_refines 0 empty_slog (NewStorage d0) ops) as (G & _ & H);
    [by apply logs_new|lia|done|].
  assert (Hno : contents d !! makeOffsetKey t p = None) by apply (h_rest _ _ _ H).
  set (k := partKey t p). set (msg := mkMessage t p 0 key value now).
  set (s1 := mkStreamStorage d (<[k := 0]> (<[k := -1]> ∅)) {[ k := [msg] ]} 0 false false).
  assert (E : AppendMessage now (NewStorage d) t p key value = (s1, Ok 0)).
  { unfold AppendMessage, buffer_message, getPartitionOffset. cbn [partitionOffsets NewStorage].
    rewrite lookup_empty, load_offset_none by done. cbn [fst snd writeBuffer set_offsets NewStorage].
    rewrite lookup_empty. cbn [default app writeBuffer set_buffer set_offsets].
    fold k. rewrite lookup_insert_eq. done. }
  exists s1. rewrite E. destruct (flushWrites_served order s1 Ho) as [_ Hs].
  apply served_reliable in Hs. destruct (flushWrites order s1) as [s2 r]. cbn [fst snd] in Hs.
  exists s2. destruct r as [[]|e|]; [|by destruct Hs|done]. split_and!; [done..|].
  rewrite Hs. unfold buffered. cbn [writeBuffer s1]. by rewrite single_order.
Qed.

Lemma restart_overwrites_witness :
  let ops := [SAppend 1000 (str "events") 0 (str "k") (str "old"); STick map_to_list] in
  let d : DB (Badger := mem_badger) := db (stream_run (NewStorage mem_empty) ops).1 in
  contents d !! makeMessageKey (str "events") 0 0
    = Some (message_wire (mkMessage (str "events") 0 0 (str "k") (str "old") 1000)) /\
  exists s1 s2,
    AppendMessage (bdg := mem_badger) 2000 (NewStorage d) (str "events") 0 (str "k") (str "new")
      = (s1, Ok 0) /\
    flushWrites map_to_list s1 = (s2, Ok tt) /\
    contents (db s2) = <[makeMessageKey (str "events") 0 0 :=
      message_wire (mkMessage (str "events") 0 0 (str "k") (str "new") 2000)]> (contents d).
Proof.
  intros ops d. split; [by vm_compute|].
  apply (restart_overwrites (bdg := mem_badger) mem_empty ops (str "events") 0 2000 (str "k")
    (str "new") map_to_list); [done| |by vm_compute|by intros b].
  apply Forall_cons; split; [|apply Forall_singleton; by intros b].
  split_and!; try done; by apply (bool_decide_unpack _).
Defined.
