(* ===== verification/StreamService.v ===== *)
(** The stream system of internal/stream/stream.go and stream_helpers.go:
    topics, partition selection, consumer groups and their partitions,
    consuming and committing, over the stream storage. *)
From stdpp Require Import base list numbers gmap strings.
From Stdlib Require Import ZArith Lia.
From S2P Require Import Prelude GoBytes Fmt Badger StreamCodec StreamStorage.

(** ** Data *)

Record Consumer : Type := mkConsumer { ConsumerID : bytes; LastSeen : Z; Assigned : list Z }.
Record ConsumerGroup : Type := mkGroup {
  GroupName : bytes;
  GroupTopic : bytes;
  Consumers : bmap Consumer;
}.

(** The identifiers in the order of a loop over the map of consumers. *)
Abbreviation consumer_order := (bmap Consumer -> list bytes).

Section Service.
Context {bdg : Badger} {batch : BadgerBatch}.

(** The caches are keyed by topic, by group, and by ["group:topic:partition"].
    A group is only reached through the map of groups, so that the pointers of
    the code are the entries of the maps. *)
Record Stream : Type := mkStream {
  storage : StreamStorage;
  topicCache : bmap TopicMetadata;
  groups : bmap ConsumerGroup;
  offsetCache : bmap Z;
}.
Implicit Types s : Stream.

Definition set_storage s st : Stream := mkStream st (topicCache s) (groups s) (offsetCache s).
Definition set_topics s ts : Stream := mkStream (storage s) ts (groups s) (offsetCache s).
Definition set_groups s gs : Stream := mkStream (storage s) (topicCache s) gs (offsetCache s).
Definition set_cache s c : Stream := mkStream (storage s) (topicCache s) (groups s) c.

Definition on_storage {A} s (x : StreamStorage * result A) : Stream * result A :=
  (set_storage s x.1, x.2).

(** [x, err := f(s); if err != nil { return err }; k(x)], the state threaded. *)
Definition then_ {A B} (x : Stream * result A) (k : Stream -> A -> Stream * result B)
    : Stream * result B :=
  match x with
  | (s, Ok a) => k s a
  | (s, Err e) => (s, Err e)
  | (s, Panic) => (s, Panic)
  end.

Definition New (d : DB) : Stream := mkStream (NewStorage d) ∅ ∅ ∅.

(** On the files of a directory. *)
Definition Stream_New {opening : BadgerOpen} (files : option DB) : result Stream :=
  on_err (DBOpen files) (fun err => Err (Errorf (str "failed to open badger db: " ++ error_text err)))
    (fun d => Ok (New d)).

(** ** Topics *)

Definition default_retention : Z := 7 * 24 * 60 * 60 * 1000.

Definition CreateTopic (now : Z) s (name : bytes) (partitions retentionMs : Z)
    : Stream * result unit :=
  let partitions := if partitions <=? 0 then 4 else partitions in
  let retentionMs := if retentionMs <=? 0 then default_retention else retentionMs in
  let meta := mkTopicMetadata name partitions retentionMs 0 now in
  then_ (on_storage s (StreamStorage.CreateTopic (storage s) meta)) (fun s _ =>
    (set_topics s (<[name := meta]> (topicCache s)), Ok tt)).

Definition GetTopicMetadata s (name : bytes) : Stream * result TopicMetadata :=
  match topicCache s !! name with
  | Some meta => (s, Ok meta)
  | None =>
      then_ (s, StreamStorage.GetTopicMetadata (storage s) name) (fun s meta =>
        (set_topics s (<[name := meta]> (topicCache s)), Ok meta))
  end.

(** ** Publishing *)

(** [fnv.New32a], [Write], [Sum32] of the standard library. *)
Definition Sum32 (key : bytes) : Z :=
  fold_left (fun h b => uint32 (Z.lxor h b * 16777619)) key 2166136261.

(** Go's [%]. *)
Definition modulo (a b : Z) : result Z := if b =? 0 then Panic else Ok (Z.rem a b).

(** The partition a message goes to; [nano] is [time.Now().UnixNano()]. *)
Definition select_partition (nano : Z) (meta : TopicMetadata) (partition : Z) (key : bytes)
    : result Z :=
  if (partition <? 0) || (Partitions meta <=? partition)
  then if decide (key = []) then modulo nano (Partitions meta)
       else modulo (Sum32 key) (Partitions meta)
  else Ok partition.

(** The metadata of a topic that is created when it cannot be read; the error
    of the second read is dropped, and its nil pointer dereferenced. *)
Definition ensure_topic (now : Z) s (topic : bytes) : Stream * result TopicMetadata :=
  match GetTopicMetadata s topic with
  | (s, Err _) =>
      then_ (CreateTopic now s topic 4 0) (fun s _ =>
        match GetTopicMetadata s topic with
        | (s, Err _) => (s, Panic)
        | r => r
        end)
  | r => r
  end.

Definition Publish (now nano : Z) s (topic : bytes) (partition : Z) (key value : bytes)
    : Stream * result Z :=
  then_ (ensure_topic now s topic) (fun s meta =>
    then_ (s, select_partition nano meta partition key) (fun s partition =>
      on_storage s (AppendMessage now (storage s) topic partition key value))).

(** The loop that assigns partitions; [nanos i] is the time it reads for the
    message of index [i]. *)
Fixpoint assign_partitions (nanos : Z -> Z) (meta : TopicMetadata) (i : Z)
    (messages : list PublishMessage) : result (list PublishMessage) :=
  match messages with
  | [] => Ok []
  | msg :: messages =>
      partition ← select_partition (nanos i) meta (pmPartition msg) (pmKey msg);
      rest ← assign_partitions nanos meta (i + 1) messages;
      Ok (mkPublish partition (pmKey msg) (pmValue msg) :: rest)
  end.

Definition PublishBatch (now : Z) (clock nanos : Z -> Z)
    (order : group_map -> list (Z * list (PublishMessage * Z))) s (topic : bytes)
    (messages : list PublishMessage) : Stream * result (list Z) :=
  then_ (ensure_topic now s topic) (fun s meta =>
    then_ (s, assign_partitions nanos meta 0 messages) (fun s messages =>
      on_storage s (AppendMessageBatch clock order (storage s) topic messages))).

(** ** Consumer groups *)

(** [for i := 0; i < numParts; i++ { append(currentPart); currentPart++ }] *)
Fixpoint consecutive (n : nat) (currentPart : Z) : list Z :=
  match n with
  | O => []
  | S n => currentPart :: consecutive n (currentPart + 1)
  end.

Definition set_assigned (parts : list Z) (c : Consumer) : Consumer :=
  mkConsumer (ConsumerID c) (LastSeen c) parts.

(** The loop over the consumers. *)
Fixpoint assign_range (ids : list bytes) (partitionsPerConsumer extraPartitions currentPart : Z)
    (consumers : bmap Consumer) : result (bmap Consumer) :=
  match ids with
  | [] => Ok consumers
  | id :: ids =>
      let '(numParts, extraPartitions) :=
        if 0 <? extraPartitions then (partitionsPerConsumer + 1, extraPartitions - 1)
        else (partitionsPerConsumer, extraPartitions) in
      if numParts <? 0 then Panic else
      let parts := consecutive (Z.to_nat numParts) currentPart in
      assign_range ids partitionsPerConsumer extraPartitions (currentPart + len parts)
        (alter (set_assigned parts) id consumers)
  end.

Definition rebalanceGroup (order : consumer_order) s (group : bytes) (g : ConsumerGroup)
    : Stream * result unit :=
  then_ (GetTopicMetadata s (GroupTopic g)) (fun s meta =>
    let consumers := order (Consumers g) in
    if len consumers =? 0 then (s, Ok tt) else
    let partitionsPerConsumer := Z.quot (Partitions meta) (len consumers) in
    let extraPartitions := Z.rem (Partitions meta) (len consumers) in
    match assign_range consumers partitionsPerConsumer extraPartitions 0 (Consumers g) with
    | Ok cs => (set_groups s (<[group := mkGroup (GroupName g) (GroupTopic g) cs]> (groups s)), Ok tt)
    | Err e => (s, Err e)
    | Panic => (s, Panic)
    end).

Definition Subscribe (now : Z) (order : consumer_order) s (topic group consumerID : bytes)
    : Stream * result unit :=
  let g := default (mkGroup group topic ∅) (groups s !! group) in
  let s := set_groups s (<[group := g]> (groups s)) in
  if decide (GroupTopic g <> topic)
  then (s, Err (Errorf (str "group " ++ group ++ str " already subscribed to " ++ GroupTopic g)))
  else
  let c := default (mkConsumer consumerID 0 []) (Consumers g !! consumerID) in
  let c := mkConsumer (ConsumerID c) now (Assigned c) in
  let g := mkGroup (GroupName g) (GroupTopic g) (<[consumerID := c]> (Consumers g)) in
  let s := set_groups s (<[group := g]> (groups s)) in
  rebalanceGroup order s group g.

(** The topic is not looked at. *)
Definition Unsubscribe (order : consumer_order) s (topic group consumerID : bytes)
    : Stream * result unit :=
  match groups s !! group with
  | None => (s, Ok tt)
  | Some g =>
      let g := mkGroup (GroupName g) (GroupTopic g) (delete consumerID (Consumers g)) in
      let s := set_groups s (<[group := g]> (groups s)) in
      if decide (Consumers g = ∅) then (set_groups s (delete group (groups s)), Ok tt)
      else rebalanceGroup order s group g
  end.

(** ** Offsets *)

Definition cacheKey (group topic : bytes) (partition : Z) : bytes :=
  group ++ str ":" ++ topic ++ str ":" ++ fmt_d partition.

Definition getCachedOffset s (group topic : bytes) (partition : Z) : Stream * result Z :=
  let k := cacheKey group topic partition in
  match offsetCache s !! k with
  | Some offset => (s, Ok offset)
  | None =>
      then_ (s, GetConsumerOffset (storage s) group topic partition) (fun s offset =>
        (set_cache s (<[k := offset]> (offsetCache s)), Ok offset))
  end.

(** The cache is written first. *)
Definition Commit (now : Z) s (topic group : bytes) (partition offset : Z) : Stream * result unit :=
  let k := cacheKey group topic partition in
  let s := set_cache s (<[k := offset]> (offsetCache s)) in
  on_storage s (CommitOffset now (storage s) group topic partition offset).

(** ** Consuming *)

(** What the goroutine of a partition does. *)
Definition fetch_partition (flush : range_order) (group topic : bytes) (perPart : Z) s (partition : Z)
    : Stream * result (list Message) :=
  then_ (getCachedOffset s group topic partition) (fun s offset =>
    on_storage s (FetchMessages flush (storage s) topic partition offset perPart)).

(** The goroutines, one after the other, and the results they send. *)
Fixpoint fetch_partitions (flush : range_order) (group topic : bytes) (perPart : Z) s
    (partitions : list Z) : Stream * list (result (list Message)) :=
  match partitions with
  | [] => (s, [])
  | p :: partitions =>
      let '(s, r) := fetch_partition flush group topic perPart s p in
      let '(s, rs) := fetch_partitions flush group topic perPart s partitions in
      (s, r :: rs)
  end.

(** The loop that collects the results; a goroutine that panics ends the
    program. *)
Fixpoint collect (count : Z) (results : list (result (list Message))) (acc : list Message)
    : result (list Message) :=
  match results with
  | [] => Ok acc
  | r :: results =>
      match r with
      | Ok msgs =>
          let acc := acc ++ msgs in
          if count <=? len acc then Ok acc else collect count results acc
      | Err e => Err e
      | Panic => Panic
      end
  end.

Definition is_panic {A} (r : result A) : bool := match r with Panic => true | _ => false end.

(** [arrival] gives the assigned partitions in the order in which their
    results arrive. *)
Definition Consume (now : Z) (flush : range_order) (arrival : list Z -> list Z) s
    (topic group consumerID : bytes) (count : Z) : Stream * result (list Message) :=
  match groups s !! group with
  | None => (s, Err (errorf "consumer group not found"))
  | Some g =>
      match Consumers g !! consumerID with
      | None => (s, Err (errorf "consumer not registered"))
      | Some c =>
          let c := mkConsumer (ConsumerID c) now (Assigned c) in
          let g := mkGroup (GroupName g) (GroupTopic g) (<[consumerID := c]> (Consumers g)) in
          let s := set_groups s (<[group := g]> (groups s)) in
          let partitions := Assigned c in
          if len partitions =? 0 then (s, Ok []) else
          let perPart := Z.quot count (len partitions) in
          let perPart := if perPart =? 0 then 1 else perPart in
          let '(s, results) := fetch_partitions flush group topic perPart s (arrival partitions) in
          if existsb is_panic results || (count <? 0) then (s, Panic)
          else (s, collect count results [])
      end
  end.

(** ** Retention and closing *)

(** The loop over the partitions of a topic; the errors are dropped. *)
Fixpoint enforce_partitions (now : Z) (st : StreamStorage) (t : TopicMetadata) (n : nat) (p : Z)
    : StreamStorage * result unit :=
  match n with
  | O => (st, Ok tt)
  | S n =>
      match DeleteOldMessages now st (Name t) p (RetentionMs t) with
      | (st, Panic) => (st, Panic)
      | (st, _) => enforce_partitions now st t n (p + 1)
      end
  end.

Fixpoint enforce_topics (now : Z) (st : StreamStorage) (ts : list TopicMetadata)
    : StreamStorage * result unit :=
  match ts with
  | [] => (st, Ok tt)
  | t :: ts =>
      if 0 <? RetentionMs t
      then match enforce_partitions now st t (Z.to_nat (Partitions t)) 0 with
           | (st, Ok _) => enforce_topics now st ts
           | r => r
           end
      else enforce_topics now st ts
  end.

(** A tick of [retentionLoop]; [order] gives the topics in the order of the
    loop over the map. *)
Definition enforceRetention (now : Z) (order : bmap TopicMetadata -> list TopicMetadata) s
    : Stream * result unit :=
  on_storage s (enforce_topics now (storage s) (order (topicCache s))).

(** A tick of [offsetFlushLoop]: [Commit] has stored the offsets. *)
Definition flushOffsets s : Stream := s.

(** The background loops only stop; the storage is closed each time. *)
Definition Close (flush : range_order) s : Stream * result unit :=
  on_storage s (StreamStorage.Close flush (storage s)).
End Service.
