(* ===== verification/StreamGroups.v ===== *)
(** Consumer groups: rebalancing gives every partition of the topic to exactly
    one consumer of the group, and loads that differ by at most one. *)
From stdpp Require Import base list numbers gmap strings.
From Stdlib Require Import ZArith Lia.
From S2P Require Import Prelude GoBytes Fmt Badger StreamCodec StreamStorage StreamService.

(** ** The specification *)

Definition holds_partition (cs : bmap Consumer) (id : bytes) (p : Z) : Prop :=
  exists c, cs !! id = Some c /\ p ∈ Assigned c.

Definition balanced (P : Z) (cs : bmap Consumer) : Prop :=
  (forall p, 0 <= p < P -> exists id, holds_partition cs id p /\
     forall id', holds_partition cs id' p -> id' = id) /\
  (forall id p, holds_partition cs id p -> 0 <= p < P) /\
  (forall id c, cs !! id = Some c -> NoDup (Assigned c) /\
     Z.quot P (Z.of_nat (size cs)) <= len (Assigned c) <= Z.quot P (Z.of_nat (size cs)) + 1).

(** ** Ranges *)

Lemma elem_of_consecutive n i x : x ∈ consecutive n i <-> i <= x < i + Z.of_nat n.
Proof.
  revert i. induction n as [|n IH]; intros i; cbn [consecutive].
  - split; [intros Hx; by apply not_elem_of_nil in Hx|lia].
  - rewrite elem_of_cons, IH. lia.
Qed.

Lemma len_consecutive n i : len (consecutive n i) = Z.of_nat n.
Proof. revert i. induction n as [|n IH]; intros i; cbn [consecutive]; [done|]. rewrite len_cons, IH. lia. Qed.

Lemma NoDup_consecutive n i : NoDup (consecutive n i).
Proof.
  revert i. induction n as [|n IH]; intros i; cbn [consecutive]; constructor; [|done].
  rewrite elem_of_consecutive. lia.
Qed.

Section Ranges.
Context (q e : Z) (Hq : 0 <= q).

(** The first partition of the consumer of rank [k]. *)
Definition start (cur k : Z) : Z := cur + k * q + Z.min k e.

Lemma start_mono cur k k' : 0 <= k <= k' -> start cur k <= start cur k'.
Proof. unfold start. intros. pose proof (Z.mul_le_mono_nonneg_r k k' q). lia. Qed.

Lemma start_next cur k : 0 <= k -> q <= start cur (k + 1) - start cur k <= q + 1.
Proof. unfold start. intros. rewrite Z.mul_add_distr_r. lia. Qed.

Lemma rank_of cur n p :
  start cur 0 <= p < start cur (Z.of_nat n) ->
  exists k, (k < n)%nat /\ start cur (Z.of_nat k) <= p < start cur (Z.of_nat k + 1).
Proof.
  induction n as [|n IH]; intros Hp; [change (Z.of_nat 0) with 0 in Hp; lia|].
  destruct (Z.le_gt_cases (start cur (Z.of_nat n)) p).
  - exists n. split; [lia|]. replace (Z.of_nat (S n)) with (Z.of_nat n + 1) in Hp by lia. lia.
  - destruct IH as (k & Hk & ?); [lia|]. exists k. split; [lia|done].
Qed.
End Ranges.

(** What [assign_range] gives to each consumer. *)
Lemma assign_range_spec ids q e cur cs :
  0 <= q -> 0 <= e -> NoDup ids ->
  exists cs', assign_range ids q e cur cs = Ok cs' /\
    (forall id, id ∉ ids -> cs' !! id = cs !! id) /\
    (forall k id, ids !! k = Some id ->
       cs' !! id = set_assigned (consecutive
         (Z.to_nat (start q e cur (Z.of_nat k + 1) - start q e cur (Z.of_nat k)))
         (start q e cur (Z.of_nat k))) <$> cs !! id).
Proof.
  intros Hq. revert e cur cs. induction ids as [|id ids IH]; intros e cur cs He Hnd.
  - by exists cs.
  - apply NoDup_cons in Hnd as [Hid Hnd]. cbn [assign_range].
    set (num := if 0 <? e then q + 1 else q). set (e' := if 0 <? e then e - 1 else e).
    replace (if 0 <? e then (q + 1, e - 1) else (q, e)) with (num, e')
      by (unfold num, e'; by destruct (0 <? e)).
    assert (He' : 0 <= e') by (unfold e'; destruct (Z.ltb_spec 0 e); lia).
    assert (Hnum : q <= num) by (unfold num; destruct (0 <? e); lia).
    assert (Hst : forall k, 0 <= k -> start q e' (cur + num) k = start q e cur (k + 1)).
    { intros k Hk. unfold start, e', num. destruct (Z.ltb_spec 0 e); lia. }
    assert (H1 : start q e cur 1 = cur + num) by (unfold start, num; destruct (Z.ltb_spec 0 e); lia).
    assert (H0 : start q e cur 0 = cur) by (unfold start; lia).
    rewrite (proj2 (Z.ltb_ge num 0)), len_consecutive, Z2Nat.id by lia.
    destruct (IH e' (cur + num)
      (alter (set_assigned (consecutive (Z.to_nat num) cur)) id cs) He' Hnd) as (cs' & E & Hother & Hk).
    exists cs'. split; [done|]. split.
    + intros id' Hid'. apply not_elem_of_cons in Hid' as [Hne Hid'].
      by rewrite Hother, lookup_alter_ne.
    + intros [|k] id' Hl.
      * injection Hl as <-. rewrite Hother, lookup_alter_eq by done.
        change (Z.of_nat 0 + 1) with 1. change (Z.of_nat 0) with 0.
        rewrite H0, H1. by replace (cur + num - cur) with num by lia.
      * cbn in Hl. rewrite (Hk k id' Hl), lookup_alter_ne
          by (intros ->; by apply Hid, (list_elem_of_lookup_2 _ k)).
        rewrite !Hst by lia. by rewrite Nat2Z.inj_succ.
Qed.

(** ** Rebalancing *)

Definition valid_consumers (order : consumer_order) : Prop :=
  forall cs, order cs ≡ₚ (map_to_list cs).*1.

Lemma consumer_ids order (cs : bmap Consumer) :
  valid_consumers order ->
  NoDup (order cs) /\ length (order cs) = size cs /\
  forall id, id ∈ order cs <-> is_Some (cs !! id).
Proof.
  intros Ho. split_and!.
  - rewrite (Ho cs). apply NoDup_fst_map_to_list.
  - by rewrite (Ho cs), length_fmap, length_map_to_list.
  - intros id. rewrite (Ho cs), list_elem_of_fmap. split.
    + intros ([id' c] & -> & Hc). apply elem_of_map_to_list in Hc. by exists c.
    + intros [c Hc]. exists (id, c). split; [done|]. by apply elem_of_map_to_list.
Qed.

Lemma same_size (cs cs' : bmap Consumer) :
  (forall id, is_Some (cs' !! id) <-> is_Some (cs !! id)) -> size cs' = size cs.
Proof.
  intros H. assert (Hd : dom cs' = dom cs) by (apply set_eq; intros id; by rewrite !elem_of_dom).
  by rewrite <- (size_dom cs'), <- (size_dom cs), Hd.
Qed.

(** The ranges of [n] consumers, laid out one after the other, are balanced: [ids]
    are the consumers by rank, each with the range of its rank. *)
Section Ranked.
Context (ids : list bytes) (P : Z) (cs cs' : bmap Consumer).
Let n := len ids.
Let q := Z.quot P n.
Let e := Z.rem P n.
Hypothesis HP : 0 <= P.
Hypothesis Hn : 0 < n.
Hypothesis Hin : forall id, id ∈ ids <-> is_Some (cs !! id).
Hypothesis Hdom : forall id, is_Some (cs' !! id) <-> is_Some (cs !! id).
Hypothesis Hsize : Z.of_nat (size cs') = n.
Hypothesis Hk : forall k id, ids !! k = Some id ->
  cs' !! id = set_assigned (consecutive
    (Z.to_nat (start q e 0 (Z.of_nat k + 1) - start q e 0 (Z.of_nat k)))
    (start q e 0 (Z.of_nat k))) <$> cs !! id.

Let Hq : 0 <= q.
Proof. by apply Z.quot_pos. Qed.
Let He : 0 <= e < n.
Proof. by apply Z.rem_bound_pos. Qed.
Let H0 : start q e 0 0 = 0.
Proof. unfold start. lia. Qed.
Let Hend : start q e 0 n = P.
Proof. unfold start. pose proof (Z.quot_rem P n ltac:(lia)). fold q e in H. lia. Qed.

(** The assignment of a consumer is the range of its rank. *)
Let Hrank id c : cs' !! id = Some c -> exists k, ids !! k = Some id /\ (k < length ids)%nat /\
  Assigned c = consecutive (Z.to_nat (start q e 0 (Z.of_nat k + 1) - start q e 0 (Z.of_nat k)))
    (start q e 0 (Z.of_nat k)).
Proof.
  intros Hc. assert (id ∈ ids) as Hid by (apply Hin, Hdom; by exists c).
  apply list_elem_of_lookup in Hid as [k Hid]. exists k. split; [done|].
  split; [by apply lookup_lt_Some in Hid|]. rewrite (Hk k id Hid) in Hc.
  by apply fmap_Some in Hc as (c0 & _ & ->).
Qed.

Let Hpart id p : holds_partition cs' id p -> exists k, ids !! k = Some id /\
  (k < length ids)%nat /\ start q e 0 (Z.of_nat k) <= p < start q e 0 (Z.of_nat k + 1).
Proof.
  intros (c & Hc & Hp). destruct (Hrank id c Hc) as (k & Hid & Hlt & EA). exists k.
  split_and!; [done|done| |]; rewrite EA, elem_of_consecutive in Hp;
    pose proof (start_next q e 0 (Z.of_nat k)); lia.
Qed.

Lemma ranked_balanced : balanced P cs'.
Proof.
  split_and!.
  - intros p Hp. destruct (rank_of q e 0 (length ids) p) as (k & Hlt & Hkp).
    { rewrite H0. fold (len ids). fold n. lia. }
    destruct (lookup_lt_is_Some_2 ids k Hlt) as [id Hid]. exists id. split.
    + assert (is_Some (cs !! id)) as [c Hc] by (apply Hin; by apply list_elem_of_lookup_2 with k).
      eexists. split; [by rewrite (Hk k id Hid), Hc|]. cbn [set_assigned Assigned].
      rewrite elem_of_consecutive. lia.
    + intros id' Hid'. destruct (Hpart id' p Hid') as (k' & Hl' & Hlt' & Hkp').
      destruct (Nat.lt_trichotomy k k') as [Hlt3|[->|Hlt3]].
      * pose proof (start_mono q e Hq 0 (Z.of_nat k + 1) (Z.of_nat k')). lia.
      * congruence.
      * pose proof (start_mono q e Hq 0 (Z.of_nat k' + 1) (Z.of_nat k)). lia.
  - intros id p Hp. destruct (Hpart id p Hp) as (k & _ & Hlt & Hkp).
    pose proof (start_mono q e Hq 0 0 (Z.of_nat k)).
    pose proof (start_mono q e Hq 0 (Z.of_nat k + 1) n). unfold n, len in *. lia.
  - intros id c Hc. destruct (Hrank id c Hc) as (k & _ & _ & EA). rewrite EA, len_consecutive.
    split; [apply NoDup_consecutive|]. rewrite Hsize. fold q.
    pose proof (start_next q e 0 (Z.of_nat k)). lia.
Qed.
End Ranked.

Lemma assign_balanced order (cs : bmap Consumer) P :
  valid_consumers order -> 0 <= P -> cs <> ∅ ->
  exists cs', assign_range (order cs) (Z.quot P (len (order cs))) (Z.rem P (len (order cs))) 0 cs
    = Ok cs' /\ balanced P cs' /\ forall id, is_Some (cs' !! id) <-> is_Some (cs !! id).
Proof.
  intros Ho HP Hne. destruct (consumer_ids order cs Ho) as (Hnd & Hlen & Hin).
  set (ids := order cs) in *. set (n := len ids).
  assert (Hn : 0 < n).
  { assert (size cs <> 0%nat) by by apply map_size_non_empty_iff. unfold n, len. lia. }
  destruct (assign_range_spec ids (Z.quot P n) (Z.rem P n) 0 cs) as (cs' & E & Hother & Hk);
    [by apply Z.quot_pos|by apply Z.rem_bound_pos|done|].
  assert (Hdom : forall id, is_Some (cs' !! id) <-> is_Some (cs !! id)).
  { intros id. destruct (decide (id ∈ ids)) as [Hid|Hid]; [|by rewrite Hother].
    apply list_elem_of_lookup in Hid as [k Hid]. by rewrite (Hk k id Hid), fmap_is_Some. }
  exists cs'. split_and!; [done| |done].
  apply (ranked_balanced ids P cs cs'); [done..| |done]. unfold len. by rewrite Hlen, (same_size cs cs' Hdom).
Qed.

(** A negative number of partitions leaves nothing to assign. *)
Lemma assign_range_none ids q e cur cs cs' :
  e <= 0 -> q <= 0 -> ids <> [] -> assign_range ids q e cur cs = Ok cs' ->
  q = 0 /\ forall id, cs' !! id = if decide (id ∈ ids) then set_assigned [] <$> cs !! id else cs !! id.
Proof.
  intros He Hq. revert cur cs. induction ids as [|id ids IH]; intros cur cs Hne E; [done|].
  cbn [assign_range] in E. rewrite (proj2 (Z.ltb_ge 0 e)) in E by lia.
  destruct (Z.ltb_spec q 0) as [|Hq0]; [done|]. split; [lia|].
  assert (q = 0) as -> by lia. change (consecutive (Z.to_nat 0) cur) with (@nil Z) in E.
  destruct ids as [|id1 ids].
  - injection E as <-. intros id'. destruct (decide (id' ∈ [id])) as [Hid|Hid].
    + apply list_elem_of_singleton in Hid as ->. apply lookup_alter_eq.
    + apply lookup_alter_ne. intros ->. apply Hid. by left.
  - destruct (IH _ _ ltac:(done) E) as [_ Hl]. intros id'. rewrite Hl.
    destruct (decide (id' = id)) as [->|Hid].
    + rewrite lookup_alter_eq, (decide_True (P := id ∈ id :: _)) by left.
      destruct (decide _); [|done]. by destruct (cs !! id).
    + rewrite lookup_alter_ne by done.
      destruct (decide (id' ∈ id1 :: ids)) as [Hin|Hin].
      * by rewrite decide_True by by right.
      * by rewrite decide_False by (rewrite not_elem_of_cons; tauto).
Qed.

Lemma assign_ok order (cs cs' : bmap Consumer) P :
  valid_consumers order -> cs <> ∅ ->
  assign_range (order cs) (Z.quot P (len (order cs))) (Z.rem P (len (order cs))) 0 cs = Ok cs' ->
  balanced P cs' /\ forall id, is_Some (cs' !! id) <-> is_Some (cs !! id).
Proof.
  intros Ho Hne E. destruct (Z.le_gt_cases 0 P) as [HP|HP].
  { destruct (assign_balanced order cs P Ho HP Hne) as (cs1 & E1 & H1). assert (cs1 = cs') as <- by congruence. done. }
  destruct (consumer_ids order cs Ho) as (Hnd & Hlen & Hin).
  assert (Hsz : size cs <> 0%nat) by by apply map_size_non_empty_iff.
  assert (Hn : 0 < len (order cs)) by (unfold len; lia).
  pose proof (Z.rem_nonpos P (len (order cs)) ltac:(lia) ltac:(lia)) as He.
  assert (Hq : Z.quot P (len (order cs)) <= 0).
  { pose proof (Z.quot_pos (- P) (len (order cs)) ltac:(lia) Hn) as Hp.
    rewrite Z.quot_opp_l in Hp by lia. lia. }
  apply assign_range_none in E as [Hq0 Hl]; [|done|done|intros E0; by rewrite E0 in Hn].
  assert (Hempty : forall id c, cs' !! id = Some c -> Assigned c = []).
  { intros id c Hc. rewrite Hl in Hc. destruct (decide _) as [Hid|Hid].
    - apply fmap_Some in Hc as (c0 & _ & ->). done.
    - destruct Hid. apply Hin. by exists c. }
  assert (Hdom : forall id, is_Some (cs' !! id) <-> is_Some (cs !! id)).
  { intros id. rewrite Hl. destruct (decide _); [by rewrite fmap_is_Some|done]. }
  split; [|done]. split_and!.
  - intros p Hp. lia.
  - intros id p (c & Hc & Hp). rewrite (Hempty id c Hc) in Hp. by apply not_elem_of_nil in Hp.
  - intros id c Hc. rewrite (Hempty id c Hc). split; [constructor|].
    rewrite (same_size cs cs' Hdom), <- Hlen. fold (len (order cs)).
    change (P ÷ len (order cs) <= 0 <= P ÷ len (order cs) + 1). lia.
Qed.

Section Groups.
Context {bdg : Badger}.
Implicit Types s : Stream.

Lemma GetTopicMetadata_cached s s' t meta :
  GetTopicMetadata s t = (s', Ok meta) ->
  topicCache s' !! t = Some meta /\ groups s' = groups s.
Proof.
  unfold GetTopicMetadata. destruct (topicCache s !! t) as [m|] eqn:E.
  - by intros [= <- <-].
  - unfold then_. destruct (StreamStorage.GetTopicMetadata (storage s) t); [|done..].
    intros [= <- <-]. cbn. by rewrite lookup_insert_eq.
Qed.

(** What [rebalanceGroup] leaves behind when it succeeds. *)
Definition group_balanced s (group : bytes) (g : ConsumerGroup) : Prop :=
  exists g' meta, groups s !! group = Some g' /\ GroupTopic g' = GroupTopic g /\
    topicCache s !! GroupTopic g = Some meta /\ balanced (Partitions meta) (Consumers g') /\
    forall id, is_Some (Consumers g' !! id) <-> is_Some (Consumers g !! id).

Lemma rebalance_ok order s s' group g :
  valid_consumers order -> Consumers g <> ∅ ->
  rebalanceGroup order s group g = (s', Ok tt) -> group_balanced s' group g.
Proof.
  intros Ho Hne. unfold rebalanceGroup, then_.
  destruct (GetTopicMetadata s (GroupTopic g)) as [s1 [meta|e|]] eqn:E; [|done..].
  destruct (GetTopicMetadata_cached _ _ _ _ E) as [Hc _].
  destruct (Z.eqb_spec (len (order (Consumers g))) 0) as [E0|_].
  { destruct (consumer_ids order (Consumers g) Ho) as (_ & Hlen & _).
    apply map_size_non_empty_iff in Hne. unfold len in E0. lia. }
  destruct (assign_range _ _ _ _ _) as [cs|e|] eqn:EA; [|done..]. intros [= <-].
  destruct (assign_ok order _ cs (Partitions meta) Ho Hne EA) as [Hb Hd].
  eexists _, meta. cbn. rewrite lookup_insert_eq. split_and!; [done|done|done|done|exact Hd].
Qed.
End Groups.

(** ** Properties *)

(** C29: after a [Subscribe] or [Unsubscribe] that succeeds, every partition of
    the group's topic is assigned to exactly one consumer of the group and no
    other number is, the loads of the consumers differ by at most one, and the
    members are the old ones with, or without, the consumer; a group that
    loses its last consumer is removed. *)
Theorem groups_stay_balanced {bdg : Badger} order (s s' : Stream) now topic group consumerID :
  valid_consumers order ->
  (Subscribe now order s topic group consumerID = (s', Ok tt) ->
   exists g meta, groups s' !! group = Some g /\ GroupTopic g = topic /\
     topicCache s' !! topic = Some meta /\ balanced (Partitions meta) (Consumers g) /\
     forall id, is_Some (Consumers g !! id) <->
       id = consumerID \/ exists g0, groups s !! group = Some g0 /\ is_Some (Consumers g0 !! id)) /\
  (Unsubscribe order s topic group consumerID = (s', Ok tt) ->
   match groups s' !! group with
   | None => forall g0 id, groups s !! group = Some g0 -> is_Some (Consumers g0 !! id) -> id = consumerID
   | Some g => exists g0 meta, groups s !! group = Some g0 /\
       topicCache s' !! GroupTopic g = Some meta /\ balanced (Partitions meta) (Consumers g) /\
       forall id, is_Some (Consumers g !! id) <-> id <> consumerID /\ is_Some (Consumers g0 !! id)
   end).
Proof.
  intros Ho. split.
  - unfold Subscribe. set (g0 := default (mkGroup group topic ∅) (groups s !! group)).
    destruct (decide _) as [|Ht]; [done|]. apply dec_stable in Ht. intros E.
    apply rebalance_ok in E as (g' & meta & Hg & Et & Hc & Hb & Hd); [|done|apply insert_non_empty].
    cbn [GroupTopic Consumers] in *. rewrite Ht in *. exists g', meta. split_and!; [done..|].
    intros id. rewrite Hd. destruct (decide (id = consumerID)) as [->|Hne].
    + rewrite lookup_insert_eq. split; [by left|by eauto].
    + rewrite lookup_insert_ne by done. unfold g0. destruct (groups s !! group) as [g1|]; cbn.
      * split; [intros; right; by exists g1|]. by intros [?|(g2 & [= <-] & ?)].
      * rewrite lookup_empty. split; [by intros [? ?]|]. by intros [?|(? & ? & _)].
  - unfold Unsubscribe. destruct (groups s !! group) as [g0|] eqn:E0.
    2: { intros [= <-]. by rewrite E0. }
    cbn [GroupTopic Consumers GroupName]. destruct (decide _) as [Hempty|Hne].
    + intros [= <-]. cbn. rewrite lookup_delete_eq. intros g1 id [= <-] [c Hc].
      destruct (decide (id = consumerID)) as [|Hid]; [done|].
      assert (delete consumerID (Consumers g0) !! id = Some c) as H by by rewrite lookup_delete_ne.
      by rewrite Hempty, lookup_empty in H.
    + intros E. apply rebalance_ok in E as (g' & meta & Hg & Et & Hc & Hb & Hd); [|done|done].
      cbn [GroupTopic Consumers] in *. rewrite Hg. exists g0, meta. rewrite Et.
      split_and!; [done..|]. intros id. rewrite Hd. destruct (decide (id = consumerID)) as [->|Hid].
      * rewrite lookup_delete_eq. split; [by intros [? ?]|by intros [? _]].
      * rewrite lookup_delete_ne by done. tauto.
Qed.

Lemma groups_stay_balanced_witness :
  let order := fun cs : bmap Consumer => (map_to_list cs).*1 in
  let s0 := fst (CreateTopic (bdg := mem_badger) 1 (New mem_empty) (str "events") 5 0) in
  let s1 := fst (Subscribe 2 order s0 (str "events") (str "g") (str "a")) in
  let s2 := fst (Subscribe 3 order s1 (str "events") (str "g") (str "b")) in
  map (fun '(id, c) => (id, Assigned c))
    (map_to_list (default ∅ (Consumers <$> groups s2 !! str "g")))
    = [(str "b", [0; 1; 2]); (str "a", [3; 4])] /\
  exists g meta, groups s2 !! str "g" = Some g /\ GroupTopic g = str "events" /\
     topicCache s2 !! str "events" = Some meta /\ balanced (Partitions meta) (Consumers g) /\
     forall id, is_Some (Consumers g !! id) <-> id = str "b" \/
       exists g0, groups s1 !! str "g" = Some g0 /\ is_Some (Consumers g0 !! id).
Proof.
  intros order s0 s1 s2. split; [by vm_compute|].
  assert (Ho : valid_consumers order) by (intros cs; reflexivity).
  refine (proj1 (groups_stay_balanced order s1 s2 3 (str "events") (str "g") (str "b") Ho) _).
  by vm_compute.
Defined.
