(* ===== verification/StreamConsume.v ===== *)
(** Publishing and consuming over the logs of the storage: the partition a
    message goes to, the offset a consumer continues from, and what it is
    given. *)
From stdpp Require Import base list numbers gmap sorting strings.
From Stdlib Require Import ZArith Lia.
From S2P Require Import Prelude GoBytes Fields Fmt Badger StreamCodec StreamStorage StreamKeys StreamLog StreamBatch StreamRefine StreamService.

(** ** Partitions *)

Lemma Sum32_range key : u32 (Sum32 key).
Proof.
  unfold Sum32. assert (Hgen : forall h, u32 h -> u32 (fold_left (fun h b => uint32 (Z.lxor h b * 16777619)) key h)).
  { induction key as [|b key IH]; intros h Hh; cbn; [done|]. apply IH, uint32_range. }
  apply Hgen. unfold u32. lia.
Qed.

(** The partition is the one asked for when there is such a partition, and
    one of the topic's in any case. *)
Lemma select_partition_ok nano meta p key :
  0 < Partitions meta -> 0 <= nano ->
  exists p', select_partition nano meta p key = Ok p' /\ 0 <= p' < Partitions meta /\
    (0 <= p < Partitions meta -> p' = p) /\
    (~ 0 <= p < Partitions meta -> key <> [] -> p' = Sum32 key mod Partitions meta).
Proof.
  intros HP Hn. unfold select_partition, modulo. rewrite (proj2 (Z.eqb_neq (Partitions meta) 0)) by lia.
  pose proof (Sum32_range key) as Hs. unfold u32 in Hs.
  destruct (Z.ltb_spec p 0), (Z.leb_spec (Partitions meta) p); cbn [orb]; try lia.
  3: { exists p. split_and!; [done|lia|lia|done|lia]. }
  all: destruct (decide (key = [])) as [Hk|Hk]; eexists; split; [reflexivity| |reflexivity|].
  all: rewrite Z.rem_mod_nonneg by lia.
  all: pose proof (Z.mod_pos_bound nano (Partitions meta) HP).
  all: pose proof (Z.mod_pos_bound (Sum32 key) (Partitions meta) HP).
  all: split_and!; try lia; done.
Qed.

(** ** The state *)

Section Serves.
Context {bdg : Badger} {laws : BadgerLaws}.
Implicit Types (s : Stream) (G : slog).

(** What is cached of a topic is what was stored, or what reading it gives. *)
Definition cached_topic G (t : bytes) (meta : TopicMetadata) : Prop :=
  exists meta0, topics G t = Some meta0 /\ (meta = meta0 \/ meta = reloaded meta0).

(** A topic has from 1 to [2 ^ 32 - 1] partitions. *)
Definition topics_ok G : Prop :=
  forall t meta, topics G t = Some meta -> 0 < Partitions meta < 2 ^ 32.

Record serves (N : Z) G s : Prop := {
  sv_holds : holds N G (storage s);
  sv_topics : forall t meta, topicCache s !! t = Some meta -> cached_topic G t meta;
  sv_partitions : topics_ok G;
  sv_offsets : forall g t p o, name_ok g -> part_ok t p ->
    offsetCache s !! cacheKey g t p = Some o -> committed G g t p = o;
}.

Lemma serves_new (d : DB) : contents d = ∅ -> serves 0 empty_slog (New d).
Proof. intros Hd. split; [by apply logs_new|..]; done. Qed.

Lemma cached_partitions G t meta :
  topics_ok G -> cached_topic G t meta -> 0 < Partitions meta < 2 ^ 32.
Proof.
  intros Hok (meta0 & Ht & Hm). specialize (Hok t meta0 Ht).
  destruct Hm as [->| ->]; [done|]. cbn. unfold uint32. rewrite Z.mod_small; lia.
Qed.

Lemma cacheKey_inj g t p g' t' p' :
  name_ok g -> name_ok g' -> part_ok t p -> part_ok t' p' ->
  cacheKey g t p = cacheKey g' t' p' -> g = g' /\ t = t' /\ p = p'.
Proof.
  intros Hg Hg' H H' E. apply (consumerKey_inj g t p g' t' p' Hg Hg' H H').
  unfold makeConsumerOffsetKey. unfold cacheKey in E. by rewrite E.
Qed.

Context {rel : BadgerReliable}.

(** ** Topics *)

Lemma GetTopicMetadata_serves N G s t :
  serves N G s ->
  exists s' r, GetTopicMetadata s t = (s', r) /\ serves N G s' /\
    match r with
    | Ok meta => cached_topic G t meta /\ topicCache s' !! t = Some meta
    | Err e => e = ErrKeyNotFound /\ topics G t = None
    | Panic => False
    end.
Proof.
  intros H. unfold GetTopicMetadata. destruct (topicCache s !! t) as [meta|] eqn:Ec.
  { exists s, (Ok meta). split_and!; [done|done|by apply (sv_topics _ _ _ H)|done]. }
  pose proof (GetTopicMetadata_wp N G (storage s) t (sv_holds _ _ _ H)) as Hw.
  destruct (StreamStorage.GetTopicMetadata (storage s) t) as [meta|e|]; cbn in Hw; [|..|done].
  - destruct Hw as (meta0 & Ht & ->). assert (Hc : cached_topic G t (reloaded meta0)) by (exists meta0; auto).
    eexists _, _. split; [reflexivity|]. destruct H as [H1 H2 H3 H4]. split_and!; [split; try done|done|].
    + intros t' meta'. cbn. destruct (decide (t' = t)) as [->|Hne].
      * rewrite lookup_insert_eq. by intros [= <-].
      * rewrite lookup_insert_ne by done. apply H2.
    + cbn. by rewrite lookup_insert_eq.
  - destruct Hw as [Hf|Hw]; [by destruct (no_fault _ Hf)|]. by exists s, (Err e).
Qed.

Definition default_meta (now : Z) (name : bytes) (partitions retentionMs : Z) : TopicMetadata :=
  mkTopicMetadata name (if partitions <=? 0 then 4 else partitions)
    (if retentionMs <=? 0 then default_retention else retentionMs) 0 now.

Lemma CreateTopic_serves N G s now name partitions retentionMs :
  serves N G s -> N <= 2 ^ 63 -> short name -> partitions < 2 ^ 32 ->
  let meta := default_meta now name partitions retentionMs in
  exists s', CreateTopic now s name partitions retentionMs = (s', Ok tt) /\
    serves N (log_topic G meta) s' /\ topicCache s' !! name = Some meta.
Proof.
  intros [H1 H2 H3 H4] HN Hname HP meta. unfold CreateTopic. fold (default_meta now name partitions retentionMs).
  fold meta. destruct (CreateTopic_holds N G (storage s) meta H1 Hname) as (st & E & H'). rewrite E.
  eexists. split; [reflexivity|]. split; [|cbn; apply lookup_insert_eq]. split; [exact H'|..].
  - intros t meta'. cbn. unfold cached_topic. cbn. destruct (decide (t = name)) as [->|Hne].
    + rewrite lookup_insert_eq. intros [= <-]. exists meta. auto.
    + rewrite lookup_insert_ne by done. apply H2.
  - intros t meta'. cbn. destruct (decide _) as [->|]; [|apply H3]. intros [= <-]. cbn.
    destruct (Z.leb_spec partitions 0); lia.
  - exact H4.
Qed.

(** The state in which a topic has been made sure of. *)
Definition with_topic G (now : Z) (t : bytes) : slog :=
  match topics G t with Some _ => G | None => log_topic G (default_meta now t 4 0) end.

Lemma ensure_topic_serves N G s now t :
  serves N G s -> N <= 2 ^ 63 -> short t ->
  exists s' meta, ensure_topic now s t = (s', Ok meta) /\ serves N (with_topic G now t) s' /\
    cached_topic (with_topic G now t) t meta /\ topicCache s' !! t = Some meta.
Proof.
  intros H HN Ht. destruct (GetTopicMetadata_serves N G s t H) as (s1 & r & E & H1 & Hr).
  unfold ensure_topic, with_topic. rewrite E. destruct r as [meta|e|]; [|..|done].
  - destruct Hr as [Hc Hs]. exists s1, meta. pose proof Hc as (meta0 & -> & _). done.
  - destruct Hr as [-> Hn]. rewrite Hn.
    destruct (CreateTopic_serves N G s1 now t 4 0 H1 HN Ht ltac:(lia)) as (s2 & E2 & H2 & Hc2).
    rewrite E2. cbn [then_]. unfold GetTopicMetadata. rewrite Hc2.
    eexists s2, _. split; [reflexivity|]. split_and!; [done| |done].
    apply (sv_topics _ _ _ H2). exact Hc2.
Qed.

(** ** Publishing *)

Lemma serves_storage N N' G G' s st :
  serves N G s -> holds N' G' st -> committed G' = committed G -> topics G' = topics G ->
  serves N' G' (set_storage s st).
Proof.
  intros [H1 H2 H3 H4] H Ec Et. split; [exact H|..].
  - intros t meta Hm. unfold cached_topic. rewrite Et. by apply H2.
  - intros t meta. rewrite Et. apply H3.
  - intros g t p o Hg Ht. rewrite Ec. by apply H4.
Qed.

Lemma Publish_serves N G s now nano t p key value :
  serves N G s -> N < 2 ^ 63 -> name_ok t -> short t -> short key -> long value -> i64 now -> 0 <= nano ->
  let G1 := with_topic G now t in
  exists s' meta p', Publish now nano s t p key value = (s', Ok (next (logs G1 t p'))) /\
    cached_topic G1 t meta /\ select_partition nano meta p key = Ok p' /\
    0 <= p' < Partitions meta /\
    serves (N + 1) (log_append G1 now t p' key value) s'.
Proof.
  intros H HN Ht Hs Hk Hv Hnow Hnano G1.
  destruct (ensure_topic_serves N G s now t H ltac:(lia) Hs) as (s1 & meta & E & H1 & Hc & _).
  fold G1 in H1, Hc. pose proof (cached_partitions _ _ _ (sv_partitions _ _ _ H1) Hc) as HP.
  destruct (select_partition_ok nano meta p key ltac:(lia) Hnano) as (p' & Ep & Hp & _).
  destruct (AppendMessage_holds N G1 (storage s1) now t p' key value (sv_holds _ _ _ H1) HN) as (st & Ea & Ha).
  { refine (conj (conj Ht _) (conj Hk (conj Hv Hnow))). lia. }
  exists (set_storage s1 st), meta, p'. unfold Publish. rewrite E. cbn [then_]. rewrite Ep. cbn [then_].
  rewrite Ea. split_and!; [done|done|done|lia|lia|]. by apply (serves_storage N (N + 1) G1).
Qed.

(** ** Committing *)

Lemma serves_equiv N G G' s : G ≡ G' -> serves N G s -> serves N G' s.
Proof.
  intros HG [H1 H2 H3 H4]. pose proof HG as (_ & Ec & Et). split.
  - by rewrite <- HG.
  - intros t meta Hm. unfold cached_topic. rewrite <- Et. by apply H2.
  - intros t meta. rewrite <- Et. apply H3.
  - intros g t p o. rewrite <- Ec. apply H4.
Qed.

Lemma Commit_serves N G s now t g p offset :
  serves N G s -> N <= 2 ^ 63 -> name_ok g -> part_ok t p -> i64 offset ->
  exists s', Commit now s t g p offset = (s', Ok tt) /\
    serves N (log_commit G g t p offset) s' /\ groups s' = groups s.
Proof.
  intros [H1 H2 H3 H4] HN Hg Ht Ho. unfold Commit.
  destruct (CommitOffset_holds N G (storage s) now g t p offset H1 Hg Ht Ho) as (st & E & H').
  cbn [storage set_cache]. rewrite E.
  eexists. split; [reflexivity|]. split; [|done]. split; [exact H'|exact H2|exact H3|].
  intros g' t' p' o Hg' Ht'. cbn. destruct (decide _) as [(-> & -> & ->)|Hne].
  - rewrite lookup_insert_eq. by intros [= ->].
  - rewrite lookup_insert_ne; [by apply H4|]. intros Ek.
    apply cacheKey_inj in Ek as (-> & -> & ->); [|done..]. by apply Hne.
Qed.

Lemma committed_i64 N G s g t p :
  serves N G s -> name_ok g -> part_ok t p -> i64 (committed G g t p).
Proof.
  intros H Hg Ht. destruct (h_rest _ _ _ (sv_holds _ _ _ H)) as (_ & _ & Hc).
  destruct (Hc g t p Hg Ht) as [[_ ->]|(now & _ & Hi)]; [|done]. unfold i64. lia.
Qed.

Lemma getCachedOffset_serves N G s g t p :
  serves N G s -> name_ok g -> part_ok t p ->
  exists s', getCachedOffset s g t p = (s', Ok (committed G g t p)) /\ serves N G s' /\
    groups s' = groups s.
Proof.
  intros H Hg Ht. unfold getCachedOffset. destruct (offsetCache s !! cacheKey g t p) as [o|] eqn:E.
  - exists s. by rewrite (sv_offsets _ _ _ H g t p o Hg Ht E).
  - pose proof (GetConsumerOffset_wp N G (storage s) g t p (sv_holds _ _ _ H) Hg Ht) as Hw.
    apply wp_reliable in Hw as (r & Er & ->). rewrite Er. cbn [then_]. eexists. split; [reflexivity|].
    split; [|done]. destruct H as [H1 H2 H3 H4]. split; [done..|].
    intros g' t' p' o Hg' Ht'. cbn. destruct (decide (cacheKey g' t' p' = cacheKey g t p)) as [Ek|Hne].
    + apply cacheKey_inj in Ek as (-> & -> & ->); [|done..]. rewrite lookup_insert_eq. by intros [= ->].
    + rewrite lookup_insert_ne by done. by apply H4.
Qed.

(** ** Consuming *)

(** What a consumer is given of a partition. *)
Definition next_messages G (g t : bytes) (perPart p : Z) : list Message :=
  log_fetch G t p (committed G g t p) perPart.

Lemma flush_messages G t p : all_messages (logs (log_flush G) t p) = all_messages (logs G t p).
Proof. unfold all_messages. cbn. by rewrite app_nil_r. Qed.

Lemma flush_flush G : log_flush (log_flush G) ≡ log_flush G.
Proof. split; [|done]. intros t p. cbn. unfold all_messages. cbn. by rewrite app_nil_r. Qed.

Lemma next_messages_flush G g t perPart p :
  next_messages (log_flush G) g t perPart p = next_messages G g t perPart p.
Proof. unfold next_messages, log_fetch. by rewrite flush_messages. Qed.

Lemma fetch_partition_serves N G s flush g t perPart p :
  serves N G s -> N <= 2 ^ 63 -> valid_order flush -> name_ok g -> part_ok t p -> 0 <= perPart ->
  exists s', fetch_partition flush g t perPart s p = (s', Ok (next_messages G g t perPart p)) /\
    serves N (log_flush G) s' /\ groups s' = groups s.
Proof.
  intros H HN Ho Hg Ht Hper. destruct (getCachedOffset_serves N G s g t p H Hg Ht) as (s1 & E1 & H1 & Eg).
  unfold fetch_partition. rewrite E1. cbn [then_].
  pose proof (committed_i64 N G s g t p H Hg Ht) as [_ Hc].
  destruct (FetchMessages_holds N G (storage s1) flush t p (committed G g t p) perPart
    (sv_holds _ _ _ H1) HN Ho Ht Hc Hper) as (st & E2 & H2).
  rewrite E2. eexists. split; [reflexivity|]. split; [|done].
  by apply (serves_storage N N G).
Qed.

Lemma fetch_partitions_serves N G s flush g t perPart ps :
  serves N G s -> N <= 2 ^ 63 -> valid_order flush -> name_ok g -> name_ok t ->
  Forall (fun p => 0 <= p) ps -> 0 <= perPart ->
  exists s', fetch_partitions flush g t perPart s ps
      = (s', map Ok (map (next_messages G g t perPart) ps)) /\
    serves N (if decide (ps = []) then G else log_flush G) s' /\ groups s' = groups s.
Proof.
  intros H HN Ho Hg Ht Hps Hper. revert G s H. induction Hps as [|p ps Hp _ IH]; intros G s H.
  - by exists s.
  - destruct (fetch_partition_serves N G s flush g t perPart p H HN Ho Hg (conj Ht Hp) Hper)
      as (s1 & E1 & H1 & Eg1).
    destruct (IH (log_flush G) s1 H1) as (s2 & E2 & H2 & Eg2).
    cbn [fetch_partitions]. rewrite E1, E2. exists s2. split_and!; [| |congruence].
    + cbn [map]. by rewrite (map_ext _ _ (next_messages_flush G g t perPart)).
    + destruct (decide (ps = [])); [done|]. eapply serves_equiv; [apply flush_flush|done].
Qed.

(** The collecting loop stops once it has enough. *)
Lemma collect_spec {A} (f : A -> list Message) per count ps acc :
  (forall p, len (f p) <= per) ->
  exists k msgs, collect count (map Ok (map f ps)) acc = Ok msgs /\
    msgs = acc ++ concat (map f (take k ps)) /\
    ((k < length ps)%nat -> count <= len msgs) /\
    (len acc + per * len ps <= count -> len msgs <= count) /\
    (per = 1 -> len acc <= Z.max 0 (count - 1) -> len msgs <= Z.max 1 count).
Proof.
  intros Hf. revert acc. induction ps as [|p ps IH]; intros acc.
  - exists 0%nat, acc. cbn. rewrite app_nil_r. split_and!; [done|done|lia|len_lia|lia].
  - cbn [map collect]. pose proof (Hf p) as Hp. pose proof (len_nonneg (f p)) as Hp0.
    pose proof (len_nonneg ps) as Hps. destruct (Z.leb_spec count (len (acc ++ f p))) as [Hc|Hc].
    + exists 1%nat, (acc ++ f p). cbn. rewrite app_nil_r.
      split_and!; [done|done|done| |len_lia]. rewrite len_cons in *. rewrite len_app in *. nia.
    + destruct (IH (acc ++ f p)) as (k & msgs & E & Em & Hk & Hle & H1).
      exists (S k), msgs. split_and!; [done|by rewrite Em, <- app_assoc|intros; apply Hk; cbn in *; lia| |].
      * intros Hle'. apply Hle. rewrite len_cons in *. rewrite len_app in *. nia.
      * intros Hper _. apply H1; [done|]. lia.
Qed.
End Serves.

Lemma len_log_fetch G t p start max : 0 <= max -> len (log_fetch G t p start max) <= max.
Proof. intros. unfold log_fetch, len. rewrite length_take. lia. Qed.

Section Members.
Context {bdg : Badger} {laws : BadgerLaws} {rel : BadgerReliable}.
Implicit Types (s : Stream) (G : slog).

(** Membership does not touch the logs. *)
Lemma serves_groups N G s gs : serves N G s -> serves N G (set_groups s gs).
Proof. intros [H1 H2 H3 H4]. by split. Qed.

Lemma rebalance_serves N G s order group g :
  serves N G s -> serves N G (rebalanceGroup order s group g).1.
Proof.
  intros H. unfold rebalanceGroup, then_.
  destruct (GetTopicMetadata_serves N G s (GroupTopic g) H) as (s1 & r & E & H1 & _).
  rewrite E. destruct r as [meta|e|]; [|done..]. destruct (_ =? 0); [done|].
  destruct (assign_range _ _ _ _ _); try done. by apply serves_groups.
Qed.

Lemma Subscribe_serves N G s now order t group id :
  serves N G s -> serves N G (Subscribe now order s t group id).1.
Proof.
  intros H. unfold Subscribe. destruct (decide _); [by apply serves_groups|].
  by apply rebalance_serves, serves_groups, serves_groups.
Qed.

Lemma Unsubscribe_serves N G s order t group id :
  serves N G s -> serves N G (Unsubscribe order s t group id).1.
Proof.
  intros H. unfold Unsubscribe. destruct (groups s !! group); [|done].
  destruct (decide _); [by apply serves_groups, serves_groups|].
  by apply rebalance_serves, serves_groups.
Qed.
End Members.

(** ** Properties *)

(** [Publish] makes sure of the topic, with four partitions and seven
    days when it has to create it, and appends the message to one of the
    topic's partitions: the one asked for if there is such a partition, else
    the one given by the hash of the key, so that equal keys meet; it returns
    the next offset of that partition. *)
Theorem publish_appends {bdg : Badger} {laws : BadgerLaws} {rel : BadgerReliable}
    N G (s : Stream) now nano t p key value :
  serves N G s -> N < 2 ^ 63 -> name_ok t -> short t -> short key -> long value -> i64 now ->
  0 <= nano ->
  let G1 := with_topic G now t in
  exists s' meta p',
    Publish now nano s t p key value = (s', Ok (next (logs G1 t p'))) /\
    serves (N + 1) (log_append G1 now t p' key value) s' /\
    cached_topic G1 t meta /\ 0 <= p' < Partitions meta /\
    (0 <= p < Partitions meta -> p' = p) /\
    (~ 0 <= p < Partitions meta -> key <> [] -> p' = Sum32 key mod Partitions meta).
Proof.
  intros H HN Ht Hs Hk Hv Hnow Hnano G1.
  destruct (Publish_serves N G s now nano t p key value) as (s' & meta & p' & E & Hc & Ep & Hp & H');
    [done..|].
  destruct (select_partition_ok nano meta p key) as (p1 & Ep1 & _ & Hsame & Hhash); [lia|done|].
  fold G1 in E, Hc, H'. assert (p1 = p') as -> by congruence.
  exists s', meta, p'. by split_and!; try apply Hp.
Qed.

Lemma publish_appends_witness :
  snd (Publish (bdg := mem_badger) 1000 5 (New mem_empty) (str "events") (-1) (str "user") (str "v"))
    = Ok 0 /\
  let G1 := with_topic empty_slog 1000 (str "events") in
  exists s' meta p',
    Publish (bdg := mem_badger) 1000 5 (New mem_empty) (str "events") (-1) (str "user") (str "v")
      = (s', Ok (next (logs G1 (str "events") p'))) /\
    serves (0 + 1) (log_append G1 1000 (str "events") p' (str "user") (str "v")) s' /\
    cached_topic G1 (str "events") meta /\ 0 <= p' < Partitions meta /\
    (0 <= -1 < Partitions meta -> p' = -1) /\
    (~ 0 <= -1 < Partitions meta -> str "user" <> [] -> p' = Sum32 (str "user") mod Partitions meta).
Proof.
  split; [by vm_compute|]. apply (publish_appends 0 empty_slog (New (mem_empty : DB (Badger := mem_badger)))).
  - by apply serves_new.
  - done.
  - by apply (bool_decide_unpack _).
  - done.
  - done.
  - done.
  - done.
  - done.
Defined.

(** [Consume] gives a member the messages of its partitions from the
    offsets the group has committed on, partition by partition in the order
    the results arrive, an equal share each; it stops early only when it has
    the number asked for, and returns no more than that (at least one); it
    commits nothing. *)
Theorem consume_continues {bdg : Badger} {laws : BadgerLaws} {rel : BadgerReliable}
    N G (s : Stream) now flush arrival topic group id count g c :
  serves N G s -> N <= 2 ^ 63 -> valid_order flush -> name_ok group -> name_ok topic ->
  groups s !! group = Some g -> Consumers g !! id = Some c -> Assigned c <> [] ->
  Forall (fun p => 0 <= p) (Assigned c) -> arrival (Assigned c) ≡ₚ Assigned c -> 0 <= count ->
  let perPart := Z.max 1 (count / len (Assigned c)) in
  exists s' msgs k,
    Consume now flush arrival s topic group id count = (s', Ok msgs) /\
    msgs = concat (map (next_messages G group topic perPart) (take k (arrival (Assigned c)))) /\
    ((k < length (Assigned c))%nat -> count <= len msgs) /\ len msgs <= Z.max 1 count /\
    serves N (log_flush G) s'.
Proof.
  intros H HN Ho Hg Ht Eg Ec Hne Hpos Harr Hcount perPart.
  assert (Hlen : 0 < len (Assigned c)) by (destruct (Assigned c); [done|unfold len; cbn; lia]).
  assert (Hn : arrival (Assigned c) <> []) by (intros E; rewrite E in Harr; by apply Permutation_nil_l in Harr).
  assert (Eper : (let q := Z.quot count (len (Assigned c)) in if q =? 0 then 1 else q) = perPart).
  { unfold perPart. cbv zeta. rewrite Z.quot_div_nonneg by lia.
    pose proof (Z.div_pos count (len (Assigned c)) Hcount Hlen).
    destruct (Z.eqb_spec (count / len (Assigned c)) 0); lia. }
  unfold Consume. rewrite Eg, Ec. cbn [Assigned]. cbv zeta in *.
  rewrite (proj2 (Z.eqb_neq (len (Assigned c)) 0)), Eper by lia.
  match goal with |- context [fetch_partitions _ _ _ _ ?s1 _] => set (s0 := s1) end.
  destruct (fetch_partitions_serves N G s0 flush group topic perPart (arrival (Assigned c)))
    as (s' & E & H' & _); [by apply serves_groups|done..|by rewrite Harr|lia|].
  rewrite E, decide_False in * by done.
  assert (Hnop : forall ls : list (list Message), existsb is_panic (map Ok ls) = false)
    by (induction ls; done).
  rewrite Hnop, (proj2 (Z.ltb_ge count 0)) by lia. cbn [orb].
  destruct (collect_spec (next_messages G group topic perPart) perPart count (arrival (Assigned c)) [])
    as (k & msgs & Ecol & Em & Hk & Hle & H1).
  { intros p. apply len_log_fetch. lia. }
  exists s', msgs, k. rewrite Ecol. split_and!; [done|done| | |done].
  - by rewrite (Permutation_length Harr) in Hk.
  - destruct (Z.le_gt_cases (len (Assigned c)) count) as [Hc|Hc].
    + transitivity count; [|lia]. apply Hle. rewrite len_nil. unfold len at 1.
      rewrite (Permutation_length Harr). fold (len (Assigned c)).
      assert (1 <= count / len (Assigned c)) by (apply Z.div_le_lower_bound; lia).
      pose proof (Z.mul_div_le count (len (Assigned c)) Hlen). unfold perPart. nia.
    + apply H1; [|rewrite len_nil; lia]. unfold perPart. by rewrite Z.div_small by lia.
Qed.

Lemma consume_continues_witness :
  let order := fun cs : bmap Consumer => (map_to_list cs).*1 in
  let s1 := fst (Publish (bdg := mem_badger) 1000 5 (New mem_empty) (str "events") 0 (str "k") (str "v")) in
  let s2 := fst (Subscribe 1001 order s1 (str "events") (str "g") (str "a")) in
  snd (Consume 1002 map_to_list id s2 (str "events") (str "g") (str "a") 10)
    = Ok [mkMessage [] 0 0 (str "k") (str "v") 1000] /\
  exists G s' msgs k,
    Consume 1002 map_to_list id s2 (str "events") (str "g") (str "a") 10 = (s', Ok msgs) /\
    msgs = concat (map (next_messages G (str "g") (str "events") 2) (take k [0; 1; 2; 3])) /\
    ((k < 4)%nat -> 10 <= len msgs) /\ len msgs <= 10 /\ serves 1 (log_flush G) s'.
Proof.
  intros order s1 s2. split; [by vm_compute|].
  destruct (Publish_serves 0 empty_slog (New (mem_empty : DB (Badger := mem_badger))) 1000 5
    (str "events") 0 (str "k") (str "v")) as (s' & meta & p' & E & _ & _ & _ & H);
    [by apply serves_new|done|by apply (bool_decide_unpack _)|done..|].
  assert (E1 : s1 = s') by (unfold s1; by rewrite E). rewrite <- E1 in H.
  apply (Subscribe_serves _ _ _ 1001 order (str "events") (str "g") (str "a")) in H. fold s2 in H.
  eexists. set (c := mkConsumer (str "a") 1001 [0; 1; 2; 3]).
  refine (consume_continues 1 _ s2 1002 map_to_list id (str "events") (str "g") (str "a") 10
    (mkGroup (str "g") (str "events") {[ str "a" := c ]}) c H _ _ _ _ _ _ _ _ _ _).
  - done.
  - intros b. reflexivity.
  - by apply (bool_decide_unpack _).
  - by apply (bool_decide_unpack _).
  - by vm_compute.
  - by vm_compute.
  - done.
  - by apply (bool_decide_unpack _).
  - done.
  - done.
Defined.

(** [Commit] sets the offset its group continues from on that partition,
    in the cache and in the database, and no other: a later read, through the
    cache or after a restart, gives the committed offset; names with colons
    excepted. *)
Theorem commit_sets_offset {bdg : Badger} {laws : BadgerLaws} {rel : BadgerReliable}
    N G (s : Stream) now topic group p offset :
  serves N G s -> N <= 2 ^ 63 -> name_ok group -> part_ok topic p -> i64 offset ->
  exists s', Commit now s topic group p offset = (s', Ok tt) /\
    serves N (log_commit G group topic p offset) s' /\
    forall g t q, name_ok g -> part_ok t q ->
      let expected := if decide (g = group /\ t = topic /\ q = p) then offset else committed G g t q in
      snd (getCachedOffset s' g t q) = Ok expected /\
      GetConsumerOffset (NewStorage (db (storage s'))) g t q = Ok expected.
Proof.
  intros H HN Hg Ht Ho.
  destruct (Commit_serves N G s now topic group p offset H HN Hg Ht Ho) as (s' & E & H' & _).
  exists s'. split_and!; [done|done|]. intros g t q Hg' Ht' expected. split.
  - by destruct (getCachedOffset_serves N _ s' g t q H' Hg' Ht') as (s1 & -> & _).
  - pose proof (GetConsumerOffset_wp N _ (storage s') g t q (sv_holds _ _ _ H') Hg' Ht') as Hw.
    apply wp_reliable in Hw as (r & Er & ->). exact Er.
Qed.

Lemma commit_sets_offset_witness :
  snd (getCachedOffset (bdg := mem_badger)
    (fst (Commit 1 (New mem_empty) (str "events") (str "g") 2 7)) (str "g") (str "events") 2) = Ok 7 /\
  exists s', Commit (bdg := mem_badger) 1 (New mem_empty) (str "events") (str "g") 2 7 = (s', Ok tt) /\
    serves 0 (log_commit empty_slog (str "g") (str "events") 2 7) s' /\
    forall g t q, name_ok g -> part_ok t q ->
      let expected := if decide (g = str "g" /\ t = str "events" /\ q = 2) then 7 else 0 in
      snd (getCachedOffset s' g t q) = Ok expected /\
      GetConsumerOffset (NewStorage (db (storage s'))) g t q = Ok expected.
Proof.
  split; [by vm_compute|].
  apply (commit_sets_offset 0 empty_slog (New (mem_empty : DB (Badger := mem_badger)))
    1 (str "events") (str "g") 2 7).
  - by apply serves_new.
  - done.
  - by apply (bool_decide_unpack _).
  - split; [by apply (bool_decide_unpack _)|done].
  - done.
Defined.

(** Names with colons: two groups on two topics share one committed offset. *)
Lemma colon_offsets_collide p :
  makeConsumerOffsetKey (str "a:b") (str "c") p = makeConsumerOffsetKey (str "a") (str "b:c") p /\
  cacheKey (str "a:b") (str "c") p = cacheKey (str "a") (str "b:c") p.
Proof. split; reflexivity. Qed.

(** Closing twice closes a closed channel. *)
Lemma second_close_panics {bdg : Badger} {batch : BadgerBatch} (s : Stream) flush flush' :
  snd (flushWrites flush (set_stopped (storage s))) <> Panic ->
  snd (Close flush' (fst (Close flush s))) = Panic.
Proof.
  intros H. unfold Close, StreamStorage.Close, on_storage.
  destruct (stopped (storage s)) eqn:E; cbn [fst snd storage set_storage]; [by rewrite E|].
  assert (Hst : stopped (flushWrites flush (set_stopped (storage s))).1 = true).
  { unfold flushWrites. by destruct (decide _). }
  destruct (flushWrites flush (set_stopped (storage s))) as [st [u|e|]]; cbn in *; [|..|done];
    by rewrite Hst.
Qed.
