(* ===== verification/GoValue.v ===== *)
(** Values of type [interface{}] as the document store meets them: the dynamic
    types its code tells apart, their text under [%v], their identity as keys of
    a Go map, and induction on their structure. *)
From stdpp Require Import base list numbers gmap strings.
From Stdlib Require Import ZArith Lia.
From S2P Require Import Prelude Fmt Badger GoFloat.

#[local] Set Warnings "-register-all".

(** [[]interface{}] is [VArray], [[]string] is [VStrings] and
    [map[string]interface{}] is [VObject]. *)
Inductive value : Type :=
| VNil
| VBool (b : bool)
| VInt (n : Z)
| VInt64 (n : Z)
| VInt32 (n : Z)
| VFloat64 (f : float)
| VFloat32 (f : float)
| VString (s : bytes)
| VArray (l : list value)
| VStrings (l : list bytes)
| VObject (m : bmap value).

(** ** Induction *)

Fixpoint size (v : value) : nat :=
  match v with
  | VArray l => S (foldr (fun v n => size v + n)%nat 0%nat l)
  | VObject m => S (map_fold (fun _ v n => size v + n)%nat 0%nat m)
  | _ => 0
  end.

Section Induction.
Variable P : value -> Prop.
Hypothesis P_scalar : forall v,
  match v with VArray _ | VObject _ => False | _ => True end -> P v.
Hypothesis P_array : forall l, Forall P l -> P (VArray l).
Hypothesis P_object : forall m : bmap value, map_Forall (fun _ => P) m -> P (VObject m).

Lemma value_nested_ind v : P v.
Proof.
  remember (size v) as n eqn:E. revert v E. induction (lt_wf n) as [n _ IH]. intros v ->.
  destruct v as [| | | | | | | |l| |m]; try by apply P_scalar.
  - apply P_array, Forall_forall. intros x Hx. eapply IH; [|done]. cbn. clear -Hx.
    induction Hx; cbn; lia.
  - apply P_object. intros k x Hx. eapply IH; [|done]. cbn. clear -Hx.
    rewrite (map_fold_delete_L _ _ k x); [lia|intros; lia|done].
Qed.
End Induction.

(** ** The text of a value *)

Fixpoint join (sep : bytes) (l : list bytes) : bytes :=
  match l with
  | [] => []
  | [s] => s
  | s :: l => s ++ sep ++ join sep l
  end.

(** [fmt.Sprintf("%v", v)]: a map's entries are in the order of its keys. *)
Fixpoint sprint (v : value) : bytes :=
  match v with
  | VNil => str "<nil>"
  | VBool b => str (if b then "true" else "false")
  | VInt n | VInt64 n | VInt32 n => fmt_d n
  | VFloat64 f => fmt_g binary64 f
  | VFloat32 f => fmt_g binary32 f
  | VString s => s
  | VArray l => str "[" ++ join (str " ") (map sprint l) ++ str "]"
  | VStrings l => str "[" ++ join (str " ") l ++ str "]"
  | VObject m =>
      str "map[" ++
      join (str " ") (map (fun kv => kv.1 ++ str ":" ++ kv.2) (mem_items (sprint <$> m) [])) ++
      str "]"
  end.

(** ** Values as keys of a map

    Two keys are one when [==] holds of the values: the dynamic types are the
    same, and the zeros of both signs are equal. *)
Inductive ikey : Type :=
| KNil
| KBool (b : bool)
| KInt (n : Z)
| KInt64 (n : Z)
| KInt32 (n : Z)
| KFloat64 (f : float)
| KFloat32 (f : float)
| KString (s : bytes).

#[export] Instance ikey_eq_dec : EqDecision ikey.
Proof. solve_decision. Defined.

#[export] Instance float_countable : Countable float.
Proof.
  refine (inj_countable'
    (fun f => match f with Fin b m => inl (b, m) | Inf b => inr (Some b) | NaN => inr None end)
    (fun x => match x with inl (b, m) => Fin b m | inr (Some b) => Inf b | inr None => NaN end) _).
  by intros [].
Defined.

#[export] Instance ikey_countable : Countable ikey.
Proof.
  refine (inj_countable'
    (fun k => match k with
      | KNil => inl (inl None) | KBool b => inl (inl (Some b))
      | KInt n => inl (inr (0, n)) | KInt64 n => inl (inr (1, n)) | KInt32 n => inl (inr (2, n))
      | KFloat64 f => inr (inl (true, f)) | KFloat32 f => inr (inl (false, f))
      | KString s => inr (inr s)
      end)
    (fun x => match x with
      | inl (inl None) => KNil | inl (inl (Some b)) => KBool b
      | inl (inr (0, n)) => KInt n | inl (inr (1, n)) => KInt64 n | inl (inr (_, n)) => KInt32 n
      | inr (inl (true, f)) => KFloat64 f | inr (inl (false, f)) => KFloat32 f
      | inr (inr s) => KString s
      end) _).
  by intros [].
Defined.

Definition float_key (f : float) : option float :=
  match f with
  | NaN => None
  | Fin _ 0 => Some (Fin false 0)
  | _ => Some f
  end.

(** The key of a value: slices and maps are not hashable, a lookup with one
    panics; a NaN equals no key ([None]). *)
Definition key_of (v : value) : result (option ikey) :=
  match v with
  | VNil => Ok (Some KNil)
  | VBool b => Ok (Some (KBool b))
  | VInt n => Ok (Some (KInt n))
  | VInt64 n => Ok (Some (KInt64 n))
  | VInt32 n => Ok (Some (KInt32 n))
  | VFloat64 f => Ok (KFloat64 <$> float_key f)
  | VFloat32 f => Ok (KFloat32 <$> float_key f)
  | VString s => Ok (Some (KString s))
  | VArray _ | VStrings _ | VObject _ => Panic
  end.
