(* ===== verification/Json.v ===== *)
(** encoding/json for the values of the document store: [Marshal], [Unmarshal]
    into an [interface{}], and the proof that what is marshalled is read back,
    its numbers as [float64].  Of an error only that there is one is modelled. *)
From stdpp Require Import base list numbers gmap strings.
From Stdlib Require Import ZArith Lia.
From S2P Require Import Prelude Fmt Badger GoFloat GoValue.

Definition json_error : error := External (str "json").

(** ** Runes

    The text split as [utf8.DecodeRune] does: well-formed sequences, and single
    bytes where there is none. *)
Definition between (lo hi b : byte) : bool := (lo <=? b) && (b <=? hi).
Definition cont : byte -> bool := between 128 191.
Definition seq2 (b0 b1 : byte) : bool := between 194 223 b0 && cont b1.
Definition seq3 (b0 b1 b2 : byte) : bool :=
  cont b2 && (((b0 =? 224) && between 160 191 b1) || ((b0 =? 237) && between 128 159 b1)
              || ((between 225 236 b0 || between 238 239 b0) && cont b1)).
Definition seq4 (b0 b1 b2 b3 : byte) : bool :=
  cont b2 && cont b3 &&
  (((b0 =? 240) && between 144 191 b1) || ((b0 =? 244) && between 128 143 b1)
   || (between 241 243 b0 && cont b1)).

Fixpoint runes (s : bytes) : list bytes :=
  match s with
  | [] => []
  | b0 :: s1 =>
      match s1 with
      | [] => [[b0]]
      | b1 :: s2 =>
          if seq2 b0 b1 then [b0; b1] :: runes s2 else
          match s2 with
          | [] => [b0] :: runes s1
          | b2 :: s3 =>
              if seq3 b0 b1 b2 then [b0; b1; b2] :: runes s3 else
              match s3 with
              | [] => [b0] :: runes s1
              | b3 :: s4 =>
                  if seq4 b0 b1 b2 b3 then [b0; b1; b2; b3] :: runes s4 else [b0] :: runes s1
              end
          end
      end
  end.

Definition rune_ok (r : bytes) : bool :=
  match r with
  | [b] => between 0 127 b
  | [b0; b1] => seq2 b0 b1
  | [b0; b1; b2] => seq3 b0 b1 b2
  | [b0; b1; b2; b3] => seq4 b0 b1 b2 b3
  | _ => false
  end.

(** Well-formed UTF-8. *)
Definition utf8 (s : bytes) : bool := forallb rune_ok (runes s).

(** [utf8.EncodeRune] *)
Definition encode_rune (r : Z) : bytes :=
  if r <? 128 then [r]
  else if r <? 2048 then [192 + r / 64; 128 + r mod 64]
  else if r <? 65536 then [224 + r / 4096; 128 + r / 64 mod 64; 128 + r mod 64]
  else [240 + r / 262144; 128 + r / 4096 mod 64; 128 + r / 64 mod 64; 128 + r mod 64].

Definition RuneError : bytes := [239; 191; 189].

(** ** Strings *)

Definition hex (d : Z) : byte := if d <? 10 then 48 + d else 87 + d.
Definition hex_val (b : byte) : option Z :=
  if between 48 57 b then Some (b - 48)
  else if between 97 102 b then Some (b - 87)
  else if between 65 70 b then Some (b - 55)
  else None.

(** The short escapes: the byte meant and the letter after the backslash. *)
Definition short_escapes : list (byte * byte) :=
  [(34, 34); (92, 92); (8, 98); (12, 102); (10, 110); (13, 114); (9, 116)].
Definition escape_of (b : byte) : option byte :=
  snd <$> List.find (fun p => p.1 =? b) short_escapes.
(** A reader takes an escaped slash too. *)
Definition unescape (c : byte) : option byte :=
  fst <$> List.find (fun p => p.2 =? c) (short_escapes ++ [(47, 47)]).

(** The text of a rune; the angle brackets and the ampersand are escaped for HTML. *)
Definition quote_rune (r : bytes) : bytes :=
  match r with
  | [b] =>
      if 128 <=? b then str "\ufffd" else
      match escape_of b with
      | Some c => [92; c]
      | None =>
          if (b <? 32) || (b =? 60) || (b =? 62) || (b =? 38)
          then str "\u00" ++ [hex (b / 16); hex (b mod 16)] else [b]
      end
  | _ =>
      if bool_decide (r = [226; 128; 168]) then str "\u2028"
      else if bool_decide (r = [226; 128; 169]) then str "\u2029" else r
  end.

Definition quote (s : bytes) : bytes := 34 :: concat (map quote_rune (runes s)) ++ [34].

(** The literal up to its closing quote, and what follows. *)
Fixpoint scan_string (s : bytes) : option (bytes * bytes) :=
  match s with
  | [] => None
  | b :: s1 =>
      if b =? 34 then Some ([], s1)
      else if b <? 32 then None
      else if b =? 92 then
        match s1 with
        | [] => None
        | c :: s2 => '(raw, r) ← scan_string s2; Some (b :: c :: raw, r)
        end
      else '(raw, r) ← scan_string s1; Some (b :: raw, r)
  end.

(** Four hexadecimal digits. *)
Definition hex4 (a b c d : bytes) : option Z :=
  match a, b, c, d with
  | [a], [b], [c], [d] =>
      a ← hex_val a; b ← hex_val b; c ← hex_val c; d ← hex_val d;
      Some (((a * 16 + b) * 16 + c) * 16 + d)
  | _, _, _, _ => None
  end.

(** A low surrogate escape after a high one; the code point of the pair. *)
Definition low_surrogate (r : Z) (a b c d e f : bytes) : option Z :=
  if bool_decide (a = [92]) && bool_decide (b = [117]) then
    r2 ← hex4 c d e f;
    if between 55296 56319 r && between 56320 57343 r2
    then Some ((r - 55296) * 1024 + (r2 - 56320) + 65536) else None
  else None.

(** The meaning of a literal, given by its runes. *)
Fixpoint unquote_runes (l : list bytes) : option bytes :=
  match l with
  | [] => Some []
  | r :: l1 =>
      if bool_decide (r = [92]) then
        match l1 with
        | [] => None
        | c :: l2 =>
            if bool_decide (c = [117]) then
              match l2 with
              | h1 :: h2 :: h3 :: h4 :: l6 =>
                  r ← hex4 h1 h2 h3 h4;
                  if between 55296 57343 r then
                    match l6 with
                    | g1 :: g2 :: g3 :: g4 :: g5 :: g6 :: l12 =>
                        match low_surrogate r g1 g2 g3 g4 g5 g6 with
                        | Some p => t ← unquote_runes l12; Some (encode_rune p ++ t)
                        | None => t ← unquote_runes l6; Some (RuneError ++ t)
                        end
                    | _ => t ← unquote_runes l6; Some (RuneError ++ t)
                    end
                  else t ← unquote_runes l6; Some (encode_rune r ++ t)
              | _ => None
              end
            else
              match c with
              | [c] => b ← unescape c; t ← unquote_runes l2; Some (b :: t)
              | _ => None
              end
        end
      else t ← unquote_runes l1; Some ((if rune_ok r then r else RuneError) ++ t)
  end.

(** A string literal after its opening quote. *)
Definition parse_string (s : bytes) : option (bytes * bytes) :=
  '(raw, r) ← scan_string s;
  t ← unquote_runes (runes raw);
  Some (t, r).

(** ** Numbers *)

(** The exponent form is used below 1e-6 and from 1e21, its exponent without
    a leading zero. *)
Definition json_float (fmt : format) (neg : bool) (mag : Z) : bytes :=
  let '(ds, dp) := decimal fmt mag in
  sign_text neg ++
  (if negb (mag =? 0) && ((mag <? of_dec fmt 1 (-6)) || (of_dec fmt 1 21 <=? mag))
   then fmt_E 1 ds dp else fmt_F ds dp).

Definition num_char (b : byte) : bool :=
  is_digit b || (b =? 45) || (b =? 43) || (b =? 46) || (b =? 101) || (b =? 69).

(** ** Marshal *)

Definition is_finite (f : float) : bool := match f with Fin _ _ => true | _ => false end.

(** The values without a NaN or an infinity. *)
Fixpoint encodable (v : value) : bool :=
  match v with
  | VFloat64 f | VFloat32 f => is_finite f
  | VArray l => forallb encodable l
  | VObject m => map_fold (fun _ v b => encodable v && b) true m
  | _ => true
  end.

Definition float_text (fmt : format) (f : float) : bytes :=
  match f with Fin neg mag => json_float fmt neg mag | _ => [] end.

(** The text of an encodable value; the entries of a map in the order of its
    keys. *)
Fixpoint encode (v : value) : bytes :=
  match v with
  | VNil => str "null"
  | VBool b => str (if b then "true" else "false")
  | VInt n | VInt64 n | VInt32 n => fmt_d n
  | VFloat64 f => float_text binary64 f
  | VFloat32 f => float_text binary32 f
  | VString s => quote s
  | VArray l => str "[" ++ join (str ",") (map encode l) ++ str "]"
  | VStrings l => str "[" ++ join (str ",") (map quote l) ++ str "]"
  | VObject m =>
      str "{" ++
      join (str ",") (map (fun kv => quote kv.1 ++ str ":" ++ kv.2) (mem_items (encode <$> m) [])) ++
      str "}"
  end.

(** The text of an array, and of a struct or a map by its fields in the order
    they are written. *)
Definition array_text (l : list bytes) : bytes := str "[" ++ join (str ",") l ++ str "]".
Definition object_text (fields : list (bytes * bytes)) : bytes :=
  str "{" ++ join (str ",") (map (fun f => quote f.1 ++ str ":" ++ f.2) fields) ++ str "}".

Definition Marshal (v : value) : result bytes :=
  if encodable v then Ok (encode v) else Err json_error.

(** ** Unmarshal into an [interface{}] *)

Fixpoint ws (s : bytes) : bytes :=
  match s with
  | b :: s' => if (b =? 32) || (b =? 9) || (b =? 13) || (b =? 10) then ws s' else s
  | [] => []
  end.

(** [s] without the prefix [p]. *)
Fixpoint strip (p s : bytes) : option bytes :=
  match p, s with
  | [], _ => Some s
  | a :: p, b :: s => if a =? b then strip p s else None
  | _ :: _, [] => None
  end.

(** The elements of an array after its bracket, up to the closing one. *)
Fixpoint elements (n : nat) (pv : bytes -> option (value * bytes)) (acc : list value) (s : bytes)
    : option (list value * bytes) :=
  match n with
  | O => None
  | S n =>
      '(v, s) ← pv (ws s);
      match ws s with
      | c :: s =>
          if c =? 44 then elements n pv (acc ++ [v]) s
          else if c =? 93 then Some (acc ++ [v], s) else None
      | [] => None
      end
  end.

(** The members of an object after its brace; a repeated key counts once,
    with its last value. *)
Fixpoint members (n : nat) (pv : bytes -> option (value * bytes)) (acc : bmap value) (s : bytes)
    : option (bmap value * bytes) :=
  match n with
  | O => None
  | S n =>
      s ← strip [34] (ws s);
      '(k, s) ← parse_string s;
      s ← strip [58] (ws s);
      '(v, s) ← pv (ws s);
      match ws s with
      | c :: s =>
          if c =? 44 then members n pv (<[k := v]> acc) s
          else if c =? 125 then Some (<[k := v]> acc, s) else None
      | [] => None
      end
  end.

Definition parse_scalar (s : bytes) : option (value * bytes) :=
  match s with
  | [] => None
  | c :: s' =>
      if c =? 34 then '(t, r) ← parse_string s'; Some (VString t, r)
      else if c =? 110 then r ← strip (str "null") s; Some (VNil, r)
      else if c =? 116 then r ← strip (str "true") s; Some (VBool true, r)
      else if c =? 102 then r ← strip (str "false") s; Some (VBool false, r)
      else let '(tok, r) := span num_char s in f ← parse_float tok; Some (VFloat64 f, r)
  end.

(** A value in front of [s], with at most [depth] levels of nesting. *)
Fixpoint parse_value (depth : nat) (s : bytes) : option (value * bytes) :=
  match s with
  | [] => None
  | c :: s' =>
      if c =? 91 then
        match depth with
        | O => None
        | S depth =>
            match strip [93] (ws s') with
            | Some r => Some (VArray [], r)
            | None => '(l, r) ← elements (S (length s')) (parse_value depth) [] s'; Some (VArray l, r)
            end
        end
      else if c =? 123 then
        match depth with
        | O => None
        | S depth =>
            match strip [125] (ws s') with
            | Some r => Some (VObject ∅, r)
            | None => '(m, r) ← members (S (length s')) (parse_value depth) ∅ s'; Some (VObject m, r)
            end
        end
      else parse_scalar s
  end.

Definition maxNestingDepth : nat := Z.to_nat 10000.

Definition Unmarshal (s : bytes) : result value :=
  match parse_value maxNestingDepth (ws s) with
  | Some (v, r) => if decide (ws r = []) then Ok v else Err json_error
  | None => Err json_error
  end.

(** ** What is read back *)

(** Numbers become [float64], slices of strings slices of values. *)
Fixpoint norm (v : value) : value :=
  match v with
  | VInt n | VInt64 n | VInt32 n => VFloat64 (float_of_int n)
  | VStrings l => VArray (map VString l)
  | VArray l => VArray (map norm l)
  | VObject m => VObject (norm <$> m)
  | _ => v
  end.

Definition i64b (n : Z) : bool := (- 2 ^ 63 <=? n) && (n <? 2 ^ 63).

(** The values that are read back: finite numbers, well-formed strings, no
    [float32]. *)
Fixpoint json_ok (v : value) : bool :=
  match v with
  | VNil | VBool _ => true
  | VInt n | VInt64 n | VInt32 n => i64b n
  | VFloat64 f => bool_decide (finite binary64 f)
  | VFloat32 _ => false
  | VString s => utf8 s
  | VStrings l => forallb utf8 l
  | VArray l => forallb json_ok l
  | VObject m => map_fold (fun k v b => utf8 k && json_ok v && b) true m
  end.

(** The levels of nesting. *)
Fixpoint nesting (v : value) : nat :=
  match v with
  | VArray l => S (foldr (fun v n => Nat.max (nesting v) n) 0%nat l)
  | VStrings _ => 1
  | VObject m => S (map_fold (fun _ v n => Nat.max (nesting v) n) 0%nat m)
  | _ => 0
  end.
