(* ===== verification/JsonTrip.v ===== *)
(** What [Marshal] writes, [Unmarshal] reads back. *)
From stdpp Require Import base list numbers gmap sorting strings.
From Stdlib Require Import ZArith Lia.
From S2P Require Import Prelude Fmt Badger GoFloat GoValue Json.

(** ** Strings *)

Lemma between_iff lo hi b : between lo hi b = true <-> lo <= b <= hi.
Proof. unfold between. lia. Qed.

Lemma between_false lo hi b : b < lo \/ hi < b -> between lo hi b = false.
Proof. unfold between. lia. Qed.


Lemma runes_ascii b t : between 0 127 b = true -> runes (b :: t) = [b] :: runes t.
Proof.
  rewrite between_iff. intros Hb. destruct t as [|b1 [|b2 [|b3 t]]]; [done|..].
  all: cbn [runes]; unfold seq2, seq3, seq4; rewrite !(between_false _ _ b) by lia.
  all: cbn [andb orb]; rewrite ?(proj2 (Z.eqb_neq b _)) by lia; cbn [andb orb].
  all: by rewrite ?andb_false_r.
Qed.

Lemma rune_ok_runes r t : rune_ok r = true -> runes (r ++ t) = r :: runes t.
Proof.
  destruct r as [|b0 [|b1 [|b2 [|b3 [|? ?]]]]]; try done; cbn [rune_ok app].
  - apply runes_ascii.
  - intros H. cbn [runes]. by rewrite H.
  - intros H. assert (seq2 b0 b1 = false) as H2.
    { unfold seq3, seq2, cont, between in *. lia. }
    cbn [runes]. by rewrite H2, H.
  - intros H. assert (seq2 b0 b1 = false) as H2.
    { unfold seq4, seq2, cont, between in *. lia. }
    assert (seq3 b0 b1 b2 = false) as H3.
    { unfold seq4, seq3, cont, between in *. lia. }
    cbn [runes]. by rewrite H2, H3, H.
Qed.

Lemma runes_concat l t :
  Forall (fun r => rune_ok r = true) l -> runes (concat l ++ t) = l ++ runes t.
Proof.
  induction 1 as [|r l Hr _ IH]; [done|]. cbn [concat app].
  by rewrite <- app_assoc, rune_ok_runes, IH.
Qed.

Lemma concat_runes s : concat (runes s) = s.
Proof.
  enough (H : forall n s, (length s <= n)%nat -> concat (runes s) = s) by by apply (H (length s)).
  induction n as [|n IH]; intros [|b0 s1]; cbn [length]; intros Hl; try done; [lia|].
  destruct s1 as [|b1 s2]; [done|]. cbn [length] in Hl.
  assert (E1 : concat (runes (b1 :: s2)) = b1 :: s2) by (apply IH; cbn [length]; lia).
  cbn [runes]. destruct (seq2 b0 b1).
  { cbn [concat app]. by rewrite IH by lia. }
  destruct s2 as [|b2 s3]; [done|]. cbn [length] in Hl. destruct (seq3 b0 b1 b2).
  { cbn [concat app]. by rewrite IH by lia. }
  destruct s3 as [|b3 s4]; [cbn [concat app runes] in E1 |- *; by rewrite E1|]. cbn [length] in Hl.
  destruct (seq4 b0 b1 b2 b3).
  - cbn [concat app]. by rewrite IH by lia.
  - cbn [concat app runes] in E1 |- *. by rewrite E1.
Qed.

(** The texts of the ASCII characters: themselves, a short escape or four
    hexadecimal digits. *)
Definition ascii_text (b : byte) : Prop :=
  (quote_rune [b] = [b] /\ 32 <= b /\ b <> 34 /\ b <> 92) \/
  (exists c, quote_rune [b] = [92; c] /\ between 0 127 c = true /\ unescape c = Some b /\ c <> 117) \/
  (exists h1 h2 h3 h4, quote_rune [b] = [92; 117; h1; h2; h3; h4] /\
     Forall (fun h => between 40 122 h = true /\ h <> 92) [h1; h2; h3; h4] /\
     hex4 [h1] [h2] [h3] [h4] = Some b).

Definition ascii_textb (b : byte) : bool :=
  match quote_rune [b] with
  | [c] => (c =? b) && (32 <=? b) && negb (b =? 34) && negb (b =? 92)
  | [e; c] => (e =? 92) && between 0 127 c && bool_decide (unescape c = Some b) && negb (c =? 117)
  | [e; u; h1; h2; h3; h4] =>
      (e =? 92) && (u =? 117) && bool_decide (hex4 [h1] [h2] [h3] [h4] = Some b) &&
      forallb (fun h => between 40 122 h && negb (h =? 92)) [h1; h2; h3; h4]
  | _ => false
  end.

Lemma ascii_texts b : between 0 127 b = true -> ascii_text b.
Proof.
  rewrite between_iff. intros Hb.
  assert (H : ascii_textb b = true).
  { assert (Hall : forallb ascii_textb (seqZ 0 128) = true) by by vm_compute.
    rewrite forallb_forall in Hall. apply Hall, list_elem_of_In, elem_of_seqZ. lia. }
  unfold ascii_textb, ascii_text in *.
  destruct (quote_rune [b]) as [|e [|u [|h1 [|h2 [|h3 [|h4 [|? ?]]]]]]]; try done.
  - left. rewrite !andb_true_iff, !negb_true_iff, Z.eqb_eq, !Z.eqb_neq in H.
    destruct H as [[[-> H1] H2] H3]. split; [done|lia].
  - right; left. rewrite !andb_true_iff, negb_true_iff, Z.eqb_eq, Z.eqb_neq, bool_decide_eq_true in H.
    destruct H as [[[-> H1] H2] H3]. by exists u.
  - right; right. rewrite !andb_true_iff, !Z.eqb_eq, bool_decide_eq_true, forallb_forall in H.
    destruct H as [[[-> ->] H2] H3]. exists h1, h2, h3, h4. split_and!; [done| |done].
    apply Forall_forall. intros h Hh%list_elem_of_In%H3%andb_true_iff. split; [apply Hh|lia].
Qed.

(** A rune of more than one byte. *)
Lemma wide_rune r :
  rune_ok r = true -> (exists b, r = [b] /\ between 0 127 b = true) \/
  Forall (fun b => 128 <= b) r /\ (2 <= length r)%nat.
Proof.
  destruct r as [|b0 [|b1 [|b2 [|b3 [|? ?]]]]]; try done; cbn [rune_ok].
  { intros H. left. by exists b0. }
  all: intros H; right; split; [|cbn; lia]; unfold seq2, seq3, seq4, cont, between in H.
  all: repeat (apply Forall_cons; split; [lia|]); apply Forall_nil; done.
Qed.

(** Scanning over a text without quotes, backslashes and control characters. *)
Definition plain (b : byte) : Prop := 32 <= b /\ b <> 34 /\ b <> 92.

Lemma scan_plain l s :
  Forall plain l ->
  scan_string (l ++ s) = '(raw, r) ← scan_string s; Some (l ++ raw, r).
Proof.
  induction 1 as [|b l (H1 & H2 & H3) _ IH].
  { cbn [app]. by destruct (scan_string s) as [[]|]. }
  cbn [app scan_string]. rewrite (proj2 (Z.eqb_neq b 34)), (proj2 (Z.ltb_ge b 32)) by done.
  rewrite (proj2 (Z.eqb_neq b 92)), IH by done. by destruct (scan_string s) as [[]|].
Qed.

Lemma scan_escape c s :
  scan_string (92 :: c :: s) = '(raw, r) ← scan_string s; Some (92 :: c :: raw, r).
Proof. done. Qed.

(** Runes of several bytes keep their text, or get an escape. *)
Lemma quote_wide r :
  (2 <= length r)%nat -> Forall (fun b => 128 <= b) r -> rune_ok r = true ->
  (quote_rune r = r) \/
  (exists h, quote_rune r = str "\u202" ++ [h] /\ (h = 56 \/ h = 57) /\ r = [226; 128; 112 + h]).
Proof.
  intros Hl Hr Hok. destruct r as [|b0 [|b1 r]]; [cbn in Hl; lia..|].
  unfold quote_rune. destruct (bool_decide _) eqn:E1.
  { apply bool_decide_eq_true in E1 as ->. right. exists 56. split_and!; [done|by left|done]. }
  destruct (bool_decide (b0 :: b1 :: r = [226; 128; 169])) eqn:E2; [|by left].
  apply bool_decide_eq_true in E2 as ->. right. exists 57. split_and!; [done|by right|done].
Qed.

Lemma scan_rune r s :
  rune_ok r = true ->
  scan_string (quote_rune r ++ s) = '(raw, t) ← scan_string s; Some (quote_rune r ++ raw, t).
Proof.
  intros Hr. destruct (wide_rune r Hr) as [(b & -> & Hb)|[Hw Hl]].
  - destruct (ascii_texts b Hb) as [(-> & H1 & H2 & H3)|[(c & -> & _ & _ & _)|
      (h1 & h2 & h3 & h4 & -> & Hh & _)]].
    + apply scan_plain. repeat constructor; done.
    + apply scan_escape.
    + cbn [app]. rewrite scan_escape. change (h1 :: h2 :: h3 :: h4 :: s) with ([h1; h2; h3; h4] ++ s).
      rewrite scan_plain by (eapply Forall_impl; [exact Hh|]; intros h [?%between_iff ?]; unfold plain; lia).
      by destruct (scan_string s) as [[]|].
  - destruct (quote_wide r Hl Hw Hr) as [->|(h & -> & Hh & _)].
    + apply scan_plain. eapply Forall_impl; [exact Hw|]. unfold plain. cbn. lia.
    + change (str "\u202") with [92; 117; 50; 48; 50]. cbn [app]. rewrite scan_escape.
      change (50 :: 48 :: 50 :: h :: s) with ([50; 48; 50; h] ++ s).
      rewrite scan_plain by (repeat (apply Forall_cons; split; [unfold plain; lia|]); constructor).
      by destruct (scan_string s) as [[]|].
Qed.

Lemma scan_quote l rest :
  Forall (fun r => rune_ok r = true) l ->
  scan_string (concat (map quote_rune l) ++ 34 :: rest) = Some (concat (map quote_rune l), rest).
Proof.
  induction 1 as [|r l Hr _ IH]; [done|]. cbn [map concat]. by rewrite <- app_assoc, scan_rune, IH.
Qed.

(** ** Unquoting *)

Lemma runes_ascii_list l t :
  Forall (fun b => between 0 127 b = true) l -> runes (l ++ t) = map (fun b => [b]) l ++ runes t.
Proof.
  induction 1 as [|b l Hb _ IH]; [done|]. cbn [app map]. by rewrite runes_ascii, IH.
Qed.

Lemma unquote_plain r l :
  r <> [92] -> rune_ok r = true -> unquote_runes (r :: l) = (fun t => r ++ t) <$> unquote_runes l.
Proof.
  intros Hr Hok. cbn [unquote_runes]. rewrite bool_decide_eq_false_2, Hok by done.
  by destruct (unquote_runes l).
Qed.

Lemma unquote_short c b l :
  unescape c = Some b -> c <> 117 ->
  unquote_runes ([92] :: [c] :: l) = (fun t => b :: t) <$> unquote_runes l.
Proof.
  intros Hc Hne. cbn [unquote_runes]. rewrite bool_decide_eq_true_2 by done.
  rewrite bool_decide_eq_false_2 by congruence. rewrite Hc. by destruct (unquote_runes l).
Qed.

Lemma unquote_hex h1 h2 h3 h4 r l :
  hex4 h1 h2 h3 h4 = Some r -> between 55296 57343 r = false ->
  unquote_runes ([92] :: [117] :: h1 :: h2 :: h3 :: h4 :: l)
  = (fun t => encode_rune r ++ t) <$> unquote_runes l.
Proof.
  intros Hh Hr. cbn [unquote_runes]. rewrite !bool_decide_eq_true_2 by done.
  rewrite Hh. cbn [mbind option_bind]. rewrite Hr. by destruct (unquote_runes l).
Qed.

Lemma unquote_rune r s :
  rune_ok r = true ->
  unquote_runes (runes (quote_rune r ++ s)) = (fun t => r ++ t) <$> unquote_runes (runes s).
Proof.
  intros Hr. destruct (wide_rune r Hr) as [(b & -> & Hb)|[Hw Hl]].
  - destruct (ascii_texts b Hb) as [(-> & H1 & H2 & H3)|[(c & -> & Hc & Hu & Hne)|
      (h1 & h2 & h3 & h4 & -> & Hh & H4)]].
    + rewrite rune_ok_runes by done. by apply unquote_plain; [congruence|].
    + rewrite runes_ascii_list by (repeat constructor; done). by apply unquote_short.
    + rewrite runes_ascii_list.
      2: { do 2 (apply Forall_cons; split; [done|]). eapply Forall_impl; [exact Hh|].
           intros h [?%between_iff _]. apply between_iff. lia. }
      cbn [map app]. rewrite (unquote_hex _ _ _ _ b) by (done || apply between_false;
        apply between_iff in Hb; lia).
      apply between_iff in Hb. unfold encode_rune. by rewrite (proj2 (Z.ltb_lt b 128)) by lia.
  - destruct (quote_wide r Hl Hw Hr) as [->|(h & -> & Hh & ->)].
    + rewrite rune_ok_runes by done. apply unquote_plain; [|done]. intros ->. cbn in Hl. lia.
    + change (str "\u202" ++ [h]) with [92; 117; 50; 48; 50; h].
      rewrite runes_ascii_list by (repeat constructor; destruct Hh as [-> | ->]; done).
      destruct Hh as [-> | ->]; cbn [map app].
      * by rewrite (unquote_hex _ _ _ _ 8232).
      * by rewrite (unquote_hex _ _ _ _ 8233).
Qed.

Lemma unquote_quote l :
  Forall (fun r => rune_ok r = true) l ->
  unquote_runes (runes (concat (map quote_rune l))) = Some (concat l).
Proof.
  induction 1 as [|r l Hr _ IH]; [done|]. cbn [map concat]. by rewrite unquote_rune, IH.
Qed.

Lemma parse_quote s rest :
  utf8 s = true -> exists t, quote s ++ rest = 34 :: t /\ parse_string t = Some (s, rest).
Proof.
  intros Hs. assert (Hok : Forall (fun r => rune_ok r = true) (runes s)).
  { apply Forall_forall. intros r Hr. unfold utf8 in Hs. rewrite forallb_forall in Hs.
    by apply Hs, list_elem_of_In. }
  eexists. split; [unfold quote; cbn [app]; by rewrite <- app_assoc|].
  cbn [app]. unfold parse_string. rewrite scan_quote by done. cbn [mbind option_bind].
  by rewrite unquote_quote, concat_runes.
Qed.

(** ** Numbers *)

Definition number_text (s : bytes) : Prop := Forall (fun b => num_char b = true) s.

Lemma digits_number ds : Forall digit ds -> number_text ds.
Proof.
  intros H. eapply Forall_impl; [exact H|]. unfold digit, num_char, is_digit. intros b Hb.
  rewrite (proj2 (Z.leb_le 48 b)), (proj2 (Z.ltb_lt b 58)) by lia. done.
Qed.

Lemma number_app a b : number_text a -> number_text b -> number_text (a ++ b).
Proof. intros. by apply Forall_app. Qed.

Lemma sign_number neg : number_text (sign_text neg).
Proof. destruct neg; repeat constructor; done. Qed.

Create HintDb number.
#[local] Hint Resolve digits_number number_app sign_number dec_digits_all zeros_digits : number.
#[local] Hint Extern 4 (number_text (str _)) => repeat constructor; done : number.
#[local] Hint Extern 4 (number_text []) => constructor : number.
#[local] Hint Extern 4 (number_text (takeZ _ _)) => apply Forall_take : number.
#[local] Hint Extern 4 (number_text (dropZ _ _)) => apply Forall_drop : number.

Lemma fmt_F_number ds dp : Forall digit ds -> number_text (fmt_F ds dp).
Proof.
  intros Hd%digits_number. unfold fmt_F. destruct (dp <=? 0), (0 <? len ds - dp), (dp <? len ds).
  all: eauto 8 with number.
Qed.

Lemma fmt_E_number w ds dp : Forall digit ds -> number_text (fmt_E w ds dp).
Proof.
  intros Hd%digits_number. unfold fmt_E.
  set (exp := if len ds =? 0 then 0 else dp - 1).
  destruct (pad0_digits w (Z.abs exp)) as [Hp _]; [lia|].
  destruct (len ds =? 0), (1 <? len ds), (exp <? 0); eauto 12 with number.
Qed.

Lemma json_float_number neg mag : mag_ok binary64 mag -> number_text (json_float binary64 neg mag).
Proof.
  intros Hm. unfold json_float, decimal. destruct (Z.eqb_spec mag 0) as [->|Hne].
  { destruct neg; repeat constructor; done. }
  destruct (shortest_spec binary64 mag) as [HD _]; [done|destruct Hm; lia|done|].
  destruct (shortest binary64 mag) as [D E]. cbn [fst] in HD.
  assert (Forall digit (dec D)) by (apply dec_digits_all; lia).
  apply number_app; [apply sign_number|].
  destruct (_ && _); [by apply fmt_E_number|by apply fmt_F_number].
Qed.

Lemma reads_float s neg D E mag :
  reads s neg D E -> of_dec binary64 D E = mag -> mag < 2 ^ emax binary64 ->
  parse_float s = Some (Fin neg mag).
Proof.
  intros (D' & E' & Hp & Hv) Hm Hlt. unfold parse_float. rewrite Hp. cbn [mbind option_bind].
  rewrite Hv, Hm. by rewrite (proj2 (Z.ltb_lt _ _)).
Qed.

Lemma parse_json_float neg mag :
  mag_ok binary64 mag -> parse_float (json_float binary64 neg mag) = Some (Fin neg mag).
Proof.
  intros Hm. unfold json_float, decimal. destruct (Z.eqb_spec mag 0) as [->|Hne].
  { by destruct neg. }
  destruct (shortest_spec binary64 mag) as [HD HE]; [done|destruct Hm; lia|done|].
  destruct (shortest binary64 mag) as [D E]. cbn [fst snd] in HD, HE.
  destruct (negb false && _).
  - eapply reads_float; [by apply fmt_E_reads|done|apply Hm].
  - eapply reads_float; [by apply fmt_F_reads|done|apply Hm].
Qed.

(** Rounding at most doubles. *)
Lemma round_mag_bound n : 0 <= n -> round_mag binary64 n 1 <= 2 * n.
Proof.
  intros Hn. unfold round_mag. rewrite Z.div_1_r, Z.mul_1_l.
  set (k := last_bit binary64 n). assert (H0 : 0 <= k) by by apply last_bit_nonneg.
  assert (H2 : 0 < 2 ^ k) by by apply Z.pow_pos_nonneg.
  assert (Hq : round_half_even n (2 ^ k) * 2 ^ k <= n + 2 ^ k).
  { unfold round_half_even. rewrite div_eucl_eq. pose proof (Z.div_mod n (2 ^ k)).
    pose proof (Z.mod_pos_bound n (2 ^ k)). destruct (_ <? _); [nia|].
    destruct (_ <? _); [nia|]. destruct (Z.even _); nia. }
  destruct (decide (n = 0)) as [->|Hne]; [by vm_compute|].
  assert (2 ^ k <= n); [|lia]. destruct (Z.log2_spec n) as [Hl _]; [lia|].
  etransitivity; [|exact Hl]. apply Z.pow_le_mono_r; [lia|].
  pose proof (Z.log2_nonneg n). unfold k, last_bit. cbn. lia.
Qed.

Lemma parse_fmt_d n :
  i64b n = true -> number_text (fmt_d n) /\ parse_float (fmt_d n) = Some (float_of_int n).
Proof.
  intros Hn. assert (Hb : Z.abs n <= 2 ^ 63) by (unfold i64b in Hn; lia).
  assert (E : fmt_d n = sign_text (n <? 0) ++ dec (Z.abs n)).
  { unfold fmt_d. destruct (Z.ltb_spec n 0); cbn [sign_text app];
      [change (str "-") with [45]; cbn [app]|]; do 2 f_equal; lia. }
  assert (Hd : Forall digit (dec (Z.abs n))) by (apply dec_digits_all; lia).
  rewrite E. split; [auto with number|].
  destruct (decide (n = 0)) as [->|Hne]; [by vm_compute|].
  apply (reads_float _ _ (Z.abs n) 0); [|done|].
  - rewrite <- (app_nil_r (dec _)). change [] with (frac_text [] ++ []).
    eapply reads_parts; [by apply dec_int_part; lia|done|by left| |done].
    by rewrite app_nil_r, dec_val_dec by lia.
  - change (of_dec binary64 (Z.abs n) 0) with (round_mag binary64 (Z.abs n * 1 * one_mag) 1).
    eapply Z.le_lt_trans; [apply round_mag_bound; unfold one_mag; lia|].
    apply (Z.le_lt_trans _ (2 * (2 ^ 63 * one_mag))); [|by vm_compute].
    assert (0 < one_mag) by by vm_compute. nia.
Qed.

(** ** Values *)

(** What may follow a value, and how a value's text begins. *)
Definition stops (rest : bytes) : Prop :=
  match rest with [] => True | b :: _ => b = 44 \/ b = 93 \/ b = 125 end.
Definition starts (t : bytes) : Prop :=
  match t with [] => False | b :: _ => b <> 93 /\ b <> 125 /\ ws [b] = [b] end.

Lemma ws_starts t s : starts t -> ws (t ++ s) = t ++ s.
Proof.
  destruct t as [|b t]; [done|]. intros (_ & _ & H). cbn [app ws] in *.
  by destruct (_ || (b =? 10)).
Qed.

Lemma ws_stop b s : b = 44 \/ b = 93 \/ b = 125 \/ b = 58 -> ws (b :: s) = b :: s.
Proof. by intros [->|[->|[-> | ->]]]. Qed.

(** [t] is read as [v] in front of anything that may follow. *)
Definition parses (pv : bytes -> option (value * bytes)) (t : bytes) (v : value) : Prop :=
  starts t /\ forall rest, stops rest -> pv (t ++ rest) = Some (v, rest).

Lemma stops_token rest :
  stops rest -> match rest with [] => True | b :: _ => num_char b = false end.
Proof. destruct rest as [|b rest]; [done|]. by intros [->|[-> | ->]]. Qed.

Lemma span_number s rest :
  number_text s -> stops rest -> span num_char (s ++ rest) = (s, rest).
Proof.
  intros Hs Hr%stops_token. induction Hs as [|b s Hb _ IH]; cbn [app span].
  - destruct rest as [|b rest]; [done|]. cbn. by rewrite Hr.
  - by rewrite Hb, IH.
Qed.

Lemma number_starts b s f :
  number_text (b :: s) -> parse_float (b :: s) = Some f ->
  48 <= b <= 57 \/ b = 45.
Proof.
  intros _. unfold parse_float, parse_number, minus. destruct (Z.eqb_spec b 45) as [->|]; [by right|].
  cbn [span]. destruct (is_digit b) eqn:E; [|done]. intros _. left. unfold is_digit in E. lia.
Qed.

Lemma parses_number d s f :
  number_text s -> parse_float s = Some f -> parses (parse_value d) s (VFloat64 f).
Proof.
  intros Hs Hf. destruct s as [|b s]; [done|]. pose proof (number_starts _ _ _ Hs Hf) as Hb.
  split.
  - cbn [starts ws]. split_and!; [lia|lia|].
    rewrite !(proj2 (Z.eqb_neq b _)) by lia. done.
  - intros rest Hr. cbn [app]. destruct d; cbn [parse_value]; unfold parse_scalar.
    all: rewrite !(proj2 (Z.eqb_neq b _)) by lia; rewrite app_comm_cons.
    all: by rewrite span_number, Hf by done.
Qed.

Lemma parses_string d s : utf8 s = true -> parses (parse_value d) (quote s) (VString s).
Proof.
  intros Hs. split; [done|]. intros rest _. destruct (parse_quote s rest Hs) as (t & -> & Ht).
  by destruct d; cbn [parse_value Z.eqb Pos.eqb]; unfold parse_scalar; cbn [Z.eqb Pos.eqb]; rewrite Ht.
Qed.

Lemma parses_scalar d v :
  match v with VArray _ | VObject _ | VStrings _ => False | _ => True end ->
  json_ok v = true -> parses (parse_value d) (encode v) (norm v).
Proof.
  intros Hv Hok. destruct v as [|b|n|n|n|f|f|s|l|l|m]; try done; cbn [json_ok] in Hok.
  - split; [done|]. by destruct d.
  - destruct b; (split; [done|]); by destruct d.
  - apply parses_number; by apply parse_fmt_d.
  - apply parses_number; by apply parse_fmt_d.
  - apply parses_number; by apply parse_fmt_d.
  - apply bool_decide_eq_true in Hok. destruct f as [neg mag| |]; [|done..].
    apply parses_number; [by apply json_float_number|by apply parse_json_float].
  - by apply parses_string.
Qed.

(** ** Arrays *)

Lemma join_cons sep t ts : join sep (t :: ts) = t ++ (if decide (ts = []) then [] else sep ++ join sep ts).
Proof. destruct ts; cbn; [by rewrite app_nil_r|done]. Qed.

Lemma elements_join pv ts vs n acc rest :
  Forall2 (parses pv) ts vs -> ts <> [] -> (length ts <= n)%nat ->
  elements n pv acc (join (str ",") ts ++ 93 :: rest) = Some (acc ++ vs, rest).
Proof.
  intros H. revert n acc. induction H as [|t v ts vs [Ht Hp] Hts IH]; intros n acc Hne Hn; [done|].
  destruct n as [|n]; [cbn in Hn; lia|]. rewrite join_cons, <- app_assoc. cbn [elements].
  rewrite ws_starts by done. destruct (decide (ts = [])) as [->|Hne'].
  - inversion Hts; subst. cbn [app]. rewrite Hp by (cbn; auto). cbn [mbind option_bind].
    rewrite ws_stop by auto. done.
  - change (str ",") with [44]. cbn [app]. rewrite Hp by (cbn; auto). cbn [mbind option_bind].
    rewrite ws_stop by auto. cbn [Z.eqb Pos.eqb]. rewrite IH by (done || cbn in Hn; lia).
    by rewrite <- app_assoc.
Qed.

Lemma join_length pv ts vs :
  Forall2 (parses pv) ts vs -> (length ts <= length (join (str ",") ts))%nat.
Proof.
  induction 1 as [|t v ts vs [Ht _] Hts IH]; [done|]. rewrite join_cons, length_app.
  destruct t as [|b t]; [done|]. cbn [length].
  destruct (decide (ts = [])) as [->|]; cbn in *; lia.
Qed.

Lemma join_starts pv ts vs s :
  Forall2 (parses pv) ts vs -> ts <> [] -> exists b t, join (str ",") ts ++ s = b :: t /\ starts [b].
Proof.
  intros H Hne. destruct H as [|t v ts vs [Ht _] _]; [done|]. rewrite join_cons, <- app_assoc.
  destruct t as [|b t]; [done|]. by eexists _, _.
Qed.

Lemma strip_starts c b t : starts [b] -> c = 93 \/ c = 125 -> strip [c] (ws (b :: t)) = None.
Proof.
  intros Hb Hc. change (b :: t) with ([b] ++ t). rewrite (ws_starts [b]) by done. cbn. destruct Hb as (H1 & H2 & _).
  rewrite (proj2 (Z.eqb_neq c b)); [done|]. destruct Hc; congruence.
Qed.

Lemma parses_array d ts vs :
  Forall2 (parses (parse_value d)) ts vs ->
  parses (parse_value (S d)) (str "[" ++ join (str ",") ts ++ str "]") (VArray vs).
Proof.
  intros H. split; [done|]. intros rest Hr. change (str "[") with [91]. change (str "]") with [93].
  rewrite <- !app_assoc. cbn [app]. cbn [parse_value Z.eqb Pos.eqb].
  destruct (decide (ts = [])) as [->|Hne].
  { inversion H; subst. cbn. done. }
  destruct (join_starts _ _ _ (93 :: rest) H Hne) as (b & t & E & Hb).
  pose proof (join_length _ _ _ H) as Hl. apply (f_equal length) in E as El.
  rewrite length_app in El. rewrite E at 1. rewrite strip_starts by auto.
  rewrite (elements_join _ _ vs) by (done || cbn in *; rewrite length_app; cbn; lia). done.
Qed.

(** ** Objects *)

Definition member_text (kt : bytes * bytes) : bytes := quote kt.1 ++ str ":" ++ kt.2.

Definition parses_member pv (kt : bytes * bytes) (kv : bytes * value) : Prop :=
  kt.1 = kv.1 /\ utf8 kt.1 = true /\ parses pv kt.2 kv.2.

Definition insert_all {A} (acc : bmap A) (l : list (bytes * A)) : bmap A :=
  foldl (fun acc kv => <[kv.1 := kv.2]> acc) acc l.

Lemma members_join pv kts kvs n acc rest :
  Forall2 (parses_member pv) kts kvs -> kts <> [] -> (length kts <= n)%nat ->
  members n pv acc (join (str ",") (map member_text kts) ++ 125 :: rest)
  = Some (insert_all acc kvs, rest).
Proof.
  intros H. revert n acc. induction H as [|[k t] [k' v] kts kvs (Hk & Hu & Ht & Hp) Hts IH];
    intros n acc Hne Hn; [done|]. cbn [fst snd] in *. subst k'.
  destruct n as [|n]; [cbn in Hn; lia|]. cbn [map]. rewrite join_cons. unfold member_text at 1.
  cbn [fst snd]. rewrite <- !app_assoc. cbn [members].
  destruct (parse_quote k (str ":" ++ t ++ (if decide (map member_text kts = []) then []
    else str "," ++ join (str ",") (map member_text kts)) ++ 125 :: rest) Hu) as (x & -> & Hx).
  change (ws (34 :: x)) with (34 :: x). cbn [strip Z.eqb Pos.eqb mbind option_bind].
  rewrite Hx. cbn [mbind option_bind]. change (str ":") with [58]. cbn [app].
  rewrite ws_stop by auto. cbn [strip Z.eqb Pos.eqb mbind option_bind].
  rewrite ws_starts by done. destruct (decide (map member_text kts = [])) as [E|Hne'].
  - apply map_eq_nil in E as ->. inversion Hts; subst. cbn [app]. rewrite Hp by (cbn; auto).
    cbn [mbind option_bind]. rewrite ws_stop by auto. done.
  - change (str ",") with [44]. cbn [app]. rewrite Hp by (cbn; auto). cbn [mbind option_bind].
    rewrite ws_stop by auto. cbn [Z.eqb Pos.eqb].
    apply IH; [by intros ->|cbn in Hn; lia].
Qed.

Lemma members_length kts :
  (length kts <= length (join (str ",") (map member_text kts)))%nat.
Proof.
  induction kts as [|kt kts IH]; [done|]. cbn [map]. rewrite join_cons. unfold member_text at 1, quote.
  rewrite <- !app_assoc. cbn [app length]. rewrite !length_app.
  destruct (decide _) as [E|]; [|rewrite length_app; lia].
  apply map_eq_nil in E as ->. cbn. lia.
Qed.

Lemma parses_object d kts kvs :
  Forall2 (parses_member (parse_value d)) kts kvs ->
  parses (parse_value (S d)) (str "{" ++ join (str ",") (map member_text kts) ++ str "}")
    (VObject (insert_all ∅ kvs)).
Proof.
  intros H. split; [done|]. intros rest Hr. change (str "{") with [123]. change (str "}") with [125].
  rewrite <- !app_assoc. cbn [app]. cbn [parse_value Z.eqb Pos.eqb].
  destruct (decide (kts = [])) as [->|Hne].
  { inversion H; subst. cbn. done. }
  assert (Hq : exists t, join (str ",") (map member_text kts) ++ 125 :: rest = 34 :: t).
  { destruct kts as [|kt kts]; [done|]. cbn [map]. rewrite join_cons. by eexists. }
  destruct Hq as (t & E). pose proof (members_length kts) as Hl.
  rewrite E at 1. rewrite strip_starts by (done || auto).
  rewrite (members_join _ _ kvs) by (done || rewrite length_app; lia). done.
Qed.

(** ** The round trip *)

Lemma foldr_max_le {A} (f : A -> nat) l d :
  (foldr (fun v n => Nat.max (f v) n) 0 l <= d)%nat -> Forall (fun v => (f v <= d)%nat) l.
Proof. induction l as [|x l IH]; cbn; intros H; constructor; [lia|]. apply IH. lia. Qed.

Lemma map_fold_max_le {A} (f : A -> nat) (m : bmap A) d :
  (map_fold (fun _ v n => Nat.max (f v) n) 0 m <= d)%nat -> map_Forall (fun _ v => (f v <= d)%nat) m.
Proof.
  intros H k v Hv. rewrite (map_fold_delete_L _ _ k v) in H; [lia|intros; lia|done].
Qed.

Lemma andb_swap a b c : a && (b && c) = b && (a && c).
Proof. by destruct a, b. Qed.

Lemma map_fold_andb {A} (f : bytes -> A -> bool) (m : bmap A) :
  map_fold (fun k v b => f k v && b) true m = true <-> map_Forall (fun k v => f k v = true) m.
Proof.
  split.
  - intros H k v Hv. rewrite (map_fold_delete_L _ _ k v) in H; [|intros; apply andb_swap|done].
    apply andb_true_iff in H. apply H.
  - induction m as [|k v m Hk IH] using map_ind; intros H.
    { by rewrite map_fold_empty. }
    rewrite map_fold_insert_L; [|intros; apply andb_swap|done].
    apply andb_true_iff. split; [apply (H k); by rewrite lookup_insert_eq|].
    apply IH. by eapply map_Forall_insert_1_2.
Qed.

Lemma filter_prefix_nil (l : list (bytes * bytes)) :
  filter (fun kv => [] `prefix_of` kv.1) l = l.
Proof.
  induction l as [|kv l IH]; [done|]. rewrite filter_cons_True by apply prefix_nil. by rewrite IH.
Qed.

Lemma mem_items_perm (m : store) : mem_items m [] ≡ₚ map_to_list m.
Proof. unfold mem_items. by rewrite merge_sort_Permutation, filter_prefix_nil. Qed.

(** The sorted entries of an image are the images of entries. *)
Lemma mem_items_fmap {A} (f : A -> bytes) (m : bmap A) :
  exists kvs, kvs ≡ₚ map_to_list m /\ mem_items (f <$> m) [] = map (fun kv => (kv.1, f kv.2)) kvs.
Proof.
  assert (H : map (fun kv => (kv.1, f kv.2)) (map_to_list m) ≡ₚ mem_items (f <$> m) []).
  { rewrite mem_items_perm, map_to_list_fmap. apply Permutation_refl'.
    apply map_ext. by intros []. }
  symmetry in H. apply Permutation_map_inv in H as (kvs & -> & H). by exists kvs.
Qed.

Lemma insert_all_union {A} (acc : bmap A) kvs :
  NoDup kvs.*1 -> insert_all acc kvs = list_to_map kvs ∪ acc.
Proof.
  revert acc. induction kvs as [|[k v] l IH]; intros acc Hnd; cbn.
  { by rewrite (left_id_L ∅ (∪)). }
  apply NoDup_cons in Hnd as [Hk Hnd]. unfold insert_all in IH. rewrite IH by done.
  rewrite <- insert_union_r by (by apply not_elem_of_list_to_map_1).
  by rewrite insert_union_l.
Qed.

Lemma insert_all_map {A B} (g : A -> B) (m : bmap A) kvs :
  kvs ≡ₚ map_to_list m -> insert_all ∅ (map (fun kv => (kv.1, g kv.2)) kvs) = g <$> m.
Proof.
  intros H. assert (Hk : (map (fun kv => (kv.1, g kv.2)) kvs) ≡ₚ map_to_list (g <$> m)).
  { rewrite H, map_to_list_fmap. apply Permutation_refl', map_ext. by intros []. }
  assert (Hnd : NoDup (map (fun kv => (kv.1, g kv.2)) kvs).*1).
  { rewrite Hk. apply NoDup_fst_map_to_list. }
  rewrite insert_all_union, (right_id_L ∅ (∪)) by done.
  rewrite (list_to_map_proper _ _ Hnd Hk). apply list_to_map_to_list.
Qed.

Lemma parses_encode v d :
  json_ok v = true -> (nesting v <= d)%nat -> parses (parse_value d) (encode v) (norm v).
Proof.
  revert d. induction v as [v Hv|l IH|m IH] using value_nested_ind; intros d Hok Hd.
  - destruct v; try done; try (by apply parses_scalar).
    destruct d as [|d]; [cbn in Hd; lia|]. apply parses_array.
    cbn [json_ok] in Hok. rewrite forallb_forall in Hok. clear -Hok.
    induction l as [|s l IH]; cbn [map]; constructor.
    + apply parses_string, Hok. by left.
    + apply IH. intros x Hx. apply Hok. by right.
  - cbn [nesting] in Hd. destruct d as [|d]; [lia|]. apply parses_array.
    apply le_S_n, foldr_max_le in Hd. cbn [json_ok] in Hok. rewrite forallb_forall in Hok.
    clear -IH Hd Hok. induction l as [|v l IHl]; cbn [map]; [constructor|].
    apply Forall_cons in IH as [Hv IH]. apply Forall_cons in Hd as [Hd Hds]. constructor.
    + apply Hv; [|done]. apply Hok. by left.
    + apply IHl; try done. intros x Hx. apply Hok. by right.
  - cbn [nesting] in Hd. destruct d as [|d]; [lia|].
    apply le_S_n, map_fold_max_le in Hd. cbn [json_ok] in Hok. rewrite map_fold_andb in Hok.
    destruct (mem_items_fmap encode m) as (kvs & Hkvs & E). cbn [encode norm]. rewrite E.
    rewrite <- (insert_all_map norm m kvs) by done. apply parses_object.
    assert (Hin : forall kv, kv ∈ kvs -> m !! kv.1 = Some kv.2).
    { intros [k v]. rewrite Hkvs. apply elem_of_map_to_list. }
    clear -IH Hd Hok Hin. induction kvs as [|[k v] kvs IHl]; cbn [map]; constructor.
    + assert (Hkv : m !! k = Some v) by (apply (Hin (k, v)); left).
      specialize (Hok k v Hkv). apply andb_true_iff in Hok as [Hk Hv].
      split_and!; [done|done|]. cbn [fst snd]. by apply (IH k v Hkv); [|apply (Hd k v Hkv)].
    + apply IHl. intros kv Hkv. apply Hin. by right.
Qed.

Lemma json_ok_encodable v : json_ok v = true -> encodable v = true.
Proof.
  induction v as [v Hv|l IH|m IH] using value_nested_ind; intros Hok.
  - destruct v as [| | | | |f| | | | |]; try done. cbn [json_ok encodable] in *. apply bool_decide_eq_true in Hok.
    by destruct f.
  - cbn [json_ok encodable] in *. rewrite forallb_forall in *. intros x Hx.
    rewrite Forall_forall in IH. apply IH; [by apply list_elem_of_In|auto].
  - cbn [json_ok encodable] in *. rewrite (map_fold_andb (fun k v => utf8 k && json_ok v)) in Hok.
    apply (map_fold_andb (fun _ => encodable)). intros k x Hx. apply (IH k x Hx).
    specialize (Hok k x Hx). apply andb_true_iff in Hok. apply Hok.
Qed.

(** What is marshalled is read back, in its normal form. *)
Lemma Unmarshal_Marshal v :
  json_ok v = true -> (nesting v <= maxNestingDepth)%nat ->
  exists data, Marshal v = Ok data /\ Unmarshal data = Ok (norm v).
Proof.
  intros Hok Hd. exists (encode v). unfold Marshal. rewrite (json_ok_encodable v Hok).
  split; [done|]. destruct (parses_encode v _ Hok Hd) as [Hs Hp]. unfold Unmarshal.
  specialize (Hp [] I). rewrite <- (app_nil_r (encode v)), (ws_starts _ _ Hs), Hp. done.
Qed.

(** Neither panics. *)
Lemma Marshal_safe v : Marshal v <> Panic.
Proof. unfold Marshal. by destruct (encodable v). Qed.

Lemma Unmarshal_safe s : Unmarshal s <> Panic.
Proof.
  unfold Unmarshal. destruct (parse_value _ _) as [[v r]|]; [|done]. by destruct (decide _).
Qed.

(** ** Normal forms *)

Lemma norm_norm v : norm (norm v) = norm v.
Proof.
  induction v as [v Hv|l IH|m IH] using value_nested_ind.
  - destruct v; try done. cbn [norm]. f_equal. by induction l; cbn; f_equal.
  - cbn [norm]. f_equal. rewrite map_map. apply map_ext_in. intros x Hx%list_elem_of_In.
    rewrite Forall_forall in IH. by apply IH.
  - cbn [norm]. f_equal. rewrite <- map_fmap_compose. apply map_fmap_ext. intros k x Hx.
    by apply (IH k x).
Qed.

(** The rounding of an integer is a number of the format. *)
Lemma round_mag_ok n : 0 <= n -> 2 * n < 2 ^ 2098 -> mag_ok binary64 (round_mag binary64 n 1).
Proof.
  intros Hn Hb. pose proof (round_mag_bound n Hn) as Hr.
  destruct (decide (n = 0)) as [->|Hne]; [by vm_compute|].
  unfold round_mag in *. rewrite Z.div_1_r, Z.mul_1_l in *.
  set (k := last_bit binary64 n) in *. assert (H0 : 0 <= k) by by apply last_bit_nonneg.
  assert (H2 : 0 < 2 ^ k) by by apply Z.pow_pos_nonneg.
  assert (Hn53 : n < 2 ^ 53 * 2 ^ k).
  { rewrite <- Z.pow_add_r by lia. eapply Z.lt_le_trans; [apply Z.log2_spec; lia|].
    apply Z.pow_le_mono_r; [lia|]. unfold k, last_bit. cbn. lia. }
  assert (Hq : 0 <= round_half_even n (2 ^ k) <= 2 ^ 53).
  { unfold round_half_even. rewrite div_eucl_eq. pose proof (Z.div_pos n (2 ^ k)).
    assert (n / 2 ^ k < 2 ^ 53) by (apply Z.div_lt_upper_bound; lia).
    destruct (_ <? _); [lia|]. destruct (_ <? _); [lia|]. destruct (Z.even _); lia. }
  set (q := round_half_even n (2 ^ k)) in *. split; [unfold emax; cbn; nia|].
  apply Z.mod_divide; [apply Z.pow_nonzero; [lia|by apply last_bit_nonneg]|].
  destruct (decide (q = 2 ^ 53)) as [Hq'|Hq'].
  - rewrite Hq'. rewrite <- Z.pow_add_r by lia. unfold last_bit. rewrite Z.log2_pow2 by lia. cbn [emin prec binary64].
    exists (2 ^ 52). rewrite <- Z.pow_add_r by lia. f_equal. lia.
  - assert (Hl : last_bit binary64 (q * 2 ^ k) <= k).
    { unfold last_bit. cbn [emin prec binary64]. apply Z.max_lub; [done|].
      destruct (decide (q = 0)) as [Hq0|]; [rewrite Hq0, Z.mul_0_l; cbn; lia|].
      assert (Z.log2 (q * 2 ^ k) < 53 + k); [|lia].
      apply Z.log2_lt_pow2; [nia|]. rewrite Z.pow_add_r by lia. nia. }
    pose proof (last_bit_nonneg binary64 (q * 2 ^ k) ltac:(done)).
    exists (q * 2 ^ (k - last_bit binary64 (q * 2 ^ k))). rewrite <- Z.mul_assoc, <- Z.pow_add_r by lia.
    do 2 f_equal. lia.
Qed.

Lemma float_of_int_finite n : i64b n = true -> finite binary64 (float_of_int n).
Proof.
  intros Hn. change (mag_ok binary64 (round_mag binary64 (Z.abs n * 1 * one_mag) 1)).
  assert (Hb : Z.abs n <= 2 ^ 63) by (unfold i64b in Hn; lia).
  assert (0 < one_mag) by by vm_compute. apply round_mag_ok; [nia|].
  apply (Z.le_lt_trans _ (2 * (2 ^ 63 * one_mag))); [nia|by vm_compute].
Qed.

Lemma json_ok_norm v : json_ok v = true -> json_ok (norm v) = true.
Proof.
  induction v as [v Hv|l IH|m IH] using value_nested_ind; intros Hok.
  - destruct v; try done; try by apply bool_decide_eq_true, float_of_int_finite.
    cbn [json_ok norm] in *. rewrite forallb_forall in *. intros x Hx.
    apply in_map_iff in Hx as (s & <- & Hs). by apply Hok.
  - cbn [json_ok norm] in *. rewrite forallb_forall in *. intros x Hx.
    apply in_map_iff in Hx as (v & <- & Hx). rewrite Forall_forall in IH.
    apply IH; [by apply list_elem_of_In|auto].
  - cbn [json_ok norm] in *. rewrite (map_fold_andb (fun k v => utf8 k && json_ok v)) in *.
    intros k x Hx. rewrite lookup_fmap in Hx. apply fmap_Some in Hx as (v & Hv & ->).
    specialize (Hok k v Hv). apply andb_true_iff in Hok as [Hk Hv']. apply andb_true_iff.
    split; [done|]. by apply (IH k v).
Qed.
