(* ===== verification/JsonStruct.v ===== *)
(** [json.NewDecoder(body).Decode(&req)] into a struct of strings and integers
    (encoding/json), and the queries of URLs (net/url), as
    internal/server/http_api.go uses them; what is encoded is decoded. *)
From stdpp Require Import base list numbers gmap strings.
From Stdlib Require Import ZArith Lia.
From S2P Require Import Prelude Fmt Badger GoFloat GoValue Json JsonTrip.

(** ** Skipping values

    What follows a well-formed value: [Json.parse_value] without the value, so
    that numbers too large for a float64 are well-formed too. *)
Definition skip_scalar (s : bytes) : option bytes :=
  match s with
  | [] => None
  | c :: s' =>
      if c =? 34 then '(_, r) ← parse_string s'; Some r
      else if c =? 110 then strip (str "null") s
      else if c =? 116 then strip (str "true") s
      else if c =? 102 then strip (str "false") s
      else let '(tok, r) := span num_char s in _ ← parse_number tok; Some r
  end.

Fixpoint skip_elements (n : nat) (skip : bytes -> option bytes) (s : bytes) : option bytes :=
  match n with
  | O => None
  | S n =>
      s ← skip (ws s);
      match ws s with
      | c :: s =>
          if c =? 44 then skip_elements n skip s else if c =? 93 then Some s else None
      | [] => None
      end
  end.

(** The text in front of [rest]. *)
Definition text_before (rest s : bytes) : bytes := take (length s - length rest) s.

(** The members of an object after its brace: their keys and the texts of their
    values, in order. *)
Fixpoint raw_members (n : nat) (skip : bytes -> option bytes) (acc : list (bytes * bytes)) (s : bytes)
    : option (list (bytes * bytes) * bytes) :=
  match n with
  | O => None
  | S n =>
      s ← strip [34] (ws s);
      '(k, s) ← parse_string s;
      s ← strip [58] (ws s);
      r ← skip (ws s);
      let acc := acc ++ [(k, text_before r (ws s))] in
      match ws r with
      | c :: r =>
          if c =? 44 then raw_members n skip acc r else if c =? 125 then Some (acc, r) else None
      | [] => None
      end
  end.

Definition raw_object (skip : bytes -> option bytes) (s : bytes) : option (list (bytes * bytes) * bytes) :=
  match strip [125] (ws s) with
  | Some r => Some ([], r)
  | None => raw_members (S (length s)) skip [] s
  end.

Fixpoint skip_value (depth : nat) (s : bytes) : option bytes :=
  match s with
  | [] => None
  | c :: s' =>
      if c =? 91 then
        match depth with
        | O => None
        | S depth =>
            match strip [93] (ws s') with
            | Some r => Some r
            | None => skip_elements (S (length s')) (skip_value depth) s'
            end
        end
      else if c =? 123 then
        match depth with
        | O => None
        | S depth => '(_, r) ← raw_object (skip_value depth) s'; Some r
        end
      else skip_scalar s
  end.

(** ** Structs *)

Inductive field : Type :=
| FString (s : bytes)
| FInt (n : Z).

(** [strconv.ParseInt(s, 10, 64)] of a number. *)
Definition parse_int (s : bytes) : option Z :=
  let '(neg, ds) := minus s in
  if (len ds =? 0) || negb (forallb is_digit ds) then None
  else
    let n := if neg then - dec_val ds else dec_val ds in
    if i64b n then Some n else None.

(** A value of another type is an error; null changes nothing. *)
Definition set_field (old : field) (raw : bytes) : option field :=
  if decide (raw = str "null") then Some old
  else match old, raw with
  | FString _, 34 :: s => '(t, _) ← parse_string s; Some (FString t)
  | FInt _, _ => n ← parse_int raw; Some (FInt n)
  | _, _ => None
  end.

(** Names match without regard to case; the Kelvin sign and the long s are
    letters too. *)
Definition fold_rune (r : bytes) : bytes :=
  if bool_decide (r = [226; 132; 170]) then str "K"
  else if bool_decide (r = [197; 191]) then str "S"
  else match r with [b] => [if between 97 122 b then b - 32 else b] | _ => r end.
Definition foldName (s : bytes) : bytes := concat (map fold_rune (runes s)).

Abbreviation struct := (list (bytes * field)).

Definition field_named (fs : struct) (k : bytes) : option bytes :=
  match List.find (fun f => bool_decide (f.1 = k)) fs with
  | Some f => Some f.1
  | None => fst <$> List.find (fun f => bool_decide (foldName f.1 = foldName k)) fs
  end.

Fixpoint set_named (fs : struct) (name raw : bytes) : option struct :=
  match fs with
  | [] => Some []
  | (n, old) :: fs =>
      if decide (n = name) then new ← set_field old raw; Some ((n, new) :: fs)
      else fs ← set_named fs name raw; Some ((n, old) :: fs)
  end.

Definition set_member (fs : struct) (kv : bytes * bytes) : option struct :=
  match field_named fs kv.1 with Some name => set_named fs name kv.2 | None => Some fs end.

Fixpoint set_members (fs : struct) (kvs : list (bytes * bytes)) : option struct :=
  match kvs with
  | [] => Some fs
  | kv :: kvs => fs ← set_member fs kv; set_members fs kvs
  end.

(** The first value of the body; what follows it is not read. *)
Definition Decode (fs : struct) (body : bytes) : option struct :=
  match ws body with
  | [] => None
  | c :: s =>
      if c =? 123 then '(kvs, _) ← raw_object (skip_value (pred maxNestingDepth)) s; set_members fs kvs
      else if c =? 110 then _ ← strip (str "null") (c :: s); Some fs
      else None
  end.

Definition string_field (fs : struct) (name : string) : bytes :=
  match snd <$> List.find (fun f => bool_decide (f.1 = str name)) fs with
  | Some (FString s) => s
  | _ => []
  end.
Arguments string_field fs name%_string.
Definition int_field (fs : struct) (name : string) : Z :=
  match snd <$> List.find (fun f => bool_decide (f.1 = str name)) fs with
  | Some (FInt n) => n
  | _ => 0
  end.
Arguments int_field fs name%_string.

(** ** Queries of URLs *)

(** [strings.Cut(s, sep)] *)
Fixpoint cut_at (sep : byte) (s : bytes) : bytes * bytes :=
  match s with
  | [] => ([], [])
  | b :: s => if b =? sep then ([], s) else let '(x, y) := cut_at sep s in (b :: x, y)
  end.

Fixpoint split_at (sep : byte) (s : bytes) : list bytes :=
  match s with
  | [] => [[]]
  | b :: s =>
      if b =? sep then [] :: split_at sep s
      else match split_at sep s with p :: l => (b :: p) :: l | [] => [[b]] end
  end.

Fixpoint QueryUnescape (s : bytes) : option bytes :=
  match s with
  | [] => Some []
  | c :: s =>
      if c =? 37 then
        match s with
        | h :: l :: s => h ← hex_val h; l ← hex_val l; t ← QueryUnescape s; Some (h * 16 + l :: t)
        | _ => None
        end
      else t ← QueryUnescape s; Some ((if c =? 43 then 32 else c) :: t)
  end.

(** A parameter that cannot be read is left out. *)
Definition query_pair (p : bytes) : option (bytes * bytes) :=
  if existsb (Z.eqb 59) p || bool_decide (p = []) then None
  else let '(k, v) := cut_at 61 p in
       k ← QueryUnescape k; v ← QueryUnescape v; Some (k, v).

(** [r.URL.Query().Get(name)] *)
Definition query_get (query name : bytes) : bytes :=
  default [] (snd <$> List.find (fun kv => bool_decide (kv.1 = name)) (omap query_pair (split_at 38 query))).

(** ** Values that are skipped *)

Definition skips (skip : bytes -> option bytes) (t : bytes) : Prop :=
  starts t /\ forall rest, stops rest -> skip (t ++ rest) = Some rest.

Lemma skips_string d s : utf8 s = true -> skips (skip_value d) (quote s).
Proof.
  intros Hs. split; [done|]. intros rest _. destruct (parse_quote s rest Hs) as (t & -> & Ht).
  destruct d; cbn [skip_value Z.eqb Pos.eqb]; unfold skip_scalar; cbn [Z.eqb Pos.eqb]; by rewrite Ht.
Qed.

Lemma skips_fmt_d d n : i64b n = true -> skips (skip_value d) (fmt_d n).
Proof.
  intros Hn. destruct (parse_fmt_d n Hn) as [Hs Hf].
  destruct (parses_number d (fmt_d n) _ Hs Hf) as [Hst _]. split; [done|]. intros rest Hr.
  destruct (fmt_d n) as [|b s] eqn:E; [done|]. pose proof (number_starts _ _ _ Hs Hf) as Hb.
  cbn [app]. destruct d; cbn [skip_value]; unfold skip_scalar.
  all: rewrite !(proj2 (Z.eqb_neq b _)) by lia; rewrite app_comm_cons, span_number by done.
  all: unfold parse_float in Hf; by destruct (parse_number (b :: s)).
Qed.

Lemma text_before_app t rest : text_before rest (t ++ rest) = t.
Proof. unfold text_before. rewrite length_app, Nat.add_sub. by apply take_app_length. Qed.

Lemma raw_members_join skip kts n acc rest :
  Forall (fun kt => utf8 kt.1 = true /\ skips skip kt.2) kts -> kts <> [] -> (length kts <= n)%nat ->
  raw_members n skip acc (join (str ",") (map member_text kts) ++ 125 :: rest) = Some (acc ++ kts, rest).
Proof.
  intros H. revert n acc. induction H as [|[k t] kts (Hu & Ht & Hp) Hts IH]; intros n acc Hne Hn; [done|].
  cbn [fst snd] in *. destruct n as [|n]; [cbn in Hn; lia|]. cbn [map]. rewrite join_cons.
  unfold member_text at 1. cbn [fst snd]. rewrite <- !app_assoc. cbn [raw_members].
  set (tl := (if decide (map member_text kts = []) then [] else str "," ++ join (str ",") (map member_text kts))
             ++ 125 :: rest).
  destruct (parse_quote k (str ":" ++ t ++ tl) Hu) as (x & -> & Hx).
  change (ws (34 :: x)) with (34 :: x). cbn [strip Z.eqb Pos.eqb mbind option_bind].
  rewrite Hx. cbn [mbind option_bind]. change (str ":") with [58]. cbn [app].
  rewrite ws_stop by auto. cbn [strip Z.eqb Pos.eqb mbind option_bind].
  rewrite ws_starts by done. unfold tl in *. clear tl.
  destruct (decide (map member_text kts = [])) as [E|Hne'].
  - apply map_eq_nil in E as ->. cbn [app]. rewrite Hp by (cbn; auto). cbn [mbind option_bind].
    rewrite ws_stop by auto. cbn [Z.eqb Pos.eqb]. by rewrite text_before_app.
  - change (str ",") with [44]. cbn [app]. rewrite Hp by (cbn; auto). cbn [mbind option_bind].
    rewrite ws_stop by auto. cbn [Z.eqb Pos.eqb]. rewrite text_before_app.
    rewrite IH; [by rewrite <- app_assoc|by intros ->|cbn in Hn; lia].
Qed.

Lemma raw_object_text skip kts rest :
  Forall (fun kt => utf8 kt.1 = true /\ skips skip kt.2) kts ->
  raw_object skip (join (str ",") (map member_text kts) ++ 125 :: rest) = Some (kts, rest).
Proof.
  intros H. unfold raw_object. destruct (decide (kts = [])) as [->|Hne]; [done|].
  assert (Hq : exists t, join (str ",") (map member_text kts) ++ 125 :: rest = 34 :: t).
  { destruct kts as [|kt kts]; [done|]. cbn [map]. rewrite join_cons. by eexists. }
  destruct Hq as (t & E). rewrite E at 1. rewrite strip_starts by (done || auto).
  pose proof (members_length kts). by rewrite raw_members_join by (done || rewrite length_app; lia).
Qed.

(** A body that is the text of the members. *)
Lemma Decode_object fs kts :
  Forall (fun kt => utf8 kt.1 = true /\ skips (skip_value (pred maxNestingDepth)) kt.2) kts ->
  Decode fs (object_text kts) = set_members fs kts.
Proof.
  intros H. unfold Decode, object_text. change (str "{") with [123]. change (str "}") with [125].
  cbn [app ws]. cbn [Z.eqb Pos.eqb orb].
  change (map (fun f => quote f.1 ++ str ":" ++ f.2) kts) with (map member_text kts).
  by rewrite raw_object_text.
Qed.

(** ** Fields *)

Lemma set_string old s : utf8 s = true -> set_field (FString old) (quote s) = Some (FString s).
Proof.
  intros Hs. destruct (parse_quote s [] Hs) as (t & E & Ht). rewrite app_nil_r in E.
  unfold set_field. rewrite E, decide_False by done. cbn [mbind option_bind]. by rewrite Ht.
Qed.

Lemma parse_int_fmt_d n : i64b n = true -> parse_int (fmt_d n) = Some n.
Proof.
  intros Hn. unfold parse_int.
  assert (E : minus (fmt_d n) = (n <? 0, dec (Z.abs n))).
  { unfold fmt_d. destruct (Z.ltb_spec n 0) as [Hs|Hs].
    - replace (- n) with (Z.abs n) by lia. done.
    - rewrite Z.abs_eq by done. destruct (decide (n = 0)) as [->|]; [done|].
      destruct (dec_head n) as (b & l & -> & Hb); [lia|]. cbn [minus].
      by rewrite (proj2 (Z.eqb_neq b 45)) by lia. }
  rewrite E. clear E.
  assert (Hd : forallb is_digit (dec (Z.abs n)) = true).
  { apply forallb_forall. intros b Hb%list_elem_of_In.
    pose proof (dec_digits_all (Z.abs n) ltac:(lia)) as H. rewrite Forall_forall in H. specialize (H b Hb).
    unfold digit in H. unfold is_digit. by rewrite (proj2 (Z.leb_le _ _)), (proj2 (Z.ltb_lt _ _)) by lia. }
  assert (Hl : (len (dec (Z.abs n)) =? 0) = false).
  { destruct (decide (n = 0)) as [->|]; [done|]. pose proof (dec_nonempty (Z.abs n)). apply Z.eqb_neq. lia. }
  rewrite Hd, Hl. cbn [orb negb]. rewrite dec_val_dec by lia.
  replace (if n <? 0 then - Z.abs n else Z.abs n) with n by (destruct (Z.ltb_spec n 0); lia).
  by rewrite Hn.
Qed.

Lemma set_int old n : i64b n = true -> set_field (FInt old) (fmt_d n) = Some (FInt n).
Proof.
  intros Hn. unfold set_field. rewrite decide_False.
  - by rewrite parse_int_fmt_d.
  - intros E. pose proof (parse_int_fmt_d n Hn) as H. by rewrite E in H.
Qed.

(** ** URLs *)

Definition unreserved (b : byte) : bool :=
  between 48 57 b || between 65 90 b || between 97 122 b || (b =? 45) || (b =? 95) || (b =? 46) || (b =? 126).

Definition escape_byte (b : byte) : bytes :=
  if unreserved b then [b] else if b =? 32 then [43] else [37; hex (b / 16); hex (b mod 16)].

(** A parameter as clients write it. *)
Definition query_escape (s : bytes) : bytes := concat (map escape_byte s).

Definition plain_char (b : byte) : Prop := b <> 38 /\ b <> 59 /\ b <> 61.

Lemma escape_plain b : byte_ok b -> Forall plain_char (escape_byte b).
Proof.
  intros Hb. unfold escape_byte.
  destruct (unreserved b) eqn:E; [|destruct (b =? 32)].
  - repeat constructor; intros ->; done.
  - by repeat constructor.
  - assert (H : forall d, 0 <= d < 16 -> plain_char (hex d)).
    { intros d Hd. unfold hex, plain_char. destruct (Z.ltb_spec d 10); lia. }
    assert (0 <= b / 16 < 16 /\ 0 <= b mod 16 < 16) as [Hh Hl]
      by (split; [split; [apply Z.div_pos|apply Z.div_lt_upper_bound]|apply Z.mod_pos_bound];
          unfold byte_ok in Hb; lia).
    apply Forall_cons. split; [done|]. apply Forall_cons. split; [by apply H|].
    apply Forall_singleton. by apply H.
Qed.

Lemma unescape_byte b t r :
  byte_ok b -> QueryUnescape t = Some r -> QueryUnescape (escape_byte b ++ t) = Some (b :: r).
Proof.
  intros Hb Ht. unfold escape_byte.
  destruct (unreserved b) eqn:E; [|destruct (Z.eqb_spec b 32) as [->|]].
  - cbn [app QueryUnescape]. rewrite (proj2 (Z.eqb_neq b 37)), (proj2 (Z.eqb_neq b 43)) by (by intros ->).
    by rewrite Ht.
  - cbn [app QueryUnescape Z.eqb Pos.eqb]. by rewrite Ht.
  - cbn [app QueryUnescape Z.eqb Pos.eqb].
    assert (H : forall d, 0 <= d < 16 -> hex_val (hex d) = Some d).
    { intros d Hd. unfold hex, hex_val, between. destruct (Z.ltb_spec d 10).
      - rewrite !(proj2 (Z.leb_le _ _)) by lia. cbn. f_equal. lia.
      - rewrite (proj2 (Z.leb_gt (87 + d) 57)), andb_false_r by lia.
        rewrite !(proj2 (Z.leb_le _ _)) by lia. cbn. f_equal. lia. }
    assert (0 <= b / 16 < 16 /\ 0 <= b mod 16 < 16) as [Hh Hl]
      by (split; [split; [apply Z.div_pos|apply Z.div_lt_upper_bound]|apply Z.mod_pos_bound];
          unfold byte_ok in Hb; lia).
    rewrite !H by done.
    cbn [mbind option_bind]. rewrite Ht. cbn. do 2 f_equal. pose proof (Z.div_mod b 16). lia.
Qed.

Lemma QueryUnescape_escape s : bytes_ok s -> QueryUnescape (query_escape s) = Some s.
Proof. induction 1; [done|]. by apply unescape_byte. Qed.

Lemma split_at_plain s : Forall plain_char s -> split_at 38 s = [s].
Proof.
  induction 1 as [|b s (Hb & _) _ IH]; [done|]. cbn [split_at]. by rewrite (proj2 (Z.eqb_neq b 38)), IH.
Qed.

Lemma query_escape_plain s : bytes_ok s -> Forall plain_char (query_escape s).
Proof. induction 1; [constructor|]. apply Forall_app. by split; [apply escape_plain|]. Qed.

(** The one parameter of a query. *)
Lemma query_get_one s : bytes_ok s -> query_get (str "key=" ++ query_escape s) (str "key") = s.
Proof.
  intros Hs. pose proof (query_escape_plain s Hs) as Hp.
  assert (Hsplit : split_at 38 (str "key=" ++ query_escape s) = [str "key=" ++ query_escape s]).
  { change (str "key=" ++ query_escape s) with (107 :: 101 :: 121 :: 61 :: query_escape s).
    cbn [split_at Z.eqb Pos.eqb]. by rewrite split_at_plain. }
  assert (Hpair : query_pair (str "key=" ++ query_escape s) = Some (str "key", s)).
  { unfold query_pair.
    assert (E : existsb (Z.eqb 59) (str "key=" ++ query_escape s) = false).
    { rewrite existsb_app. change (existsb (Z.eqb 59) (str "key=")) with false. cbn [orb].
      destruct (existsb (Z.eqb 59) (query_escape s)) eqn:E; [|done].
      apply existsb_exists in E as (b & Hb%list_elem_of_In & Hbe%Z.eqb_eq). rewrite Forall_forall in Hp.
      destruct (Hp b Hb) as (_ & Hn & _). by subst. }
    rewrite E. rewrite bool_decide_eq_false_2 by done. cbn [orb].
    change (cut_at 61 (str "key=" ++ query_escape s)) with (str "key", query_escape s).
    change (QueryUnescape (str "key")) with (Some (str "key")). cbn [mbind option_bind].
    by rewrite QueryUnescape_escape. }
  unfold query_get. rewrite Hsplit. cbn [omap list_omap]. by rewrite Hpair.
Qed.
