(* ===== verification/DocStorage.v ===== *)
(** The document store's storage, internal/db/storage.go: records and JSON
    values in the engine.  Its state is the database. *)
From stdpp Require Import base list numbers gmap strings.
From Stdlib Require Import ZArith Lia.
From S2P Require Import Prelude Fmt Badger GoFloat GoValue Json.

Section Storage.
Context {bdg : Badger}.
Implicit Types db : DB.

Definition Set_ db (key data : bytes) : DB * result unit :=
  Update db (fun txn => txn ← TxnSet txn key data; Ok (txn, tt)).

Definition Get db (key : bytes) : result bytes :=
  View db (fun txn => item ← TxnGet txn key; ItemValue item).

Definition Delete db (key : bytes) : DB * result unit :=
  Update db (fun txn => txn ← TxnDelete txn key; Ok (txn, tt)).

Definition Exists db (key : bytes) : result bool :=
  on_err (View db (fun txn => _ ← TxnGet txn key; Ok tt))
    (fun err => if is_sentinel err ErrKeyNotFound then Ok false else Err err)
    (fun _ => Ok true).

(** The loop of [Scan]: the callback's own variables are the state [s], which
    keeps its changes when the loop stops at an error. *)
Fixpoint scan_items {S} (items : list Item) (s : S) (fn : S -> bytes -> bytes -> S * result unit)
    : S * result unit :=
  match items with
  | [] => (s, Ok tt)
  | item :: items =>
      match ItemValue item with
      | Ok data =>
          match fn s (ItemKey item) data with
          | (s, Ok _) => scan_items items s fn
          | (s, r) => (s, r)
          end
      | Err err => (s, Err err)
      | Panic => (s, Panic)
      end
  end.

Definition Scan {S} db (prefix : bytes) (s : S) (fn : S -> bytes -> bytes -> S * result unit)
    : S * result unit :=
  match View db (fun txn => Ok (scan_items (Iterate txn prefix) s fn)) with
  | Ok r => r
  | Err err => (s, Err err)
  | Panic => (s, Panic)
  end.

(** The engine holds fewer than [2 ^ 63] keys. *)
Definition Count db (prefix : bytes) : result Z :=
  View db (fun txn => Ok (len (Iterate txn prefix))).

(** [items] in the order of the [range] loop. *)
Definition BatchSet db (items : list (bytes * bytes)) : DB * result unit :=
  Update db (fun txn =>
    txn ← for_each items txn (fun txn '(key, data) => TxnSet txn key data);
    Ok (txn, tt)).

Definition BatchDelete db (keys : list bytes) : DB * result unit :=
  Update db (fun txn => txn ← for_each keys txn TxnDelete; Ok (txn, tt)).

(** [fmt.Errorf("failed to marshal JSON: %w", err)] and the like. *)
Definition wrap (msg : bytes) (err : error) : error := Errorf (msg ++ str ": " ++ error_text err).

Definition SetJSON db (key : bytes) (v : value) : DB * result unit :=
  match Marshal v with
  | Ok data => Set_ db key data
  | Err err => (db, Err (wrap (str "failed to marshal JSON") err))
  | Panic => (db, Panic)
  end.

(** [decode] stores a JSON value into the destination. *)
Definition GetJSON {A} db (key : bytes) (decode : value -> result A) : result A :=
  data ← Get db key;
  v ← Unmarshal data;
  decode v.
End Storage.

(** ** Decoding into the types of the store *)

(** Into a [Document]; [null] leaves it nil, which reads as the empty map. *)
Definition decode_document (v : value) : result (bmap value) :=
  match v with
  | VObject m => Ok m
  | VNil => Ok ∅
  | _ => Err json_error
  end.

Definition decode_string (v : value) : result bytes :=
  match v with VString s => Ok s | VNil => Ok [] | _ => Err json_error end.

Definition decode_strings (v : value) : result (list bytes) :=
  match v with VArray l => mapM decode_string l | VNil => Ok [] | _ => Err json_error end.

(** Into a [map[string][]string]. *)
Definition decode_metadata (v : value) : result (bmap (list bytes)) :=
  match v with
  | VObject m =>
      for_each (map_to_list m) (∅ : bmap (list bytes)) (fun acc '(k, v) =>
        l ← decode_strings v; Ok (<[k := l]> acc))
  | VNil => Ok ∅
  | _ => Err json_error
  end.

(** ** What the storage does *)

Section Specs.
Context {bdg : Badger} {laws : BadgerLaws}.
Implicit Types (db : DB) (E : error -> Prop).

Lemma doc_Set_served db key data E :
  key <> [] -> served db (Set_ db key data) E (fun m _ => m = <[key := data]> (contents db)).
Proof.
  intros Hk. apply served_update. intros t <-. apply wp_set; [done|]. by intros t' Ht'.
Qed.

Lemma doc_Delete_served db key E :
  key <> [] -> served db (Delete db key) E (fun m _ => m = delete key (contents db)).
Proof.
  intros Hk. apply served_update. intros t <-. apply wp_delete; [done|]. by intros t' Ht'.
Qed.

Lemma doc_Get_wp db key :
  key <> [] ->
  match Get db key with
  | Ok data => contents db !! key = Some data
  | Err e => fault e \/ (e = ErrKeyNotFound /\ contents db !! key = None)
  | Panic => False
  end.
Proof.
  intros Hk. unfold Get. destruct (View_law bytes db (fun txn => item ← TxnGet txn key; ItemValue item))
    as [(e & -> & He)|(t & Ht & _ & ->)]; [by left|].
  pose proof (TxnGet_law t key Hk) as HG. rewrite Ht in HG.
  destruct (TxnGet t key) as [i|e|]; cbn; [|done|done].
  by destruct (ItemValue_law i) as [-> |(e & -> & He)]; [|left].
Qed.

(** A scan folds over the entries in the order of their keys. *)
Fixpoint scan_entries {S} (l : list (bytes * bytes)) (s : S)
    (fn : S -> bytes -> bytes -> S * result unit) : S * result unit :=
  match l with
  | [] => (s, Ok tt)
  | (key, data) :: l =>
      match fn s key data with
      | (s, Ok _) => scan_entries l s fn
      | (s, r) => (s, r)
      end
  end.

Lemma scan_items_entries {S} items (s : S) fn :
  (exists e, (scan_items items s fn).2 = Err e /\ fault e) \/
  scan_items items s fn = scan_entries (map (fun i => (ItemKey i, item_value i)) items) s fn.
Proof.
  revert s. induction items as [|i items IH]; intros s; [by right|]. cbn [scan_items scan_entries map].
  destruct (ItemValue_law i) as [-> |(e & -> & He)]; [|left; by exists e].
  destruct (fn s _ _) as [s' [a|e|]]; [apply IH|by right|by right].
Qed.

Lemma Scan_entries {S} db prefix (s : S) fn :
  (exists e, (Scan db prefix s fn).2 = Err e /\ fault e) \/
  Scan db prefix s fn = scan_entries (mem_items (contents db) prefix) s fn.
Proof.
  unfold Scan. destruct (View_law _ db (fun txn => Ok (scan_items (Iterate txn prefix) s fn)))
    as [(e & -> & He)|(t & Ht & _ & ->)]; [left; by exists e|].
  rewrite <- Ht, <- iterate_items. apply scan_items_entries.
Qed.
End Specs.

(** [NewStorage] and [Close]. *)
Definition DocNewStorage {bdg : Badger} {opening : BadgerOpen} (files : option DB) : result DB :=
  on_err (DBOpen files) (fun err => Err (Errorf (str "failed to open BadgerDB: " ++ error_text err))) Ok.
Definition DocStorageClose {bdg : Badger} {batch : BadgerBatch} (db : DB) : DB * result unit := DBClose db.
