(* ===== verification/DocHelpers.v ===== *)
(** The types of the document store, internal/db/types.go, and the filters and
    the sort of internal/db/helpers.go. *)
From stdpp Require Import base list numbers gmap strings.
From Stdlib Require Import ZArith Lia.
From S2P Require Import Prelude Fmt Badger GoFloat GoValue.

(** ** types.go *)

Definition ErrDocumentNotFound : error :=
  Sentinel "db.ErrDocumentNotFound" (str "document not found").
Definition ErrInvalidQuery : error := Sentinel "db.ErrInvalidQuery" (str "invalid query").
Definition ErrInvalidCollection : error :=
  Sentinel "db.ErrInvalidCollection" (str "invalid collection").
Definition ErrInvalidDocument : error := Sentinel "db.ErrInvalidDocument" (str "invalid document").

Abbreviation Document := (bmap value).

Record Query : Type := mkQuery { Field : bytes; Operator : bytes; Value : value }.

Record SortOption : Type := mkSortOption { SortField : bytes; Direction : bytes }.

Record FindOptions : Type := mkFindOptions {
  Filters : list Query;
  Sort : option SortOption;
  Skip : Z;
  Limit : Z;
  IndexName : bytes;
}.

(** [Set] may be nil. *)
Record UpdateOptions : Type := mkUpdateOptions {
  Set_ : option Document;
  Unset : list bytes;
  Merge : bool;
}.

Definition OpEq : bytes := str "eq".
Definition OpNe : bytes := str "ne".
Definition OpGt : bytes := str "gt".
Definition OpGte : bytes := str "gte".
Definition OpLt : bytes := str "lt".
Definition OpLte : bytes := str "lte".
Definition OpIn : bytes := str "in".
Definition SortAsc : bytes := str "asc".
Definition SortDesc : bytes := str "desc".

(** ** Comparisons *)

Definition equal (a b : value) : bool := bool_decide (sprint a = sprint b).

Definition toFloat64 (val : value) : float :=
  match val with
  | VFloat64 v => v
  | VFloat32 v => v
  | VInt v | VInt64 v | VInt32 v => float_of_int v
  | _ => Fin false 0
  end.

Definition greaterThan (a b : value) : bool := float_lt (toFloat64 b) (toFloat64 a).
Definition greaterThanOrEqual (a b : value) : bool := float_le (toFloat64 b) (toFloat64 a).
Definition lessThan (a b : value) : bool := float_lt (toFloat64 a) (toFloat64 b).
Definition lessThanOrEqual (a b : value) : bool := float_le (toFloat64 a) (toFloat64 b).

Definition inArray (val list : value) : bool :=
  match list with
  | VArray v => existsb (fun item => equal val item) v
  | VStrings v => existsb (fun item => equal val (VString item)) v
  | _ => false
  end.

(** ** Filters *)

Definition matchesFilter (doc : Document) (filter : Query) : bool :=
  match doc !! Field filter with
  | None => bool_decide (Operator filter = OpNe)
  | Some val =>
      if decide (Operator filter = OpEq) then equal val (Value filter)
      else if decide (Operator filter = OpNe) then negb (equal val (Value filter))
      else if decide (Operator filter = OpGt) then greaterThan val (Value filter)
      else if decide (Operator filter = OpGte) then greaterThanOrEqual val (Value filter)
      else if decide (Operator filter = OpLt) then lessThan val (Value filter)
      else if decide (Operator filter = OpLte) then lessThanOrEqual val (Value filter)
      else if decide (Operator filter = OpIn) then inArray val (Value filter)
      else false
  end.

Fixpoint matchesFilters (doc : Document) (filters : list Query) : bool :=
  match filters with
  | [] => true
  | filter :: filters =>
      if negb (matchesFilter doc filter) then false else matchesFilters doc filters
  end.

(** ** The bubble sort *)

(** [results[j][opt.Field]]: nil when the field is missing. *)
Definition field_of (doc : Document) (field : bytes) : value := default VNil (doc !! field).

Definition shouldSwap (opt : SortOption) (x y : Document) : bool :=
  let a := field_of x (SortField opt) in
  let b := field_of y (SortField opt) in
  if decide (Direction opt = SortDesc) then lessThan a b else greaterThan a b.

(** The body of the inner loop. *)
Definition compare_swap (opt : SortOption) (results : list Document) (j : Z)
    : result (list Document) :=
  x ← index results j;
  y ← index results (j + 1);
  if shouldSwap opt x y
  then Ok (<[Z.to_nat j := y]> (<[Z.to_nat (j + 1) := x]> results))
  else Ok results.

Definition sortResults (results : list Document) (opt : SortOption) : result (list Document) :=
  let n := len results in
  for_n (Z.to_nat n) 0 results (fun results i =>
    for_n (Z.to_nat (n - i - 1)) 0 results (compare_swap opt)).
