(* ===== verification/DocStore.v ===== *)
(** The document store, internal/db/db.go: documents under the keys
    [doc:collection:id], and the indexes it keeps in memory.  The clock, the
    fresh UUID and the order of a range over a map are arguments. *)
From stdpp Require Import base list numbers gmap strings.
From Stdlib Require Import ZArith Lia.
From S2P Require Import Prelude Fmt Badger GoFloat GoValue Json DocStorage DocHelpers.

(** An index of a field: the ids of the documents with each value. *)
Abbreviation kindex := (gmap ikey (list bytes)).
(** collection -> field -> value -> document IDs *)
Abbreviation index_map := (bmap (bmap kindex)).

(** ** Keys *)

Definition makeKey (collection id : bytes) : bytes := str "doc:" ++ collection ++ str ":" ++ id.
Definition makeCollectionPrefix (collection : bytes) : bytes := str "doc:" ++ collection ++ str ":".
Definition metadataKey : bytes := str "db:indexes_metadata".

(** [v.(string)] of an entry *)
Definition as_string (v : option value) : option bytes :=
  match v with Some (VString s) => Some s | _ => None end.

(** [json.Unmarshal(data, &doc)] *)
Definition unmarshal_doc (data : bytes) : result Document :=
  v ← Unmarshal data; decode_document v.

(** ** Index entries *)

(** [append] to the ids of a value; an entry under a NaN could never be found. *)
Definition index_add (fieldIndex : kindex) (val : value) (id : bytes) : result kindex :=
  k ← key_of val;
  match k with
  | None => Ok fieldIndex
  | Some k => Ok (<[k := default [] (fieldIndex !! k) ++ [id]]> fieldIndex)
  end.

Definition index_remove (fieldIndex : kindex) (val : value) (id : bytes) : result kindex :=
  k ← key_of val;
  match k with
  | None => Ok fieldIndex
  | Some k =>
      match fieldIndex !! k with
      | None => Ok fieldIndex
      | Some ids =>
          let newIds := filter (fun existingId => existingId <> id) ids in
          Ok (if decide (newIds = []) then delete k fieldIndex else <[k := newIds]> fieldIndex)
      end
  end.

(** The loop over the indexed fields a document has; each turn changes the
    index of its own field, so the order does not matter. *)
Definition index_fields (coll : bmap kindex) (doc : Document)
    (change : kindex -> value -> result kindex) : result (bmap kindex) :=
  for_each (map_to_list coll) coll (fun coll '(field, fieldIndex) =>
    match doc !! field with
    | None => Ok coll
    | Some val => idx ← change fieldIndex val; Ok (<[field := idx]> coll)
    end).

Definition on_collection (indexes : index_map) (collection : bytes) (doc : Document)
    (change : kindex -> value -> result kindex) : result index_map :=
  match indexes !! collection with
  | None => Ok indexes
  | Some coll => coll ← index_fields coll doc change; Ok (<[collection := coll]> indexes)
  end.

Definition updateIndexes (indexes : index_map) (collection id : bytes) (doc : Document)
    : result index_map :=
  on_collection indexes collection doc (fun fieldIndex val => index_add fieldIndex val id).

Definition removeIndexes (indexes : index_map) (collection id : bytes) (doc : Document)
    : result index_map :=
  on_collection indexes collection doc (fun fieldIndex val => index_remove fieldIndex val id).

Section Store.
Context {bdg : Badger}.

Record DocStore : Type := mkDocStore { storage : DB; indexes : index_map }.
Implicit Types ds : DocStore.

(** The store after an operation of the storage. *)
Definition with_db {A} ds (x : DB * result A) : DocStore * result A :=
  (mkDocStore x.1 (indexes ds), x.2).

(** The store after a change of the indexes; a panic ends the process. *)
Definition with_indexes {A} ds (r : result index_map) (a : A) : DocStore * result A :=
  match r with
  | Ok idx => (mkDocStore (storage ds) idx, Ok a)
  | Err err => (ds, Err err)
  | Panic => (ds, Panic)
  end.

(** ** Documents *)

(** The id a document is inserted under: its own, if it has one. *)
Definition insert_id (uid : bytes) (doc : Document) : bytes :=
  match as_string (doc !! str "_id") with
  | Some (b :: id) => b :: id
  | _ => uid
  end.

(** The document as [Insert] completes it. *)
Definition stamped (now : Z) (id : bytes) (doc : Document) : Document :=
  <[str "_updated_at" := VInt64 now]> (<[str "_created_at" := VInt64 now]>
    (<[str "_id" := VString id]> doc)).

(** The second component is the caller's document afterwards. *)
Definition Insert (now : Z) (uid : bytes) ds (collection : bytes) (doc : option Document)
    : DocStore * option Document * result bytes :=
  if decide (collection = []) then (ds, doc, Err ErrInvalidCollection) else
  let d := default ∅ doc in
  let id := insert_id uid d in
  let d := stamped now id d in
  let caller := (fun _ => d) <$> doc in
  match Marshal (VObject d) with
  | Ok data =>
      match with_db ds (DocStorage.Set_ (storage ds) (makeKey collection id) data) with
      | (ds, Ok _) =>
          let '(ds, r) := with_indexes ds (updateIndexes (indexes ds) collection id d) id in
          (ds, caller, r)
      | (ds, Err err) => (ds, caller, Err (wrap (str "failed to insert document") err))
      | (ds, Panic) => (ds, caller, Panic)
      end
  | Err err => (ds, caller, Err (wrap (str "failed to marshal document") err))
  | Panic => (ds, caller, Panic)
  end.

Definition Get ds (collection id : bytes) : result Document :=
  if decide (collection = []) then Err ErrInvalidDocument else
  if decide (id = []) then Err ErrInvalidDocument else
  on_err (DocStorage.Get (storage ds) (makeKey collection id))
    (fun err => if is_sentinel err ErrKeyNotFound then Err ErrDocumentNotFound else Err err)
    (fun data => unmarshal_doc data).

(** ** Find *)

(** The first equality filter on an indexed field decides. *)
Fixpoint first_indexed (collIndexes : bmap kindex) (filters : list Query)
    : result (option (list bytes)) :=
  match filters with
  | [] => Ok None
  | filter :: filters =>
      if decide (Operator filter <> str "eq") then first_indexed collIndexes filters else
      match collIndexes !! Field filter with
      | Some fieldIndex =>
          k ← key_of (Value filter);
          Ok (Some (default [] (k ← k; fieldIndex !! k)))
      | None => first_indexed collIndexes filters
      end
  end.

Definition tryUseIndexes ds (collection : bytes) (filters : list Query)
    : result (option (list bytes)) :=
  match indexes ds !! collection with
  | None => Ok None
  | Some collIndexes =>
      if decide (collIndexes = ∅) then Ok None else first_indexed collIndexes filters
  end.

(** [docIDs[i]]'s document, if it is there and matches. *)
Definition fetch_one ds (collection : bytes) (opts : FindOptions) (docIDs : list bytes)
    (results : list Document) (i : Z) : result (list Document) :=
  id ← index docIDs i;
  match DocStorage.Get (storage ds) (makeKey collection id) with
  | Ok data =>
      match unmarshal_doc data with
      | Ok doc => if matchesFilters doc (Filters opts) then Ok (results ++ [doc]) else Ok results
      | Err _ => Ok results
      | Panic => Panic
      end
  | Err _ => Ok results
  | Panic => Panic
  end.

(** The documents of an index, the page cut out of the ids first; [None] is
    the early return. *)
Definition find_indexed ds (collection : bytes) (opts : FindOptions) (docIDs : list bytes)
    : result (option (list Document)) :=
  let startIdx := Skip opts in
  let endIdx := if Limit opts <? 0 then len docIDs else int64 (Skip opts + Limit opts) in
  if len docIDs <=? startIdx then Ok None else
  let endIdx := if len docIDs <? endIdx then len docIDs else endIdx in
  results ← for_n (Z.to_nat (endIdx - startIdx)) startIdx [] (fetch_one ds collection opts docIDs);
  Ok (Some results).

Definition scan_doc (opts : FindOptions) (results : list Document) (key data : bytes)
    : list Document * result unit :=
  match unmarshal_doc data with
  | Ok doc => (if matchesFilters doc (Filters opts) then results ++ [doc] else results, Ok tt)
  | Err err => (results, Err err)
  | Panic => (results, Panic)
  end.

Definition find_scanned ds (collection : bytes) (opts : FindOptions) : result (list Document) :=
  let '(results, r) := Scan (storage ds) (makeCollectionPrefix collection) [] (scan_doc opts) in
  _ ← r; Ok results.

(** A slice that was only appended to: nil ([None]) while it is empty. *)
Definition nilable {A} (l : list A) : option (list A) :=
  match l with [] => None | _ => Some l end.

(** The sort and the page of the results. *)
Definition paginate (opts : FindOptions) (results : list Document) : result (option (list Document)) :=
  results ← match Sort opts with Some opt => sortResults results opt | None => Ok results end;
  results ← (if 0 <? Skip opts then
    if len results <=? Skip opts then Ok (Some [])
    else results ← slice_from results (Skip opts); Ok (Some results)
    else Ok (nilable results));
  if (0 <? Limit opts) && (Limit opts <? len (default [] results))
  then results ← slice (default [] results) 0 (Limit opts); Ok (Some results)
  else Ok results.

Definition Find ds (collection : bytes) (opts : FindOptions) : result (option (list Document)) :=
  if decide (collection = []) then Err ErrInvalidCollection else
  used ← tryUseIndexes ds collection (Filters opts);
  match used with
  | Some docIDs =>
      found ← find_indexed ds collection opts docIDs;
      match found with None => Ok None | Some results => paginate opts results end
  | None => results ← find_scanned ds collection opts; paginate opts results
  end.

Definition with_limit (opts : FindOptions) (limit : Z) : FindOptions :=
  mkFindOptions (Filters opts) (Sort opts) (Skip opts) limit (IndexName opts).

Definition FindOne ds (collection : bytes) (opts : FindOptions) : result Document :=
  results ← Find ds collection (with_limit opts 1);
  match default [] results with [] => Err ErrDocumentNotFound | doc :: _ => Ok doc end.

(** ** Update and Delete *)

(** The document an update makes of [doc]; replacing with a nil [Set] writes
    to a nil map. *)
Definition apply_update (now : Z) (id : bytes) (opts : UpdateOptions) (doc : Document)
    : result Document :=
  doc ← (if Merge opts then Ok (default ∅ (Set_ opts) ∪ doc) else
    match Set_ opts with
    | Some set => Ok (<[str "_id" := VString id]> set)
    | None => Panic
    end);
  let doc := <[str "_updated_at" := VInt64 now]> doc in
  Ok (foldl (fun doc field => delete field doc) doc (Unset opts)).

(** The second component is [opts.Set] afterwards: it becomes the document
    when it replaces it. *)
Definition Update (now : Z) ds (collection id : bytes) (opts : UpdateOptions)
    : DocStore * option Document * result unit :=
  if decide (collection = []) then (ds, Set_ opts, Err ErrInvalidDocument) else
  if decide (id = []) then (ds, Set_ opts, Err ErrInvalidDocument) else
  match Get ds collection id with
  | Ok oldDoc =>
      match apply_update now id opts oldDoc with
      | Ok doc =>
          let caller := if Merge opts then Set_ opts else Some doc in
          match Marshal (VObject doc) with
          | Ok data =>
              match with_db ds (DocStorage.Set_ (storage ds) (makeKey collection id) data) with
              | (ds, Ok _) =>
                  let '(ds, r) := with_indexes ds
                    (idx ← removeIndexes (indexes ds) collection id oldDoc;
                     updateIndexes idx collection id doc) tt in
                  (ds, caller, r)
              | (ds, r) => (ds, caller, r)
              end
          | Err err => (ds, caller, Err (wrap (str "failed to marshal document") err))
          | Panic => (ds, caller, Panic)
          end
      | Err err => (ds, Set_ opts, Err err)
      | Panic => (ds, Set_ opts, Panic)
      end
  | Err err => (ds, Set_ opts, Err err)
  | Panic => (ds, Set_ opts, Panic)
  end.

Definition Delete ds (collection id : bytes) : DocStore * result unit :=
  if decide (collection = []) then (ds, Err ErrInvalidDocument) else
  if decide (id = []) then (ds, Err ErrInvalidDocument) else
  match Get ds collection id with
  | Ok doc =>
      match with_db ds (DocStorage.Delete (storage ds) (makeKey collection id)) with
      | (ds, Ok _) => with_indexes ds (removeIndexes (indexes ds) collection id doc) tt
      | (ds, r) => (ds, r)
      end
  | Err err => (ds, Err err)
  | Panic => (ds, Panic)
  end.

(** Delete the documents one by one, counting the successes. *)
Fixpoint delete_all ds (collection : bytes) (results : list Document) (deleted : Z)
    : DocStore * result Z :=
  match results with
  | [] => (ds, Ok deleted)
  | doc :: results =>
      match as_string (doc !! str "_id") with
      | None => delete_all ds collection results deleted
      | Some id =>
          match Delete ds collection id with
          | (ds, Ok _) => delete_all ds collection results (deleted + 1)
          | (ds, Err _) => delete_all ds collection results deleted
          | (ds, Panic) => (ds, Panic)
          end
      end
  end.

Definition DeleteMany ds (collection : bytes) (opts : FindOptions) : DocStore * result Z :=
  match Find ds collection opts with
  | Ok results => delete_all ds collection (default [] results) 0
  | Err err => (ds, Err err)
  | Panic => (ds, Panic)
  end.

Definition Count ds (collection : bytes) : result Z :=
  if decide (collection = []) then Err ErrInvalidCollection else
  DocStorage.Count (storage ds) (makeCollectionPrefix collection).

(** ** Indexes *)

(** The order in which a range goes through the keys of a map. *)
Variable order : list bytes -> list bytes.

Definition fields_of (coll : bmap kindex) : list bytes := order (map_to_list coll).*1.

Definition index_metadata (indexes : index_map) : bmap (list bytes) :=
  omap (fun coll => nilable (fields_of coll)) indexes.

Definition saveIndexMetadata ds : DocStore * result unit :=
  with_db ds (SetJSON (storage ds) metadataKey
    (VObject (VStrings <$> index_metadata (indexes ds)))).

(** The index structure of the metadata: empty indexes. *)
Definition rebuild (metadata : bmap (list bytes)) (indexes : index_map) : index_map :=
  foldl (fun indexes '(collection, fields) =>
    <[collection := foldl (fun coll field => <[field := ∅]> coll)
                      (default ∅ (indexes !! collection)) fields]> indexes)
    indexes (map_to_list metadata).

Definition loadIndexMetadata ds : DocStore * result unit :=
  match GetJSON (storage ds) metadataKey decode_metadata with
  | Ok metadata => (mkDocStore (storage ds) (rebuild metadata (indexes ds)), Ok tt)
  | Err err => (ds, if is_sentinel err ErrKeyNotFound then Ok tt else Err err)
  | Panic => (ds, Panic)
  end.

(** [New] on an opened database. *)
Definition New (db : DB) : result DocStore :=
  match loadIndexMetadata (mkDocStore db ∅) with
  | (ds, Ok _) => Ok ds
  | (_, Err err) => Err (wrap (str "failed to load indexes") err)
  | (_, Panic) => Panic
  end.

(** The callback that fills an index. *)
Definition index_doc (field : bytes) (idx : kindex) (key data : bytes) : kindex * result unit :=
  match unmarshal_doc data with
  | Ok doc =>
      match as_string (doc !! str "_id") with
      | None => (idx, Ok tt)
      | Some id =>
          match doc !! field with
          | None => (idx, Ok tt)
          | Some val =>
              match index_add idx val id with
              | Ok idx => (idx, Ok tt)
              | Err err => (idx, Err err)
              | Panic => (idx, Panic)
              end
          end
      end
  | Err err => (idx, Err err)
  | Panic => (idx, Panic)
  end.

Definition CreateIndex ds (collection field : bytes) : DocStore * result unit :=
  if decide (collection = []) then (ds, Err ErrInvalidDocument) else
  if decide (field = []) then (ds, Err ErrInvalidDocument) else
  let coll := default ∅ (indexes ds !! collection) in
  let idx := default ∅ (coll !! field) in
  let '(idx, r) := Scan (storage ds) (makeCollectionPrefix collection) idx (index_doc field) in
  let ds := mkDocStore (storage ds) (<[collection := <[field := idx]> coll]> (indexes ds)) in
  match r with Ok _ => saveIndexMetadata ds | r => (ds, r) end.

Definition DropIndex ds (collection field : bytes) : DocStore * result unit :=
  let ds := match indexes ds !! collection with
            | Some coll => mkDocStore (storage ds) (<[collection := delete field coll]> (indexes ds))
            | None => ds
            end in
  saveIndexMetadata ds.

Definition ListIndexes ds (collection : bytes) : list bytes :=
  match indexes ds !! collection with Some coll => fields_of coll | None => [] end.
End Store.

(** [New] on the files of a directory, and [Close]. *)
Definition DocStore_New {bdg : Badger} {opening : BadgerOpen} (files : option DB) : result DocStore :=
  db ← DocNewStorage files; New db.
Definition DocStore_Close {bdg : Badger} {batch : BadgerBatch} (ds : DocStore) : DocStore * result unit :=
  let '(db, r) := DocStorageClose (storage ds) in (mkDocStore db (indexes ds), r).
