(* ===== verification/DocSpec.v ===== *)
(** What the document store keeps: collections of documents and indexes that
    agree with them; the relation between this and the state of the code. *)
From stdpp Require Import base list numbers gmap sorting strings.
From Stdlib Require Import ZArith Lia.
From S2P Require Import Prelude Fmt Badger GoFloat GoValue Json JsonTrip DocStorage DocHelpers DocStore.

(** ** The specification *)

(** The documents of each collection, by id. *)
Definition documents : Type := bytes -> bmap Document.

Definition put (M : documents) (c id : bytes) (d : Document) : documents :=
  fun c' => if decide (c' = c) then <[id := d]> (M c) else M c'.
Definition remove (M : documents) (c id : bytes) : documents :=
  fun c' => if decide (c' = c) then delete id (M c) else M c'.

(** A document JSON can carry, and one it has carried. *)
Definition doc_ok (d : Document) : Prop :=
  json_ok (VObject d) = true /\ (nesting (VObject d) <= maxNestingDepth)%nat.
Definition norm_doc (d : Document) : Document := norm <$> d.
Definition normal (d : Document) : Prop := norm_doc d = d.

(** An index that agrees with the documents of a collection. *)
Record index_of (D : bmap Document) (f : bytes) (idx : kindex) : Prop := {
  io_hash : forall id d v, D !! id = Some d -> d !! f = Some v -> exists k, key_of v = Ok (Some k);
  io_ids : forall k id, id ∈ default [] (idx !! k) <->
    exists d v, D !! id = Some d /\ d !! f = Some v /\ key_of v = Ok (Some k);
  io_nodup : forall k, NoDup (default [] (idx !! k));
}.

(** What is stored for a document. *)
Definition stored (m : store) (c id : bytes) (o : option Document) : Prop :=
  match o with
  | Some d => exists data, m !! makeKey c id = Some data /\ unmarshal_doc data = Ok d
  | None => m !! makeKey c id = None
  end.

(** ** JSON documents *)

Lemma unmarshal_marshal_doc d :
  doc_ok d -> exists data, Marshal (VObject d) = Ok data /\ unmarshal_doc data = Ok (norm_doc d).
Proof.
  intros [Hj Hn]. destruct (Unmarshal_Marshal _ Hj Hn) as (data & E & E').
  exists data. split; [done|]. unfold unmarshal_doc. by rewrite E'.
Qed.

Lemma normal_norm d : normal (norm_doc d).
Proof.
  unfold normal, norm_doc. rewrite <- map_fmap_compose. apply map_fmap_ext.
  intros k v _. apply norm_norm.
Qed.

(** What [json_ok] and [nesting] say of the entries. *)
Lemma doc_ok_entries d :
  doc_ok d <-> map_Forall (fun k v => utf8 k = true /\ json_ok v = true /\
    (S (nesting v) <= maxNestingDepth)%nat) d /\ (1 <= maxNestingDepth)%nat.
Proof.
  unfold doc_ok. cbn [json_ok]. rewrite (map_fold_andb (fun k v => utf8 k && json_ok v)). split.
  - intros [Hj Hn]. cbn [nesting] in Hn. split; [|lia]. intros k v Hv. specialize (Hj k v Hv).
    apply andb_true_iff in Hj as [Hu Hjv]. split_and!; [done..|].
    assert (H : (map_fold (fun _ v n => Nat.max (nesting v) n) 0 d <= maxNestingDepth - 1)%nat) by lia.
    pose proof (map_fold_max_le nesting d _ H k v Hv). cbn in *. lia.
  - intros [H H1]. split.
    + intros k v Hv. destruct (H k v Hv) as (-> & -> & _). done.
    + cbn [nesting]. revert H. induction d as [|k v d Hk IH] using map_ind; intros H.
      { rewrite map_fold_empty. lia. }
      rewrite map_fold_insert_L; [|intros; lia|done].
      assert (HI := IH ltac:(by eapply map_Forall_insert_1_2)).
      destruct (H k v ltac:(by rewrite lookup_insert_eq)) as (_ & _ & Hn). lia.
Qed.

Lemma max_depth_pos : (1 <= maxNestingDepth)%nat.
Proof. unfold maxNestingDepth. lia. Qed.

Lemma nesting_norm v : nesting (norm v) = nesting v.
Proof.
  induction v as [v Hv|l IH|m IH] using value_nested_ind.
  - destruct v; try done. cbn. f_equal. by induction l.
  - cbn. f_equal. clear -IH. induction IH as [|v l Hv _ IHl]; [done|]. cbn in *. by rewrite Hv, IHl.
  - cbn [norm nesting]. f_equal. revert IH. induction m as [|k v m Hk IHm] using map_ind; intros H.
    { by rewrite fmap_empty. }
    rewrite fmap_insert. rewrite !map_fold_insert_L; [|intros; lia|done|intros; lia|by rewrite lookup_fmap, Hk].
    rewrite IHm by by eapply map_Forall_insert_1_2.
    by rewrite (H k v) by by rewrite lookup_insert_eq.
Qed.

Lemma doc_ok_norm d : doc_ok d -> doc_ok (norm_doc d).
Proof.
  intros [Hj Hn]. split; [by apply (json_ok_norm (VObject d))|].
  by rewrite <- (nesting_norm (VObject d)) in Hn.
Qed.

(** Building documents from entries. *)
Lemma doc_ok_insert d k v :
  doc_ok d -> utf8 k = true -> json_ok v = true -> (S (nesting v) <= maxNestingDepth)%nat ->
  doc_ok (<[k := v]> d).
Proof.
  rewrite !doc_ok_entries. intros [H H1] Hk Hv Hn. split; [|done]. by apply map_Forall_insert_2.
Qed.

Lemma doc_ok_empty : doc_ok ∅.
Proof. apply doc_ok_entries. split; [apply map_Forall_empty|apply max_depth_pos]. Qed.

Lemma doc_ok_union d d' : doc_ok d -> doc_ok d' -> doc_ok (d ∪ d').
Proof. rewrite !doc_ok_entries. intros [H ?] [H' ?]. split; [by apply map_Forall_union_2|done]. Qed.

Lemma doc_ok_delete d k : doc_ok d -> doc_ok (delete k d).
Proof. rewrite !doc_ok_entries. intros [H ?]. split; [by apply map_Forall_delete|done]. Qed.

(** ** Keys *)

Lemma makeKey_inj c c' id id' :
  name_ok c -> name_ok c' -> makeKey c id = makeKey c' id' -> c = c' /\ id = id'.
Proof. intros Hc Hc' E%app_inv_head. by apply split_colon in E. Qed.

Lemma makeKey_prefix c id : makeKey c id = makeCollectionPrefix c ++ id.
Proof. unfold makeKey, makeCollectionPrefix. by rewrite <- !app_assoc. Qed.

Lemma makeKey_metadata c id : makeKey c id <> metadataKey.
Proof. done. Qed.

Lemma makeKey_nonempty c id : makeKey c id <> [].
Proof. done. Qed.

(** ** Indexes *)

Section Indexes.
Implicit Types (D : bmap Document) (idx : kindex).

Lemma ids_insert idx k k' l :
  default [] ((<[k := l]> idx) !! k') = if decide (k' = k) then l else default [] (idx !! k').
Proof.
  destruct (decide (k' = k)) as [->|Hne]; [by rewrite lookup_insert_eq|by rewrite lookup_insert_ne].
Qed.

(** Documents without the field, or gone, change nothing. *)
Lemma index_of_without D f idx id d :
  index_of D f idx -> D !! id = None -> d !! f = None -> index_of (<[id := d]> D) f idx.
Proof.
  intros [Hh Hi Hn] Hid Hd. split; [| |done].
  - intros id' d' v [[-> ->]|[Hne H]]%lookup_insert_Some Hv; [congruence|by eapply Hh].
  - intros k id'. rewrite Hi. split; intros (d' & v & H & Hv & Hk); exists d', v; (split; [|done]).
    + rewrite lookup_insert_ne; [done|congruence].
    + apply lookup_insert_Some in H as [[-> ->]|[Hne H]]; [congruence|done].
Qed.

Lemma index_add_of D f idx id d v k :
  index_of D f idx -> D !! id = None -> d !! f = Some v -> key_of v = Ok (Some k) ->
  exists idx', index_add idx v id = Ok idx' /\ index_of (<[id := d]> D) f idx'.
Proof.
  intros [Hh Hi Hn] Hid Hd Hk. unfold index_add. rewrite Hk. eexists. split; [done|]. split.
  - intros id' d' v' [[-> ->]|[Hne H]]%lookup_insert_Some Hv; [|by eapply Hh].
    exists k. congruence.
  - intros k' id'. rewrite ids_insert. destruct (decide (k' = k)) as [->|Hne].
    + rewrite elem_of_app, Hi, list_elem_of_singleton. split.
      * intros [(d' & v' & H & Hv & Hk')| ->]; [|exists d, v; by rewrite lookup_insert_eq].
        exists d', v'. rewrite lookup_insert_ne by congruence. done.
      * intros (d' & v' & [[-> ->]|[Hne H]]%lookup_insert_Some & Hv & Hk'); [by right|left].
        by exists d', v'.
    + rewrite Hi. split; intros (d' & v' & H & Hv & Hk'); exists d', v'; (split; [|done]).
      * rewrite lookup_insert_ne; [done|congruence].
      * apply lookup_insert_Some in H as [[-> ->]|[? H]]; [congruence|done].
  - intros k'. rewrite ids_insert. destruct (decide (k' = k)) as [->|Hne]; [|done].
    apply NoDup_app. split_and!; [done| |apply NoDup_singleton].
    intros id' (d' & v' & H & _)%Hi ->%list_elem_of_singleton. congruence.
Qed.

Lemma index_of_delete_without D f idx id d :
  index_of D f idx -> D !! id = Some d -> d !! f = None -> index_of (delete id D) f idx.
Proof.
  intros [Hh Hi Hn] Hid Hd. split; [| |done].
  - intros id' d' v [Hne H]%lookup_delete_Some Hv. by eapply Hh.
  - intros k id'. rewrite Hi. split; intros (d' & v & H & Hv & Hk); exists d', v; (split; [|done]).
    + rewrite lookup_delete_ne; [done|congruence].
    + by apply lookup_delete_Some in H as [_ H].
Qed.

Lemma ids_removed idx k k' id ids :
  let newIds := filter (fun x => x <> id) ids in
  default [] ((if decide (newIds = []) then delete k idx else <[k := newIds]> idx) !! k')
  = if decide (k' = k) then newIds else default [] (idx !! k').
Proof.
  intros newIds. destruct (decide (newIds = [])) as [E|_]; [|apply ids_insert].
  destruct (decide (k' = k)) as [->|Hne]; [by rewrite lookup_delete_eq, E|by rewrite lookup_delete_ne].
Qed.

Lemma index_remove_of D f idx id d v :
  index_of D f idx -> D !! id = Some d -> d !! f = Some v ->
  exists idx', index_remove idx v id = Ok idx' /\ index_of (delete id D) f idx'.
Proof.
  intros [Hh Hi Hn] Hid Hd. destruct (Hh _ _ _ Hid Hd) as [k Hk]. unfold index_remove. rewrite Hk.
  cbn [mbind result_bind].
  assert (Hin : id ∈ default [] (idx !! k)) by (apply Hi; by exists d, v).
  destruct (idx !! k) as [ids|] eqn:Ek; [|by apply not_elem_of_nil in Hin].
  eexists. split; [done|]. pose proof (fun k' => ids_removed idx k k' id ids) as Hr.
  split.
  - intros id' d' v' [Hne H]%lookup_delete_Some Hv. by eapply Hh.
  - intros k' id'. rewrite Hr. destruct (decide (k' = k)) as [->|Hne].
    + rewrite list_elem_of_filter. specialize (Hi k id'). rewrite Ek in Hi. cbn in Hi. rewrite Hi.
      split.
      * intros (Hne & d' & v' & H & Hv). exists d', v'. by rewrite lookup_delete_ne.
      * intros (d' & v' & [Hne H]%lookup_delete_Some & Hv). split; [done|]. by exists d', v'.
    + rewrite Hi. split; intros (d' & v' & H & Hv & Hk'); exists d', v'; (split; [|done]).
      * rewrite lookup_delete_ne; [done|]. intros ->. congruence.
      * by apply lookup_delete_Some in H as [_ H].
  - intros k'. rewrite Hr. destruct (decide (k' = k)) as [->|Hne]; [|done].
    apply NoDup_filter. specialize (Hn k). by rewrite Ek in Hn.
Qed.

(** A change of every index of a collection. *)
Lemma index_fields_all (coll : bmap kindex) (doc : Document) change (R : bytes -> kindex -> Prop) :
  (forall f idx, coll !! f = Some idx ->
     match doc !! f with
     | None => R f idx
     | Some v => exists idx', change idx v = Ok idx' /\ R f idx'
     end) ->
  exists coll', index_fields coll doc change = Ok coll' /\ dom coll' = dom coll /\
    forall f idx, coll' !! f = Some idx -> R f idx.
Proof.
  intros H. unfold index_fields. set (body := fun _ _ => _).
  enough (Hgen : forall l acc, NoDup l.*1 -> (forall f idx, (f, idx) ∈ l -> acc !! f = Some idx) ->
    (forall f idx, (f, idx) ∈ l -> coll !! f = Some idx) ->
    (forall f idx, acc !! f = Some idx -> (f, idx) ∈ l \/ R f idx) ->
    exists coll', for_each l acc body = Ok coll' /\ dom coll' = dom acc /\
      forall f idx, coll' !! f = Some idx -> R f idx).
  { apply Hgen; [apply NoDup_fst_map_to_list|..]; intros f idx; rewrite elem_of_map_to_list; auto. }
  induction l as [|[f idx] l IH]; intros acc Hnd Hl Hc Hacc; cbn [for_each].
  { exists acc. split_and!; [done..|]. intros f idx Hf.
    destruct (Hacc f idx Hf) as [[]%elem_of_nil|?]; done. }
  apply NoDup_cons in Hnd as [Hf Hnd]. specialize (H f idx (Hc f idx ltac:(left))).
  pose proof (Hl f idx ltac:(left)) as Hfa. change (body acc (f, idx)) with
    (match doc !! f with None => Ok acc | Some v => idx ← change idx v; Ok (<[f := idx]> acc) end).
  destruct (doc !! f) as [v|].
  - destruct H as (idx' & -> & HR). cbn [mbind result_bind].
    destruct (IH (<[f := idx']> acc)) as (coll' & E & Hd & HR'); [done| | | |].
    + intros f' i' Hin. rewrite lookup_insert_ne; [apply Hl; by right|]. intros <-. apply Hf.
      by apply (list_elem_of_fmap_2 fst) in Hin.
    + intros f' i' Hin. apply Hc. by right.
    + intros f' i' [[<- <-]|[Hne Hf']]%lookup_insert_Some; [by right|].
      destruct (Hacc f' i' Hf') as [Hin|?]; [|by right].
      apply elem_of_cons in Hin as [[= -> ->]|?]; [done|by left].
    + exists coll'. split_and!; [done| |done]. rewrite Hd. by apply dom_insert_lookup_L.
  - cbn [mbind result_bind]. apply IH; [done| | |].
    + intros f' i' Hin. apply Hl. by right.
    + intros f' i' Hin. apply Hc. by right.
    + intros f' i' Hf'. destruct (Hacc f' i' Hf') as [Hin|?]; [|by right].
      apply elem_of_cons in Hin as [[= -> ->]|?]; [by right|by left].
Qed.
End Indexes.

(** The indexes of one collection agree with its documents. *)
Definition agrees (D : bmap Document) (coll : option (bmap kindex)) : Prop :=
  forall coll' f idx, coll = Some coll' -> coll' !! f = Some idx -> index_of D f idx.

(** Changing the indexes of one collection. *)
Lemma on_collection_ok (indexes : index_map) c doc change D D' :
  agrees D (indexes !! c) ->
  (forall coll f idx, indexes !! c = Some coll -> coll !! f = Some idx -> index_of D f idx ->
     match doc !! f with
     | None => index_of D' f idx
     | Some v => exists idx', change idx v = Ok idx' /\ index_of D' f idx'
     end) ->
  exists indexes', on_collection indexes c doc change = Ok indexes' /\
    agrees D' (indexes' !! c) /\ (forall c', c' <> c -> indexes' !! c' = indexes !! c') /\
    dom <$> indexes' !! c = dom <$> indexes !! c.
Proof.
  intros HD Hc. unfold on_collection. destruct (indexes !! c) as [coll|] eqn:E.
  - destruct (index_fields_all coll doc change (index_of D')) as (coll' & -> & Hdom & HR).
    { intros f idx Hf. by apply (Hc coll f idx); [..|apply (HD coll)]. }
    eexists. split; [done|]. split_and!.
    + intros ? f idx. rewrite lookup_insert_eq. intros [= <-]. apply HR.
    + intros c' Hne. by rewrite lookup_insert_ne.
    + rewrite lookup_insert_eq. cbn. by f_equal.
  - exists indexes. split_and!; [done| |done|by rewrite E]. intros ? f idx. by rewrite E.
Qed.

(** The relation between the documents and a state of the code. *)
Section Holds.
Context {bdg : Badger} {laws : BadgerLaws}.
Implicit Types (M : documents) (ds : DocStore).

Record holds M ds : Prop := {
  hd_docs : forall c id, name_ok c -> stored (contents (storage ds)) c id (M c !! id);
  hd_normal : forall c id d, name_ok c -> M c !! id = Some d -> doc_ok d /\ normal d;
  hd_index : forall c, name_ok c -> agrees (M c) (indexes ds !! c);
}.

(** The part that does not depend on the indexes: every document is stored. *)
Record kept M ds : Prop := {
  kp_docs : forall c id, name_ok c -> stored (contents (storage ds)) c id (M c !! id);
  kp_normal : forall c id d, name_ok c -> M c !! id = Some d -> doc_ok d /\ normal d;
}.

Lemma holds_kept M ds : holds M ds -> kept M ds.
Proof. by intros []. Qed.

Lemma kept_same M ds db' idx' :
  kept M ds -> contents db' = contents (storage ds) -> kept M (mkDocStore db' idx').
Proof. intros [H1 H2] E. split; [|done]. cbn [storage]. by rewrite E. Qed.

Lemma kept_put M ds db' idx' c id d data :
  kept M ds -> name_ok c -> doc_ok d -> normal d -> unmarshal_doc data = Ok d ->
  contents db' = <[makeKey c id := data]> (contents (storage ds)) ->
  kept (put M c id d) (mkDocStore db' idx').
Proof.
  intros [H1 H2] Hc Hd Hn Hu Hs. unfold put. split; cbn [storage].
  - intros c' id' Hc'. rewrite Hs. destruct (decide (c' = c)) as [->|Hne].
    + destruct (decide (id' = id)) as [->|Hne].
      * rewrite lookup_insert_eq. exists data. by rewrite lookup_insert_eq.
      * rewrite lookup_insert_ne by done. specialize (H1 c id' Hc). unfold stored in *.
        rewrite lookup_insert_ne; [done|]. by intros [_ ?]%makeKey_inj.
    + specialize (H1 c' id' Hc'). unfold stored in *.
      rewrite lookup_insert_ne; [done|]. by intros [? _]%makeKey_inj.
  - intros c' id' d' Hc'. destruct (decide (c' = c)) as [->|Hne]; [|by apply H2].
    intros [[<- <-]|[_ H]]%lookup_insert_Some; [done|]. by apply (H2 c id' d').
Qed.

Lemma kept_remove M ds db' idx' c id :
  kept M ds -> name_ok c -> contents db' = delete (makeKey c id) (contents (storage ds)) ->
  kept (remove M c id) (mkDocStore db' idx').
Proof.
  intros [H1 H2] Hc Hs. unfold remove. split; cbn [storage].
  - intros c' id' Hc'. rewrite Hs. destruct (decide (c' = c)) as [->|Hne].
    + destruct (decide (id' = id)) as [->|Hne].
      * rewrite lookup_delete_eq. apply lookup_delete_eq.
      * rewrite lookup_delete_ne by done. specialize (H1 c id' Hc). unfold stored in *.
        rewrite lookup_delete_ne; [done|]. by intros [_ ?]%makeKey_inj.
    + specialize (H1 c' id' Hc'). unfold stored in *.
      rewrite lookup_delete_ne; [done|]. by intros [? _]%makeKey_inj.
  - intros c' id' d' Hc'. destruct (decide (c' = c)) as [->|Hne]; [|by apply H2].
    intros [_ H]%lookup_delete_Some. by apply (H2 c id' d').
Qed.

(** The indexed fields of a document can be indexed, and read back as they are. *)
Definition indexable ds (c : bytes) (d : Document) : Prop :=
  forall coll f v, indexes ds !! c = Some coll -> f ∈ dom coll -> d !! f = Some v ->
    norm v = v /\ exists k, key_of v = Ok (Some k).

Lemma holds_put M ds db' idx' c id d data :
  holds M ds -> name_ok c -> doc_ok d -> normal d -> unmarshal_doc data = Ok d ->
  contents db' = <[makeKey c id := data]> (contents (storage ds)) ->
  agrees (<[id := d]> (M c)) (idx' !! c) ->
  (forall c', c' <> c -> idx' !! c' = indexes ds !! c') ->
  holds (put M c id d) (mkDocStore db' idx').
Proof.
  intros H Hc Hd Hn Hu Hs Hi Ho.
  destruct (kept_put M ds db' idx' c id d data (holds_kept _ _ H)) as [K1 K2]; [done..|].
  split; [done|done|]. intros c' Hc'. unfold put. cbn [indexes]. destruct (decide (c' = c)) as [->|Hne]; [done|].
  rewrite Ho by done. by apply (hd_index _ _ H).
Qed.

Lemma holds_remove M ds db' idx' c id :
  holds M ds -> name_ok c ->
  contents db' = delete (makeKey c id) (contents (storage ds)) ->
  agrees (delete id (M c)) (idx' !! c) ->
  (forall c', c' <> c -> idx' !! c' = indexes ds !! c') ->
  holds (remove M c id) (mkDocStore db' idx').
Proof.
  intros H Hc Hs Hi Ho. destruct (kept_remove M ds db' idx' c id (holds_kept _ _ H)) as [K1 K2]; [done..|].
  split; [done|done|]. intros c' Hc'. unfold remove. cbn [indexes]. destruct (decide (c' = c)) as [->|Hne]; [done|].
  rewrite Ho by done. by apply (hd_index _ _ H).
Qed.

(** A scan of a collection goes through its documents in the order of their
    ids. *)
Definition in_order (D : bmap Document) (l : list (bytes * Document)) : Prop :=
  l ≡ₚ map_to_list D /\ StronglySorted lex_lt l.*1.

Definition entry_of (c : bytes) (kv : bytes * bytes) (e : bytes * Document) : Prop :=
  kv.1 = makeKey c e.1 /\ unmarshal_doc kv.2 = Ok e.2.

Lemma Forall2_choose {A B} (R : A -> B -> Prop) l :
  (forall x, x ∈ l -> exists y, R x y) -> exists l', Forall2 R l l'.
Proof.
  induction l as [|x l IH]; intros H; [by exists []|].
  destruct (H x ltac:(left)) as [y Hy]. destruct IH as [l' Hl]; [intros; apply H; by right|].
  exists (y :: l'). by constructor.
Qed.

Lemma sorted_suffixes p l : StronglySorted lex_lt (map (fun i => p ++ i) l) -> StronglySorted lex_lt l.
Proof.
  induction l as [|i l IH]; intros Hs; [constructor|].
  cbn in Hs. apply StronglySorted_inv in Hs as [Hs HF]. constructor; [by apply IH|].
  rewrite Forall_map in HF. eapply Forall_impl; [exact HF|]. intros j [Hle Hne]. cbn in *.
  rewrite lex_leb_app in Hle. split; [done|congruence].
Qed.

Lemma sorted_NoDup l : StronglySorted lex_lt l -> NoDup l.
Proof.
  induction 1 as [|i l _ IH HF]; constructor; [|done].
  intros Hi. rewrite Forall_forall in HF. by destruct (HF i Hi).
Qed.

Lemma collection_entries M ds c :
  kept M ds -> name_ok c ->
  exists l, in_order (M c) l /\
    Forall2 (entry_of c) (mem_items (contents (storage ds)) (makeCollectionPrefix c)) l.
Proof.
  intros H Hc. set (p := makeCollectionPrefix c).
  assert (Hmk : forall i, p ++ i = makeKey c i) by (intros; symmetry; apply makeKey_prefix).
  destruct (mem_items_law (contents (storage ds)) p) as [Hs Hin].
  rewrite (map_ext _ id), map_id in Hin by (by intros []). set (kvs := mem_items _ p) in *.
  destruct (Forall2_choose (fun kv e => M c !! e.1 = Some e.2 /\ entry_of c kv e) kvs) as [l HL].
  { intros [k v] [Hk [i Hi]]%Hin. subst k. pose proof (kp_docs _ _ H c i Hc) as Hst.
    rewrite Hmk in Hk. unfold stored in Hst. destruct (M c !! i) as [d|] eqn:Ed; [|congruence].
    destruct Hst as (data & Hd & Hu). exists (i, d). split; [done|].
    split; [apply Hmk|cbn [snd]; congruence]. }
  exists l. split; [|eapply Forall2_impl; [exact HL|]; by intros ? ? []].
  assert (Hsort : StronglySorted lex_lt l.*1).
  { apply (sorted_suffixes p). replace (map _ l.*1) with (map fst kvs); [done|].
    clear -HL Hmk. induction HL as [|kv e kvs l [_ [Hk _]] _ IH]; [done|]. cbn.
    by rewrite Hk, <- Hmk, IH. }
  split; [|done]. apply NoDup_Permutation; [|apply NoDup_map_to_list|].
  { eapply NoDup_fmap_1. by apply sorted_NoDup. }
  intros [i d]. rewrite elem_of_map_to_list. split.
  - intros [n Hn]%list_elem_of_lookup. destruct (Forall2_lookup_r _ _ _ _ _ HL Hn) as (? & _ & ? & _). done.
  - intros Hi. pose proof (kp_docs _ _ H c i Hc) as Hst. rewrite Hi in Hst.
    destruct Hst as (data & Hd & Hu).
    assert ((makeKey c i, data) ∈ kvs) as [n Hn]%list_elem_of_lookup.
    { apply Hin. split; [done|]. rewrite <- Hmk. by exists i. }
    destruct (Forall2_lookup_l _ _ _ _ _ HL Hn) as ([i' d'] & Hl & He & Hk & _). cbn in *.
    apply makeKey_inj in Hk as [_ <-]; [|done..]. rewrite Hi in He. injection He as <-.
    by apply list_elem_of_lookup_2 in Hl.
Qed.
End Holds.
