(* ===== verification/DocRefine.v ===== *)
(** The document store implements collections of documents: the specification
    of its operations and the refinement. *)
From stdpp Require Import base list numbers gmap sorting strings.
From Stdlib Require Import ZArith Lia.
From S2P Require Import Prelude Fmt Badger GoFloat GoValue Json JsonTrip DocStorage DocHelpers DocStore DocSpec.

(** ** The operations *)

Inductive DocOp : Type :=
| DInsert (now : Z) (uid collection : bytes) (doc : option Document)
| DGet (collection id : bytes)
| DUpdate (now : Z) (collection id : bytes) (opts : UpdateOptions)
| DDelete (collection id : bytes)
| DCount (collection : bytes)
| DCreateIndex (collection field : bytes)
| DDropIndex (collection field : bytes).

Inductive DocReply : Type :=
| RId (id : bytes)
| RDoc (d : Document)
| RDone
| RNumber (n : Z).

(** On documents: an inserted document is completed with its id and its
    times, and is read back in JSON's normal form. *)
Definition doc_spec (M : documents) (op : DocOp) : documents * result DocReply :=
  match op with
  | DInsert now uid c doc =>
      if decide (c = []) then (M, Err ErrInvalidCollection) else
      let id := insert_id uid (default ∅ doc) in
      (put M c id (norm_doc (stamped now id (default ∅ doc))), Ok (RId id))
  | DGet c id =>
      if decide (c = [] \/ id = []) then (M, Err ErrInvalidDocument) else
      (M, match M c !! id with Some d => Ok (RDoc d) | None => Err ErrDocumentNotFound end)
  | DUpdate now c id opts =>
      if decide (c = [] \/ id = []) then (M, Err ErrInvalidDocument) else
      match M c !! id with
      | Some d =>
          match apply_update now id opts d with
          | Ok d => (put M c id (norm_doc d), Ok RDone)
          | Err e => (M, Err e)
          | Panic => (M, Panic)
          end
      | None => (M, Err ErrDocumentNotFound)
      end
  | DDelete c id =>
      if decide (c = [] \/ id = []) then (M, Err ErrInvalidDocument) else
      match M c !! id with
      | Some _ => (remove M c id, Ok RDone)
      | None => (M, Err ErrDocumentNotFound)
      end
  | DCount c =>
      if decide (c = []) then (M, Err ErrInvalidCollection) else
      (M, Ok (RNumber (Z.of_nat (base.size (M c)))))
  | DCreateIndex c f =>
      if decide (c = [] \/ f = []) then (M, Err ErrInvalidDocument) else (M, Ok RDone)
  | DDropIndex _ _ => (M, Ok RDone)
  end.

Section Exec.
Context {bdg : Badger}.
Variable order : list bytes -> list bytes.

Definition with_reply {A} (k : A -> DocReply) (ds : DocStore) (r : result A) : DocStore * result DocReply :=
  (ds, a ← r; Ok (k a)).

Definition doc_exec (ds : DocStore) (op : DocOp) : DocStore * result DocReply :=
  match op with
  | DInsert now uid c doc => let '(ds, _, r) := Insert now uid ds c doc in with_reply RId ds r
  | DGet c id => with_reply RDoc ds (Get ds c id)
  | DUpdate now c id opts => let '(ds, _, r) := Update now ds c id opts in with_reply (fun _ => RDone) ds r
  | DDelete c id => let '(ds, r) := Delete ds c id in with_reply (fun _ => RDone) ds r
  | DCount c => with_reply RNumber ds (Count ds c)
  | DCreateIndex c f => let '(ds, r) := CreateIndex order ds c f in with_reply (fun _ => RDone) ds r
  | DDropIndex c f => let '(ds, r) := DropIndex order ds c f in with_reply (fun _ => RDone) ds r
  end.

(** The values of the indexed fields of a document can be keys of a map, as
    arrays and objects cannot. *)
Definition hashable (indexes : index_map) (c : bytes) (d : Document) : Prop :=
  forall coll f v, indexes !! c = Some coll -> f ∈ dom coll -> d !! f = Some v -> key_of v <> Panic.

(** What the operations are given: names without a colon, documents that JSON
    carries, and hashable values in indexed fields. *)
Definition op_given (M : documents) (ds : DocStore) (op : DocOp) : Prop :=
  match op with
  | DInsert now uid c doc =>
      let id := insert_id uid (default ∅ doc) in
      name_ok c /\ utf8 uid = true /\ i64b now = true /\ doc_ok (default ∅ doc) /\
      hashable (indexes ds) c (stamped now id (default ∅ doc))
  | DUpdate now c id opts =>
      name_ok c /\ utf8 id = true /\ i64b now = true /\ doc_ok (default ∅ (Set_ opts)) /\
      (Merge opts = false -> Set_ opts <> None) /\
      forall d d', M c !! id = Some d -> apply_update now id opts d = Ok d' ->
        hashable (indexes ds) c d /\ hashable (indexes ds) c d'
  | DDelete c id => name_ok c /\ forall d, M c !! id = Some d -> hashable (indexes ds) c d
  | DGet c _ | DCount c => name_ok c
  | DCreateIndex c f =>
      name_ok c /\ forall id d v, M c !! id = Some d -> d !! f = Some v -> key_of v <> Panic
  | DDropIndex _ _ => True
  end.

(** What the indexes need besides: fresh ids, values that an index finds again,
    and indexes built once over documents that keep their ids. *)
Definition op_ok (M : documents) (ds : DocStore) (op : DocOp) : Prop :=
  match op with
  | DInsert now uid c doc =>
      let id := insert_id uid (default ∅ doc) in
      name_ok c /\ utf8 uid = true /\ i64b now = true /\ doc_ok (default ∅ doc) /\
      (indexes ds !! c = None \/ M c !! id = None /\ indexable ds c (stamped now id (default ∅ doc)))
  | DUpdate now c id opts =>
      name_ok c /\ utf8 id = true /\ i64b now = true /\ doc_ok (default ∅ (Set_ opts)) /\
      (Merge opts = false -> Set_ opts <> None) /\
      forall d d', M c !! id = Some d -> apply_update now id opts d = Ok d' -> indexable ds c d'
  | DGet c _ | DDelete c _ | DCount c => name_ok c
  | DCreateIndex c f =>
      name_ok c /\ (forall coll, indexes ds !! c = Some coll -> coll !! f = None) /\
      forall id d, M c !! id = Some d -> d !! str "_id" = Some (VString id) /\
        forall v, d !! f = Some v -> exists k, key_of v = Ok (Some k)
  | DDropIndex _ _ => True
  end.
End Exec.

(** ** Documents that are written *)

Lemma insert_id_utf8 uid d : utf8 uid = true -> doc_ok d -> utf8 (insert_id uid d) = true.
Proof.
  intros Hu [H _]%doc_ok_entries. unfold insert_id, as_string.
  destruct (d !! str "_id") as [v|] eqn:E; [|done]. destruct (H _ _ E) as (_ & Hv & _).
  destruct v; try done. by destruct s.
Qed.

Lemma doc_ok_stamped now id d :
  i64b now = true -> utf8 id = true -> doc_ok d -> doc_ok (stamped now id d).
Proof.
  intros Hn Hi Hd. pose proof max_depth_pos.
  unfold stamped. repeat (apply doc_ok_insert; [|done|done|cbn; lia]). done.
Qed.

Lemma doc_ok_unset fields d : doc_ok d -> doc_ok (foldl (fun doc field => delete field doc) d fields).
Proof. revert d. induction fields as [|f fields IH]; intros d Hd; [done|]. by apply IH, doc_ok_delete. Qed.

Lemma apply_update_ok now id opts d :
  i64b now = true -> utf8 id = true -> doc_ok d -> doc_ok (default ∅ (Set_ opts)) ->
  (Merge opts = false -> Set_ opts <> None) ->
  exists d', apply_update now id opts d = Ok d' /\ doc_ok d'.
Proof.
  intros Hn Hi Hd Hs Hm. pose proof max_depth_pos. unfold apply_update. destruct (Merge opts).
  - eexists. split; [done|]. apply doc_ok_unset, doc_ok_insert; [by apply doc_ok_union|done|done|cbn; lia].
  - destruct (Set_ opts) as [s|]; [|by destruct Hm]. eexists. split; [done|].
    apply doc_ok_unset. repeat (apply doc_ok_insert; [|done|done|cbn; lia]). done.
Qed.

(** ** The documents, whatever the indexes say

    The operations on an engine that may refuse. *)

Section Outcomes.
Context {bdg : Badger} {laws : BadgerLaws}.
Implicit Types (M : documents) (ds : DocStore).

(** An error of the engine, as it comes or with the operation in front. *)
Definition refused (e : error) : Prop :=
  exists err, fault err /\ (e = err \/ exists msg, e = wrap msg err).

(** As specified, or refused by the engine with every document as it was. *)
Definition doc_refined M op (x : DocStore * result DocReply) : Prop :=
  (x.2 = (doc_spec M op).2 /\ kept (doc_spec M op).1 x.1) \/
  (exists e, x.2 = Err e /\ refused e /\ kept M x.1).

Lemma refused_fault e : fault e -> refused e.
Proof. intros H. exists e. auto. Qed.
Lemma refused_wrap msg e : fault e -> refused (wrap msg e).
Proof. intros H. exists e. eauto. Qed.
#[local] Hint Resolve refused_fault refused_wrap : core.

Lemma Set_outcome db key data :
  key <> [] -> exists db' r, DocStorage.Set_ db key data = (db', r) /\
    ((r = Ok tt /\ contents db' = <[key := data]> (contents db)) \/
     exists e, r = Err e /\ fault e /\ contents db' = contents db).
Proof.
  intros Hk. pose proof (doc_Set_served db key data (fun _ => False) Hk) as H. unfold served in H.
  destruct (DocStorage.Set_ db key data) as [db' [[]|e|]]; cbn in H; [| |done]; eexists _, _; split; try done.
  - by left.
  - right. destruct H as [H [Hf|[]]]. by exists e.
Qed.

Lemma Delete_outcome db key :
  key <> [] -> exists db' r, DocStorage.Delete db key = (db', r) /\
    ((r = Ok tt /\ contents db' = delete key (contents db)) \/
     exists e, r = Err e /\ fault e /\ contents db' = contents db).
Proof.
  intros Hk. pose proof (doc_Delete_served db key (fun _ => False) Hk) as H. unfold served in H.
  destruct (DocStorage.Delete db key) as [db' [[]|e|]]; cbn in H; [| |done]; eexists _, _; split; try done.
  - by left.
  - right. destruct H as [H [Hf|[]]]. by exists e.
Qed.

Lemma Get_outcome M ds c id :
  kept M ds -> name_ok c -> c <> [] -> id <> [] ->
  Get ds c id = match M c !! id with Some d => Ok d | None => Err ErrDocumentNotFound end \/
  exists e, Get ds c id = Err e /\ fault e.
Proof.
  intros H Hc Hc0 Hi0. unfold Get. rewrite !decide_False by done.
  pose proof (doc_Get_wp (storage ds) (makeKey c id) (makeKey_nonempty c id)) as HG.
  pose proof (kp_docs _ _ H c id Hc) as Hst. unfold stored in Hst.
  destruct (DocStorage.Get (storage ds) (makeKey c id)) as [data|e|]; cbn [on_err]; [| |done].
  - left. destruct (M c !! id) as [d|]; [|congruence]. destruct Hst as (data' & Hd & Hu). congruence.
  - destruct HG as [Hf|[-> Hn]].
    + right. exists e. by rewrite fault_not_found.
    + left. destruct (M c !! id) as [d|]; [|done]. destruct Hst as (data' & Hd & Hu). congruence.
Qed.

(** Without unhashable values the indexes are changed somehow. *)
Lemma key_of_no_error v e : key_of v <> Err e.
Proof. by destruct v. Qed.

Lemma key_of_hashed v : key_of v <> Panic -> exists k, key_of v = Ok k.
Proof. pose proof (key_of_no_error v). destruct (key_of v) as [k|e|]; [by exists k|by destruct (H e)|done]. Qed.

Lemma index_add_total idx v id : key_of v <> Panic -> exists idx', index_add idx v id = Ok idx'.
Proof. intros [[k|] E]%key_of_hashed; unfold index_add; rewrite E; by eexists. Qed.

Lemma index_remove_total idx v id : key_of v <> Panic -> exists idx', index_remove idx v id = Ok idx'.
Proof.
  intros [[k|] E]%key_of_hashed; unfold index_remove; rewrite E; cbn [mbind result_bind]; [|by eexists].
  destruct (idx !! k); by eexists.
Qed.

Lemma on_collection_total (indexes : index_map) c d change :
  hashable indexes c d -> (forall idx v, key_of v <> Panic -> exists idx', change idx v = Ok idx') ->
  exists indexes', on_collection indexes c d change = Ok indexes' /\
    dom <$> indexes' !! c = dom <$> indexes !! c.
Proof.
  intros Hh Hc. unfold on_collection. destruct (indexes !! c) as [coll|] eqn:E; [|exists indexes; by rewrite E].
  destruct (index_fields_all coll d change (fun _ _ => True)) as (coll' & -> & Hd & _).
  { intros f idx Hf. destruct (d !! f) as [v|] eqn:Ev; [|done].
    destruct (Hc idx v) as [idx' E']; [|by exists idx']. by apply (Hh coll f v E (elem_of_dom_2 _ _ _ Hf)). }
  eexists. split; [done|]. rewrite lookup_insert_eq. cbn. by rewrite Hd.
Qed.

Lemma hashable_dom (indexes indexes' : index_map) c d :
  dom <$> indexes' !! c = dom <$> indexes !! c -> hashable indexes c d -> hashable indexes' c d.
Proof.
  intros E H coll f v Hc Hf. rewrite Hc in E. destruct (indexes !! c) as [coll0|] eqn:E0; [|done].
  cbn in E. injection E as E. rewrite E in Hf. by apply (H coll0).
Qed.

Lemma Insert_refined M ds now uid c doc order :
  kept M ds -> c <> [] -> op_given M ds (DInsert now uid c doc) ->
  doc_refined M (DInsert now uid c doc) (doc_exec order ds (DInsert now uid c doc)).
Proof.
  intros H Hc0 (Hc & Hu & Hn & Hd & Hh). unfold doc_refined. cbn [doc_exec doc_spec].
  rewrite decide_False by done. unfold Insert. rewrite decide_False by done.
  set (id := insert_id uid (default ∅ doc)) in *. set (d := stamped now id (default ∅ doc)) in *.
  assert (Hok : doc_ok d) by (apply doc_ok_stamped; [done|by apply insert_id_utf8|done]).
  destruct (unmarshal_marshal_doc d Hok) as (data & -> & Hun).
  destruct (Set_outcome (storage ds) (makeKey c id) data (makeKey_nonempty c id))
    as (db' & r & -> & [[-> Hdb]|(e & -> & Hf & Hdb)]); cbn [with_db fst snd indexes].
  - left. destruct (on_collection_total (indexes ds) c d (fun idx v => index_add idx v id) Hh) as (idx & E & _);
      [intros; by apply index_add_total|].
    unfold updateIndexes. rewrite E. split; [done|].
    by apply (kept_put M ds db' idx c id _ data); [..|apply doc_ok_norm|apply normal_norm| |].
  - right. eexists. split; [done|]. split; [auto|]. by apply (kept_same M ds).
Qed.

Lemma Update_refined M ds now c id opts order :
  kept M ds -> c <> [] -> id <> [] -> op_given M ds (DUpdate now c id opts) ->
  doc_refined M (DUpdate now c id opts) (doc_exec order ds (DUpdate now c id opts)).
Proof.
  intros H Hc0 Hi0 (Hc & Hu & Hn & Hs & Hm & Hh). unfold doc_refined. cbn [doc_exec doc_spec].
  rewrite decide_False by tauto. unfold Update. rewrite !decide_False by done.
  destruct (Get_outcome M ds c id H Hc Hc0 Hi0) as [-> |(e & -> & Hf)];
    [|right; exists e; split; [done|by auto]].
  destruct (M c !! id) as [d|] eqn:Hd; [|by left].
  destruct (kp_normal _ _ H c id d Hc Hd) as [Hok _].
  destruct (apply_update_ok now id opts d) as (d' & E & Hok'); [done..|]. rewrite E.
  destruct (Hh d d' eq_refl E) as [Hd1 Hd2].
  destruct (unmarshal_marshal_doc d' Hok') as (data & -> & Hun).
  destruct (Set_outcome (storage ds) (makeKey c id) data (makeKey_nonempty c id))
    as (db' & r & -> & [[-> Hdb]|(e & -> & Hf & Hdb)]); cbn [with_db fst snd indexes].
  - left. destruct (on_collection_total (indexes ds) c d (fun idx v => index_remove idx v id) Hd1) as (idx1 & E1 & Hdom);
      [intros; by apply index_remove_total|].
    destruct (on_collection_total idx1 c d' (fun idx v => index_add idx v id)) as (idx2 & E2 & _);
      [by eapply hashable_dom|intros; by apply index_add_total|].
    unfold removeIndexes, updateIndexes. rewrite E1, bind_ok, E2. split; [done|].
    by apply (kept_put M ds db' idx2 c id _ data); [..|apply doc_ok_norm|apply normal_norm| |].
  - right. exists e. split_and!; [done|by auto|]. by apply (kept_same M ds).
Qed.

Lemma Delete_refined M ds c id order :
  kept M ds -> c <> [] -> id <> [] -> op_given M ds (DDelete c id) ->
  doc_refined M (DDelete c id) (doc_exec order ds (DDelete c id)).
Proof.
  intros H Hc0 Hi0 [Hc Hh]. unfold doc_refined. cbn [doc_exec doc_spec].
  rewrite decide_False by tauto. unfold Delete. rewrite !decide_False by done.
  destruct (Get_outcome M ds c id H Hc Hc0 Hi0) as [-> |(e & -> & Hf)];
    [|right; exists e; split; [done|by auto]].
  destruct (M c !! id) as [d|] eqn:Hd; [|by left].
  destruct (Delete_outcome (storage ds) (makeKey c id) (makeKey_nonempty c id))
    as (db' & r & -> & [[-> Hdb]|(e & -> & Hf & Hdb)]); cbn [with_db fst snd indexes].
  - left. destruct (on_collection_total (indexes ds) c d (fun idx v => index_remove idx v id) (Hh d eq_refl)) as (idx & E & _);
      [intros; by apply index_remove_total|].
    unfold removeIndexes. rewrite E. split; [done|]. by apply (kept_remove M ds).
  - right. exists e. split_and!; [done|by auto|]. by apply (kept_same M ds).
Qed.

Lemma Count_refined M ds c order :
  kept M ds -> c <> [] -> name_ok c -> doc_refined M (DCount c) (doc_exec order ds (DCount c)).
Proof.
  intros H Hc0 Hc. unfold doc_refined. cbn [doc_exec doc_spec]. unfold Count. rewrite !decide_False by done.
  unfold DocStorage.Count.
  destruct (View_law _ (storage ds) (fun txn => Ok (len (Iterate txn (makeCollectionPrefix c)))))
    as [(e & -> & He)|(t & Ht & _ & ->)]; [right; exists e; split; [done|by auto]|]. left. split; [|done].
  destruct (collection_entries M ds c H Hc) as (l & [Hp _] & HF).
  rewrite <- Ht, <- iterate_items in HF. apply Forall2_length in HF. rewrite length_map in HF.
  unfold with_reply. cbn [snd]. rewrite bind_ok. do 2 f_equal. unfold len. rewrite HF, Hp. by rewrite length_map_to_list.
Qed.

(** Saving the metadata of the indexes touches no document. *)
Lemma metadata_kept M ds db idx order :
  kept M ds -> contents db = contents (storage ds) ->
  exists ds' r, saveIndexMetadata order (mkDocStore db idx) = (ds', r) /\ kept M ds' /\
    (r = Ok tt \/ exists e, r = Err e /\ fault e).
Proof.
  intros [H1 H2] Hdb. unfold saveIndexMetadata, SetJSON. cbn [storage indexes].
  assert (exists data, Marshal (VObject (VStrings <$> index_metadata order idx)) = Ok data) as [data ->].
  { unfold Marshal. destruct (encodable _) eqn:E; [by eexists|]. exfalso. apply not_true_iff_false in E.
    apply E. apply (map_fold_andb (fun _ => encodable)).
    intros k v Hv. rewrite lookup_fmap in Hv. by apply fmap_Some in Hv as (l & _ & ->). }
  destruct (Set_outcome db metadataKey data) as (db' & r & -> & Hr); [done|].
  eexists _, _. split; [reflexivity|]. split.
  - split; [|done]. intros c id Hc. specialize (H1 c id Hc). cbn [storage with_db fst].
    destruct Hr as [[_ ->]|(e & _ & _ & ->)]; rewrite Hdb; [|done].
    unfold stored in *. rewrite lookup_insert_ne; [done|]. intros E. by apply (makeKey_metadata c id).
  - destruct Hr as [[-> _]|(e & -> & Hf & _)]; [by left|right; by exists e].
Qed.

Lemma index_docs_total f c kvs l idx :
  Forall2 (entry_of c) kvs l -> (forall id d v, (id, d) ∈ l -> d !! f = Some v -> key_of v <> Panic) ->
  exists idx', scan_entries kvs idx (index_doc f) = (idx', Ok tt).
Proof.
  intros HF. revert idx. induction HF as [|[k data] [id d] kvs l [_ Hu] _ IH]; intros idx Hl; [by exists idx|].
  cbn [scan_entries]. cbn in Hu. unfold index_doc at 1. rewrite Hu.
  assert (IH' : forall idx, exists idx', scan_entries kvs idx (index_doc f) = (idx', Ok tt)).
  { intros i. apply IH. intros id' d' v Hin. apply (Hl id'). by right. }
  destruct (as_string _) as [id'|]; [|apply IH']. destruct (d !! f) as [v|] eqn:E; [|apply IH'].
  destruct (index_add_total idx v id') as [idx' ->]; [|apply IH']. by apply (Hl id d v); [left|].
Qed.

Lemma CreateIndex_refined M ds c f order :
  kept M ds -> c <> [] -> f <> [] -> op_given M ds (DCreateIndex c f) ->
  doc_refined M (DCreateIndex c f) (doc_exec order ds (DCreateIndex c f)).
Proof.
  intros H Hc0 Hf0 [Hc Hh]. unfold doc_refined. cbn [doc_exec doc_spec]. rewrite decide_False by tauto.
  unfold CreateIndex. rewrite !decide_False by done.
  destruct (collection_entries M ds c H Hc) as (l & [Hp _] & HF). set (idx0 := default ∅ _).
  destruct (Scan_entries (storage ds) (makeCollectionPrefix c) idx0 (index_doc f)) as [(e & He & Hfe)|Es].
  - destruct (Scan _ _ _ _) as [idx r]. cbn in He. subst r. right. exists e.
    split_and!; [done|by auto|]. by apply (kept_same M ds).
  - rewrite Es. destruct (index_docs_total f c _ l idx0 HF) as [idx ->].
    { intros id d v Hin. rewrite Hp in Hin. apply (Hh id d v). by apply elem_of_map_to_list. }
    destruct (metadata_kept M ds (storage ds) (<[c := <[f := idx]> (default ∅ (indexes ds !! c))]> (indexes ds)) order H eq_refl)
      as (ds' & r & -> & Hk & [-> |(e & -> & Hfe)]); [by left|right; exists e; split; [done|by auto]].
Qed.

Lemma DropIndex_refined M ds c f order :
  kept M ds -> doc_refined M (DDropIndex c f) (doc_exec order ds (DDropIndex c f)).
Proof.
  intros H. unfold doc_refined. cbn [doc_exec doc_spec]. unfold DropIndex.
  assert (Hm : forall idx, exists ds' r, saveIndexMetadata order (mkDocStore (storage ds) idx) = (ds', r) /\
    kept M ds' /\ (r = Ok tt \/ exists e, r = Err e /\ fault e)) by (intros; by apply (metadata_kept M ds)).
  assert (exists idx, match indexes ds !! c with
    | Some coll => mkDocStore (storage ds) (<[c := delete f coll]> (indexes ds)) | None => ds end
    = mkDocStore (storage ds) idx) as [idx ->].
  { destruct (indexes ds !! c); [by eexists|]. exists (indexes ds). by destruct ds. }
  destruct (Hm idx) as (ds' & r & -> & Hk & [-> |(e & -> & Hfe)]); [by left|right; exists e; split; [done|by auto]].
Qed.

Lemma doc_exec_refined M ds order op :
  kept M ds -> op_given M ds op -> doc_refined M op (doc_exec order ds op).
Proof.
  intros H Hop. destruct op as [now uid c doc|c id|now c id opts|c id|c|c f|c f].
  - destruct (decide (c = [])) as [->|Hc0]; [by left|]. by apply Insert_refined.
  - unfold doc_refined. cbn [doc_exec doc_spec].
    destruct (decide (c = [] \/ id = [])) as [Hb|[Hc0 Hi0]%Decidable.not_or].
    + left. unfold Get. destruct (decide (c = [])); [done|]. destruct (decide (id = [])); [done|].
      by destruct Hb.
    + destruct (Get_outcome M ds c id H Hop Hc0 Hi0) as [-> |(e & -> & Hf)];
        [by left; destruct (M c !! id)|right; exists e; split; [done|by auto]].
  - destruct (decide (c = [] \/ id = [])) as [Hb|[Hc0 Hi0]%Decidable.not_or]; [|by apply Update_refined].
    left. cbn [doc_exec doc_spec]. rewrite decide_True by done. unfold Update.
    destruct (decide (c = [])); [done|]. destruct (decide (id = [])); [done|]. by destruct Hb.
  - destruct (decide (c = [] \/ id = [])) as [Hb|[Hc0 Hi0]%Decidable.not_or]; [|by apply Delete_refined].
    left. cbn [doc_exec doc_spec]. rewrite decide_True by done. unfold Delete.
    destruct (decide (c = [])); [done|]. destruct (decide (id = [])); [done|]. by destruct Hb.
  - destruct (decide (c = [])) as [->|Hc0]; [by left|]. by apply Count_refined.
  - destruct (decide (c = [] \/ f = [])) as [Hb|[Hc0 Hf0]%Decidable.not_or]; [|by apply CreateIndex_refined].
    left. cbn [doc_exec doc_spec]. rewrite decide_True by done. unfold CreateIndex.
    destruct (decide (c = [])); [done|]. destruct (decide (f = [])); [done|]. by destruct Hb.
  - by apply DropIndex_refined.
Qed.
End Outcomes.

(** ** The operations on an engine that refuses nothing *)

Section Refine.
Context {bdg : Badger} {laws : BadgerLaws} {rel : BadgerReliable}.
Implicit Types (M : documents) (ds : DocStore).

Lemma Set_ok db key data :
  key <> [] -> exists db', DocStorage.Set_ db key data = (db', Ok tt) /\
    contents db' = <[key := data]> (contents db).
Proof.
  intros Hk. pose proof (served_reliable _ _ _ _ (doc_Set_served db key data (fun _ => False) Hk)) as H.
  destruct (DocStorage.Set_ db key data) as [db' [[]|e|]]; cbn in H; [by exists db'|by destruct H|done].
Qed.

Lemma Delete_ok db key :
  key <> [] -> exists db', DocStorage.Delete db key = (db', Ok tt) /\
    contents db' = delete key (contents db).
Proof.
  intros Hk. pose proof (served_reliable _ _ _ _ (doc_Delete_served db key (fun _ => False) Hk)) as H.
  destruct (DocStorage.Delete db key) as [db' [[]|e|]]; cbn in H; [by exists db'|by destruct H|done].
Qed.

Lemma Get_holds M ds c id :
  kept M ds -> name_ok c -> c <> [] -> id <> [] ->
  Get ds c id = match M c !! id with Some d => Ok d | None => Err ErrDocumentNotFound end.
Proof.
  intros H Hc Hc0 Hi0. unfold Get. rewrite !decide_False by done.
  pose proof (doc_Get_wp (storage ds) (makeKey c id) (makeKey_nonempty c id)) as HG.
  pose proof (kp_docs _ _ H c id Hc) as Hst. unfold stored in Hst.
  destruct (DocStorage.Get (storage ds) (makeKey c id)) as [data|e|]; cbn [on_err]; [| |done].
  - destruct (M c !! id) as [d|]; [|congruence]. destruct Hst as (data' & Hd & Hu). congruence.
  - destruct HG as [Hf|[-> Hn]]; [by destruct (no_fault e)|].
    destruct (M c !! id) as [d|]; [|done]. destruct Hst as (data' & Hd & Hu). congruence.
Qed.

Lemma indexable_norm ds c d coll f :
  indexable ds c d -> indexes ds !! c = Some coll -> f ∈ dom coll ->
  match d !! f with
  | None => norm_doc d !! f = None
  | Some v => norm_doc d !! f = Some v /\ exists k, key_of v = Ok (Some k)
  end.
Proof.
  intros Hi Hc Hf. unfold norm_doc. rewrite lookup_fmap. destruct (d !! f) as [v|] eqn:E; [|done].
  destruct (Hi coll f v Hc Hf E) as [Hn Hk]. cbn. by rewrite Hn.
Qed.

(** Adding a document to the indexes of its collection. *)
Lemma updateIndexes_ok ds c id d D indexes' :
  indexable ds c d -> agrees D (indexes' !! c) -> dom <$> indexes' !! c = dom <$> indexes ds !! c ->
  D !! id = None ->
  exists idx, updateIndexes indexes' c id d = Ok idx /\
    agrees (<[id := norm_doc d]> D) (idx !! c) /\ (forall c', c' <> c -> idx !! c' = indexes' !! c').
Proof.
  intros Hi HD Hdom Hid.
  destruct (on_collection_ok indexes' c d (fun idx v => index_add idx v id) D (<[id := norm_doc d]> D))
    as (idx & E & H & Ho & _); [done| |by exists idx].
  intros coll f idx Hc Hf Hio. rewrite Hc in Hdom.
  destruct (indexes ds !! c) as [coll0|] eqn:Hc0; [|done]. cbn in Hdom. injection Hdom as Hdom.
  pose proof (indexable_norm ds c d coll0 f Hi Hc0) as Hn. rewrite <- Hdom in Hn.
  specialize (Hn (elem_of_dom_2 _ _ _ Hf)). destruct (d !! f) as [v|].
  - destruct Hn as [Hn [k Hk]]. by apply (index_add_of D f idx id (norm_doc d) v k).
  - by apply index_of_without.
Qed.

Lemma removeIndexes_ok M ds c id d :
  holds M ds -> name_ok c -> M c !! id = Some d ->
  exists idx, removeIndexes (indexes ds) c id d = Ok idx /\
    agrees (delete id (M c)) (idx !! c) /\ (forall c', c' <> c -> idx !! c' = indexes ds !! c') /\
    dom <$> idx !! c = dom <$> indexes ds !! c.
Proof.
  intros H Hc Hd. apply (on_collection_ok _ _ _ _ (M c)); [by apply (hd_index _ _ H)|].
  intros coll f idx _ Hf Hio. destruct (d !! f) as [v|] eqn:E.
  - by apply (index_remove_of (M c) f idx id d v).
  - by apply (index_of_delete_without (M c) f idx id d).
Qed.

(** ** Each operation *)

Lemma Insert_holds M ds now uid c doc :
  holds M ds -> c <> [] -> op_ok M ds (DInsert now uid c doc) ->
  let id := insert_id uid (default ∅ doc) in
  exists ds' caller, Insert now uid ds c doc = (ds', caller, Ok id) /\
    holds (put M c id (norm_doc (stamped now id (default ∅ doc)))) ds'.
Proof.
  intros H Hc0 (Hc & Hu & Hn & Hd & Hi). unfold Insert. rewrite decide_False by done.
  cbv zeta in Hi |- *. set (id := insert_id uid (default ∅ doc)) in *. set (d := stamped now id (default ∅ doc)) in *.
  assert (Hok : doc_ok d) by (apply doc_ok_stamped; [done|by apply insert_id_utf8|done]).
  destruct (unmarshal_marshal_doc d Hok) as (data & -> & Hun).
  destruct (Set_ok (storage ds) (makeKey c id) data (makeKey_nonempty c id)) as (db' & -> & Hdb).
  cbn [with_db fst snd indexes].
  assert (Hx : exists idx, updateIndexes (indexes ds) c id d = Ok idx /\
    agrees (<[id := norm_doc d]> (M c)) (idx !! c) /\ (forall c', c' <> c -> idx !! c' = indexes ds !! c')).
  { destruct Hi as [Hi|[Hf Hi]].
    - exists (indexes ds). unfold updateIndexes, on_collection. rewrite Hi. by split_and!.
    - apply (updateIndexes_ok ds); [done|by apply (hd_index _ _ H)|done|done]. }
  destruct Hx as (idx & -> & Hidx & Ho). eexists _, _. split; [done|].
  by apply (holds_put M ds db' idx c id _ data); [..|apply doc_ok_norm|apply normal_norm| | | |].
Qed.

Lemma Update_holds M ds now c id opts d :
  holds M ds -> c <> [] -> id <> [] -> op_ok M ds (DUpdate now c id opts) -> M c !! id = Some d ->
  exists d' ds' caller, apply_update now id opts d = Ok d' /\
    Update now ds c id opts = (ds', caller, Ok tt) /\ holds (put M c id (norm_doc d')) ds'.
Proof.
  intros H Hc0 Hi0 (Hc & Hu & Hn & Hs & Hm & Hi) Hd. destruct (hd_normal _ _ H c id d Hc Hd) as [Hok _].
  destruct (apply_update_ok now id opts d) as (d' & E & Hok'); [done..|]. specialize (Hi d d' Hd E).
  unfold Update. rewrite !decide_False by done. rewrite (Get_holds M) by (done || by apply holds_kept). rewrite Hd, E.
  destruct (unmarshal_marshal_doc d' Hok') as (data & -> & Hun).
  destruct (Set_ok (storage ds) (makeKey c id) data (makeKey_nonempty c id)) as (db' & -> & Hdb).
  cbn [with_db fst snd indexes].
  destruct (removeIndexes_ok M ds c id d H Hc Hd) as (idx1 & -> & H1 & Ho1 & Hdom).
  cbn [mbind result_bind].
  destruct (updateIndexes_ok ds c id d' (delete id (M c)) idx1) as (idx & -> & H2 & Ho2);
    [done|done|done|apply lookup_delete_eq|].
  rewrite insert_delete_eq in H2. eexists _, _, _. split; [done|]. split; [done|].
  apply (holds_put M ds db' idx c id _ data); try done; [by apply doc_ok_norm|apply normal_norm|].
  intros c' Hc'. by rewrite Ho2, Ho1.
Qed.

Lemma Delete_holds M ds c id d :
  holds M ds -> name_ok c -> c <> [] -> id <> [] -> M c !! id = Some d ->
  exists ds', Delete ds c id = (ds', Ok tt) /\ holds (remove M c id) ds'.
Proof.
  intros H Hc Hc0 Hi0 Hd. unfold Delete. rewrite !decide_False by done.
  rewrite (Get_holds M) by (done || by apply holds_kept). rewrite Hd.
  destruct (Delete_ok (storage ds) (makeKey c id) (makeKey_nonempty c id)) as (db' & -> & Hdb).
  cbn [with_db fst snd indexes].
  destruct (removeIndexes_ok M ds c id d H Hc Hd) as (idx & -> & Hi & Ho & _).
  eexists. split; [done|]. by apply (holds_remove M ds db' idx).
Qed.

Lemma Count_holds M ds c :
  holds M ds -> name_ok c -> c <> [] -> Count ds c = Ok (Z.of_nat (base.size (M c))).
Proof.
  intros H Hc Hc0. unfold Count. rewrite decide_False by done. unfold DocStorage.Count.
  destruct (View_law _ (storage ds) (fun txn => Ok (len (Iterate txn (makeCollectionPrefix c)))))
    as [(e & _ & He)|(t & Ht & _ & ->)]; [by destruct (no_fault e)|]. f_equal.
  destruct (collection_entries M ds c (holds_kept _ _ H) Hc) as (l & [Hp _] & HF).
  rewrite <- Ht, <- iterate_items in HF. apply Forall2_length in HF. rewrite length_map in HF.
  unfold len. rewrite HF, Hp. by rewrite length_map_to_list.
Qed.

(** Saving the metadata of the indexes touches no document. *)
Lemma holds_metadata M ds idx order :
  holds M ds -> (forall c, name_ok c -> agrees (M c) (idx !! c)) ->
  exists ds', saveIndexMetadata order (mkDocStore (storage ds) idx) = (ds', Ok tt) /\ holds M ds'.
Proof.
  intros [H1 H2 H3] Hidx. unfold saveIndexMetadata, SetJSON. cbn [storage indexes].
  assert (exists data, Marshal (VObject (VStrings <$> index_metadata order idx)) = Ok data) as [data ->].
  { unfold Marshal. destruct (encodable _) eqn:E; [by eexists|]. exfalso. apply not_true_iff_false in E.
    apply E. apply (map_fold_andb (fun _ => encodable)).
    intros k v Hv. rewrite lookup_fmap in Hv. by apply fmap_Some in Hv as (l & _ & ->). }
  destruct (Set_ok (storage ds) metadataKey data) as (db' & -> & Hdb); [done|].
  eexists. split; [done|]. split; cbn [storage indexes with_db fst snd]; [|done|done].
  intros c id Hc. specialize (H1 c id Hc). rewrite Hdb. unfold stored in *.
  rewrite lookup_insert_ne; [done|]. intros E. by apply (makeKey_metadata c id).
Qed.

(** Filling an index from the entries of a collection. *)
Lemma index_docs f c kvs l D idx :
  Forall2 (entry_of c) kvs l -> NoDup l.*1 -> index_of D f idx ->
  (forall id d, (id, d) ∈ l -> D !! id = None /\ d !! str "_id" = Some (VString id) /\
     forall v, d !! f = Some v -> exists k, key_of v = Ok (Some k)) ->
  exists idx', scan_entries kvs idx (index_doc f) = (idx', Ok tt) /\ index_of (list_to_map l ∪ D) f idx'.
Proof.
  intros HF. revert D idx. induction HF as [|[k data] [id d] kvs l [Hk Hu] HF IH]; intros D idx Hnd Hio Hl.
  { exists idx. split; [done|]. cbn. by rewrite (left_id_L ∅ (∪)). }
  cbn [fmap list_fmap] in Hnd. apply NoDup_cons in Hnd as [Hid Hnd].
  destruct (Hl id d ltac:(left)) as (HD & He & Hh). cbn in Hk, Hu.
  assert (Hstep : exists idx', index_doc f idx k data = (idx', Ok tt) /\ index_of (<[id := d]> D) f idx').
  { unfold index_doc. rewrite Hu, He. cbn [as_string]. destruct (d !! f) as [v|] eqn:E.
    - destruct (Hh v eq_refl) as [key Hkey].
      destruct (index_add_of D f idx id d v key) as (idx' & -> & Hio'); [done..|]. by exists idx'.
    - exists idx. split; [done|]. by apply index_of_without. }
  destruct Hstep as (idx' & E & Hio'). cbn [scan_entries]. rewrite E.
  destruct (IH (<[id := d]> D) idx') as (idx'' & E' & Hio''); [done|done| |].
  - intros id' d' Hin. destruct (Hl id' d' ltac:(by right)) as (? & ? & ?).
    split_and!; [|done|done]. rewrite lookup_insert_ne; [done|]. intros <-. apply Hid.
    by apply (list_elem_of_fmap_2 fst) in Hin.
  - exists idx''. split; [done|]. cbn. rewrite <- insert_union_r in Hio''
      by (by apply not_elem_of_list_to_map_1). by rewrite <- insert_union_l.
Qed.

Lemma index_of_empty f : index_of ∅ f ∅.
Proof.
  split; [done| |intros k; rewrite lookup_empty; constructor].
  intros k id. rewrite lookup_empty. split; [by intros ?%elem_of_nil|by intros (? & ? & ? & _)].
Qed.

Lemma CreateIndex_holds M ds c f order :
  holds M ds -> c <> [] -> f <> [] -> op_ok M ds (DCreateIndex c f) ->
  exists ds', CreateIndex order ds c f = (ds', Ok tt) /\ holds M ds'.
Proof.
  intros H Hc0 Hf0 (Hc & Hnew & Hdocs). unfold CreateIndex. rewrite !decide_False by done.
  assert (Hidx : default ∅ (default ∅ (indexes ds !! c) !! f) = (∅ : kindex)).
  { destruct (indexes ds !! c) as [coll|]; cbn; [by rewrite (Hnew coll)|by rewrite lookup_empty]. }
  rewrite Hidx. destruct (collection_entries M ds c (holds_kept _ _ H) Hc) as (l & [Hp Hs] & HF).
  destruct (Scan_entries (storage ds) (makeCollectionPrefix c) (∅ : kindex) (index_doc f))
    as [(e & _ & He)|Es]; [by destruct (no_fault e)|]. rewrite Es.
  destruct (index_docs f c _ l ∅ ∅ HF) as (idx & -> & Hio).
  { by apply sorted_NoDup. }
  { apply index_of_empty. }
  { intros id d Hin. split; [apply lookup_empty|]. apply Hdocs. rewrite Hp in Hin.
    by apply elem_of_map_to_list. }
  rewrite (right_id_L ∅ (∪)), (list_to_map_proper l _ (sorted_NoDup _ Hs) Hp), list_to_map_to_list in Hio.
  apply (holds_metadata M ds); [done|]. intros c' Hc'. destruct (decide (c' = c)) as [->|Hne].
  - rewrite lookup_insert_eq. intros ? f' idx' [= <-] [[<- <-]|[Hne Hf']]%lookup_insert_Some; [done|].
    destruct (indexes ds !! c) as [coll|] eqn:E; [|by destruct (lookup_empty_Some f' idx')].
    by apply (hd_index _ _ H c Hc coll).
  - rewrite lookup_insert_ne by done. by apply (hd_index _ _ H).
Qed.

Lemma DropIndex_holds M ds c f order :
  holds M ds -> exists ds', DropIndex order ds c f = (ds', Ok tt) /\ holds M ds'.
Proof.
  intros H. unfold DropIndex. destruct (indexes ds !! c) as [coll|] eqn:E.
  - apply (holds_metadata M ds); [done|]. intros c' Hc'. destruct (decide (c' = c)) as [->|Hne].
    + rewrite lookup_insert_eq. intros ? f' idx [= <-] [_ Hf']%lookup_delete_Some.
      by apply (hd_index _ _ H c Hc' coll).
    + rewrite lookup_insert_ne by done. by apply (hd_index _ _ H).
  - destruct ds as [db idx]. apply (holds_metadata M (mkDocStore db idx)); [done|]. apply (hd_index _ _ H).
Qed.
End Refine.

(** ** Property *)

Section Property.
Context {bdg : Badger} {laws : BadgerLaws} {rel : BadgerReliable}.

(** With what the indexes need, they keep agreeing. *)
Lemma documents_hold M ds order op :
  holds M ds -> op_ok M ds op ->
  (doc_exec order ds op).2 = (doc_spec M op).2 /\ holds (doc_spec M op).1 (doc_exec order ds op).1.
Proof.
  intros H Hop. destruct op as [now uid c doc|c id|now c id opts|c id|c|c f|c f];
    cbn [doc_exec doc_spec].
  - destruct (decide (c = [])) as [->|Hc0]; [done|].
    destruct (Insert_holds M ds now uid c doc H Hc0 Hop) as (ds' & caller & -> & H'). done.
  - destruct (decide (c = [] \/ id = [])) as [Hb|[Hc0 Hi0]%Decidable.not_or].
    + unfold Get. destruct (decide (c = [])); [done|]. destruct (decide (id = [])); [done|].
      by destruct Hb.
    + rewrite (Get_holds M) by (done || by apply holds_kept). by destruct (M c !! id).
  - destruct (decide (c = [] \/ id = [])) as [Hb|[Hc0 Hi0]%Decidable.not_or].
    + unfold Update. destruct (decide (c = [])); [done|]. destruct (decide (id = [])); [done|].
      by destruct Hb.
    + destruct (M c !! id) as [d|] eqn:E.
      * destruct (Update_holds M ds now c id opts d H Hc0 Hi0 Hop E) as (d' & ds' & caller & -> & -> & H').
        done.
      * unfold Update. rewrite !decide_False by done. rewrite (Get_holds M) by (done || apply Hop || by apply holds_kept).
        by rewrite E.
  - destruct (decide (c = [] \/ id = [])) as [Hb|[Hc0 Hi0]%Decidable.not_or].
    + unfold Delete. destruct (decide (c = [])); [done|]. destruct (decide (id = [])); [done|].
      by destruct Hb.
    + destruct (M c !! id) as [d|] eqn:E.
      * by destruct (Delete_holds M ds c id d H Hop Hc0 Hi0 E) as (ds' & -> & H').
      * unfold Delete. rewrite !decide_False by done. rewrite (Get_holds M) by (done || by apply holds_kept). by rewrite E.
  - destruct (decide (c = [])) as [->|Hc0]; [done|]. by rewrite (Count_holds M).
  - destruct (decide (c = [] \/ f = [])) as [Hb|[Hc0 Hf0]%Decidable.not_or].
    + unfold CreateIndex. destruct (decide (c = [])); [done|]. destruct (decide (f = [])); [done|].
      by destruct Hb.
    + by destruct (CreateIndex_holds M ds c f order H Hc0 Hf0 Hop) as (ds' & -> & H').
  - by destruct (DropIndex_holds M ds c f order H) as (ds' & -> & H').
Qed.
End Property.

Section Refinement.
Context {bdg : Badger} {laws : BadgerLaws}.

(** C10: the operations on documents and indexes act on collections of documents
    as specified: the same answers, errors included, and afterwards the stored
    records are those of the specified documents; or the engine refuses, and every
    document is as it was.  The operations are given names without a colon,
    documents JSON can carry and, in indexed fields, values that are not arrays or
    objects ([op_given]); the ids may be in use.  The indexes, second, keep
    agreeing with the documents (each lists, for each value, exactly the documents
    that have it, once each) where the engine refuses nothing and, in an indexed
    collection, an inserted document has a fresh id, its values are as JSON reads
    them back, and an index is built once ([op_ok]). *)
Theorem documents_refined M ds order op :
  (kept M ds -> op_given M ds op -> doc_refined M op (doc_exec order ds op)) /\
  ((forall e, ~ fault e) -> holds M ds -> op_ok M ds op ->
     (doc_exec order ds op).2 = (doc_spec M op).2 /\ holds (doc_spec M op).1 (doc_exec order ds op).1).
Proof.
  split; [apply doc_exec_refined|]. intros Hrel. by apply (documents_hold (rel := Hrel)).
Qed.
End Refinement.

(** ** A witness *)

Definition empty_docs : DocStore (bdg := mem_badger) := mkDocStore mem_empty ∅.

Lemma holds_empty_docs : holds (fun _ => ∅) empty_docs.
Proof. split; [done|done|]. by intros c _ coll f idx. Qed.
