(* ===== verification/DocFind.v ===== *)
(** The bubble sort of the document store: it sorts, loses nothing and keeps
    the order of documents that compare equal.  What [Find] answers: by a scan,
    and by an index.  The query, update and delete builders of
    internal/db/query.go: a method changes the builder it is called on and
    returns it. *)
From stdpp Require Import base list numbers gmap sorting strings.
From Stdlib Require Import ZArith Lia.
From S2P Require Import Prelude Fmt Badger GoFloat GoValue Json JsonTrip DocStorage DocHelpers DocStore DocSpec DocRefine.

(** ** Bubbling by a key *)

Section Bubble.
Context {A : Type} (k : A -> Z).
Implicit Types l : list A.

(** One pass over the first [n + 1] elements. *)
Fixpoint pass (n : nat) l : list A :=
  match n, l with
  | S n, x :: y :: l => if k y <? k x then y :: pass n (x :: l) else x :: pass n (y :: l)
  | _, _ => l
  end.

Definition bubble_step l (j : Z) : result (list A) :=
  x ← index l j;
  y ← index l (j + 1);
  if k y <? k x then Ok (<[Z.to_nat j := y]> (<[Z.to_nat (j + 1) := x]> l)) else Ok l.

(** The passes with shrinking bounds. *)
Fixpoint passes (n : nat) l : list A :=
  match n with O => l | S n => passes n (pass n l) end.

Lemma bubble_step_app pre x y l :
  bubble_step (pre ++ x :: y :: l) (len pre)
  = Ok (pre ++ (if k y <? k x then y :: x :: l else x :: y :: l)).
Proof.
  unfold bubble_step, index. rewrite !(proj2 (Z.leb_le 0 _)) by (pose proof (len_nonneg pre); lia).
  rewrite !to_nat_len. replace (Z.to_nat (len pre + 1)) with (length pre + 1)%nat by (unfold len; lia).
  rewrite !lookup_app_r by lia. replace (length pre + 1 - length pre)%nat with 1%nat by lia.
  rewrite Nat.sub_diag.
  cbn. destruct (k y <? k x); [|done]. f_equal.
  rewrite insert_app_r_alt by lia. replace (length pre + 1 - length pre)%nat with 1%nat by lia.
  rewrite insert_app_r_alt by lia. by rewrite Nat.sub_diag.
Qed.

(** The inner loop is a pass. *)
Lemma pass_loop n pre l :
  (n < length l)%nat ->
  for_n n (len pre) (pre ++ l) bubble_step = Ok (pre ++ pass n l).
Proof.
  revert pre l. induction n as [|n IH]; intros pre l Hn; [by destruct l as [|? [|? ?]]|].
  destruct l as [|x [|y l]]; [cbn in Hn; lia..|]. cbn [length] in Hn.
  cbn [for_n pass]. rewrite bubble_step_app. cbn [mbind result_bind].
  destruct (k y <? k x).
  - specialize (IH (pre ++ [y]) (x :: l)). rewrite len_app, <- !app_assoc in IH. apply IH. cbn; lia.
  - specialize (IH (pre ++ [x]) (y :: l)). rewrite len_app, <- !app_assoc in IH. apply IH. cbn; lia.
Qed.

Lemma pass_perm n l : pass n l ≡ₚ l.
Proof.
  revert l. induction n as [|n IH]; intros [|x [|y l]]; cbn; try done.
  destruct (k y <? k x); rewrite IH; [constructor|done].
Qed.

(** Elements with one key keep their order. *)
Lemma pass_stable n l c : filter (fun z => k z = c) (pass n l) = filter (fun z => k z = c) l.
Proof.
  revert l. induction n as [|n IH]; intros [|x [|y l]]; cbn [pass]; try done.
  destruct (Z.ltb_spec (k y) (k x)) as [Hlt|_]; rewrite !filter_cons, IH, filter_cons.
  - by repeat case_decide; try lia.
  - done.
Qed.

(** A pass over a whole list carries a greatest element to its end. *)
Lemma pass_last l x b :
  exists l' m, pass (length l) (x :: l ++ b) = l' ++ m :: b /\ length l' = length l /\
    x :: l ≡ₚ l' ++ [m] /\ Forall (fun z => k z <= k m) l'.
Proof.
  revert x. induction l as [|y l IH]; intros x.
  { exists [], x. destruct b; cbn; split_and!; by try constructor. }
  cbn [length app pass]. destruct (Z.ltb_spec (k y) (k x)) as [Hlt|Hle].
  - destruct (IH x) as (l' & m & E & Hl & Hp & Hm). exists (y :: l'), m.
    rewrite E. cbn. split_and!; [done|lia| |].
    + rewrite Permutation_swap. by constructor.
    + constructor; [|done]. assert (x ∈ l' ++ [m]) as Hx by (rewrite <- Hp; left).
      apply elem_of_app in Hx as [Hx | ->%list_elem_of_singleton]; [|lia].
      rewrite Forall_forall in Hm. specialize (Hm x Hx). cbn in Hm. lia.
  - destruct (IH y) as (l' & m & E & Hl & Hp & Hm). exists (x :: l'), m.
    rewrite E. cbn. split_and!; [done|lia|by constructor|].
    constructor; [|done]. assert (y ∈ l' ++ [m]) as Hy by (rewrite <- Hp; left).
    apply elem_of_app in Hy as [Hy | ->%list_elem_of_singleton]; [|lia].
    rewrite Forall_forall in Hm. specialize (Hm y Hy). cbn in Hm. lia.
Qed.

Definition key_le (x y : A) : Prop := k x <= k y.

Lemma passes_sorted n a b :
  length a = n -> StronglySorted key_le b -> (forall x y, x ∈ a -> y ∈ b -> k x <= k y) ->
  StronglySorted key_le (passes n (a ++ b)).
Proof.
  revert a b. induction n as [|n IH]; intros a b Ha Hb Hab; cbn [passes].
  { by apply nil_length_inv in Ha as ->. }
  destruct a as [|x l]; [done|]. cbn in Ha. injection Ha as <-.
  destruct (pass_last l x b) as (l' & m & E & Hl & Hp & Hm). cbn [app]. rewrite E.
  apply IH; [done| |].
  - constructor; [done|]. apply Forall_forall. intros y Hy. apply Hab; [|done].
    rewrite Hp. apply elem_of_app. right. by left.
  - intros z y Hz Hy. rewrite Forall_forall in Hm. apply elem_of_cons in Hy as [-> |Hy]; [by apply Hm|].
    apply Hab; [|done]. rewrite Hp. apply elem_of_app. by left.
Qed.

Lemma passes_perm n l : passes n l ≡ₚ l.
Proof. revert l. induction n as [|n IH]; intros l; cbn; [done|]. by rewrite IH, pass_perm. Qed.

Lemma passes_stable n l c : filter (fun z => k z = c) (passes n l) = filter (fun z => k z = c) l.
Proof. revert l. induction n as [|n IH]; intros l; cbn; [done|]. by rewrite IH, pass_stable. Qed.

(** The nested loops are the passes. *)
Lemma passes_loop n i l :
  len l = i + Z.of_nat n -> 0 <= i ->
  for_n n i l (fun r i => for_n (Z.to_nat (len l - i - 1)) 0 r bubble_step) = Ok (passes n l).
Proof.
  intros Hl Hi. assert (Hlen : len l = len l) by done. revert Hl Hlen. generalize (len l) at 1 2 4 as N.
  revert i l Hi. induction n as [|n IH]; intros i l Hi N Hl HN; cbn [for_n passes]; [done|].
  replace (Z.to_nat (N - i - 1)) with n by lia.
  pose proof (pass_loop n [] l) as E. rewrite len_nil in E. cbn [app] in E.
  rewrite E by (unfold len in HN; lia). cbn [mbind result_bind]. apply IH; [lia|lia|].
  rewrite HN. unfold len. by rewrite (Permutation_length (pass_perm n l)).
Qed.
End Bubble.

(** ** The sort of documents *)

Section Documents.
Variable opt : SortOption.

(** The number a document is ordered by. *)
Definition sort_key (doc : Document) : Z :=
  let r := rank (toFloat64 (field_of doc (SortField opt))) in
  if decide (Direction opt = SortDesc) then - r else r.

(** The field does not hold a NaN, which no comparison orders. *)
Definition comparable (doc : Document) : Prop := toFloat64 (field_of doc (SortField opt)) <> NaN.

Lemma float_lt_rank x y : x <> NaN -> y <> NaN -> float_lt x y = (rank x <? rank y).
Proof. by destruct x, y. Qed.

Lemma shouldSwap_key x y :
  comparable x -> comparable y -> shouldSwap opt x y = (sort_key y <? sort_key x).
Proof.
  intros Hx Hy. unfold shouldSwap, sort_key, lessThan, greaterThan.
  destruct (decide _); rewrite float_lt_rank by done; [|done].
  apply eq_true_iff_eq. rewrite !Z.ltb_lt. lia.
Qed.

Lemma index_elem {A} (l : list A) i x : index l i = Ok x -> x ∈ l.
Proof.
  unfold index. destruct (0 <=? i); [|done]. destruct (l !! _) eqn:E; [|done].
  intros [= <-]. by apply list_elem_of_lookup_2 in E.
Qed.

Lemma compare_swap_key l j :
  Forall comparable l -> compare_swap opt l j = bubble_step sort_key l j.
Proof.
  intros Hl. rewrite Forall_forall in Hl. unfold compare_swap, bubble_step.
  destruct (index l j) as [x|e|] eqn:Ex; [|done..].
  destruct (index l (j + 1)) as [y|e|] eqn:Ey; [|done..]. cbn [mbind result_bind].
  by rewrite shouldSwap_key by (eapply Hl, index_elem; done).
Qed.

Lemma bubble_step_comparable l l' j :
  Forall comparable l -> bubble_step sort_key l j = Ok l' -> Forall comparable l'.
Proof.
  intros Hl. unfold bubble_step. destruct (index l j) as [x|e|] eqn:Ex; [|done..].
  destruct (index l (j + 1)) as [y|e|] eqn:Ey; [|done..]. cbn [mbind result_bind].
  apply index_elem in Ex, Ey. pose proof Hl as Hl'. rewrite Forall_forall in Hl'.
  destruct (_ <? _); intros [= <-]; [|done]. by apply Forall_insert; [apply Forall_insert|]; auto.
Qed.

(** Two loops whose bodies agree where an invariant holds. *)
Lemma for_n_agree {S} (I : S -> Prop) n i (s : S) f g :
  (forall s j, I s -> f s j = g s j) ->
  (forall s j s', I s -> g s j = Ok s' -> I s') -> I s ->
  for_n n i s f = for_n n i s g /\ forall s', for_n n i s g = Ok s' -> I s'.
Proof.
  intros Hfg HI. revert i s. induction n as [|n IH]; intros i s Hs; cbn [for_n].
  { split; [done|]. by intros s' [= <-]. }
  rewrite Hfg by done. destruct (g s i) as [s'|e|] eqn:E; [|done..].
  cbn [mbind result_bind]. apply IH. by apply (HI s i).
Qed.

Lemma sortResults_passes results :
  Forall comparable results ->
  sortResults results opt = Ok (passes sort_key (length results) results).
Proof.
  intros Hr. unfold sortResults. rewrite to_nat_len.
  rewrite <- (passes_loop sort_key (length results) 0 results) by (unfold len; lia).
  apply (for_n_agree (Forall comparable)); [| |done].
  - intros s j Hs. apply (for_n_agree (Forall comparable)); [by intros; apply compare_swap_key| |done].
    intros ? ? ?. apply bubble_step_comparable.
  - intros s j s' Hs. eapply (for_n_agree (Forall comparable)); [done| |done].
    intros ? ? ?. apply bubble_step_comparable.
Qed.
Lemma passes_sorts results :
  Forall comparable results ->
  let sorted := passes sort_key (length results) results in
  sorted ≡ₚ results /\ StronglySorted (fun x y => shouldSwap opt x y = false) sorted /\
  forall c, filter (fun d => sort_key d = c) sorted = filter (fun d => sort_key d = c) results.
Proof.
  intros Hr sorted. split; [apply passes_perm|]. split; [|intros c; apply passes_stable].
  assert (Hs : StronglySorted (key_le sort_key) sorted).
  { unfold sorted. rewrite <- (app_nil_r results) at 2. apply passes_sorted; [done|constructor|].
    intros ? ? _ []%elem_of_nil. }
  assert (Hc : Forall comparable sorted) by by unfold sorted; rewrite passes_perm.
  clearbody sorted. revert Hc. induction Hs as [|x l _ IH Hx]; intros Hc; [constructor|].
  apply Forall_cons in Hc as [Hcx Hc]. constructor; [by apply IH|].
  rewrite Forall_forall in Hx, Hc |- *. intros y Hy. rewrite shouldSwap_key by auto.
  apply Z.ltb_ge. by apply (Hx y Hy).
Qed.
End Documents.

(** ** Property *)

(** The bubble sort of a result list, whose sort fields hold no NaN, ends
    with the same documents in the order of the field, ascending or descending,
    documents of equal order in the sequence they had. *)
Theorem sort_is_stable opt results :
  Forall (comparable opt) results ->
  exists sorted, sortResults results opt = Ok sorted /\ sorted ≡ₚ results /\
    StronglySorted (fun x y => shouldSwap opt x y = false) sorted /\
    forall c, filter (fun d => sort_key opt d = c) sorted = filter (fun d => sort_key opt d = c) results.
Proof.
  intros Hr. rewrite sortResults_passes by done. eexists. split; [done|]. by apply passes_sorts.
Qed.

Definition sample_people : list Document :=
  [ {[ str "age" := VInt 41 ]}; {[ str "age" := VFloat64 (float_of_int 30) ]}; {[ str "name" := VString (str "bo") ]} ].
Definition by_age : SortOption := mkSortOption (str "age") SortAsc.

Lemma sort_is_stable_witness :
  exists sorted, sortResults sample_people by_age = Ok sorted /\ sorted ≡ₚ sample_people /\
    StronglySorted (fun x y => shouldSwap by_age x y = false) sorted /\
    forall c, filter (fun d => sort_key by_age d = c) sorted
      = filter (fun d => sort_key by_age d = c) sample_people.
Proof. refine (sort_is_stable by_age sample_people _). by repeat constructor. Defined.

(** ** Pages *)

(** The page of a list: a negative [Skip] skips nothing, a [Limit] that is
    not positive keeps everything. *)
Definition page {A} (opts : FindOptions) (l : list A) : list A :=
  let l := dropZ (Skip opts) l in
  if 0 <? Limit opts then takeZ (Limit opts) l else l.

(** The documents in the order asked for. *)
Definition sorts_to (opt : option SortOption) (found sorted : list Document) : Prop :=
  match opt with
  | None => sorted = found
  | Some opt => sorted ≡ₚ found /\
      StronglySorted (fun x y => shouldSwap opt x y = false) sorted /\
      forall c, filter (fun d => sort_key opt d = c) sorted = filter (fun d => sort_key opt d = c) found
  end.

Lemma nilable_default {A} (l : list A) : default [] (nilable l) = l.
Proof. by destruct l. Qed.

Lemma paginate_page opts found sorted :
  match Sort opts with Some opt => sortResults found opt | None => Ok found end = Ok sorted ->
  exists r, paginate opts found = Ok r /\ default [] r = page opts sorted.
Proof.
  intros E. unfold paginate, page. rewrite E. cbn [mbind result_bind].
  assert (Hs : exists r, (if 0 <? Skip opts then
    if len sorted <=? Skip opts then Ok (Some [])
    else results ← slice_from sorted (Skip opts); Ok (Some results)
    else Ok (nilable sorted)) = Ok r /\ default [] r = dropZ (Skip opts) sorted).
  { destruct (Z.ltb_spec 0 (Skip opts)).
    - destruct (Z.leb_spec (len sorted) (Skip opts)).
      + exists (Some []). split; [done|]. by rewrite dropZ_all.
      + rewrite slice_from_ok by lia. by eexists.
    - eexists. split; [done|]. by rewrite nilable_default, dropZ_0. }
  destruct Hs as (r & -> & <-). cbn [mbind result_bind]. set (l := default [] r).
  destruct (Z.ltb_spec 0 (Limit opts)); cbn [andb]; [|by exists r].
  destruct (Z.ltb_spec (Limit opts) (len l)).
  - rewrite slice_ok by lia. eexists. split; [done|]. cbn. by rewrite Z.sub_0_r, dropZ_0.
  - exists r. split; [done|]. by rewrite takeZ_all.
Qed.

(** JSON carries no NaN. *)
Lemma doc_ok_comparable opt d : doc_ok d -> comparable opt d.
Proof.
  intros [H _]%doc_ok_entries. unfold comparable, field_of.
  destruct (d !! SortField opt) as [v|] eqn:E; [|done]. destruct (H _ _ E) as (_ & Hv & _).
  destruct v as [| | | | |f| | | | |]; try done. cbn [json_ok] in Hv. apply bool_decide_eq_true in Hv.
  cbn. by destruct f.
Qed.

Lemma sorts_exist opt found :
  Forall doc_ok found ->
  exists sorted, match opt with Some opt => sortResults found opt | None => Ok found end = Ok sorted /\
    sorts_to opt found sorted.
Proof.
  intros Hf. destruct opt as [opt|]; [|by exists found].
  assert (Hc : Forall (comparable opt) found).
  { eapply Forall_impl; [exact Hf|]. intros d. apply doc_ok_comparable. }
  exists (passes (sort_key opt) (length found) found). split; [by apply sortResults_passes|].
  by apply passes_sorts.
Qed.

Lemma sorts_perm opt found sorted : sorts_to opt found sorted -> sorted ≡ₚ found.
Proof. destruct opt; cbn; [by intros [? _]|by intros ->]. Qed.

(** ** Scanning *)

Definition matching (filters : list Query) (l : list Document) : list Document :=
  filter (fun d => matchesFilters d filters = true) l.

Lemma matching_cons fs d l :
  matching fs (d :: l) = if matchesFilters d fs then d :: matching fs l else matching fs l.
Proof. unfold matching. rewrite filter_cons. by destruct (matchesFilters d fs). Qed.

Lemma matching_Forall P fs l : Forall P l -> Forall P (matching fs l).
Proof. intros H. apply Forall_forall. intros d [_ Hd]%list_elem_of_filter. rewrite Forall_forall in H. auto. Qed.

Section Find.
Context {bdg : Badger} {laws : BadgerLaws} {rel : BadgerReliable}.
Implicit Types (M : documents) (ds : DocStore).

Lemma scan_docs c opts kvs l acc :
  Forall2 (entry_of c) kvs l ->
  scan_entries kvs acc (scan_doc opts) = (acc ++ matching (Filters opts) (map snd l), Ok tt).
Proof.
  intros HF. revert acc. induction HF as [|[k data] [id d] kvs l [_ Hu] _ IH]; intros acc.
  { cbn. by rewrite app_nil_r. }
  cbn [scan_entries map snd]. cbn in Hu. unfold scan_doc at 1. rewrite Hu, IH, matching_cons.
  destruct (matchesFilters d (Filters opts)); [by rewrite <- app_assoc|done].
Qed.

Lemma find_scanned_holds M ds c opts :
  kept M ds -> name_ok c ->
  exists l, in_order (M c) l /\ find_scanned ds c opts = Ok (matching (Filters opts) (map snd l)).
Proof.
  intros H Hc. destruct (collection_entries M ds c H Hc) as (l & Hl & HF). exists l. split; [done|].
  unfold find_scanned.
  destruct (Scan_entries (storage ds) (makeCollectionPrefix c) [] (scan_doc opts))
    as [(e & _ & He)|Es]; [by destruct (no_fault e)|].
  by rewrite Es, (scan_docs _ _ _ _ _ HF).
Qed.

Lemma in_order_docs M ds c l :
  kept M ds -> name_ok c -> in_order (M c) l -> Forall doc_ok (map snd l).
Proof.
  intros H Hc [Hp _]. apply Forall_map, Forall_forall. intros [id d] Hin. rewrite Hp in Hin.
  apply elem_of_map_to_list in Hin. by apply (kp_normal _ _ H c id d Hc Hin).
Qed.

(** ** Using an index *)

Lemma fetch_one_holds M ds c opts docIDs acc i id :
  kept M ds -> name_ok c -> index docIDs i = Ok id ->
  fetch_one ds c opts docIDs acc i
  = Ok (acc ++ matching (Filters opts) (match M c !! id with Some d => [d] | None => [] end)).
Proof.
  intros H Hc Hix. unfold fetch_one. rewrite Hix. cbn [mbind result_bind].
  pose proof (doc_Get_wp (storage ds) (makeKey c id) (makeKey_nonempty c id)) as HG.
  pose proof (kp_docs _ _ H c id Hc) as Hst. unfold stored in Hst.
  destruct (DocStorage.Get (storage ds) (makeKey c id)) as [data|e|]; [| |done].
  - destruct (M c !! id) as [d|]; [|congruence]. destruct Hst as (data' & Hd & Hu).
    replace data with data' by congruence. rewrite Hu, matching_cons.
    destruct (matchesFilters d (Filters opts)); [done|]. cbn. by rewrite app_nil_r.
  - destruct HG as [Hf|[-> Hn]]; [by destruct (no_fault e)|].
    destruct (M c !! id) as [d|]; [destruct Hst as (? & ? & _); congruence|]. cbn. by rewrite app_nil_r.
Qed.

Lemma matching_app fs l k : matching fs (l ++ k) = matching fs l ++ matching fs k.
Proof. apply filter_app. Qed.

(** The loop over a part of the ids is a fold over them. *)
Lemma fetch_loop M ds c opts docIDs ids acc i :
  kept M ds -> name_ok c -> 0 <= i -> ids = takeZ (len ids) (dropZ i docIDs) ->
  for_n (length ids) i acc (fetch_one ds c opts docIDs)
  = Ok (acc ++ matching (Filters opts) (omap (fun id => M c !! id) ids)).
Proof.
  intros H Hc. revert acc i. induction ids as [|id ids IH]; intros acc i Hi Hids; cbn [for_n length].
  { cbn. by rewrite app_nil_r. }
  assert (Hix : index docIDs i = Ok id /\ ids = takeZ (len ids) (dropZ (i + 1) docIDs)).
  { unfold takeZ, dropZ in *. rewrite to_nat_len in *. cbn [length] in Hids.
    destruct (drop (Z.to_nat i) docIDs) as [|x l] eqn:E; [done|]. injection Hids as <- Hids.
    assert (Hx : docIDs !! Z.to_nat i = Some id).
    { rewrite <- (Nat.add_0_r (Z.to_nat i)), <- lookup_drop, E. done. }
    split; [by apply index_ok|]. rewrite (drop_S docIDs id (Z.to_nat i) Hx) in E.
    injection E as <-. by replace (Z.to_nat (i + 1)) with (S (Z.to_nat i)) by lia. }
  destruct Hix as [Hix Hids']. rewrite (fetch_one_holds M ds c opts docIDs acc i id) by done.
  cbn [mbind result_bind]. rewrite IH by (done || lia). rewrite <- app_assoc, <- matching_app.
  cbn [omap list_omap]. by destruct (M c !! id).
Qed.

Lemma Find_scanned M ds c opts :
  kept M ds -> name_ok c -> c <> [] -> tryUseIndexes ds c (Filters opts) = Ok None ->
  exists l sorted r, in_order (M c) l /\
    sorts_to (Sort opts) (matching (Filters opts) (map snd l)) sorted /\
    Find ds c opts = Ok r /\ default [] r = page opts sorted.
Proof.
  intros H Hc Hc0 Ht. destruct (find_scanned_holds M ds c opts H Hc) as (l & Hl & Hf).
  destruct (sorts_exist (Sort opts) (matching (Filters opts) (map snd l))) as (sorted & E & Hs).
  { apply matching_Forall. by apply (in_order_docs M ds c). }
  destruct (paginate_page opts _ _ E) as (r & Hr & Hp). exists l, sorted, r.
  split_and!; [done|done| |done]. unfold Find. rewrite decide_False by done. rewrite Ht.
  cbn [mbind result_bind]. rewrite Hf. done.
Qed.

(** ** Property *)

(** Where no index is used, [Find] answers with the page, by [Skip] and
    [Limit], of the collection's documents that match every filter, in the
    order asked for, and among equals in the order of their ids. *)
Theorem find_by_scan M ds c opts :
  kept M ds -> name_ok c -> c <> [] -> tryUseIndexes ds c (Filters opts) = Ok None ->
  exists l sorted r, in_order (M c) l /\
    sorts_to (Sort opts) (matching (Filters opts) (map snd l)) sorted /\
    Find ds c opts = Ok r /\ default [] r = page opts sorted.
Proof. by apply Find_scanned. Qed.

(** A page without bounds is everything. *)
Lemma page_all {A} opts (l : list A) : Skip opts <= 0 -> Limit opts <= 0 -> page opts l = l.
Proof. intros Hs Hl. unfold page. rewrite dropZ_0 by done. by rewrite (proj2 (Z.ltb_ge 0 _)). Qed.
End Find.

Definition scan_options : FindOptions :=
  mkFindOptions [mkQuery (str "age") OpGte (VInt 18)] (Some (mkSortOption (str "age") SortDesc)) 0 10 [].

Lemma find_by_scan_witness :
  exists l sorted r, in_order ∅ l /\
    sorts_to (Sort scan_options) (matching (Filters scan_options) (map snd l)) sorted /\
    Find empty_docs (str "users") scan_options = Ok r /\ default [] r = page scan_options sorted.
Proof.
  refine (find_by_scan (fun _ => ∅) empty_docs (str "users") scan_options (holds_kept _ _ holds_empty_docs) _ _ _);
    [apply (bool_decide_eq_true_1 _); by vm_compute|done|done].
Defined.

Module QueryBuilder.
Record QueryBuilder : Type := mkQueryBuilder {
  collection : bytes;
  filters : list Query;
  sort : option SortOption;
  skip : Z;
  limit : Z;
}.
Implicit Types qb : QueryBuilder.

Definition NewQueryBuilder (collection : bytes) : QueryBuilder :=
  mkQueryBuilder collection [] None 0 (-1).

Definition Where qb (field operator : bytes) (value : value) : QueryBuilder :=
  mkQueryBuilder (collection qb) (filters qb ++ [mkQuery field operator value]) (sort qb)
    (skip qb) (limit qb).
Definition WhereEq qb (field : bytes) (value : value) : QueryBuilder := Where qb field OpEq value.
Definition WhereNe qb (field : bytes) (value : value) : QueryBuilder := Where qb field OpNe value.
Definition WhereGt qb (field : bytes) (value : value) : QueryBuilder := Where qb field OpGt value.
Definition WhereGte qb (field : bytes) (value : value) : QueryBuilder := Where qb field OpGte value.
Definition WhereLt qb (field : bytes) (value : value) : QueryBuilder := Where qb field OpLt value.
Definition WhereLte qb (field : bytes) (value : value) : QueryBuilder := Where qb field OpLte value.
Definition WhereIn qb (field : bytes) (values : value) : QueryBuilder := Where qb field OpIn values.

Definition OrderBy qb (field direction : bytes) : QueryBuilder :=
  mkQueryBuilder (collection qb) (filters qb) (Some (mkSortOption field direction)) (skip qb) (limit qb).
Definition OrderByAsc qb (field : bytes) : QueryBuilder := OrderBy qb field SortAsc.
Definition OrderByDesc qb (field : bytes) : QueryBuilder := OrderBy qb field SortDesc.

Definition Skip qb (n : Z) : QueryBuilder :=
  mkQueryBuilder (collection qb) (filters qb) (sort qb) n (limit qb).
Definition Limit qb (n : Z) : QueryBuilder :=
  mkQueryBuilder (collection qb) (filters qb) (sort qb) (skip qb) n.
Definition Take qb (n : Z) : QueryBuilder := Limit qb n.

Definition Build qb : FindOptions := mkFindOptions (filters qb) (sort qb) (skip qb) (limit qb) [].

Definition String qb : bytes :=
  str "Query{collection=" ++ collection qb ++ str ", filters=" ++ fmt_d (len (filters qb))
  ++ str ", skip=" ++ fmt_d (skip qb) ++ str ", limit=" ++ fmt_d (limit qb) ++ str "}".
End QueryBuilder.

(** [Query] of the document store. *)
Definition DocStore_Query (collection : bytes) : QueryBuilder.QueryBuilder := QueryBuilder.NewQueryBuilder collection.

Module UpdateBuilder.
Record UpdateBuilder : Type := mkUpdateBuilder {
  collection : bytes;
  filters : list Query;
  setFields : Document;
  unsetFields : list bytes;
  merge : bool;
}.
Implicit Types ub : UpdateBuilder.

Definition NewUpdateBuilder (collection : bytes) : UpdateBuilder :=
  mkUpdateBuilder collection [] ∅ [] true.

Definition Where ub (field operator : bytes) (value : value) : UpdateBuilder :=
  mkUpdateBuilder (collection ub) (filters ub ++ [mkQuery field operator value]) (setFields ub)
    (unsetFields ub) (merge ub).
Definition Set_ ub (field : bytes) (value : value) : UpdateBuilder :=
  mkUpdateBuilder (collection ub) (filters ub) (<[field := value]> (setFields ub)) (unsetFields ub) (merge ub).
Definition SetMany ub (fields : Document) : UpdateBuilder :=
  mkUpdateBuilder (collection ub) (filters ub) (fields ∪ setFields ub) (unsetFields ub) (merge ub).
Definition Unset ub (field : bytes) : UpdateBuilder :=
  mkUpdateBuilder (collection ub) (filters ub) (setFields ub) (unsetFields ub ++ [field]) (merge ub).
Definition UnsetMany ub (fields : list bytes) : UpdateBuilder :=
  mkUpdateBuilder (collection ub) (filters ub) (setFields ub) (unsetFields ub ++ fields) (merge ub).
Definition Replace ub : UpdateBuilder :=
  mkUpdateBuilder (collection ub) (filters ub) (setFields ub) (unsetFields ub) false.
Definition Merge ub : UpdateBuilder :=
  mkUpdateBuilder (collection ub) (filters ub) (setFields ub) (unsetFields ub) true.

Definition Build ub : FindOptions * UpdateOptions :=
  (mkFindOptions (filters ub) None 0 0 [],
   mkUpdateOptions (Some (setFields ub)) (unsetFields ub) (merge ub)).
End UpdateBuilder.

Module DeleteBuilder.
Record DeleteBuilder : Type := mkDeleteBuilder { collection : bytes; filters : list Query }.
Implicit Types db : DeleteBuilder.

Definition NewDeleteBuilder (collection : bytes) : DeleteBuilder := mkDeleteBuilder collection [].

Definition Where db (field operator : bytes) (value : value) : DeleteBuilder :=
  mkDeleteBuilder (collection db) (filters db ++ [mkQuery field operator value]).

Definition Build db : FindOptions := mkFindOptions (filters db) None 0 0 [].
End DeleteBuilder.
