(* ===== verification/DocIndex.v ===== *)
(** What indexes change in the answers of the document store. *)
From stdpp Require Import base list numbers gmap sorting strings.
From Stdlib Require Import ZArith Lia.
From S2P Require Import Prelude Fmt Badger GoFloat GoValue Json JsonTrip DocStorage DocHelpers DocStore DocSpec DocRefine DocFind.

(** ** The index a query uses *)

(** The first equality filter on an indexed field. *)
Definition decides (coll : bmap kindex) (filters : list Query) (q : Query) (idx : kindex) : Prop :=
  exists pre rest, filters = pre ++ q :: rest /\ Operator q = str "eq" /\ coll !! Field q = Some idx /\
    Forall (fun p => Operator p <> str "eq" \/ coll !! Field p = None) pre.

Lemma decides_first coll filters q idx k :
  decides coll filters q idx -> key_of (Value q) = Ok k ->
  first_indexed coll filters = Ok (Some (default [] (k ← k; idx !! k))).
Proof.
  intros (pre & rest & -> & Hop & Hf & Hpre) Hk. induction Hpre as [|p pre Hp _ IH]; cbn [app first_indexed].
  - rewrite decide_False by (intros []; done). by rewrite Hf, Hk.
  - destruct (decide (Operator p <> str "eq")); [done|]. destruct Hp as [?|Hp]; [done|]. by rewrite Hp.
Qed.

Lemma matchesFilters_in d fs q : matchesFilters d fs = true -> q ∈ fs -> matchesFilter d q = true.
Proof.
  induction fs as [|f fs IH]; cbn; intros H Hq; [by apply elem_of_nil in Hq|].
  destruct (matchesFilter d f) eqn:E; [|done]. cbn in H.
  apply elem_of_cons in Hq as [->|Hq]; [done|by apply IH].
Qed.

Lemma matchesFilter_eq d q :
  Operator q = str "eq" -> matchesFilter d q = true ->
  exists v, d !! Field q = Some v /\ sprint v = sprint (Value q).
Proof.
  intros Hop. unfold matchesFilter. rewrite Hop. destruct (d !! Field q) as [v|].
  2: { intros H%bool_decide_eq_true. discriminate H. }
  rewrite decide_True by done. intros H%bool_decide_eq_true. by exists v.
Qed.

Section Index.
Context {bdg : Badger} {laws : BadgerLaws} {rel : BadgerReliable}.
Implicit Types (M : documents) (ds : DocStore).

Lemma tryUseIndexes_decides ds c coll filters q idx k :
  indexes ds !! c = Some coll -> decides coll filters q idx -> key_of (Value q) = Ok k ->
  tryUseIndexes ds c filters = Ok (Some (default [] (k ← k; idx !! k))).
Proof.
  intros Hc Hd Hk. unfold tryUseIndexes. rewrite Hc. rewrite decide_False; [by eapply decides_first|].
  intros ->. by destruct Hd as (? & ? & _ & _ & ? & _).
Qed.

(** The ids of an index entry lead to the documents of the entry. *)
Lemma indexed_perm M c coll filters q idx k l :
  index_of (M c) (Field q) idx -> decides coll filters q idx -> key_of (Value q) = Ok (Some k) ->
  (forall id d v, M c !! id = Some d -> d !! Field q = Some v ->
     sprint v = sprint (Value q) -> key_of v = key_of (Value q)) ->
  in_order (M c) l ->
  matching filters (omap (fun id => M c !! id) (default [] (idx !! k))) ≡ₚ matching filters (map snd l).
Proof.
  intros [_ Hi Hn] Hd Hk Ht [Hp Hs]. set (ids := default [] (idx !! k)).
  set (P := omap (fun id => (fun d => (id, d)) <$> M c !! id) ids).
  assert (HP : omap (fun id => M c !! id) ids = map snd P).
  { unfold P. clear. induction ids as [|id ids IH]; [done|]. cbn. destruct (M c !! id); cbn; by rewrite IH. }
  assert (Hm : forall l : list (bytes * Document),
    matching filters (map snd l) = map snd (filter (fun e => matchesFilters e.2 filters = true) l)).
  { clear. induction l as [|e l IH]; [done|]. cbn [map]. rewrite matching_cons, filter_cons, IH.
    by destruct (matchesFilters e.2 filters). }
  rewrite HP, !Hm. apply Permutation_map, NoDup_Permutation.
  - apply NoDup_filter. unfold P. clear -Hn ids. specialize (Hn k). fold ids in Hn.
    induction Hn as [|id ids' Hid _ IH]; [constructor|]. cbn. destruct (M c !! id) as [d|]; [|done].
    cbn. constructor; [|done]. intros (id' & Hid' & E)%list_elem_of_omap.
    destruct (M c !! id'); [|done]. injection E as -> _. done.
  - apply NoDup_filter. rewrite Hp. apply NoDup_map_to_list.
  - intros [id d]. rewrite !list_elem_of_filter, Hp, elem_of_map_to_list. unfold P.
    rewrite list_elem_of_omap. split.
    + intros [Hmd (id' & Hid & E)]. split; [done|].
      destruct (M c !! id') as [d'|] eqn:Ed; [|done]. by injection E as <- <-.
    + intros [Hmd Hid]. split; [done|]. exists id. rewrite Hid. split; [|done]. apply Hi.
      destruct Hd as (pre & rest & -> & Hop & _ & _).
      destruct (matchesFilter_eq d q Hop) as (v & Hv & Hs').
      { eapply matchesFilters_in; [exact Hmd|]. apply elem_of_app. right. by left. }
      exists d, v. split_and!; [done|done|]. by rewrite (Ht id d v Hid Hv Hs').
Qed.

Lemma find_indexed_all M ds c opts ids :
  kept M ds -> name_ok c -> Skip opts = 0 -> Limit opts < 0 ->
  exists found, find_indexed ds c opts ids = Ok found /\
    default [] found = matching (Filters opts) (omap (fun id => M c !! id) ids) /\
    (found = None -> ids = []).
Proof.
  intros H Hc Hs Hl. unfold find_indexed. rewrite Hs, (proj2 (Z.ltb_lt _ 0)) by done.
  destruct (Z.leb_spec (len ids) 0) as [Hz|Hz].
  - exists None. assert (ids = []) as -> by (apply len_0_nil; pose proof (len_nonneg ids); lia). done.
  - rewrite Z.ltb_irrefl, Z.sub_0_r, to_nat_len.
    rewrite (fetch_loop M ds c opts ids ids [] 0) by (done || by rewrite dropZ_0, takeZ_all by lia).
    eexists. split; [done|]. by split.
Qed.

Lemma matching_docs_ok M ds c fs ids :
  kept M ds -> name_ok c -> Forall doc_ok (matching fs (omap (fun id => M c !! id) ids)).
Proof.
  intros H Hc. apply matching_Forall, Forall_forall. intros d (id & _ & Hd)%list_elem_of_omap.
  by apply (kp_normal _ _ H c id d Hc Hd).
Qed.

(** The store with the indexes forgotten. *)
Definition without_indexes ds : DocStore := mkDocStore (storage ds) ∅.

Lemma holds_without M ds : holds M ds -> holds M (without_indexes ds).
Proof. intros [H1 H2 H3]. split; [done|done|]. by intros c _ coll f idx. Qed.

(** To an index a limit of zero is an empty range. *)
Lemma Find_zero_limit ds c opts coll q idx k :
  c <> [] -> indexes ds !! c = Some coll -> decides coll (Filters opts) q idx ->
  key_of (Value q) = Ok k -> Skip opts = 0 -> Limit opts = 0 -> Find ds c opts = Ok None.
Proof.
  intros Hc Hcoll Hd Hk Hs Hl. unfold Find. rewrite decide_False by done.
  rewrite (tryUseIndexes_decides ds c coll (Filters opts) q idx k) by done.
  cbn [mbind result_bind]. set (ids := default [] _). unfold find_indexed. rewrite Hs, Hl.
  destruct (Z.leb_spec (len ids) 0) as [Hz|Hz]; [done|].
  change (0 <? 0) with false. change (int64 (0 + 0)) with 0. cbv iota.
  rewrite (proj2 (Z.ltb_ge (len ids) 0)) by lia. cbn [Z.sub Z.to_nat for_n mbind result_bind].
  unfold paginate. rewrite Hs, Hl. by destruct (Sort opts).
Qed.

(** ** Properties *)

(** C19: an equality filter answered from an index: without bounds on the
    page, [Find] returns the documents that the store would return without its
    indexes, provided that the filter's value and the values of the field with
    its text have one type.  The engine is assumed to refuse nothing. *)
Theorem index_equals_scan M ds c opts coll q idx k :
  holds M ds -> name_ok c -> c <> [] -> indexes ds !! c = Some coll ->
  decides coll (Filters opts) q idx -> key_of (Value q) = Ok (Some k) ->
  (forall id d v, M c !! id = Some d -> d !! Field q = Some v ->
     sprint v = sprint (Value q) -> key_of v = key_of (Value q)) ->
  Skip opts = 0 -> Limit opts < 0 ->
  exists r r', Find ds c opts = Ok r /\ Find (without_indexes ds) c opts = Ok r' /\
    default [] r ≡ₚ default [] r'.
Proof.
  intros H Hc Hc0 Hcoll Hd Hk Ht Hs Hl.
  destruct (Find_scanned M (without_indexes ds) c opts) as (l & sorted & r' & Hio & Hst & Hr' & Hp);
    [by apply holds_kept, holds_without|done|done|done|].
  set (ids := default [] (idx !! k)).
  assert (Hperm := indexed_perm M c coll (Filters opts) q idx k l
    (hd_index _ _ H c Hc coll (Field q) idx Hcoll ltac:(by destruct Hd as (? & ? & _ & _ & ? & _)))
    Hd Hk Ht Hio). fold ids in Hperm.
  destruct (find_indexed_all M ds c opts ids (holds_kept _ _ H) Hc Hs Hl) as (found & Hf & Hfd & Hnone).
  destruct (sorts_exist (Sort opts) (default [] found)) as (sorted' & E & Hst').
  { rewrite Hfd. by eapply matching_docs_ok; [apply holds_kept|]. }
  destruct (paginate_page opts _ _ E) as (r & Hr & Hpr).
  apply sorts_perm in Hst, Hst'. rewrite page_all in Hp, Hpr by lia.
  unfold Find at 1. rewrite decide_False by done.
  rewrite (tryUseIndexes_decides ds c coll (Filters opts) q idx (Some k)) by done.
  cbn [mbind result_bind]. change (default [] (idx !! k)) with ids. cbn. fold ids. rewrite Hf.
  cbn [mbind result_bind]. destruct found as [found|].
  - exists r, r'. split_and!; [done|done|]. rewrite Hp, Hpr, Hst, Hst', Hfd. done.
  - exists None, r'. split_and!; [done|done|]. rewrite Hp, Hst, <- Hperm, <- Hfd. done.
Qed.

(** The options that a delete builder builds hide every document from an
    indexed query: with an equality filter on an indexed field, [DeleteMany]
    deletes nothing, for the limit of zero that means no limit to a scan is an
    empty range to an index. *)
Theorem delete_builder_deletes_nothing ds b coll q idx k :
  let c := DeleteBuilder.collection b in
  c <> [] -> indexes ds !! c = Some coll ->
  decides coll (DeleteBuilder.filters b) q idx -> key_of (Value q) = Ok k ->
  Find ds c (DeleteBuilder.Build b) = Ok None /\
  DeleteMany ds c (DeleteBuilder.Build b) = (ds, Ok 0).
Proof.
  intros c Hc Hcoll Hd Hk.
  assert (Hf : Find ds c (DeleteBuilder.Build b) = Ok None) by (by eapply Find_zero_limit).
  split; [done|]. unfold DeleteMany. by rewrite Hf.
Qed.
End Index.
