(* ===== verification/DocRestart.v ===== *)
(** What is left of the indexes when the store is opened again, and what an
    index cannot take. *)
From stdpp Require Import base list numbers gmap sorting strings.
From Stdlib Require Import ZArith Lia.
From S2P Require Import Prelude Fmt Badger GoFloat GoValue Json JsonTrip DocStorage DocHelpers DocStore DocSpec DocRefine DocFind DocIndex.

(** ** The metadata *)

Lemma for_each_insert {A B} (f : A -> result B) (g : A -> B) l acc :
  (forall k v, (k, v) ∈ l -> f v = Ok (g v)) ->
  for_each l acc (fun acc '(k, v) => x ← f v; Ok (<[k := x]> acc))
  = Ok (insert_all acc (map (fun kv => (kv.1, g kv.2)) l)).
Proof.
  revert acc. induction l as [|[k v] l IH]; intros acc H; cbn [for_each]; [done|].
  rewrite (H k v) by by left. cbn [mbind result_bind]. rewrite IH; [done|].
  intros k' v' Hin. apply (H k'). by right.
Qed.

Lemma decode_strings_array l : decode_strings (VArray (map VString l)) = Ok l.
Proof. cbn. induction l as [|s l IH]; cbn; [done|]. cbn in IH. by rewrite IH. Qed.

(** The names written are the names read. *)
Lemma decode_metadata_norm (m : bmap (list bytes)) :
  decode_metadata (norm (VObject (VStrings <$> m))) = Ok m.
Proof.
  cbn [norm decode_metadata].
  set (g := fun v => match v with VArray l => omap (fun x => as_string (Some x)) l | _ => [] end).
  rewrite (for_each_insert decode_strings g).
  - f_equal. rewrite (insert_all_map g _ _ (reflexivity _)). rewrite <- !map_fmap_compose.
    transitivity (id <$> m); [|apply map_fmap_id]. apply map_fmap_ext. intros k l _. cbn. clear.
    induction l as [|s l IH]; [done|]. cbn. by f_equal.
  - intros k v Hin%elem_of_map_to_list. rewrite !lookup_fmap in Hin.
    destruct (m !! k) as [l|]; [|done]. injection Hin as <-. rewrite decode_strings_array. f_equal.
    cbn. clear. induction l as [|s l IH]; [done|]. cbn. by f_equal.
Qed.

Definition empties (fields : list bytes) : bmap kindex := foldl (fun coll field => <[field := ∅]> coll) ∅ fields.

Lemma empties_lookup fields f : empties fields !! f = if decide (f ∈ fields) then Some ∅ else None.
Proof.
  unfold empties.
  assert (H : forall (acc : bmap kindex), foldl (fun coll field => <[field := ∅]> coll) acc fields !! f
    = if decide (f ∈ fields) then Some ∅ else acc !! f).
  { induction fields as [|g fields IH]; intros acc; cbn [foldl].
    - rewrite decide_False by apply not_elem_of_nil. done.
    - rewrite IH. destruct (decide (f ∈ fields)) as [Hin|Hin].
      + rewrite decide_True by by right. done.
      + destruct (decide (f = g)) as [->|Hne].
        * rewrite decide_True by by left. apply lookup_insert_eq.
        * rewrite decide_False by (rewrite elem_of_cons; tauto). by apply lookup_insert_ne. }
  by rewrite H, lookup_empty.
Qed.

Lemma rebuild_empties (m : bmap (list bytes)) : rebuild m ∅ = empties <$> m.
Proof.
  unfold rebuild. rewrite <- (insert_all_map empties m (map_to_list m) (reflexivity _)).
  assert (H : forall l (acc : index_map), NoDup l.*1 -> (forall c, c ∈ l.*1 -> acc !! c = None) ->
    foldl (fun indexes '(collection, fields) =>
      <[collection := foldl (fun coll field => <[field := ∅]> coll)
                        (default ∅ (indexes !! collection)) fields]> indexes) acc l
    = insert_all acc (map (fun kv => (kv.1, empties kv.2)) l)).
  { induction l as [|[c fs] l IH]; intros acc Hnd Hacc; [done|]. cbn [foldl map].
    cbn in Hnd. apply NoDup_cons in Hnd as [Hc Hnd]. rewrite (Hacc c) by (cbn; by left).
    rewrite IH; [done|done|]. intros c' Hc'. rewrite lookup_insert_ne by congruence.
    apply Hacc. by right. }
  apply H; [apply NoDup_fst_map_to_list|]. intros c _. apply lookup_empty.
Qed.

(** ** Opening the store again *)

Section Restart.
Context {bdg : Badger} {laws : BadgerLaws} {rel : BadgerReliable}.
Variable order : list bytes -> list bytes.
Hypothesis order_perm : forall l, order l ≡ₚ l.
Implicit Types ds : DocStore.

(** The index of a field. *)
Definition index_at (indexes : index_map) (c f : bytes) : option kindex :=
  coll ← indexes !! c; coll !! f.

(** The names of collections and fields JSON can carry. *)
Definition names_ok (indexes : index_map) : Prop :=
  forall c coll f, indexes !! c = Some coll -> is_Some (coll !! f) -> utf8 c = true /\ utf8 f = true.

Lemma index_metadata_lookup indexes c :
  index_metadata order indexes !! c = coll ← indexes !! c; nilable (fields_of order coll).
Proof. apply lookup_omap. Qed.

Lemma fields_of_elem (coll : bmap kindex) f : f ∈ fields_of order coll <-> is_Some (coll !! f).
Proof.
  unfold fields_of. rewrite order_perm, list_elem_of_fmap. split.
  - intros ([f' idx] & -> & Hin%elem_of_map_to_list). by exists idx.
  - intros [idx Hf]. exists (f, idx). split; [done|]. by apply elem_of_map_to_list.
Qed.

Lemma nilable_some {A} (l l' : list A) : nilable l = Some l' -> l = l' /\ l <> [].
Proof. destruct l; [done|]. by intros [= <-]. Qed.

Lemma metadata_json_ok indexes :
  names_ok indexes -> json_ok (VObject (VStrings <$> index_metadata order indexes)) = true.
Proof.
  intros Hn. apply (map_fold_andb (fun k v => utf8 k && json_ok v)). intros c v Hv.
  rewrite lookup_fmap, index_metadata_lookup in Hv.
  destruct (indexes !! c) as [coll|] eqn:Hc; [|done]. cbn in Hv.
  destruct (nilable _) as [l|] eqn:E; [|done]. injection Hv as <-. apply nilable_some in E as [<- Hne].
  assert (Hf : forall f, f ∈ fields_of order coll -> utf8 c = true /\ utf8 f = true).
  { intros f Hf%fields_of_elem. by apply (Hn c coll f). }
  destruct (fields_of order coll) as [|f l] eqn:El; [done|].
  destruct (Hf f ltac:(left)) as [-> _]. cbn [andb json_ok]. apply forallb_forall.
  intros f' Hf'%list_elem_of_In. by apply Hf.
Qed.

Lemma metadata_nesting (m : bmap (list bytes)) :
  (nesting (VObject (VStrings <$> m)) <= maxNestingDepth)%nat.
Proof.
  assert (H : (nesting (VObject (VStrings <$> m)) <= 2)%nat).
  { cbn [nesting]. apply le_n_S. induction m as [|k l m Hk IH] using map_ind.
    - rewrite fmap_empty, map_fold_empty. lia.
    - rewrite fmap_insert, map_fold_insert_L; [|intros; lia|by rewrite lookup_fmap, Hk].
      cbn [nesting]. lia. }
  unfold maxNestingDepth. lia.
Qed.

Lemma bind_of {A B} (m : result A) (f : A -> result B) a r : m = Ok a -> f a = r -> m ≫= f = r.
Proof. by intros ->. Qed.

Lemma GetJSON_ok {A} db key (decode : value -> result A) data v x :
  DocStorage.Get db key = Ok data -> Unmarshal data = Ok v -> decode v = Ok x ->
  GetJSON db key decode = Ok x.
Proof. intros Hd Hu Hx. eapply bind_of; [exact Hd|]. eapply bind_of; [exact Hu|exact Hx]. Qed.

(** Reading the saved names. *)
Lemma load_saved (db : DB) (m : bmap (list bytes)) data :
  contents db !! metadataKey = Some data -> Unmarshal data = Ok (norm (VObject (VStrings <$> m))) ->
  New db = Ok (mkDocStore db (rebuild m ∅)).
Proof.
  intros Hd Hu. assert (Hg : DocStorage.Get db metadataKey = Ok data).
  { pose proof (doc_Get_wp db metadataKey ltac:(done)) as HG.
    destruct (DocStorage.Get db metadataKey) as [data'|e|]; [congruence| |done].
    destruct HG as [Hf|[_ ?]]; [by destruct (no_fault e)|congruence]. }
  unfold New, loadIndexMetadata. cbn [storage indexes].
  by rewrite (GetJSON_ok db metadataKey decode_metadata data _ m Hg Hu (decode_metadata_norm m)).
Qed.

Lemma rebuilt_index indexes c f :
  index_at (rebuild (index_metadata order indexes) ∅) c f = (fun _ => ∅) <$> index_at indexes c f.
Proof.
  rewrite rebuild_empties. unfold index_at. rewrite lookup_fmap, index_metadata_lookup.
  destruct (indexes !! c) as [coll|]; [|done]. cbn [mbind option_bind].
  pose proof (fields_of_elem coll f) as Hf.
  assert (E : (coll ← empties <$> nilable (fields_of order coll); coll !! f)
    = if decide (f ∈ fields_of order coll) then Some ∅ else None).
  { destruct (fields_of order coll) as [|f0 l]; [by rewrite decide_False by apply not_elem_of_nil|].
    apply (empties_lookup (f0 :: l)). }
  rewrite E. destruct (coll !! f) as [idx|].
  - rewrite decide_True; [done|]. apply Hf. by exists idx.
  - rewrite decide_False; [done|]. by intros [? ?]%Hf.
Qed.

(** The metadata round-trips, the contents of the indexes do not: a store
    opened on a database whose index metadata was saved has exactly the indexes
    that were saved, and every one of them is empty, whatever documents are
    stored. *)
Theorem restart_empties_indexes ds ds1 :
  names_ok (indexes ds) -> saveIndexMetadata order ds = (ds1, Ok tt) ->
  exists ds2, New (storage ds1) = Ok ds2 /\ storage ds2 = storage ds1 /\
    forall c f, index_at (indexes ds2) c f = (fun _ => ∅) <$> index_at (indexes ds) c f.
Proof.
  intros Hn Hsave. unfold saveIndexMetadata, SetJSON in Hsave.
  destruct (Unmarshal_Marshal (VObject (VStrings <$> index_metadata order (indexes ds)))) as (data & Em & Eu);
    [by apply metadata_json_ok|apply metadata_nesting|].
  rewrite Em in Hsave. destruct (Set_ok (storage ds) metadataKey data) as (db' & Es & Hdb); [done|].
  rewrite Es in Hsave. injection Hsave as <-.
  exists (mkDocStore db' (rebuild (index_metadata order (indexes ds)) ∅)).
  split; [|split; [done|apply rebuilt_index]].
  apply (load_saved db' _ data); [|done]. by rewrite Hdb, lookup_insert_eq.
Qed.
End Restart.

(** ** Values an index cannot take *)

Lemma for_each_panics {A S} (l : list A) (s : S) body x :
  (forall s x e, body s x <> Err e) -> x ∈ l -> (forall s, body s x = Panic) ->
  for_each l s body = Panic.
Proof.
  intros He Hx Hp. revert s. induction Hx as [x l|x y l _ IH]; intros s; cbn [for_each].
  - by rewrite Hp.
  - destruct (body s y) as [s'|e|] eqn:E; [by apply IH|by destruct (He s y e)|done].
Qed.

Lemma index_add_no_error idx v id e : index_add idx v id <> Err e.
Proof.
  unfold index_add. destruct (key_of v) as [[k|]|e'|] eqn:E; try done.
  by apply key_of_no_error in E.
Qed.

Lemma updateIndexes_panics indexes c coll f idx id d v :
  indexes !! c = Some coll -> coll !! f = Some idx -> d !! f = Some v -> key_of v = Panic ->
  updateIndexes indexes c id d = Panic.
Proof.
  intros Hc Hf Hd Hk. unfold updateIndexes, on_collection, index_fields. rewrite Hc.
  rewrite (for_each_panics _ _ _ (f, idx)); [done| |by apply elem_of_map_to_list|].
  - intros acc [f' idx'] e. destruct (d !! f') as [v'|]; [|done].
    destruct (index_add idx' v' id) as [|e'|] eqn:E; [done| |done]. by apply index_add_no_error in E.
  - intros acc. rewrite Hd. unfold index_add. by rewrite Hk.
Qed.

Section Unhashable.
Context {bdg : Badger} {laws : BadgerLaws} {rel : BadgerReliable}.

(** Arrays and objects cannot be the key of an index: inserting a document
    that has one in an indexed field stores the document and then panics, and so
    does an equality query for one on an indexed field. *)
Theorem unhashable_value_panics now uid ds c doc coll f idx v :
  c <> [] -> indexes ds !! c = Some coll -> coll !! f = Some idx -> key_of v = Panic ->
  let id := insert_id uid (default ∅ doc) in
  let d := stamped now id (default ∅ doc) in
  doc_ok d -> d !! f = Some v ->
  (exists ds' caller, Insert now uid ds c doc = (ds', caller, Panic) /\
    stored (contents (storage ds')) c id (Some (norm_doc d))) /\
  forall opts, Filters opts = [mkQuery f OpEq v] -> Find ds c opts = Panic.
Proof.
  intros Hc0 Hc Hf Hk id d Hok Hd. split.
  - unfold Insert. rewrite decide_False by done. fold id d.
    destruct (unmarshal_marshal_doc d Hok) as (data & -> & Hu).
    destruct (Set_ok (storage ds) (makeKey c id) data (makeKey_nonempty c id)) as (db' & -> & Hdb).
    cbn [with_db fst snd indexes]. rewrite (updateIndexes_panics _ c coll f idx id d v) by done.
    eexists _, _. split; [done|]. exists data. split; [|done]. cbn [storage].
    by rewrite Hdb, lookup_insert_eq.
  - intros opts Hfs. unfold Find, tryUseIndexes. rewrite decide_False, Hc, Hfs by done.
    rewrite decide_False by (intros ->; done). cbn [first_indexed Operator Field Value].
    rewrite decide_False by (intros []; done). by rewrite Hf, Hk.
Qed.
End Unhashable.

(** ** Documents inserted again *)

Section Reinsert.
Context {bdg : Badger} {laws : BadgerLaws} {rel : BadgerReliable}.
Implicit Types ds : DocStore.

(** [updateIndexes], index by index. *)
Lemma updateIndexes_each (indexes : index_map) c id d coll :
  indexes !! c = Some coll -> hashable indexes c d ->
  exists coll', updateIndexes indexes c id d = Ok (<[c := coll']> indexes) /\ dom coll' = dom coll /\
    forall f idx idx', coll !! f = Some idx -> coll' !! f = Some idx' ->
      match d !! f with Some v => index_add idx v id = Ok idx' | None => idx' = idx end.
Proof.
  intros Hc Hh. unfold updateIndexes, on_collection. rewrite Hc.
  destruct (index_fields_all coll d (fun idx v => index_add idx v id) (fun f idx' =>
    forall idx, coll !! f = Some idx ->
      match d !! f with Some v => index_add idx v id = Ok idx' | None => idx' = idx end))
    as (coll' & -> & Hd & HR).
  { intros f idx Hf. destruct (d !! f) as [v|] eqn:Ev; [|intros; congruence].
    destruct (index_add_total idx v id) as [idx' E]; [by apply (Hh coll f v Hc (elem_of_dom_2 _ _ _ Hf))|].
    exists idx'. split; [done|]. intros i Hi. congruence. }
  exists coll'. split_and!; [done..|]. intros f idx idx' Hf Hf'. by apply (HR f idx').
Qed.

(** C16: [Insert] under an id that is in use replaces the document but takes none of
    its entries out of the indexes: an indexed field that had another value keeps
    the id under the old value, which the stored document no longer has; one
    that had the same value lists the id twice.
    The engine is assumed to refuse nothing. *)
Theorem reinsert_leaves_stale_id M ds now uid c doc coll f idx old v k v' k' :
  let id := insert_id uid (default ∅ doc) in
  let d := stamped now id (default ∅ doc) in
  holds M ds -> c <> [] -> op_given M ds (DInsert now uid c doc) ->
  indexes ds !! c = Some coll -> coll !! f = Some idx ->
  M c !! id = Some old -> old !! f = Some v -> key_of v = Ok (Some k) ->
  d !! f = Some v' -> key_of v' = Ok (Some k') ->
  exists ds' caller coll' idx', Insert now uid ds c doc = (ds', caller, Ok id) /\
    stored (contents (storage ds')) c id (Some (norm_doc d)) /\
    indexes ds' !! c = Some coll' /\ coll' !! f = Some idx' /\
    (k <> k' -> id ∈ default [] (idx' !! k) /\ id ∈ default [] (idx' !! k')) /\
    (k = k' -> ~ NoDup (default [] (idx' !! k))).
Proof.
  intros id d H Hc0 (Hc & Hu & Hn & Hd & Hh) Hcoll Hf Hold Hv Hk Hv' Hk'. cbv zeta in Hh. fold id d in Hh.
  assert (Hok : doc_ok d) by (apply doc_ok_stamped; [done|by apply insert_id_utf8|done]).
  destruct (unmarshal_marshal_doc d Hok) as (data & Em & Hun).
  destruct (Set_ok (storage ds) (makeKey c id) data (makeKey_nonempty c id)) as (db' & Es & Hdb).
  destruct (updateIndexes_each (indexes ds) c id d coll Hcoll Hh) as (coll' & Eu & Hdom & Heach).
  assert (Hf' : is_Some (coll' !! f)) by (apply elem_of_dom; rewrite Hdom; by eapply elem_of_dom_2).
  destruct Hf' as [idx' Hf']. specialize (Heach f idx idx' Hf Hf'). rewrite Hv' in Heach.
  unfold index_add in Heach. rewrite Hk' in Heach. injection Heach as <-.
  assert (Hin : id ∈ default [] (idx !! k)).
  { apply (io_ids _ _ _ (hd_index _ _ H c Hc coll f idx Hcoll Hf)). by exists old, v. }
  eexists _, _, coll', _. split_and!.
  - unfold Insert. rewrite decide_False by done. fold id d. rewrite Em, Es. cbn [with_db fst snd indexes].
    by rewrite Eu.
  - exists data. split; [|done]. cbn [storage]. by rewrite Hdb, lookup_insert_eq.
  - apply lookup_insert_eq.
  - done.
  - intros Hne. rewrite !ids_insert, decide_False, decide_True by done. split; [done|].
    apply elem_of_app. right. by apply list_elem_of_singleton.
  - intros <-. rewrite ids_insert, decide_True by done. intros (_ & Hnd & _)%NoDup_app.
    apply (Hnd id Hin). by apply list_elem_of_singleton.
Qed.
End Reinsert.

(** ** Witnesses *)

Definition users : bytes := str "users".
Definition name_field : bytes := str "name".
(** An index on the name. *)
Definition name_index : kindex := {[ KString (str "ann") := [str "u1"] ]}.
Definition name_coll : bmap kindex := {[ name_field := name_index ]}.
Definition indexed_docs : DocStore (bdg := mem_badger) := mkDocStore mem_empty {[ users := name_coll ]}.

Lemma users_indexed : indexes indexed_docs !! users = Some name_coll.
Proof. apply lookup_singleton_eq. Qed.
Lemma name_indexed : name_coll !! name_field = Some name_index.
Proof. apply lookup_singleton_eq. Qed.

Definition by_name : list Query := [mkQuery name_field (str "eq") (VString (str "ann"))].
Definition ann_query : Query := mkQuery name_field (str "eq") (VString (str "ann")).

Lemma by_name_decides : decides name_coll by_name ann_query name_index.
Proof. exists [], []. split_and!; [done|done|apply name_indexed|constructor]. Qed.

Lemma delete_builder_deletes_nothing_witness :
  DeleteMany indexed_docs users
    (DeleteBuilder.Build (DeleteBuilder.Where (DeleteBuilder.NewDeleteBuilder users) name_field
      (str "eq") (VString (str "ann")))) = (indexed_docs, Ok 0).
Proof.
  refine (proj2 (delete_builder_deletes_nothing indexed_docs
    (DeleteBuilder.Where (DeleteBuilder.NewDeleteBuilder users) name_field (str "eq") (VString (str "ann")))
    name_coll ann_query name_index (Some (KString (str "ann"))) _ _ by_name_decides _)).
  - done.
  - exact users_indexed.
  - done.
Defined.

Lemma unhashable_value_panics_witness :
  Find indexed_docs users (mkFindOptions [mkQuery name_field OpEq (VArray [])] None 0 (-1) []) = Panic.
Proof.
  refine (proj2 (unhashable_value_panics 1 (str "u2") indexed_docs users
    (Some (<[name_field := VArray []]> ∅)) name_coll name_field name_index (VArray [])
    _ users_indexed name_indexed _ _ _) _ _).
  - done.
  - done.
  - split; [by vm_compute|apply Nat.leb_le; by vm_compute].
  - by vm_compute.
  - done.
Defined.

Lemma restart_empties_indexes_witness :
  exists ds2, New (storage (saveIndexMetadata id indexed_docs).1) = Ok ds2 /\
    storage ds2 = storage (saveIndexMetadata id indexed_docs).1 /\
    forall c f, index_at (indexes ds2) c f = (fun _ => ∅) <$> index_at (indexes indexed_docs) c f.
Proof.
  refine (restart_empties_indexes id _ indexed_docs _ _ _).
  - done.
  - intros c coll f Hc Hf. unfold indexed_docs in Hc. cbn [indexes] in Hc.
    apply lookup_singleton_Some in Hc as [<- <-]. destruct Hf as [idx Hf]. unfold name_coll in Hf.
    apply lookup_singleton_Some in Hf as [<- _]. by split.
  - rewrite (surjective_pairing (saveIndexMetadata _ _)). f_equal.
Defined.

(** A stored document that the index lists. *)
Definition ann : Document := {[ name_field := VString (str "ann") ]}.
Definition ann_data : bytes := encode (VObject ann).
Definition sample_documents : documents := fun c => if decide (c = users) then {[ str "u1" := ann ]} else ∅.
Definition sample_docs : DocStore (bdg := mem_badger) :=
  mkDocStore (mkMem {[ makeKey users (str "u1") := ann_data ]} ∅) {[ users := name_coll ]}.

Lemma users_name_ok : name_ok users.
Proof. apply (bool_decide_eq_true_1 _). by vm_compute. Qed.

Lemma ann_ok : doc_ok ann.
Proof. split; [by vm_compute|apply Nat.leb_le; by vm_compute]. Qed.

Lemma ann_normal : normal ann.
Proof. unfold normal, norm_doc, ann. by rewrite map_fmap_singleton. Qed.

Lemma ann_stored : unmarshal_doc ann_data = Ok ann.
Proof.
  destruct (unmarshal_marshal_doc ann ann_ok) as (data & E & Hu).
  rewrite ann_normal in Hu. unfold Marshal in E. destruct (encodable _); [|done].
  injection E as <-. exact Hu.
Qed.

Lemma ann_indexed : index_of {[ str "u1" := ann ]} name_field name_index.
Proof.
  destruct (index_add_of ∅ name_field ∅ (str "u1") ann (VString (str "ann")) (KString (str "ann")))
    as (idx & E & H); [apply index_of_empty|apply lookup_empty|apply lookup_singleton_eq|done|].
  unfold index_add in E. cbn [key_of mbind result_bind] in E. rewrite lookup_empty in E.
  injection E as <-. exact H.
Qed.

Lemma sample_holds : holds sample_documents sample_docs.
Proof.
  split.
  - intros c id Hc. unfold sample_documents, sample_docs. cbn [storage contents mem_laws mem_store].
    destruct (decide (c = users)) as [->|Hne].
    + destruct (decide (id = str "u1")) as [->|Hne].
      * rewrite lookup_singleton_eq. exists ann_data. split; [apply lookup_singleton_eq|apply ann_stored].
      * rewrite lookup_singleton_ne by congruence. apply lookup_singleton_ne.
        intros [_ E]%makeKey_inj; [congruence|apply users_name_ok..].
    + rewrite lookup_empty. apply lookup_singleton_ne.
      intros [E _]%makeKey_inj; [congruence|apply users_name_ok|done].
  - intros c id d _. unfold sample_documents. destruct (decide (c = users)); [|by rewrite lookup_empty].
    intros [_ <-]%lookup_singleton_Some. split; [apply ann_ok|apply ann_normal].
  - intros c _ coll f idx. unfold sample_docs. cbn [indexes]. intros [<- <-]%lookup_singleton_Some.
    unfold name_coll. intros [<- <-]%lookup_singleton_Some. unfold sample_documents.
    rewrite decide_True by done. apply ann_indexed.
Qed.

Lemma index_equals_scan_witness :
  exists r r', Find sample_docs users (mkFindOptions by_name None 0 (-1) []) = Ok r /\
    Find (without_indexes sample_docs) users (mkFindOptions by_name None 0 (-1) []) = Ok r' /\
    default [] r ≡ₚ default [] r'.
Proof.
  refine (index_equals_scan sample_documents sample_docs users (mkFindOptions by_name None 0 (-1) [])
    name_coll ann_query name_index (KString (str "ann")) sample_holds users_name_ok _ _
    by_name_decides _ _ _ _); [done|apply lookup_singleton_eq|done| |done|done].
  intros id d v. unfold sample_documents. rewrite decide_True by done.
  intros [_ <-]%lookup_singleton_Some. unfold ann. intros [_ <-]%lookup_singleton_Some. done.
Defined.

(** An update of the indexed document, and a new document under its id, with a
    number that JSON does not read back as it is. *)
Definition rename : DocOp :=
  DUpdate 1700000000000 users (str "u1") (mkUpdateOptions (Some {[ name_field := VString (str "bob") ]}) [] true).
Definition replacement : Document := <[str "_id" := VString (str "u1")]> {[ name_field := VInt 7 ]}.
Definition replace : DocOp := DInsert 1700000000000 (str "u9") users (Some replacement).

Lemma by_name_only coll f : indexes sample_docs !! users = Some coll -> f ∈ dom coll -> coll = name_coll /\ f = name_field.
Proof.
  unfold sample_docs. cbn [indexes]. intros [_ <-]%lookup_singleton_Some Hf. split; [done|]. unfold name_coll in Hf.
  by rewrite dom_singleton_L, elem_of_singleton in Hf.
Qed.

Lemma replace_given : op_given sample_documents sample_docs replace.
Proof.
  split_and!; [apply users_name_ok|done|done| |].
  - split; [by vm_compute|apply Nat.leb_le; by vm_compute].
  - intros coll f v Hc Hf. destruct (by_name_only coll f Hc Hf) as [-> ->].
    intros E. assert (v = VInt 7) as -> by (vm_compute in E; congruence). by vm_compute.
Qed.

Lemma documents_refined_witness :
  doc_refined sample_documents replace (doc_exec id sample_docs replace) /\
  (doc_exec id sample_docs rename).2 = Ok RDone /\
  holds (doc_spec sample_documents rename).1 (doc_exec id sample_docs rename).1.
Proof.
  split.
  - apply (documents_refined sample_documents sample_docs id replace);
      [apply holds_kept, sample_holds|apply replace_given].
  - refine (proj2 (documents_refined sample_documents sample_docs id rename) _ sample_holds _); [by intros e []|].
    split_and!; [apply users_name_ok|done|done| |done|].
    + split; [by vm_compute|apply Nat.leb_le; by vm_compute].
    + intros d d'. unfold sample_documents. rewrite decide_True by done.
      intros [_ <-]%lookup_singleton_Some. intros [= <-] coll f v Hc Hf.
      destruct (by_name_only coll f Hc Hf) as [-> ->]. intros E.
      vm_compute in E. injection E as <-. split; [done|]. by eexists.
Defined.

(** The name that the document had before still leads to it. *)
Lemma reinsert_leaves_stale_id_witness :
  exists ds' caller coll' idx', Insert 1700000000000 (str "u9") sample_docs users (Some replacement)
      = (ds', caller, Ok (str "u1")) /\
    stored (contents (storage ds')) users (str "u1") (Some (norm_doc (stamped 1700000000000 (str "u1") replacement))) /\
    indexes ds' !! users = Some coll' /\ coll' !! name_field = Some idx' /\
    (KString (str "ann") <> KInt 7 -> str "u1" ∈ default [] (idx' !! KString (str "ann")) /\
       str "u1" ∈ default [] (idx' !! KInt 7)) /\
    (KString (str "ann") = KInt 7 -> ~ NoDup (default [] (idx' !! KString (str "ann")))).
Proof.
  apply (reinsert_leaves_stale_id sample_documents sample_docs 1700000000000 (str "u9") users (Some replacement)
    name_coll name_field name_index ann (VString (str "ann")) (KString (str "ann")) (VInt 7) (KInt 7));
    [exact sample_holds|done|exact replace_given|apply lookup_singleton_eq|apply lookup_singleton_eq| | |done| |done].
  - unfold sample_documents. rewrite decide_True by done. apply lookup_singleton_eq.
  - apply lookup_singleton_eq.
  - by vm_compute.
Defined.

(** Inserted again with the same name, the document is found twice. *)
Example found_twice :
  let '(ds, _, _) := Insert 1 (str "u9") sample_docs users
    (Some (<[str "_id" := VString (str "u1")]> {[ name_field := VString (str "ann") ]})) in
  match Find ds users (mkFindOptions by_name None 0 (-1) []) with
  | Ok (Some found) => map (fun d => d !! str "_id") found
  | _ => []
  end = [Some (VString (str "u1")); Some (VString (str "u1"))].
Proof. by vm_compute. Qed.
