(* ===== verification/ServerState.v ===== *)
(** The state of the server (internal/server/server.go): connections, the job
    queue of the worker pool and the metrics; sending responses, and the moving
    average of the latency. *)
From stdpp Require Import base list numbers gmap strings.
From Stdlib Require Import ZArith Lia.
From S2P Require Import Prelude GoBytes Fmt Badger KVStorage StreamStorage StreamService GoFloat GoStrconv DocStore Protocol.

(** ** What the handlers read from elsewhere

    Clocks, fresh identifiers, the order of loops over maps, the order in which
    goroutines answer, the latency of the request, and how a [select] with
    several ready cases, or one that waits, goes on.  Documents updated in a
    loop read the clock once each. *)
Record Env : Type := mkEnv {
  queue_now : Z;
  queue_uuid : bytes;
  stream_now : Z;
  stream_nano : Z;
  stream_clock : Z -> Z;
  stream_nanos : Z -> Z;
  group_order : group_map -> list (Z * list (PublishMessage * Z));
  flush_order : range_order;
  arrival : list Z -> list Z;
  consumers : consumer_order;
  doc_now : Z -> Z;
  doc_uuid : bytes;
  field_order : list bytes -> list bytes;
  pair_order : KV.kv_map -> list (bytes * bytes);
  latency : Z;
  pick : bool;
  drained : bool;
}.

(** ** Windows

    A slice of a read buffer, by its bounds. *)
Definition window : Type := Z * Z.
Definition cut (data : bytes) (w : window) : bytes := takeZ (w.2 - w.1) (dropZ w.1 data).

(** ** Connections and jobs

    [readBuf] and [writeBuf] name the connection's buffers, the second of which
    is never used; [done] says that its context
    is cancelled, [sent] is what the write loop has taken from [outQueue]. *)
Record Connection : Type := mkConnection {
  readBuf : Z;
  writeBuf : Z;
  outQueue : list bytes;
  sent : list bytes;
  done : bool;
  conn_ops : Z;
  avgLatency : Z;
}.

(** The [value] and [values] of a job are slices of the read buffer [jbuf] of
    its connection [conn]. *)
Record Job : Type := mkJob {
  conn : Z;
  jbuf : Z;
  cmd : bytes;
  key : bytes;
  value : window;
  keys : option (list bytes);
  values : list window;
}.

(** The counters of the server and, the last, of its worker pool. *)
Record Metrics : Type := mkMetrics {
  opsProcessed : Z;
  opsFastPath : Z;
  opsSlowPath : Z;
  opsErrors : Z;
  jobsProcessed : Z;
}.

Definition count_processed (m : Metrics) : Metrics :=
  mkMetrics (uint64 (opsProcessed m + 1)) (opsFastPath m) (opsSlowPath m) (opsErrors m) (jobsProcessed m).
Definition count_fast (m : Metrics) : Metrics :=
  mkMetrics (uint64 (opsProcessed m + 1)) (uint64 (opsFastPath m + 1)) (opsSlowPath m) (opsErrors m)
    (jobsProcessed m).
Definition count_slow (m : Metrics) : Metrics :=
  mkMetrics (uint64 (opsProcessed m + 1)) (opsFastPath m) (uint64 (opsSlowPath m + 1)) (opsErrors m)
    (jobsProcessed m).
Definition count_error (m : Metrics) : Metrics :=
  mkMetrics (opsProcessed m) (opsFastPath m) (opsSlowPath m) (uint64 (opsErrors m + 1)) (jobsProcessed m).
Definition count_job (m : Metrics) : Metrics :=
  mkMetrics (opsProcessed m) (opsFastPath m) (opsSlowPath m) (opsErrors m) (uint64 (jobsProcessed m + 1)).

Definition outQueue_cap : Z := 5000.
Definition DefaultJobQueueSize : Z := 50000.
(** 100 microseconds, in nanoseconds. *)
Definition FastPathThreshold : Z := 100000.
Definition readBuf_size : Z := 32768.

(** ** The average latency

    [int64(float64(oldAvg)*0.9 + float64(latency)*0.1)], each operation rounded
    (the compiler does not fuse them on amd64, where a conversion out of range
    gives the least integer). *)
Definition new_average (oldAvg latency : Z) : Z :=
  int_of_float (float_add
    (float_mul (float_of_int oldAvg) (Fin false (of_dec binary64 9 (-1))))
    (float_mul (float_of_int latency) (Fin false (of_dec binary64 1 (-1))))).

Definition updateAvgLatency (e : Env) (c : Connection) : Connection :=
  mkConnection (readBuf c) (writeBuf c) (outQueue c) (sent c) (done c) (conn_ops c)
    (new_average (avgLatency c) (latency e)).
Definition count_op (c : Connection) : Connection :=
  mkConnection (readBuf c) (writeBuf c) (outQueue c) (sent c) (done c) (uint64 (conn_ops c + 1)) (avgLatency c).
Definition enqueue (c : Connection) (msg : bytes) : Connection :=
  mkConnection (readBuf c) (writeBuf c) (outQueue c ++ [msg]) (sent c) (done c) (conn_ops c) (avgLatency c).
Definition cancel (c : Connection) : Connection :=
  mkConnection (readBuf c) (writeBuf c) (outQueue c) (sent c) true (conn_ops c) (avgLatency c).
(** The write loop takes the next message. *)
Definition take_message (c : Connection) : Connection :=
  match outQueue c with
  | [] => c
  | msg :: rest =>
      mkConnection (readBuf c) (writeBuf c) rest (sent c ++ [msg]) (done c) (conn_ops c) (avgLatency c)
  end.

(** ** Channel operations *)

Inductive outcome : Type := Sent | Cancelled | Full.

(** [select { case ch <- msg: .. case <-ctx.Done(): .. default: .. }]: ready
    cases are chosen among at random. *)
Definition select_send (e : Env) (ready cancelled : bool) : outcome :=
  if ready && (negb cancelled || pick e) then Sent
  else if cancelled then Cancelled else Full.

Definition out_ready (c : Connection) : bool := len (outQueue c) <? outQueue_cap.

(** The select of [sendError] and [sendBinaryError], whose cases do nothing more. *)
Definition offer (e : Env) (c : Connection) (msg : bytes) : Connection :=
  match select_send e (out_ready c) (done c) with Sent => enqueue c msg | _ => c end.

Section Server.
Context {bdg : Badger} {batch : BadgerBatch}.

(** ** The server

    [stream] and [docs] may be nil; [stopped] says that the job queue is closed. *)
Record Server : Type := mkServer {
  store : KV.Storage;
  queue : DB;
  stream : option Stream;
  docs : option DocStore;
  jobQueue : list Job;
  metrics : Metrics;
  stopped : bool;
}.

Definition set_store (s : Server) (st : KV.Storage) : Server :=
  mkServer st (queue s) (stream s) (docs s) (jobQueue s) (metrics s) (stopped s).
Definition set_queue (s : Server) (q : DB) : Server :=
  mkServer (store s) q (stream s) (docs s) (jobQueue s) (metrics s) (stopped s).
Definition set_stream (s : Server) (st : Stream) : Server :=
  mkServer (store s) (queue s) (Some st) (docs s) (jobQueue s) (metrics s) (stopped s).
Definition set_docs (s : Server) (ds : DocStore) : Server :=
  mkServer (store s) (queue s) (stream s) (Some ds) (jobQueue s) (metrics s) (stopped s).
Definition set_jobs (s : Server) (jobs : list Job) : Server :=
  mkServer (store s) (queue s) (stream s) (docs s) jobs (metrics s) (stopped s).
Definition count (f : Metrics -> Metrics) (s : Server) : Server :=
  mkServer (store s) (queue s) (stream s) (docs s) (jobQueue s) (f (metrics s)) (stopped s).

(** A handler runs on the server and its connection; a panic ends the process. *)
Abbreviation World := (Server * Connection)%type.
Implicit Types w : World.

(** Send a response and count it: the select that [sendBinaryResponse] and the
    fast path share. *)
Definition respond (e : Env) w (response : bytes) : World :=
  let '(s, c) := w in
  match select_send e (out_ready c) (done c) with
  | Sent => (count count_fast s, updateAvgLatency e (count_op (enqueue c response)))
  | Cancelled => w
  | Full => (count count_error s, c)
  end.

(** The select of a worker. *)
Definition answer_job (e : Env) w (response : bytes) : World :=
  let '(s, c) := w in
  match select_send e (out_ready c) (done c) with
  | Sent => (count count_job s, enqueue c response)
  | _ => w
  end.

(** [c.sendError(err)] and [c.sendBinaryError(err)], then [opsErrors.Add(1)]. *)
Definition on_conn w (f : Connection -> Connection) : World := (w.1, f w.2).
Definition on_server w (f : Server -> Server) : World := (f w.1, w.2).

(** [select { case jobQueue <- job: .. case <-ctx.Done(): .. default: .. }]:
    a send on the closed queue panics. *)
Definition dispatch (e : Env) w (job : Job) (full : World -> World) : result World :=
  let '(s, c) := w in
  match select_send e (stopped s || (len (jobQueue s) <? DefaultJobQueueSize)) (done c) with
  | Sent =>
      if stopped s then Panic
      else Ok (count count_slow (set_jobs s (jobQueue s ++ [job])), count_op c)
  | Cancelled => Ok w
  | Full => Ok (full w)
  end.

(** [select { case outQueue <- response: .. case <-ctx.Done(): }], which waits:
    until the write loop takes a message or the connection is cancelled. *)
Definition send_wait (e : Env) w (response : bytes) (done_ : World -> World) : World :=
  let '(s, c) := w in
  match select_send e (out_ready c) (done c) with
  | Sent => done_ (s, enqueue c response)
  | Cancelled => w
  | Full => if drained e then done_ (s, enqueue (take_message c) response) else (s, cancel c)
  end.
End Server.
Arguments select_send : simpl never.
Arguments new_average : simpl never.
