(* ===== verification/ServerText.v ===== *)
(** The text protocol of the server: parsing of commands, responses, and the
    fast and slow paths (internal/server/server.go and kv_handlers.go). *)
From stdpp Require Import base list numbers gmap strings.
From Stdlib Require Import ZArith Lia.
From S2P Require Import Prelude GoBytes Fmt Badger KVStorage ServerState.

Abbreviation World := (Server * Connection)%type.

(** ** Responses *)

Definition CRLF : bytes := [13; 10].
Definition ok_line : bytes := str "+OK" ++ CRLF.
Definition unknown_line : bytes := str "-ERR unknown command" ++ CRLF.

Definition formatBulkString (data : bytes) : bytes :=
  str "$" ++ fmt_d (len data) ++ CRLF ++ data ++ CRLF.
Definition formatBulkStrings (dataList : list bytes) : bytes :=
  foldl (fun result data => result ++ formatBulkString data)
    (str "*" ++ fmt_d (len dataList) ++ CRLF) dataList.
Definition formatError (err : error) : bytes := str "-ERR " ++ error_text err ++ CRLF.

(** ** Parsing *)

Definition is_sep (b : byte) : bool := (b =? 32) || (b =? 13) || (b =? 10).

(** The loop over [data[i:]], where the current part begins at [start]. *)
Fixpoint scan_parts (data : bytes) (i start : Z) (parts : list window) : list window * Z :=
  match data with
  | [] => (parts, start)
  | b :: data =>
      if is_sep b
      then scan_parts data (i + 1) (i + 1) (if start <? i then parts ++ [(start, i)] else parts)
      else scan_parts data (i + 1) start parts
  end.

Definition split_parts (data : bytes) : list window :=
  let '(parts, start) := scan_parts data 0 0 [] in
  if start <? len data then parts ++ [(start, len data)] else parts.

(** The results of [parseCommandExtended]: [keys] is nil for a single
    operation, [value] is empty where it is nil; [kvPairs] is always nil. *)
Record Command : Type := mkCommand {
  c_cmd : bytes;
  c_key : bytes;
  c_value : window;
  c_keys : option (list bytes);
  c_values : list window;
}.

(** [for i := 1; i < len(parts); i += 2]: [parts[i+1]] panics behind the last
    part. *)
Fixpoint pairs_of (data : bytes) (parts : list window) : result (list (bytes * window)) :=
  match parts with
  | [] => Ok []
  | [_] => Panic
  | k :: v :: parts => kvs ← pairs_of data parts; Ok ((cut data k, v) :: kvs)
  end.

(** [cmd == s] *)
Definition is_cmd (cmd : bytes) (s : string) : bool := bool_decide (cmd = str s).
Arguments is_cmd cmd s%_string.

Definition parseCommandExtended (data : bytes) : result Command :=
  match split_parts data with
  | [] => Err (errorf "invalid command")
  | p :: args =>
      let parts := p :: args in
      let cmd := cut data p in
      if is_cmd cmd "MSET" then
        if (len parts <? 3) || (len parts mod 2 =? 0)
        then Err (errorf "MSET requires pairs of keys and values")
        else kvs ← pairs_of data args;
          Ok (mkCommand cmd [] (0, 0) (Some (map fst kvs)) (map snd kvs))
      else if is_cmd cmd "MGET" || is_cmd cmd "MDEL" then
        if len parts <? 2 then Err (Errorf (cmd ++ str " requires at least one key"))
        else Ok (mkCommand cmd [] (0, 0) (Some (map (cut data) args)) [])
      else
        match args with
        | [] => Err (errorf "invalid command")
        | k :: rest => Ok (mkCommand cmd (cut data k) (default (0, 0) (head rest)) None [])
        end
  end.

(** The command, key and value of a line. *)
Definition parseCommand (data : bytes) : result (bytes * bytes * bytes) :=
  c ← parseCommandExtended data; Ok (c_cmd c, c_key c, cut data (c_value c)).

(** ** Routing *)

Definition shouldUseFastPath (avgLatency : Z) (cmd : bytes) : bool :=
  if is_cmd cmd "GET" || is_cmd cmd "EXISTS" || is_cmd cmd "MGET" then true
  else if is_cmd cmd "SET" || is_cmd cmd "DEL" then negb (FastPathThreshold <? avgLatency)
  else is_cmd cmd "INCR" || is_cmd cmd "DECR".

Section Text.
Context {bdg : Badger} {batch : BadgerBatch}.

(** ** Single operations

    The switch of [processFastPath] is that of the single commands of
    [processJob]. *)
Definition reply {A} (r : result A) (ok : A -> result bytes) : result bytes :=
  on_err r (fun err => Ok (formatError err)) ok.
Definition number_reply (val : Z) : result bytes :=
  buf ← PutUint64 (zeros 8) 0 (uint64 val); Ok (formatBulkString buf).

Definition single_command (st : KV.Storage) (cmd key value : bytes) : KV.Storage * result bytes :=
  if is_cmd cmd "SET" then
    let '(st, r) := KV.Set_ st key value 0 in (st, reply r (fun _ => Ok ok_line))
  else if is_cmd cmd "GET" then
    (st, reply (KV.Get st key) (fun val => Ok (formatBulkString val)))
  else if is_cmd cmd "DEL" then
    let '(st, r) := KV.Delete st key in (st, reply r (fun _ => Ok ok_line))
  else if is_cmd cmd "EXISTS" then
    (st, reply (KV.Exists st key) (fun b : bool => Ok (str (if b then ":1" else ":0") ++ CRLF)))
  else if is_cmd cmd "INCR" then
    let '(st, r) := KV.Incr st key in (st, reply r number_reply)
  else if is_cmd cmd "DECR" then
    let '(st, r) := KV.Decr st key in (st, reply r number_reply)
  else (st, Ok unknown_line).

(** ** Batches *)

(** [kvPairs[key] = values[i]]: the last entry of a key stands, and a key without
    a value panics. *)
Fixpoint add_pairs (kvPairs : KV.kv_map) (keys values : list bytes) : result KV.kv_map :=
  match keys, values with
  | [], _ => Ok kvPairs
  | _ :: _, [] => Panic
  | key :: keys, value :: values => add_pairs (<[key := value]> kvPairs) keys values
  end.
Definition pair_map (keys values : list bytes) : result KV.kv_map := add_pairs ∅ keys values.
Definition batch_set (e : Env) (st : KV.Storage) (keys values : list bytes)
    : KV.Storage * result unit :=
  match pair_map keys values with
  | Ok kvPairs => KV.BatchSet st (pair_order e kvPairs) 0
  | _ => (st, Panic)
  end.

(** The map of [BatchGet] as a slice in the order of the keys. *)
Definition in_key_order (keys : list bytes) (results : KV.kv_map) : list bytes :=
  map (fun key => default [] (results !! key)) keys.

(** ** The fast path *)

Definition processFastPath (e : Env) (w : World) (cmd key value : bytes) : result World :=
  let '(st, r) := single_command (store w.1) cmd key value in
  response ← r;
  Ok (respond e (on_server w (fun s => set_store s st)) response).

Definition sendError (e : Env) (w : World) (err : error) : World :=
  on_conn w (fun c => offer e c (formatError err)).

(** A full queue is counted, then reported on the same queue. *)
Definition respond_busy (e : Env) (w : World) (response : bytes) : World :=
  match select_send e (out_ready w.2) (done w.2) with
  | Full => sendError e (respond e w response) (errorf "server busy")
  | _ => respond e w response
  end.

Definition processFastPathBatch (e : Env) (w : World) (cmd : bytes) (keys values : list bytes)
    : result World :=
  if is_cmd cmd "MSET" then
    let '(st, r) := batch_set e (store w.1) keys values in
    let w := on_server w (fun s => set_store s st) in
    on_err r (fun err => Ok (sendError e w err)) (fun _ => Ok (respond_busy e w ok_line))
  else if is_cmd cmd "MGET" then
    on_err (KV.BatchGet (store w.1) keys) (fun err => Ok (sendError e w err)) (fun results =>
      Ok (respond_busy e w (formatBulkStrings (in_key_order keys results))))
  else if is_cmd cmd "MDEL" then
    let '(st, r) := KV.BatchDelete (store w.1) keys in
    let w := on_server w (fun s => set_store s st) in
    on_err r (fun err => Ok (sendError e w err)) (fun _ => Ok (respond_busy e w ok_line))
  else Ok (sendError e w (errorf "unknown command")).

(** ** The slow path *)

(** The queue is full: [sendError] and [opsErrors.Add(1)], in the one order or
    the other. *)
Definition busy (e : Env) (w : World) : World :=
  on_server (sendError e w (errorf "server busy")) (count count_error).

Definition processSlowPath (e : Env) (w : World) (id : Z) (cmd key : bytes) (value : window)
    : result World :=
  dispatch e w (mkJob id (readBuf w.2) cmd key value None []) (busy e).
Definition processSlowPathBatch (e : Env) (w : World) (id : Z) (cmd : bytes)
    (keys : list bytes) (values : list window) : result World :=
  dispatch e w (mkJob id (readBuf w.2) cmd [] (0, 0) (Some keys) values) (busy e).

(** [id] is the number of the connection, [data] the filled part of its read
    buffer. *)
Definition processRequestText (e : Env) (w : World) (id : Z) (data : bytes) : result World :=
  match parseCommandExtended data with
  | Err err => Ok (on_server (sendError e w err) (count count_error))
  | Panic => Panic
  | Ok (mkCommand cmd key value keys values) =>
      if shouldUseFastPath (avgLatency w.2) cmd then
        match keys with
        | Some keys => processFastPathBatch e w cmd keys (map (cut data) values)
        | None => processFastPath e w cmd key (cut data value)
        end
      else
        match keys with
        | Some keys => processSlowPathBatch e w id cmd keys values
        | None => processSlowPath e w id cmd key value
        end
  end.

(** ** The workers *)

(** [buf] is what the job's read buffer holds when a worker runs it. *)
Definition processJob (e : Env) (st : KV.Storage) (buf : bytes) (job : Job)
    : KV.Storage * result bytes :=
  let ks := default [] (keys job) in
  if is_cmd (cmd job) "MSET" then
    let '(st, r) := batch_set e st ks (map (cut buf) (values job)) in
    (st, reply r (fun _ => Ok ok_line))
  else if is_cmd (cmd job) "MGET" then
    (st, reply (KV.BatchGet st ks) (fun results =>
      Ok (formatBulkStrings (in_key_order ks results))))
  else if is_cmd (cmd job) "MDEL" then
    let '(st, r) := KV.BatchDelete st ks in
    (st, reply r (fun _ => Ok (str ":" ++ fmt_d (len ks) ++ CRLF)))
  else single_command st (cmd job) (key job) (cut buf (value job)).
End Text.
