(* ===== verification/ServerBinary.v ===== *)
(** The handlers of the binary protocol for the key-value store, the queue and
    the streams (internal/server/kv_handlers.go, queue_handlers.go and
    stream_handlers.go). *)
From stdpp Require Import base list numbers gmap strings.
From Stdlib Require Import ZArith Lia.
From S2P Require Import Prelude GoBytes Fmt Badger KVStorage QueueService StreamCodec StreamStorage StreamService Protocol ServerState ServerText.

Section Binary.
Context {bdg : Badger} {batch : BadgerBatch}.
Implicit Types (e : Env) (w : World) (req : Request).

(** ** Sending *)

Definition sendBinaryResponse e w (response : bytes) : World := respond e w response.

Definition sendBinaryError e w (err : error) : result World :=
  response ← EncodeErrorResponse err;
  Ok (on_conn w (fun c => offer e c response)).

(** [c.sendBinaryError(err); c.server.opsErrors.Add(1)] *)
Definition fail e w (err : error) : result World :=
  w ← sendBinaryError e w err; Ok (on_server w (count count_error)).

(** ** Key-value operations *)

(** The response to an operation, its error encoded as one. *)
Definition kv_reply {A} e w (r : result A) (ok : A -> result bytes) : result World :=
  response ← on_err r EncodeErrorResponse ok;
  Ok (sendBinaryResponse e w response).

Definition on_store {A} w (x : KV.Storage * result A) : World * result A :=
  (on_server w (fun s => set_store s x.1), x.2).

Definition processBinarySet e w req : result World :=
  let '(w, err) := on_store w (KV.Set_ (store w.1) (Key req) (Value req) 0) in
  kv_reply e w err (fun _ => EncodeOKResponse).

Definition processBinaryGet e w req : result World :=
  kv_reply e w (KV.Get (store w.1) (Key req)) EncodeValueResponse.

Definition processBinaryDel e w req : result World :=
  let '(w, err) := on_store w (KV.Delete (store w.1) (Key req)) in
  kv_reply e w err (fun _ => EncodeOKResponse).

(** A request has as many values as keys. *)
Definition processBinaryMSet e w req : result World :=
  let '(w, err) := on_store w (batch_set e (store w.1) (Keys req) (Values req)) in
  kv_reply e w err (fun _ => EncodeOKResponse).

Definition processBinaryMGet e w req : result World :=
  kv_reply e w (KV.BatchGet (store w.1) (Keys req)) (fun results =>
    EncodeMultiValueResponse (in_key_order (Keys req) results)).

Definition processBinaryMDel e w req : result World :=
  let '(w, err) := on_store w (KV.BatchDelete (store w.1) (Keys req)) in
  kv_reply e w err (fun _ => EncodeOKResponse).

(** ** Queue and stream operations

    An error is sent and counted; a response is counted by the handler once
    more than by [sendBinaryResponse]. *)
Definition served_reply {A} e w (r : result A) (ok : A -> result bytes) : result World :=
  on_err r (fail e w) (fun a =>
    response ← ok a;
    Ok (on_server (sendBinaryResponse e w response) (count count_fast))).

Definition on_queue {A} w (x : DB * result A) : World * result A :=
  (on_server w (fun s => set_queue s x.1), x.2).

Definition processBinaryQPush e w req : result World :=
  let '(w, err) := on_queue w
    (Queue_Push (queue w.1) (queue_uuid e) (queue_now e) (Key req) (Value req)) in
  served_reply e w err (fun _ => EncodeOKResponse).

Definition processBinaryQPop e w req : result World :=
  let '(w, value) := on_queue w (Queue_Pop (queue w.1) (Key req)) in
  served_reply e w value EncodeValueResponse.

Definition processBinaryQPeek e w req : result World :=
  served_reply e w (Queue_Peek (queue w.1) (Key req)) EncodeValueResponse.

Definition processBinaryQLen e w req : result World :=
  served_reply e w (Queue_Len (queue w.1) (Key req)) (fun length =>
    buf ← make_bytes 8;
    buf ← PutUint64 buf 0 length;
    EncodeValueResponse buf).

Definition processBinaryQClear e w req : result World :=
  let '(w, err) := on_queue w (Queue_Clear (queue w.1) (Key req)) in
  served_reply e w err (fun _ => EncodeOKResponse).

(** A method of the stream, which may be nil. *)
Definition on_stream {A} w (f : Stream -> Stream * result A) : World * result A :=
  match stream w.1 with
  | Some st => let '(st, r) := f st in (on_server w (fun s => set_stream s st), r)
  | None => (w, Panic)
  end.

Definition processBinarySPublish e w req : result World :=
  let '(w, offset) := on_stream w (fun st =>
    Publish (stream_now e) (stream_nano e) st (Protocol.Topic req) (Protocol.Partition req)
      (Key req) (Value req)) in
  served_reply e w offset (fun _ => EncodeOKResponse).

(** [[8:offset][8:timestamp][2:keyLen][key][4:valueLen][value]] *)
Definition encode_message (msg : Message) : result bytes :=
  let keyLen := len (StreamCodec.Key msg) in
  let valLen := len (StreamCodec.Value msg) in
  buf ← make_bytes (8 + 8 + 2 + keyLen + 4 + valLen);
  let pos := 0 in
  buf ← PutUint64 buf pos (uint64 (StreamCodec.Offset msg));
  let pos := pos + 8 in
  buf ← PutUint64 buf pos (uint64 (Timestamp msg));
  let pos := pos + 8 in
  buf ← PutUint16 buf pos (uint16 keyLen);
  let pos := pos + 2 in
  buf ← copy_at buf pos (StreamCodec.Key msg);
  let pos := pos + keyLen in
  buf ← PutUint32 buf pos (uint32 valLen);
  let pos := pos + 4 in
  copy_at buf pos (StreamCodec.Value msg).

Definition processBinarySConsume e w req : result World :=
  let '(w, msgs) := on_stream w (fun st =>
    Consume (stream_now e) (flush_order e) (arrival e) st (Protocol.Topic req) (Group req)
      (Protocol.Consumer req) (Count req)) in
  served_reply e w msgs (fun msgs =>
    values ← for_each msgs [] (fun values msg => buf ← encode_message msg; Ok (values ++ [buf]));
    EncodeMultiValueResponse values).

(** [req.RetentionMs] holds the offset. *)
Definition processBinarySCommit e w req : result World :=
  let '(w, err) := on_stream w (fun st =>
    Commit (stream_now e) st (Protocol.Topic req) (Group req) (Protocol.Partition req)
      (Protocol.RetentionMs req)) in
  served_reply e w err (fun _ => EncodeOKResponse).

Definition processBinarySCreateTopic e w req : result World :=
  let '(w, err) := on_stream w (fun st =>
    StreamService.CreateTopic (stream_now e) st (Protocol.Topic req) (Protocol.Partition req)
      (Protocol.RetentionMs req)) in
  served_reply e w err (fun _ => EncodeOKResponse).

Definition processBinarySSubscribe e w req : result World :=
  let '(w, err) := on_stream w (fun st =>
    Subscribe (stream_now e) (consumers e) st (Protocol.Topic req) (Group req)
      (Protocol.Consumer req)) in
  served_reply e w err (fun _ => EncodeOKResponse).

Definition processBinarySUnsubscribe e w req : result World :=
  let '(w, err) := on_stream w (fun st =>
    Unsubscribe (consumers e) st (Protocol.Topic req) (Group req) (Protocol.Consumer req)) in
  served_reply e w err (fun _ => EncodeOKResponse).

(** The deferred function recovers from a panic. *)
Definition processBinarySPublishBatch e w req : result World :=
  let messages := map (fun m => mkPublish (bmPartition m) (bmKey m) (bmValue m))
    (BatchMessages req) in
  let '(w, offsets) := on_stream w (fun st =>
    PublishBatch (stream_now e) (stream_clock e) (stream_nanos e) (group_order e) st
      (Protocol.Topic req) messages) in
  match offsets with
  | Panic => fail e w (errorf "internal server error")
  | _ => served_reply e w offsets (fun _ => EncodeOKResponse)
  end.
End Binary.
