(* ===== verification/ServerDocs.v ===== *)
(** The document handlers of the server (internal/server/db_handlers.go): the
    queries in JSON, and the answers. *)
From stdpp Require Import base list numbers gmap strings.
From Stdlib Require Import ZArith Lia.
From S2P Require Import Prelude GoBytes Fmt Badger GoFloat GoStrconv Json DocStorage DocHelpers DocStore Protocol ServerState ServerText ServerBinary GoValue.

(** ** Queries *)

Definition toString (val : value) : bytes :=
  match val with VString v => v | _ => sprint val end.

(** [m[k]] of a map whose missing entries read as nil. *)
Definition entry (m : bmap value) (k : string) : value := default VNil (m !! str k).
Arguments entry m k%_string.

(** One element of [filters]; what is not an object is skipped. *)
Definition filter_query (f : value) : option Query :=
  match f with
  | VObject filterMap =>
      Some (mkQuery (toString (entry filterMap "field")) (toString (entry filterMap "operator"))
        (entry filterMap "value"))
  | _ => None
  end.

(** [if x, ok := queryData[k].(float64); ok { .. = int(x) }] *)
Definition int_entry (queryData : bmap value) (k : string) : Z :=
  match entry queryData k with VFloat64 x => int_of_float x | _ => 0 end.
Arguments int_entry queryData k%_string.

Definition buildFindOptions (queryData : bmap value) : FindOptions :=
  let filters :=
    match entry queryData "filters" with VArray l => omap filter_query l | _ => [] end in
  let sort :=
    match entry queryData "sort" with
    | VObject sortMap => Some (mkSortOption (toString (entry sortMap "field"))
        (toString (entry sortMap "direction")))
    | _ => None
    end in
  mkFindOptions filters sort (int_entry queryData "skip") (int_entry queryData "limit") [].

(** A nil slice of documents is encoded as null. *)
Definition results_value (results : option (list Document)) : value :=
  match results with Some l => VArray (map VObject l) | None => VNil end.

Section Docs.
Context {bdg : Badger} {batch : BadgerBatch}.
Implicit Types (e : Env) (w : World) (req : Request).

Definition no_store : error := errorf "document store not available".

(** Wait for room in [outQueue], then count the operation. *)
Definition send_counted e w (response : bytes) : World :=
  send_wait e w response (fun w => on_server w (count count_processed)).

(** The answer of a handler: an error is sent and counted. *)
Definition doc_reply {A} e w (r : result A) (ok : A -> result bytes) : result World :=
  on_err r (fail e w) (fun a =>
    response ← ok a; Ok (send_counted e w response)).

Definition on_docs {A} w (x : DocStore * result A) : World * result A :=
  (on_server w (fun s => set_docs s x.1), x.2).

Definition processBinaryDocInsert e w req : result World :=
  match docs w.1 with
  | None => fail e w no_store
  | Some ds =>
      on_err (unmarshal_doc (Value req))
        (fun err => fail e w (wrap (str "invalid JSON document") err)) (fun doc =>
      let '(w, id) := on_docs w
        (let '(ds, _, r) := DocStore.Insert (doc_now e 0) (doc_uuid e) ds (Collection req) (Some doc) in
         (ds, r)) in
      doc_reply e w id EncodeValueResponse)
  end.

Definition processBinaryDocFind e w req : result World :=
  match docs w.1 with
  | None => fail e w no_store
  | Some ds =>
      on_err (unmarshal_doc (Value req))
        (fun err => fail e w (wrap (str "invalid query format") err)) (fun queryData =>
      let results := DocStore.Find ds (Collection req) (buildFindOptions queryData) in
      doc_reply e w (results ← results; Marshal (results_value results)) EncodeValueResponse)
  end.

(** The loop over the results of the query, with the number of the turn; the
    documents that cannot be updated are skipped. *)
Fixpoint update_all e (ds : DocStore) (collection : bytes) (updateData : Document)
    (results : list Document) (i updated : Z) : DocStore * result Z :=
  match results with
  | [] => (ds, Ok updated)
  | doc :: results =>
      match as_string (doc !! str "_id") with
      | None => update_all e ds collection updateData results (i + 1) updated
      | Some id =>
          match DocStore.Update (doc_now e i) ds collection id
                  (mkUpdateOptions (Some updateData) [] true) with
          | (ds, _, Ok _) => update_all e ds collection updateData results (i + 1) (updated + 1)
          | (ds, _, Err _) => update_all e ds collection updateData results (i + 1) updated
          | (ds, _, Panic) => (ds, Panic)
          end
      end
  end.

Definition processBinaryDocUpdate e w req : result World :=
  match docs w.1 with
  | None => fail e w no_store
  | Some ds =>
      on_err (unmarshal_doc (Value req))
        (fun err => fail e w (wrap (str "invalid options format") err)) (fun optsData =>
      match entry optsData "set" with
      | VObject updateData =>
          on_err (DocStore.Find ds (Collection req) (buildFindOptions optsData)) (fail e w)
            (fun results =>
          let '(w, updated) := on_docs w
            (update_all e ds (Collection req) updateData (default [] results) 0 0) in
          doc_reply e w updated (fun updated =>
            EncodeValueResponse ((123 :: 34 :: str "updated") ++ (34 :: 58 :: fmt_d updated) ++ [125])))
      | _ => fail e w (errorf "missing 'set' in update options")
      end)
  end.

Definition processBinaryDocDelete e w req : result World :=
  match docs w.1 with
  | None => fail e w no_store
  | Some ds =>
      on_err (unmarshal_doc (Value req))
        (fun err => fail e w (wrap (str "invalid query format") err)) (fun queryData =>
      let '(w, deleted) := on_docs w
        (DocStore.DeleteMany ds (Collection req) (buildFindOptions queryData)) in
      doc_reply e w deleted (fun deleted =>
        EncodeValueResponse ((123 :: 34 :: str "deleted") ++ (34 :: 58 :: fmt_d deleted) ++ [125])))
  end.

Definition processBinaryDocIndex e w req : result World :=
  match docs w.1 with
  | None => fail e w no_store
  | Some ds =>
      let '(w, err) := on_docs w
        (DocStore.CreateIndex (field_order e) ds (Collection req) (Key req)) in
      doc_reply e w err (fun _ => EncodeValueResponse (str "OK"))
  end.
End Docs.
