(* ===== verification/Server.v ===== *)
(** The server (internal/server/server.go): dispatch of binary requests, routing
    between the two protocols, and the steps of a running server: read loops,
    write loops, workers, connections and shutdown. *)
From stdpp Require Import base list numbers gmap strings.
From Stdlib Require Import ZArith Lia.
From S2P Require Import Prelude GoBytes Fmt Badger KVStorage StreamService DocStore Protocol ProtocolDecode ServerState ServerText ServerBinary ServerDocs.

Section Dispatch.
Context {bdg : Badger} {batch : BadgerBatch}.
Implicit Types (e : Env) (w : World).

(** ** Dispatch *)

(** The switch of [processRequestBinary]. *)
Definition handle e w (req : Request) : result World :=
  let op := OpCode req in
  if op =? OpSet then processBinarySet e w req
  else if op =? OpGet then processBinaryGet e w req
  else if op =? OpDel then processBinaryDel e w req
  else if op =? OpMSet then processBinaryMSet e w req
  else if op =? OpMGet then processBinaryMGet e w req
  else if op =? OpMDel then processBinaryMDel e w req
  else if op =? OpQPush then processBinaryQPush e w req
  else if op =? OpQPop then processBinaryQPop e w req
  else if op =? OpQPeek then processBinaryQPeek e w req
  else if op =? OpQLen then processBinaryQLen e w req
  else if op =? OpQClear then processBinaryQClear e w req
  else if op =? OpSPublish then processBinarySPublish e w req
  else if op =? OpSConsume then processBinarySConsume e w req
  else if op =? OpSCommit then processBinarySCommit e w req
  else if op =? OpSCreateTopic then processBinarySCreateTopic e w req
  else if op =? OpSPublishBatch then processBinarySPublishBatch e w req
  else if op =? OpSSubscribe then processBinarySSubscribe e w req
  else if op =? OpSUnsubscribe then processBinarySUnsubscribe e w req
  else if op =? OpDocInsert then processBinaryDocInsert e w req
  else if op =? OpDocFind then processBinaryDocFind e w req
  else if op =? OpDocUpdate then processBinaryDocUpdate e w req
  else if op =? OpDocDelete then processBinaryDocDelete e w req
  else if op =? OpDocIndex then processBinaryDocIndex e w req
  else fail e w (errorf "unknown opcode").

Definition processRequestBinary e w (data : bytes) : result World :=
  on_err (DecodeRequest data) (fail e w) (handle e w).

(** The first byte tells the protocols apart. *)
Definition is_binary (data : bytes) : bool :=
  match data with
  | b :: _ => ((0x01 <=? b) && (b <=? 0x12)) || ((0x20 <=? b) && (b <=? 0x24)) ||
      ((0x30 <=? b) && (b <=? 0x36)) || ((0x40 <=? b) && (b <=? 0x44))
  | [] => false
  end.

Definition processRequestHybrid e w (id : Z) (data : bytes) : result World :=
  if is_binary data then processRequestBinary e w data else processRequestText e w id data.

(** ** The running server

    [buffers] are the read buffers ever made, [pool] those waiting to be used
    again.  A connection keeps its number; [open_] are those whose loops run. *)
Record System : Type := mkSystem {
  server : Server;
  connections : gmap Z Connection;
  open_ : gset Z;
  buffers : gmap Z bytes;
  pool : list Z;
}.
Implicit Types sys : System.

Definition set_connection sys (s : Server) (id : Z) (c : Connection) : System :=
  mkSystem s (<[id := c]> (connections sys)) (open_ sys) (buffers sys) (pool sys).

(** A new buffer has [readBuf_size] bytes. *)
Definition make_buffer (bufs : gmap Z bytes) (buf : Z) : gmap Z bytes :=
  match bufs !! buf with Some _ => bufs | None => <[buf := zeros readBuf_size]> bufs end.

(** [handleConnection] takes two buffers, from the pool or new, for the
    connection of number [id]. *)
Definition accept sys (id rbuf wbuf : Z) : System :=
  mkSystem (server sys)
    (<[id := mkConnection rbuf wbuf [] [] (stopped (server sys)) 0 0]> (connections sys))
    ({[id]} ∪ open_ sys)
    (make_buffer (make_buffer (buffers sys) rbuf) wbuf)
    (filter (fun b => b <> rbuf /\ b <> wbuf) (pool sys)).

(** The loops have ended: the buffers go back to the pool. *)
Definition hang_up sys (id : Z) (c : Connection) : System :=
  mkSystem (server sys) (connections sys) (open_ sys ∖ {[id]})
    (buffers sys) (readBuf c :: writeBuf c :: pool sys).

(** [conn.Read(c.readBuf)] of [data]: the rest of the buffer keeps its bytes. *)
Definition fill_buffer (buf data : bytes) : bytes := data ++ dropZ (len data) buf.

(** A turn of [readLoop] that read [data]. *)
Definition read_step e sys (id : Z) (c : Connection) (data : bytes) : result System :=
  let buf := default [] (buffers sys !! readBuf c) in
  let sys := mkSystem (server sys) (connections sys) (open_ sys)
    (<[readBuf c := fill_buffer buf data]> (buffers sys)) (pool sys) in
  '(s, c) ← processRequestHybrid e (server sys, c) id data;
  Ok (set_connection sys s id c).

(** A turn of a worker: the first job is run, its response is sent to its
    connection or dropped. *)
Definition worker_step e sys (job : Job) (jobs : list Job) (c : Connection) : result System :=
  let s := set_jobs (server sys) jobs in
  let '(st, r) := processJob e (store s) (default [] (buffers sys !! jbuf job)) job in
  response ← r;
  let '(s, c) := answer_job e (set_store s st, c) response in
  Ok (set_connection sys s (conn job) c).

(** [Stop]: the contexts are cancelled, the job queue is closed. *)
Definition stop_server (s : Server) : Server :=
  mkServer (store s) (queue s) (stream s) (docs s) (jobQueue s) (metrics s) true.
Definition Stop sys : System :=
  mkSystem (stop_server (server sys)) (cancel <$> connections sys) (open_ sys) (buffers sys)
    (pool sys).

(** Time passes: the keys alone have times to live. *)
Definition elapse (d : Z) sys : System :=
  mkSystem (set_store (server sys) (KV.elapse d (store (server sys)))) (connections sys) (open_ sys)
    (buffers sys) (pool sys).

(** The steps of a system that do not end the process.  A loop that waits when
    its context is cancelled may still read, or choose to write. *)
Inductive step : System -> System -> Prop :=
| Accept sys id rbuf wbuf :
    connections sys !! id = None -> rbuf <> wbuf ->
    rbuf ∈ pool sys \/ buffers sys !! rbuf = None ->
    wbuf ∈ pool sys \/ buffers sys !! wbuf = None ->
    step sys (accept sys id rbuf wbuf)
| Read e sys id c data sys' :
    connections sys !! id = Some c -> id ∈ open_ sys ->
    0 < len data <= readBuf_size ->
    read_step e sys id c data = Ok sys' ->
    step sys sys'
| Write sys id c :
    connections sys !! id = Some c -> id ∈ open_ sys ->
    step sys (set_connection sys (server sys) id (take_message c))
| Work e sys job jobs c sys' :
    jobQueue (server sys) = job :: jobs -> connections sys !! conn job = Some c ->
    worker_step e sys job jobs c = Ok sys' ->
    step sys sys'
| Cancel sys id c :
    connections sys !! id = Some c -> id ∈ open_ sys ->
    step sys (set_connection sys (server sys) id (cancel c))
| HangUp sys id c :
    connections sys !! id = Some c -> id ∈ open_ sys -> done c = true ->
    step sys (hang_up sys id c)
| Stopping sys :
    stopped (server sys) = false -> step sys (Stop sys)
| Elapses d sys :
    0 <= d -> step sys (elapse d sys).

(** [NewServerWithWorkers] once it listens: nothing is queued or counted, and the
    workers wait for jobs. *)
Definition NewServerWithWorkers (store : KV.Storage) (q : DB) (stream : option Stream)
    (docStore : option DocStore) : Server :=
  mkServer store q stream docStore [] (mkMetrics 0 0 0 0 0) false.
Definition NewServer (store : KV.Storage) (q : DB) (docStore : option DocStore) : Server :=
  NewServerWithWorkers store q None docStore.

Definition start (s : Server) : System := mkSystem s ∅ ∅ ∅ [].

(** A turn of the loop of [Start]: a connection, with its number and buffers, or
    an error of the listener; true ends the loop. *)
Definition accept_turn sys (event : option (Z * Z * Z)) : System * bool :=
  match event with
  | Some (id, rbuf, wbuf) => (accept sys id rbuf wbuf, false)
  | None => (sys, stopped (server sys))
  end.

(** Between two steps no worker is busy. *)
Definition Stats sys (workers : Z) : list (string * Z) :=
  let m := metrics (server sys) in
  [("active_connections", Z.of_nat (size (open_ sys)));
   ("ops_processed", opsProcessed m);
   ("ops_fast_path", opsFastPath m);
   ("ops_slow_path", opsSlowPath m);
   ("ops_errors", opsErrors m);
   ("worker_pool_size", workers);
   ("active_workers", 0);
   ("jobs_processed", jobsProcessed m);
   ("job_queue_len", len (jobQueue (server sys)));
   ("job_queue_cap", DefaultJobQueueSize)]%string.

Definition GetKVStore sys : KV.Storage := store (server sys).
Definition GetQueue sys : DB := queue (server sys).
End Dispatch.
