(* ===== verification/ServerWire.v ===== *)
(** The server and the wire: one request per read, what becomes of requests that
    do not fit the read buffer, of text that looks binary, and of malformed
    frames. *)
From stdpp Require Import base list numbers gmap strings.
From Stdlib Require Import ZArith Lia.
From S2P Require Import Prelude GoBytes Fields Fmt Badger Protocol ProtocolDecode ProtocolSpec ProtocolParse ProtocolCorrect ServerState ServerText ServerBinary Server.

(** ** Frames *)

(** What a client encodes is decoded as it was meant, whatever follows. *)
Lemma decode_call c rest :
  fits c -> exists w, len w < 2 ^ 32 - 5 /\ encode_call c = Ok (frame (OpCode (intended c)) w) /\
    DecodeRequest (frame (OpCode (intended c)) w ++ rest) = Ok (intended c).
Proof.
  intros Hf. destruct (encode_call_wire c Hf) as (w & HW & Hlen & He).
  exists w. split_and!; [done|done|]. rewrite DecodeRequest_frame by done.
  rewrite <- (app_nil_r w). by apply decodePayload_complete.
Qed.

Lemma call_binary c w rest : fits c -> is_binary (frame (OpCode (intended c)) w ++ rest) = true.
Proof. by destruct c. Qed.

(** A header that announces more than was read. *)
Lemma announced_too_much data :
  5 <= len data -> len data - 5 < payload_length data < 2 ^ 32 - 5 ->
  DecodeRequest data = Err (errorf "incomplete request").
Proof.
  intros H5 Hp. rewrite DecodeRequest_cases by (unfold u32; lia).
  rewrite (proj2 (Z.ltb_lt _ _)) by lia. by rewrite (proj2 (Z.ltb_lt (len data) _)) by lia.
Qed.

Lemma payload_length_header op n rest :
  u32 n -> payload_length (op :: be32 n ++ rest) = n.
Proof.
  intros Hn. unfold payload_length. change (op :: ?l) with ([op] ++ l).
  rewrite dropZ_app_eq, takeZ_app_eq by len_lia.
  unfold be32. rewrite be_get_put. by apply Z.mod_small.
Qed.

Section Wire.
Context {bdg : Badger} {batch : BadgerBatch}.
Implicit Types (e : Env) (w : World).

Lemma hybrid_binary e w id data :
  is_binary data = true ->
  processRequestHybrid e w id data = on_err (DecodeRequest data) (fail e w) (handle e w).
Proof. intros Hb. unfold processRequestHybrid. by rewrite Hb. Qed.

Lemma hybrid_refused e w id data :
  is_binary data = true -> 5 <= len data ->
  len data - 5 < payload_length data < 2 ^ 32 - 5 ->
  processRequestHybrid e w id data = fail e w (errorf "incomplete request").
Proof. intros Hb H5 Hp. by rewrite hybrid_binary, announced_too_much. Qed.

(** The first frame of a read is handled. *)
Lemma hybrid_calls e w id c data rest :
  fits c -> encode_call c = Ok data ->
  processRequestHybrid e w id (data ++ rest) = handle e w (intended c).
Proof.
  intros Hf He. destruct (decode_call c rest Hf) as (p & _ & Hp & Hd).
  assert (data = frame (OpCode (intended c)) p) as -> by congruence.
  rewrite hybrid_binary by by apply call_binary. by rewrite Hd.
Qed.

Lemma hybrid_call e w id c data :
  fits c -> encode_call c = Ok data -> processRequestHybrid e w id data = handle e w (intended c).
Proof. intros. rewrite <- (app_nil_r data). by apply hybrid_calls. Qed.

(** ** Properties *)

(** A read that begins with the frame of a client's request is answered
    by the request's handler, and by nothing else: further requests in the same
    read are lost. *)
Theorem one_request_per_read e w id c rest :
  fits c ->
  (data ← encode_call c; processRequestHybrid e w id (data ++ rest)) = handle e w (intended c).
Proof.
  intros Hf. destruct (decode_call c rest Hf) as (p & _ & He & _).
  rewrite He, bind_ok. by apply hybrid_calls.
Qed.

(** C37: a SET whose frame is longer than the read buffer fails, and the bytes
    of its value that do not fit are executed as a request of their own. *)
Theorem long_value_is_executed e w id k pad c data :
  short k -> 11 + len k + len pad = readBuf_size ->
  fits c -> encode_call c = Ok data -> len pad + len data < 2 ^ 31 ->
  exists wire, encode_call (CallSet k (pad ++ data)) = Ok wire /\
    processRequestHybrid e w id (takeZ readBuf_size wire)
    = fail e w (errorf "incomplete request") /\
    forall e' w', processRequestHybrid e' w' id (dropZ readBuf_size wire)
                  = handle e' w' (intended c).
Proof.
  intros Hsk Hl Hf Hd Hn. unfold short, u16, readBuf_size in *.
  destruct (decode_call c [] Hf) as (p & Hlen & Hd' & _).
  cbn [encode_call]. rewrite EncodeSetRequest_frame. eexists. split; [done|].
  set (n := len (str16 k ++ blob32 (pad ++ data))).
  assert (Hpl : n = 6 + len k + (len pad + len data)) by (unfold n; len_lia).
  set (first := OpSet :: be32 n ++ str16 k ++ be32 (len (pad ++ data)) ++ pad).
  assert (E : frame OpSet (str16 k ++ blob32 (pad ++ data)) = first ++ data).
  { unfold first, frame, blob32. fold n. cbn [app]. by rewrite <- !app_assoc. }
  assert (Hfl : len first = 32768) by (unfold first; len_lia).
  assert (Hdl : 0 < len data).
  { assert (data = frame (OpCode (intended c)) p) as -> by congruence. unfold frame. len_lia. }
  rewrite E. split.
  - rewrite takeZ_app_eq by lia. apply hybrid_refused; [done|lia|].
    unfold first at 2 3. rewrite payload_length_header by (unfold u32; len_lia). len_lia.
  - intros e' w'. rewrite dropZ_app_eq by lia. by apply hybrid_call.
Qed.

(** An error answered: the stores stay as they are. *)
Lemma fail_spec e w err :
  fail e w err = Ok (count count_error w.1,
    offer e w.2 (frame StatusError (error_text err))).
Proof. unfold fail, sendBinaryError. by rewrite EncodeErrorResponse_frame. Qed.

(** The text commands DEL and DECR begin with the opcode of a document
    request: whatever follows, they are answered with a binary error and delete
    or count nothing. *)
Theorem delete_command_refused e w id cmd rest :
  cmd ∈ [str "DEL "; str "DECR"] -> bytes_ok rest -> 0 < len rest ->
  len cmd + len rest <= readBuf_size ->
  processRequestHybrid e w id (cmd ++ rest)
  = Ok (count count_error w.1,
      offer e w.2 (frame StatusError (str "incomplete request"))).
Proof.
  intros Hc Hok Hr Hl. destruct rest as [|b rest]; [done|].
  apply Forall_cons in Hok as [Hb _]. unfold byte_ok, readBuf_size in *.
  assert (Hp : exists x y, payload_length (cmd ++ b :: rest) = be_get [69; x; y; b] /\
    0 <= x < 256 /\ 0 <= y < 256).
  { repeat (apply elem_of_cons in Hc as [->|Hc]); [exists 76, 32|exists 67, 82|];
      (done || by apply elem_of_nil in Hc). }
  destruct Hp as (x & y & Hp & Hx & Hy). cbn in Hp.
  assert (H4 : len cmd = 4 /\ is_binary (cmd ++ b :: rest) = true).
  { repeat (apply elem_of_cons in Hc as [->|Hc]); (done || by apply elem_of_nil in Hc). }
  rewrite hybrid_refused; [by rewrite fail_spec|by apply H4|len_lia|]. rewrite Hp. len_lia.
Qed.

(** A single-key frame whose key length field is 65534 or 65535 ends the
    process, whatever the state of the server. *)
Theorem malformed_frame_ends_process e w id op n rest :
  op ∈ simple_ops -> 65534 <= n <= 65535 ->
  processRequestHybrid e w id (frame op (be16 n) ++ rest) = Panic.
Proof.
  intros Hop Hn. assert (Hp : bytes_ok (be16 n)) by apply be_put_ok.
  assert (Hkl : key_length (be16 n) = n).
  { unfold key_length. rewrite takeZ_all by len_lia. unfold be16. rewrite be_get_put.
    apply Z.mod_small. lia. }
  rewrite hybrid_binary.
  - rewrite DecodeRequest_frame by len_lia.
    pose proof (decodePayload_outcome op (be16 n) Hp) as Ho.
    rewrite decide_True in Ho; [by rewrite Ho|]. split_and!; [done|len_lia|lia].
  - unfold simple_ops in Hop. repeat (apply elem_of_cons in Hop as [->|Hop]); try done.
    by apply elem_of_nil in Hop.
Qed.

(** The counters are out of a client's reach: EXISTS, INCR and DECR
    requests are well-formed, and answered as unknown. *)
Theorem counter_requests_unknown e w id c rest :
  fits c -> OpCode (intended c) ∈ [OpExists; OpIncr; OpDecr] ->
  (data ← encode_call c; processRequestHybrid e w id (data ++ rest))
  = Ok (count count_error w.1, offer e w.2 (frame StatusError (str "unknown opcode"))).
Proof.
  intros Hf Hop. destruct (decode_call c rest Hf) as (p & Hlen & -> & Hd).
  rewrite bind_ok, hybrid_binary, Hd by by apply call_binary. cbn [on_err].
  by destruct c; try (exfalso; revert Hop; by apply (bool_decide_eq_false_1 _));
    unfold handle; cbn; rewrite fail_spec.
Qed.
End Wire.
