(* ===== verification/ServerKV.v ===== *)
(** The stores behind the binary protocol: requests on keys are operations on the
    finite map behind the server; what a client inserts into the documents is
    stored and answered with its id. *)
From stdpp Require Import base list numbers gmap strings.
From Stdlib Require Import ZArith Lia.
From S2P Require Import Prelude GoBytes Fields Fmt Badger KVStorage KVCorrect KVRefine Protocol ProtocolDecode ProtocolSpec ProtocolParse ProtocolCorrect ProtocolTrip ServerState ServerText ServerBinary Server ServerWire Json JsonTrip DocStorage DocHelpers DocStore DocSpec DocRefine DocIndex ServerDocs GoValue.

(** ** Maps of pairs

    The map built from a list of pairs, written in any order, is the list's
    writes in its own order. *)
Definition insert_pairs (m : KV.kv_map) (kvs : list (bytes * bytes)) : KV.kv_map :=
  foldl (fun m kv => <[kv.1 := kv.2]> m) m kvs.

Lemma insert_pairs_union m kvs : insert_pairs m kvs = insert_pairs ∅ kvs ∪ m.
Proof.
  unfold insert_pairs. rewrite <- (left_id_L ∅ (∪) m) at 1. generalize (∅ : KV.kv_map). revert m.
  induction kvs as [|kv kvs IH]; intros m a; cbn [foldl]; [done|].
  by rewrite insert_union_l, IH.
Qed.

Lemma elem_of_insert_pairs k m kvs :
  is_Some (insert_pairs m kvs !! k) <-> k ∈ map fst kvs \/ is_Some (m !! k).
Proof.
  unfold insert_pairs. revert m. induction kvs as [|[x v] kvs IH]; intros m; cbn [foldl map].
  - split; [auto|]. by intros [[]%elem_of_nil|].
  - rewrite IH, elem_of_cons, lookup_insert_is_Some'. intuition auto.
Qed.

Lemma pairs_perm (m : KV.kv_map) l : l ≡ₚ map_to_list m -> insert_pairs ∅ l = m.
Proof.
  intros Hp. assert (Hnd : NoDup (map fst l)).
  { rewrite Hp. apply NoDup_fst_map_to_list. }
  unfold insert_pairs. rewrite foldl_entries, (right_id_L ∅ (∪)) by done.
  rewrite <- (list_to_map_to_list m). by apply list_to_map_proper.
Qed.

Lemma set_writes kvs m :
  apply_writes (map (fun kv => WSet kv.1 kv.2 None) kvs) m = insert_pairs m kvs.
Proof.
  unfold apply_writes, insert_pairs. revert m. induction kvs as [|kv kvs IH]; intros m; cbn; [done|].
  apply IH.
Qed.

Lemma set_ttls kvs (x : ttls) k :
  apply_ttls (map (fun kv => WSet kv.1 kv.2 None) kvs) x !! k
  = if decide (k ∈ map fst kvs) then None else x !! k.
Proof.
  unfold apply_ttls. revert x. induction kvs as [|[a v] kvs IH]; intros x; cbn [map foldl].
  { by rewrite decide_False by apply not_elem_of_nil. }
  rewrite IH. cbn [apply_ttl fst]. repeat case_decide; rewrite ?elem_of_cons in *; try tauto.
  - assert (k = a) as -> by tauto. by rewrite lookup_delete_eq.
  - rewrite lookup_delete_ne; [done|]. intros ->. tauto.
Qed.

Lemma batch_set_order v kvs l :
  l ≡ₚ map_to_list (insert_pairs ∅ kvs) ->
  kv_spec v (OBatchSet l 0) = kv_spec v (OBatchSet kvs 0).
Proof.
  intros Hp. assert (Hk : forall k, k ∈ map fst l <-> k ∈ map fst kvs).
  { intros k. pose proof (elem_of_insert_pairs k ∅ l) as H1.
    pose proof (elem_of_insert_pairs k ∅ kvs) as H2.
    rewrite (pairs_perm _ _ Hp), lookup_empty in H1. rewrite lookup_empty in H2.
    pose proof (is_Some_None (A := bytes)). tauto. }
  unfold kv_spec. cbn [op_keys]. destruct (kclosed v); [done|].
  rewrite (decide_ext ([] ∈ map fst l) _ _ _ (Hk [])). case_decide; [done|].
  cbn [kv_open op_writes]. unfold written. change (ttl_of 0) with (@None Z).
  f_equal. f_equal.
  - by rewrite !set_writes, insert_pairs_union, (pairs_perm _ _ Hp), <- insert_pairs_union.
  - apply map_eq. intros k. rewrite !set_ttls. by apply decide_ext.
Qed.

(** ** The answers *)

(** The operation of the storage that a client's call asks for. *)
Definition kv_op (c : ClientCall) : option KVOp :=
  match c with
  | CallSet k v => Some (OSet k v 0)
  | CallGet k => Some (OGet k)
  | CallDelete k => Some (ODelete k)
  | CallMSet kvs => Some (OBatchSet kvs 0)
  | CallMGet ks => Some (OBatchGet ks)
  | CallMDelete ks => Some (OBatchDelete ks)
  | _ => None
  end.

(** What the client is told of the outcome: the values of an MGET in the order
    of its keys, empty where there is none. *)
Definition kv_answer (op : KVOp) (r : result KVReply) : Reply :=
  match r with
  | Ok (KVCorrect.RValue v) => ReplyValue v
  | Ok (RMap m) => ReplyMulti (in_key_order (op_keys op) m)
  | Err err => ReplyError err
  | _ => ReplyOK
  end.

(** A connection that is open and has room for a response. *)
Definition ready (c : Connection) : Prop := done c = false /\ len (outQueue c) < outQueue_cap.

Section Answers.
Context {bdg : Badger} {batch : BadgerBatch}.
Implicit Types (e : Env) (w : World) (s : Server).

(** The order of a loop over a map is one of its entries. *)
Definition orders_pairs e : Prop := forall m, pair_order e m ≡ₚ map_to_list m.

(** The operation as the handler calls the storage. *)
Definition called e (op : KVOp) : KVOp :=
  match op with
  | OBatchSet kvs ttl => OBatchSet (pair_order e (insert_pairs ∅ kvs)) ttl
  | op => op
  end.

(** The server sets no times to live. *)
Definition no_ttl (op : KVOp) : Prop :=
  match op with OSet _ _ ttl | OBatchSet _ ttl => ttl = 0 | _ => True end.

Definition same_but_store s s' : Prop :=
  queue s' = queue s /\ stream s' = stream s /\ docs s' = docs s /\ jobQueue s' = jobQueue s /\
  stopped s' = stopped s.

Lemma set_store_id w : on_server w (fun s => set_store s (store w.1)) = w.
Proof. by destruct w as [[] ?]. Qed.

Lemma pair_map_zip ks vs :
  length ks = length vs -> pair_map ks vs = Ok (insert_pairs ∅ (zip ks vs)).
Proof.
  unfold pair_map, insert_pairs. generalize (∅ : KV.kv_map). revert vs.
  induction ks as [|k ks IH]; intros [|v vs] m Hl; try done. injection Hl as Hl. cbn. by apply IH.
Qed.

Lemma pair_map_pairs kvs : pair_map (map fst kvs) (map snd kvs) = Ok (insert_pairs ∅ kvs).
Proof. rewrite pair_map_zip by by rewrite !length_map. by rewrite zip_pairs. Qed.

Lemma handle_kv e w c op :
  kv_op c = Some op ->
  let x := kv_exec (store w.1) (called e op) in
  x.2 <> Panic ->
  handle e w (intended c) =
    (response ← encode_reply (kv_answer op x.2);
     Ok (respond e (on_server w (fun s => set_store s x.1)) response)).
Proof.
  intros Hop x. destruct c; try done; injection Hop as <-; subst x; unfold handle;
    cbn - [EncodeOKResponse EncodeValueResponse EncodeMultiValueResponse EncodeErrorResponse
      respond KV.Set_ KV.Get KV.Delete KV.BatchSet KV.BatchGet KV.BatchDelete set_store pair_map];
    unfold processBinaryGet, processBinaryMGet, kv_reply, sendBinaryResponse, batch_set;
    rewrite ?pair_map_pairs, ?set_store_id; cbn [Key Keys set_Key set_Keys key_request].
  - by destruct (KV.Set_ (store w.1) key value 0) as [st []].
  - by destruct (KV.Get (store w.1) key).
  - by destruct (KV.Delete (store w.1) key) as [st []].
  - by destruct (KV.BatchSet (store w.1) _ 0) as [st []].
  - by destruct (KV.BatchGet (store w.1) keys).
  - by destruct (KV.BatchDelete (store w.1) keys) as [st []].
Qed.

Lemma respond_ready e w response :
  ready w.2 ->
  let w' := respond e w response in
  outQueue w'.2 = outQueue w.2 ++ [response] /\ store w'.1 = store w.1 /\
  same_but_store w.1 w'.1.
Proof.
  destruct w as [s c]. unfold ready. cbn [fst snd]. intros [Hd Hl].
  unfold respond, select_send, out_ready. rewrite (proj2 (Z.ltb_lt _ _) Hl), Hd. done.
Qed.

Lemma called_spec e op v :
  orders_pairs e -> no_ttl op -> kv_spec v (called e op) = kv_spec v op.
Proof.
  intros He Ht. destruct op; try done. cbn in Ht. subst ttl. by apply batch_set_order, He.
Qed.

Lemma spec_no_panic v op : (kv_spec v op).2 <> Panic.
Proof.
  unfold kv_spec. destruct (kclosed v); [done|]. case_decide; [done|].
  destruct op; cbn; try done. by destruct (kmap v !! key).
Qed.
End Answers.

(** ** Properties *)

Section EndToEnd.
Context {bdg : Badger} {laws : BadgerLaws} {batch : BadgerBatch} {blaws : BadgerBatchLaws}.
Context {rel : BadgerReliable}.
Implicit Types (e : Env) (w : World).

(** The storage does what the specification says, whichever order the entries
    of a batch are written in. *)
Lemma called_exec e (st : KV.Storage) op :
  orders_pairs e -> no_ttl op ->
  (kv_exec st (called e op)).2 = (kv_spec (view st) op).2 /\
  view (kv_exec st (called e op)).1 = (kv_spec (view st) op).1.
Proof.
  intros He Ht. rewrite <- (called_spec e op _ He Ht). apply kv_reliable.
  destruct op; try done; cbn in *; left; lia.
Qed.

(** A key-value request that a client encodes, the server serves and the
    client decodes, is an operation on the finite map behind the storage: the
    map changes as specified, nothing else does, and the client reads the
    specified answer. *)
Theorem kv_end_to_end e w id c op data :
  kv_op c = Some op -> fits c -> encode_call c = Ok data ->
  orders_pairs e -> ready w.2 ->
  let x := kv_spec (view (store w.1)) op in
  reply_fits (kv_answer op x.2) ->
  exists w' response,
    processRequestHybrid e w id data = Ok w' /\
    view (store w'.1) = x.1 /\ same_but_store w.1 w'.1 /\
    outQueue w'.2 = outQueue w.2 ++ [response] /\
    DecodeResponse response = Ok (reply_response (kv_answer op x.2)).
Proof.
  intros Hop Hf Hd He Hr x Hfit.
  rewrite (hybrid_call e w id c data Hf Hd).
  destruct (called_exec e (store w.1) op He) as [H2 H1];
    [by destruct c; try done; injection Hop as <-|].
  rewrite (handle_kv e w c op Hop) by (rewrite H2; apply spec_no_panic).
  fold x in H1, H2. rewrite H2, encode_reply_frame, bind_ok.
  destruct (respond_ready e (on_server w (fun s => set_store s (kv_exec (store w.1) (called e op)).1))
    (frame (Status (reply_response (kv_answer op x.2))) (reply_payload (kv_answer op x.2))) Hr)
    as (Ho & Hst & Hsame).
  eexists _, _. split_and!; [done|by rewrite Hst|done|exact Ho|].
  pose proof (decode_reply (kv_answer op x.2) [] Hfit) as Hx. by rewrite app_nil_r in Hx.
Qed.
End EndToEnd.

Section Answers.
Context {bdg : Badger} {batch : BadgerBatch}.
Implicit Types (e : Env) (w : World).

(** What is said of a request served: the documents are then [ds], nothing else
    of the stores changed, and the response is [r]. *)
Definition doc_served w (x : result World) (ds : DocStore) (r : Reply) : Prop :=
  exists w' response, x = Ok w' /\ docs w'.1 = Some ds /\
    store w'.1 = store w.1 /\ queue w'.1 = queue w.1 /\ stream w'.1 = stream w.1 /\
    outQueue w'.2 = outQueue w.2 ++ [response] /\ DecodeResponse response = Ok (reply_response r).

Lemma doc_reply_served {A} e w ds (a : A) ok v :
  ready w.2 -> ok a = EncodeValueResponse v -> len v < 2 ^ 32 - 5 ->
  doc_served w (doc_reply e (on_server w (fun s => set_docs s ds)) (Ok a) ok) ds (ReplyValue v).
Proof.
  destruct w as [s c]. unfold ready. cbn [fst snd]. intros [Hd Hl] Hok Hv.
  unfold doc_reply. cbn [on_err]. rewrite Hok, EncodeValueResponse_frame, bind_ok.
  unfold send_counted, send_wait, on_server. cbn [fst snd]. unfold select_send, out_ready.
  rewrite (proj2 (Z.ltb_lt _ _) Hl), Hd. eexists _, _. split_and!; try done.
  pose proof (decode_reply (ReplyValue v) []) as Hr. rewrite app_nil_r in Hr. by apply Hr.
Qed.
End Answers.

Section Properties.
Context {bdg : Badger} {laws : BadgerLaws} {rel : BadgerReliable} {batch : BadgerBatch}.
Implicit Types (e : Env) (w : World).

(** C25: a document that a client marshals and inserts is decoded, completed
    with its id and times and stored in its collection; the client reads the
    id.  The engine is assumed to refuse nothing. *)
Theorem doc_insert_end_to_end e w id c d data msg M ds :
  doc_ok d -> Marshal (VObject d) = Ok data ->
  fits (CallDocInsert c data) -> encode_call (CallDocInsert c data) = Ok msg ->
  docs w.1 = Some ds -> holds M ds -> ready w.2 -> c <> [] ->
  let op := DInsert (doc_now e 0) (doc_uuid e) c (Some (norm_doc d)) in
  let key := insert_id (doc_uuid e) (norm_doc d) in
  op_ok M ds op -> len key < 2 ^ 32 - 5 ->
  exists ds', holds (doc_spec M op).1 ds' /\
    doc_served w (processRequestHybrid e w id msg) ds' (ReplyValue key).
Proof.
  intros Hd Hm Hf He Hds H Hr Hc op key Hop Hk.
  rewrite (hybrid_call e w id _ msg Hf He).
  change (handle e w (intended (CallDocInsert c data)))
    with (processBinaryDocInsert e w (doc_request OpDocInsert c data)).
  unfold processBinaryDocInsert. rewrite Hds. change (Protocol.Value _) with data.
  change (Collection _) with c.
  destruct (unmarshal_marshal_doc d Hd) as (data' & Hm' & Hu). rewrite Hm in Hm'. injection Hm' as <-.
  rewrite Hu. cbn [on_err].
  destruct (Insert_holds M ds (doc_now e 0) (doc_uuid e) c (Some (norm_doc d)) H Hc Hop)
    as (ds' & caller & -> & H').
  exists ds'. split.
  - unfold op. cbn [doc_spec]. by rewrite decide_False by done.
  - unfold on_docs. cbn [fst snd]. by apply doc_reply_served.
Qed.

(** A query that names no limit asks an index for no documents: with an
    equality filter on an indexed field the answer is null, and a delete
    deletes nothing, whatever the collection holds. *)
Theorem unlimited_query_finds_nothing e w req queryData ds coll q idx k :
  let opts := buildFindOptions queryData in
  unmarshal_doc (Protocol.Value req) = Ok queryData ->
  int_entry queryData "skip" = 0 -> int_entry queryData "limit" = 0 ->
  docs w.1 = Some ds -> ready w.2 -> Collection req <> [] ->
  indexes ds !! Collection req = Some coll -> decides coll (Filters opts) q idx ->
  key_of (DocHelpers.Value q) = Ok k ->
  doc_served w (processBinaryDocFind e w req) ds (ReplyValue (str "null")) /\
  doc_served w (processBinaryDocDelete e w req) ds
    (ReplyValue ((123 :: 34 :: str "deleted") ++ (34 :: 58 :: str "0") ++ [125])).
Proof.
  intros opts Hu Hs Hl Hds Hr Hc Hcoll Hd Hk.
  assert (Hf : DocStore.Find ds (Collection req) opts = Ok None) by (by eapply Find_zero_limit).
  assert (Hw : on_server w (fun s => set_docs s ds) = w).
  { destruct w as [[]]. unfold on_server, set_docs. cbn in *. by rewrite Hds. }
  split.
  - unfold processBinaryDocFind. rewrite Hds, Hu. cbn [on_err]. fold opts. rewrite Hf.
    rewrite <- Hw at 2. by apply doc_reply_served.
  - unfold processBinaryDocDelete. rewrite Hds, Hu. cbn [on_err]. fold opts.
    unfold DocStore.DeleteMany. rewrite Hf. by apply doc_reply_served.
Qed.
End Properties.
