(* ===== verification/ServerLines.v ===== *)
(** Lines of the text protocol: a command's words are parsed back, the fast path
    acts on the finite map behind the storage, and the slow path reads its values
    late. *)
From stdpp Require Import base list numbers gmap strings.
From Stdlib Require Import ZArith Lia.
From S2P Require Import Prelude GoBytes Fields Fmt Badger KVStorage KVCorrect KVRefine GoValue ServerState ServerText ServerBinary Server ServerKV.

(** ** Words *)

Definition word (w : bytes) : Prop := w <> [] /\ Forall (fun b => is_sep b = false) w.

(** A command line: its words, separated by spaces. *)
Definition line (ws : list bytes) : bytes := join (str " ") ws ++ CRLF.

(** Where the words of a line are, from position [i] on. *)
Fixpoint word_windows (i : Z) (ws : list bytes) : list window :=
  match ws with
  | [] => []
  | w :: ws => (i, i + len w) :: word_windows (i + len w + 1) ws
  end.

Lemma scan_word w b rest i start parts :
  Forall (fun b => is_sep b = false) w -> is_sep b = true ->
  scan_parts (w ++ b :: rest) i start parts
  = scan_parts rest (i + len w + 1) (i + len w + 1)
      (if start <? i + len w then parts ++ [(start, i + len w)] else parts).
Proof.
  intros Hw Hb. revert i. induction Hw as [|x w Hx _ IH]; intros i; cbn [app scan_parts].
  - by rewrite Hb, len_nil, Z.add_0_r.
  - rewrite Hx, IH, len_cons. by replace (i + 1 + len w) with (i + (1 + len w)) by lia.
Qed.

Lemma join_words w ws : ws <> [] -> join (str " ") (w :: ws) = w ++ 32 :: join (str " ") ws.
Proof. by destruct ws. Qed.

Lemma line_cons w ws : ws <> [] -> line (w :: ws) = w ++ 32 :: line ws.
Proof. intros. unfold line. rewrite join_words by done. by rewrite <- app_assoc. Qed.

Lemma word_len w : word w -> 0 < len w.
Proof. intros [Hw _]. destruct w; [done|]. len_lia. Qed.

Lemma scan_line ws i parts :
  ws <> [] -> Forall word ws ->
  scan_parts (line ws) i i parts = (parts ++ word_windows i ws, i + len (line ws)).
Proof.
  intros Hne Hws. revert i parts. induction Hws as [|w ws Hw Hws IH]; intros i parts; [done|].
  pose proof (word_len w Hw) as Hl. destruct Hw as [_ Hw].
  destruct (decide (ws = [])) as [->|Hne'].
  - unfold line. cbn [join]. unfold CRLF. rewrite scan_word by done.
    rewrite (proj2 (Z.ltb_lt _ _)) by lia. cbn [scan_parts].
    change (is_sep 10) with true. cbn match. rewrite Z.ltb_irrefl. f_equal. len_lia.
  - rewrite line_cons, scan_word, IH by done. rewrite (proj2 (Z.ltb_lt _ _)) by lia.
    rewrite <- app_assoc. f_equal. len_lia.
Qed.

Lemma split_line ws :
  ws <> [] -> Forall word ws -> split_parts (line ws) = word_windows 0 ws.
Proof.
  intros Hne Hws. unfold split_parts. rewrite scan_line by done. cbn [app].
  by rewrite Z.add_0_l, Z.ltb_irrefl.
Qed.

Lemma cut_words ws pre :
  map (cut (pre ++ line ws)) (word_windows (len pre) ws) = ws.
Proof.
  revert pre. induction ws as [|w ws IH]; intros pre; [done|]. cbn [word_windows map]. f_equal.
  - unfold cut. cbn [fst snd]. rewrite dropZ_app_eq, Z.add_simpl_l by done.
    unfold line. destruct ws; cbn [join]; rewrite <- ?app_assoc; by apply takeZ_app_eq.
  - destruct (decide (ws = [])) as [->|Hne]; [done|]. rewrite line_cons by done.
    specialize (IH (pre ++ w ++ [32])). rewrite <- !app_assoc in IH.
    by replace (len pre + len w + 1) with (len (pre ++ w ++ [32])) by len_lia.
Qed.

(** The first word is the command, the others are its arguments. *)
Lemma parse_line cmd args :
  Forall word (cmd :: args) ->
  split_parts (line (cmd :: args)) = (0, len cmd) :: word_windows (len cmd + 1) args /\
  cut (line (cmd :: args)) (0, len cmd) = cmd /\
  map (cut (line (cmd :: args))) (word_windows (len cmd + 1) args) = args.
Proof.
  intros Hws. rewrite split_line by done. pose proof (cut_words (cmd :: args) []) as Hc.
  cbn [app word_windows map len_nil] in *. rewrite Z.add_0_l in *.
  injection Hc as Hc1 Hc2. done.
Qed.

(** ** Parsing *)

Lemma parse_single cmd k rest :
  Forall word (cmd :: k :: rest) ->
  is_cmd cmd "MSET" = false -> is_cmd cmd "MGET" = false -> is_cmd cmd "MDEL" = false ->
  exists v, parseCommandExtended (line (cmd :: k :: rest)) = Ok (mkCommand cmd k v None []) /\
    cut (line (cmd :: k :: rest)) v = default [] (head rest).
Proof.
  intros Hws H1 H2 H3. destruct (parse_line cmd (k :: rest) Hws) as (Hs & Hc & Ha).
  unfold parseCommandExtended. rewrite Hs, Hc, H1, H2, H3. cbn [orb word_windows].
  cbn [word_windows map] in Ha. injection Ha as Hk Hr. rewrite Hk.
  eexists. split; [done|]. destruct rest as [|v rest]; cbn [word_windows head default from_option].
  - unfold cut. cbn [fst snd]. by rewrite takeZ_0.
  - cbn [word_windows map] in Hr. by injection Hr.
Qed.

Lemma len_word_windows i ws : len (word_windows i ws) = len ws.
Proof.
  revert i. induction ws as [|w ws IH]; intros i; [done|]. cbn [word_windows].
  by rewrite !len_cons, IH.
Qed.

Lemma parse_keys cmd ks :
  Forall word (cmd :: ks) -> ks <> [] -> cmd ∈ [str "MGET"; str "MDEL"] ->
  parseCommandExtended (line (cmd :: ks)) = Ok (mkCommand cmd [] (0, 0) (Some ks) []).
Proof.
  intros Hws Hne Hcmd. destruct (parse_line cmd ks Hws) as (Hs & Hc & Ha).
  unfold parseCommandExtended. rewrite Hs, Hc.
  assert (is_cmd cmd "MSET" = false /\ is_cmd cmd "MGET" || is_cmd cmd "MDEL" = true) as [-> ->].
  { repeat (apply elem_of_cons in Hcmd as [->|Hcmd]); try done. by apply elem_of_nil in Hcmd. }
  rewrite len_cons, len_word_windows, (proj2 (Z.ltb_ge _ _)), Ha; [done|].
  destruct ks; [done|len_lia].
Qed.

(** Pairs on a line, and where their values are. *)
Definition pair_words (kvs : list (bytes * bytes)) : list bytes :=
  concat (map (fun kv => [kv.1; kv.2]) kvs).
Fixpoint value_windows (i : Z) (kvs : list (bytes * bytes)) : list window :=
  match kvs with
  | [] => []
  | (k, v) :: kvs =>
      let j := i + len k + 1 in (j, j + len v) :: value_windows (j + len v + 1) kvs
  end.

Lemma pairs_of_words data i kvs :
  map (cut data) (word_windows i (pair_words kvs)) = pair_words kvs ->
  pairs_of data (word_windows i (pair_words kvs)) = Ok (zip (map fst kvs) (value_windows i kvs)).
Proof.
  revert i. induction kvs as [|[k v] kvs IH]; intros i; [done|].
  cbn. intros [= Hk _ Hr]. pose proof (IH _ Hr) as E.
  unfold pair_words in E. by rewrite E, bind_ok, Hk.
Qed.

Lemma length_value_windows i kvs : length (value_windows i kvs) = length kvs.
Proof. revert i. induction kvs as [|[k v] kvs IH]; intros i; cbn; [done|]. by rewrite IH. Qed.

Lemma cut_values data i kvs :
  map (cut data) (word_windows i (pair_words kvs)) = pair_words kvs ->
  map (cut data) (value_windows i kvs) = map snd kvs.
Proof.
  revert i. induction kvs as [|[k v] kvs IH]; intros i; [done|].
  cbn. intros [= _ Hv Hr]. f_equal; [exact Hv|by apply IH].
Qed.

Lemma word_mset kvs : Forall word (pair_words kvs) -> Forall word (str "MSET" :: pair_words kvs).
Proof. intros. constructor; [|done]. split; [done|by repeat constructor]. Qed.

Lemma parse_mset kvs :
  Forall word (pair_words kvs) -> kvs <> [] ->
  parseCommandExtended (line (str "MSET" :: pair_words kvs))
  = Ok (mkCommand (str "MSET") [] (0, 0) (Some (map fst kvs)) (value_windows 5 kvs)).
Proof.
  intros Hws Hne.
  destruct (parse_line (str "MSET") (pair_words kvs) (word_mset kvs Hws)) as (Hs & Hc & Ha).
  unfold parseCommandExtended. rewrite Hs, Hc. change (len (str "MSET") + 1) with 5 in *.
  change (is_cmd (str "MSET") "MSET") with true. cbn match.
  rewrite len_cons, len_word_windows.
  assert (Hl : len (pair_words kvs) = 2 * len kvs).
  { clear. unfold pair_words. induction kvs as [|kv kvs IH]; [done|]. cbn [map concat].
    rewrite len_app, IH, !len_cons, len_nil. lia. }
  assert (0 < len kvs) by (destruct kvs; [done|len_lia]).
  rewrite (proj2 (Z.ltb_ge _ _)) by lia.
  replace (1 + len (pair_words kvs)) with (1 + len kvs * 2) by lia.
  rewrite Z.mod_add by done. cbn [orb]. change (1 mod 2 =? 0) with false. cbn match.
  rewrite pairs_of_words, bind_ok by done. do 2 f_equal; [f_equal; apply fst_zip|apply snd_zip];
    by rewrite length_map, length_value_windows.
Qed.

(** ** Commands *)

(** The commands of the fast path; DEL and DECR never get there. *)
Inductive TextCall : Type :=
| TSet (k v : bytes)
| TGet (k : bytes)
| TExists (k : bytes)
| TIncr (k : bytes)
| TMGet (ks : list bytes).

Definition text_words (t : TextCall) : list bytes :=
  match t with
  | TSet k v => [str "SET"; k; v]
  | TGet k => [str "GET"; k]
  | TExists k => [str "EXISTS"; k]
  | TIncr k => [str "INCR"; k]
  | TMGet ks => str "MGET" :: ks
  end.

Definition text_op (t : TextCall) : KVOp :=
  match t with
  | TSet k v => OSet k v 0
  | TGet k => OGet k
  | TExists k => OExists k
  | TIncr k => OIncr k
  | TMGet ks => OBatchGet ks
  end.

(** The reply to the outcome of an operation. *)
Definition text_answer (op : KVOp) (r : result KVReply) : bytes :=
  match r with
  | Ok (KVCorrect.RValue v) => formatBulkString v
  | Ok (RBool b) => str (if b then ":1" else ":0") ++ CRLF
  | Ok (RNumber n) => formatBulkString (be64 n)
  | Ok (RMap m) => formatBulkStrings (in_key_order (op_keys op) m)
  | Err err => formatError err
  | _ => ok_line
  end.

(** An MGET names a key; a slow connection's SET goes another way. *)
Definition text_ok (c : Connection) (t : TextCall) : Prop :=
  Forall word (text_words t) /\
  match t with
  | TSet _ _ => avgLatency c <= FastPathThreshold
  | TMGet ks => ks <> []
  | _ => True
  end.

Section Lines.
Context {bdg : Badger} {batch : BadgerBatch}.
Implicit Types (e : Env) (w : World).

Lemma line_hybrid e w id cmd args :
  match cmd with b :: _ => 0x44 < b | [] => False end ->
  processRequestHybrid e w id (line (cmd :: args)) = processRequestText e w id (line (cmd :: args)).
Proof.
  intros Hb. unfold processRequestHybrid. destruct cmd as [|b cmd]; [done|].
  assert (E : is_binary (line ((b :: cmd) :: args)) = false); [|by rewrite E].
  assert (exists rest, line ((b :: cmd) :: args) = b :: rest) as [rest ->]
    by (destruct args; cbn; by eexists).
  cbn [is_binary]. rewrite !andb_false_intro2 by (apply Z.leb_gt; lia). done.
Qed.

Lemma number_reply_ok val : number_reply val = Ok (formatBulkString (be64 val)).
Proof.
  unfold number_reply. change (zeros 8) with ([] ++ zeros 8).
  rewrite PutUint64_zeros by done. rewrite bind_ok. cbn [app].
  by rewrite be64_uint64, zeros_done.
Qed.

(** A single command is the operation, its outcome formatted. *)
Lemma single_command_exec t st :
  match t with TMGet _ => False | _ => True end -> (kv_exec st (text_op t)).2 <> Panic ->
  single_command st (default [] (head (text_words t))) (default [] (op_keys (text_op t) !! 0%nat))
    (match t with TSet _ v => v | _ => [] end)
  = ((kv_exec st (text_op t)).1, Ok (text_answer (text_op t) (kv_exec st (text_op t)).2)).
Proof.
  unfold kv_exec, with_reply. destruct t; intros Ht; try done;
    cbn [text_op text_words op_keys head default from_option option_fmap lookup list_lookup fst snd].
  - change (single_command st _ _ _) with
      (let '(st', r) := KV.Set_ st k v 0 in (st', reply r (fun _ => Ok ok_line))).
    by destruct (KV.Set_ st k v 0) as [st' []].
  - change (single_command st _ _ _) with
      (st, reply (KV.Get st k) (fun val => Ok (formatBulkString val))).
    by destruct (KV.Get st k).
  - change (single_command st _ _ _) with
      (st, reply (KV.Exists st k) (fun b : bool => Ok (str (if b then ":1" else ":0") ++ CRLF))).
    by destruct (KV.Exists st k) as [[]| |].
  - change (single_command st _ _ _) with
      (let '(st', r) := KV.Incr st k in (st', reply r number_reply)).
    destruct (KV.Incr st k) as [st' []]; try done. cbn. by rewrite number_reply_ok.
Qed.

(** What the fast path must do with the outcome [x] of a command. *)
Definition text_done w (r : result World) (op : KVOp) (x : KV.Storage * result KVReply) : Prop :=
  exists w', r = Ok w' /\ store w'.1 = x.1 /\ same_but_store w.1 w'.1 /\
    outQueue w'.2 = outQueue w.2 ++ [text_answer op x.2].

Lemma respond_done e w op x :
  ready w.2 ->
  text_done w (Ok (respond e (on_server w (fun s => set_store s x.1)) (text_answer op x.2))) op x.
Proof.
  intros Hr. destruct (respond_ready e (on_server w (fun s => set_store s x.1)) (text_answer op x.2) Hr)
    as (Ho & Hst & Hsame).
  eexists. split_and!; [done|by rewrite Hst|done|exact Ho].
Qed.

Lemma parse_call c t :
  text_ok c t -> match t with TMGet _ => False | _ => True end ->
  exists cmd k rest v, text_words t = cmd :: k :: rest /\
    parseCommandExtended (line (text_words t)) = Ok (mkCommand cmd k v None []) /\
    cut (line (text_words t)) v = match t with TSet _ v => v | _ => [] end /\
    op_keys (text_op t) = [k] /\ shouldUseFastPath (avgLatency c) cmd = true.
Proof.
  intros [Hws Ht] Hs. destruct t as [k v|k|k|k|ks]; [..|done]; cbn [text_words] in *;
    (edestruct parse_single as (win & Hpa & Hcut); [exact Hws|done|done|done|]);
    (eexists _, k, _, win; split_and!; [done|exact Hpa|exact Hcut|done|try done]).
  change (negb (FastPathThreshold <? avgLatency c) = true).
  by rewrite (proj2 (Z.ltb_ge _ _)) by done.
Qed.

Lemma text_single_handled e w id t :
  text_ok w.2 t -> ready w.2 -> match t with TMGet _ => False | _ => True end ->
  (kv_exec (store w.1) (text_op t)).2 <> Panic ->
  text_done w (processRequestText e w id (line (text_words t))) (text_op t)
    (kv_exec (store w.1) (text_op t)).
Proof.
  intros Ht Hr Hs Hx. destruct (parse_call _ t Ht Hs) as (cmd & k & rest & v & Hw & Hp & Hc & Hk & Hf).
  unfold processRequestText. rewrite Hp, Hf, Hc. unfold processFastPath.
  pose proof (single_command_exec t (store w.1) Hs Hx) as He.
  rewrite Hw, Hk in He. change (default [] (head (cmd :: k :: rest))) with cmd in He.
  change (default [] ([k] !! 0%nat)) with k in He.
  rewrite He, bind_ok. by apply respond_done.
Qed.

Lemma text_mget_handled e w id ks :
  text_ok w.2 (TMGet ks) -> ready w.2 ->
  (kv_exec (store w.1) (OBatchGet ks)).2 <> Panic ->
  text_done w (processRequestText e w id (line (str "MGET" :: ks))) (OBatchGet ks)
    (kv_exec (store w.1) (OBatchGet ks)).
Proof.
  intros [Hws Hne] Hr Hx. unfold processRequestText.
  rewrite parse_keys by (done || by left).
  change (shouldUseFastPath _ _) with true. cbn match. unfold processFastPathBatch.
  change (is_cmd (str "MGET") "MSET") with false. change (is_cmd (str "MGET") "MGET") with true.
  cbn match. pose proof (respond_done e w (OBatchGet ks) (kv_exec (store w.1) (OBatchGet ks)) Hr) as Hd.
  cbn [kv_exec] in *. unfold with_reply in *. cbn [fst snd] in *. rewrite set_store_id in Hd.
  destruct (KV.BatchGet (store w.1) ks) as [m|err|]; [| |done]; cbn [on_err] in *.
  - unfold respond_busy, select_send, out_ready in *. destruct Hr as [Hd' Hl].
    rewrite (proj2 (Z.ltb_lt _ _) Hl), Hd' in *. exact Hd.
  - eexists. split_and!; [done|done|done|]. unfold sendError, on_conn, offer, select_send, out_ready.
    destruct Hr as [Hd' Hl]. cbn [snd]. by rewrite (proj2 (Z.ltb_lt _ _) Hl), Hd'.
Qed.
End Lines.

(** ** Properties *)

Section Properties.
Context {bdg : Badger} {laws : BadgerLaws} {batch : BadgerBatch} {blaws : BadgerBatchLaws}.
Implicit Types (e : Env) (w : World).

(** C24: a command line of the fast path (SET, GET, EXISTS, INCR or MGET, on a
    connection with room for a reply) is the operation it spells on the finite map behind the
    storage, and is answered by one reply: a line for SET, EXISTS and errors; a
    bulk string, its length on one line and the bytes after it, for GET and for
    the eight bytes of INCR; an array of bulk strings, in the order of the keys,
    for MGET.  Nothing else changes.  The engine is assumed to refuse nothing. *)
Theorem text_end_to_end {rel : BadgerReliable} e w id t :
  text_ok w.2 t -> ready w.2 ->
  let x := kv_spec (view (store w.1)) (text_op t) in
  exists w', processRequestHybrid e w id (line (text_words t)) = Ok w' /\
    view (store w'.1) = x.1 /\ same_but_store w.1 w'.1 /\
    outQueue w'.2 = outQueue w.2 ++ [text_answer (text_op t) x.2].
Proof.
  intros Ht Hr x. destruct (kv_reliable (store w.1) (text_op t)) as [H2 H1]; [by destruct t; try left|].
  fold x in H1, H2.
  assert (Hx : (kv_exec (store w.1) (text_op t)).2 <> Panic) by (rewrite H2; apply spec_no_panic).
  assert (Hh : processRequestHybrid e w id (line (text_words t))
    = processRequestText e w id (line (text_words t))) by (destruct t; by apply line_hybrid).
  rewrite Hh, <- H1, <- H2.
  assert (Hd : text_done w (processRequestText e w id (line (text_words t))) (text_op t)
    (kv_exec (store w.1) (text_op t))).
  { destruct t; [by apply text_single_handled..|by apply text_mget_handled]. }
  destruct Hd as (w' & -> & Hst & Hs & Ho). exists w'. by rewrite Hst.
Qed.

Definition mset_job w id kvs : Job :=
  mkJob id (readBuf w.2) (str "MSET") [] (0, 0) (Some (map fst kvs)) (value_windows 5 kvs).

Lemma mset_queued e w id kvs :
  kvs <> [] -> Forall word (pair_words kvs) ->
  stopped w.1 = false -> done w.2 = false -> len (jobQueue w.1) < DefaultJobQueueSize ->
  processRequestHybrid e w id (line (str "MSET" :: pair_words kvs))
  = Ok (count count_slow (set_jobs w.1 (jobQueue w.1 ++ [mset_job w id kvs])), count_op w.2).
Proof.
  intros Hne Hws Hst Hd Hl. rewrite line_hybrid by done. unfold processRequestText.
  rewrite parse_mset by done. change (shouldUseFastPath _ _) with false. cbn match.
  unfold processSlowPathBatch, dispatch. destruct w as [s c]. cbn [fst snd] in *.
  unfold select_send. by rewrite Hst, Hd, (proj2 (Z.ltb_lt _ _) Hl).
Qed.

(** C38: the slow path keeps no copy of the values of an MSET: when a worker
    runs the queued job, it stores under each key whatever the read buffer holds
    by then where the value was. *)
Theorem queued_values_are_read_late e w id kvs :
  kvs <> [] -> Forall word (pair_words kvs) ->
  stopped w.1 = false -> done w.2 = false -> len (jobQueue w.1) < DefaultJobQueueSize ->
  exists s job, processRequestHybrid e w id (line (str "MSET" :: pair_words kvs))
      = Ok (s, count_op w.2) /\
    jobQueue s = jobQueue w.1 ++ [job] /\ store s = store w.1 /\ jbuf job = readBuf w.2 /\
    map (cut (line (str "MSET" :: pair_words kvs))) (value_windows 5 kvs) = map snd kvs /\
    forall e' st buf, processJob e' st buf job =
      let '(st, r) := batch_set e' st (map fst kvs) (map (cut buf) (value_windows 5 kvs)) in
      (st, reply r (fun _ => Ok ok_line)).
Proof.
  intros Hne Hws Hst Hd Hl. rewrite mset_queued by done.
  exists (count count_slow (set_jobs w.1 (jobQueue w.1 ++ [mset_job w id kvs]))), (mset_job w id kvs).
  split_and!; try done.
  apply cut_values. by destruct (parse_line (str "MSET") (pair_words kvs) (word_mset kvs Hws)) as (_ & _ & ?).
Qed.
End Properties.
