(* ===== verification/ServerInvariant.v ===== *)
(** The invariant of the running server: queues stay within their capacities,
    open connections do not share buffers, and jobs stay within theirs, so that
    no job can end the process. *)
From stdpp Require Import base list numbers gmap relations strings.
From Stdlib Require Import ZArith Lia.
From S2P Require Import Prelude GoBytes Fields Fmt Badger KVStorage KVCorrect KVRefine DocHelpers DocStorage DocStore Protocol ProtocolDecode ServerState ServerText ServerBinary ServerDocs Server ServerKV ServerLines.

(** ** Windows *)

Definition within (n : Z) (w : window) : Prop := 0 <= w.1 <= w.2 /\ w.2 <= n.

Lemma scan_parts_within data i start parts n :
  0 <= start <= i -> i + len data = n -> Forall (within n) parts ->
  Forall (within n) (scan_parts data i start parts).1 /\
  0 <= (scan_parts data i start parts).2 <= n.
Proof.
  revert i start parts. induction data as [|b data IH]; intros i start parts Hs Hn Hp;
    cbn [scan_parts]; rewrite ?len_nil, ?len_cons in Hn; [cbn; split; [done|lia]|].
  pose proof (len_nonneg data). destruct (is_sep b); apply IH; try lia; [|done].
  destruct (Z.ltb_spec start i); [|done]. apply Forall_app. split; [done|].
  repeat constructor; cbn; lia.
Qed.

Lemma split_parts_within data : Forall (within (len data)) (split_parts data).
Proof.
  unfold split_parts.
  destruct (scan_parts_within data 0 0 [] (len data)) as [Hf Hs]; [lia|lia|done|].
  destruct (scan_parts data 0 0 []) as [parts start]. cbn [fst snd] in *.
  destruct (Z.ltb_spec start (len data)); [|done].
  apply Forall_app. split; [done|]. repeat constructor; cbn; lia.
Qed.

(** An even number of parts are pairs. *)
Lemma pairs_of_within n data parts :
  Forall (within n) parts -> len parts mod 2 = 0 ->
  safe (pairs_of data parts) (fun kvs => Forall (within n) (map snd kvs)).
Proof.
  revert parts. fix IH 1. intros [|k [|v parts]] Hp Hl; [by constructor|done|].
  apply Forall_cons in Hp as [_ Hp]. apply Forall_cons in Hp as [Hv Hp].
  rewrite !len_cons in Hl. replace (1 + (1 + len parts)) with (len parts + 1 * 2) in Hl by lia.
  rewrite Z.mod_add in Hl by done. specialize (IH parts Hp Hl). cbn [pairs_of].
  destruct (pairs_of data parts) as [kvs| |]; [|done..]. cbn in *. by constructor.
Qed.

(** A command's windows lie in the data, and an MSET has a value per key. *)
Definition paired (cmd : bytes) (keys : option (list bytes)) (values : list window) : Prop :=
  cmd = str "MSET" -> length (default [] keys) = length values.
Definition command_ok (n : Z) (c : Command) : Prop :=
  within n (c_value c) /\ Forall (within n) (c_values c) /\ paired (c_cmd c) (c_keys c) (c_values c).

Lemma parse_within data :
  safe (parseCommandExtended data) (command_ok (len data)).
Proof.
  unfold parseCommandExtended. pose proof (split_parts_within data) as Hp.
  pose proof (len_nonneg data) as Hl.
  assert (H0 : within (len data) (0, 0)) by (repeat split; cbn; lia).
  destruct (split_parts data) as [|p args]; [done|]. apply Forall_cons in Hp as [_ Hp].
  destruct (is_cmd _ "MSET") eqn:Hm.
  - destruct (Z.ltb_spec (len (p :: args)) 3); [done|].
    destruct (Z.eqb_spec (len (p :: args) mod 2) 0) as [|Hodd]; [done|]. cbn [orb].
    assert (Ha : len args mod 2 = 0).
    { rewrite len_cons in Hodd. pose proof (Z.mod_pos_bound (len args) 2 ltac:(lia)).
      rewrite Z.add_mod in Hodd by done. change (1 mod 2) with 1 in Hodd.
      destruct (decide (len args mod 2 = 0)) as [|Hne]; [done|].
      assert (len args mod 2 = 1) as E by lia. by rewrite E in Hodd. }
    pose proof (pairs_of_within (len data) data args Hp Ha) as Hk.
    destruct (pairs_of data args) as [kvs| |]; [|done..]. cbn in *.
    split_and!; [done|done|]. intros _. cbn. by rewrite !length_map.
  - assert (Hn : forall keys values, paired (cut data p) keys values).
    { intros keys values E. by rewrite E in Hm. }
    destruct (_ || _); [destruct (_ <? _)|]; [done|by split_and!; [|constructor|]|].
    destruct args as [|k rest]; [done|]. apply Forall_cons in Hp as [_ Hr].
    split_and!; [|by constructor|done]. cbn. destruct Hr; done.
Qed.

(** ** What handlers leave alone *)

(** A property of the value a computation returns, if it returns one. *)
Definition post {A} (m : result A) (Q : A -> Prop) : Prop :=
  match m with Ok a => Q a | _ => True end.

Lemma post_bind {A B} (m : result A) (f : A -> result B) Q :
  post m (fun a => post (f a) Q) -> post (m ≫= f) Q.
Proof. by destruct m. Qed.

Lemma post_any {A} (m : result A) (Q : A -> Prop) : (forall a, Q a) -> post m Q.
Proof. by destruct m; cbn. Qed.

Lemma post_on_err {A B} (m : result A) h (k : A -> result B) Q :
  (forall err, post (h err) Q) -> (forall a, post (k a) Q) -> post (on_err m h k) Q.
Proof. by destruct m; cbn. Qed.

Lemma len_snoc {A} (l : list A) x : len (l ++ [x]) = len l + 1.
Proof. len_lia. Qed.

Section Keeps.
Context {bdg : Badger} {batch : BadgerBatch}.
Implicit Types (e : Env) (w : World) (req : Request).

(** The buffers of the connection and the job queue stay; the responses do not
    outgrow their queue. *)
Definition conn_keeps (c c' : Connection) : Prop :=
  readBuf c' = readBuf c /\ writeBuf c' = writeBuf c /\
  (len (outQueue c) <= outQueue_cap -> len (outQueue c') <= outQueue_cap).
Definition keeps w w' : Prop := conn_keeps w.2 w'.2 /\ jobQueue w'.1 = jobQueue w.1.

#[export] Instance conn_keeps_preorder : PreOrder conn_keeps.
Proof.
  split; [by intros c|]. intros c1 c2 c3 (? & ? & H) (? & ? & H'). split_and!; [congruence..|auto].
Qed.
#[export] Instance keeps_preorder : PreOrder keeps.
Proof.
  split; [by intros w|]. intros w1 w2 w3 [H E] [H' E']. split; [by etransitivity|congruence].
Qed.

Lemma keeps_server w f : (forall s, jobQueue (f s) = jobQueue s) -> keeps w (on_server w f).
Proof. intros Hf. split; [done|apply Hf]. Qed.

Lemma enqueue_keeps c msg : out_ready c = true -> conn_keeps c (enqueue c msg).
Proof.
  intros Hr%Z.ltb_lt. split_and!; [done|done|]. cbn. rewrite len_snoc. lia.
Qed.

Lemma offer_keeps e c msg : conn_keeps c (offer e c msg).
Proof.
  unfold offer, select_send. destruct (out_ready c) eqn:Hr; cbn [andb].
  - destruct (negb (done c) || pick e); [by apply enqueue_keeps|by destruct (done c)].
  - by destruct (done c).
Qed.

Lemma keeps_offer e w msg : keeps w (on_conn w (fun c => offer e c msg)).
Proof. split; [apply offer_keeps|done]. Qed.

Lemma respond_keeps e w msg : keeps w (respond e w msg).
Proof.
  destruct w as [s c]. unfold respond, select_send.
  destruct (out_ready c) eqn:Hr; cbn [andb].
  - destruct (negb (done c) || pick e); [|by destruct (done c)].
    split; [by apply (enqueue_keeps c msg)|done].
  - by destruct (done c).
Qed.

Lemma take_message_room c msg :
  out_ready c = false -> conn_keeps c (enqueue (take_message c) msg).
Proof.
  intros Hr%Z.ltb_ge. unfold conn_keeps, take_message, outQueue_cap in *.
  destruct (outQueue c) as [|x l]; [by rewrite len_nil in Hr|].
  split_and!; [done|done|]. cbn. rewrite len_snoc, len_cons. lia.
Qed.

Lemma send_counted_keeps e w msg : keeps w (send_counted e w msg).
Proof.
  destruct w as [s c]. unfold send_counted, send_wait, select_send.
  destruct (out_ready c) eqn:Hr; cbn [andb].
  - destruct (done c), (pick e); cbn [negb orb]; try done;
      (split; [by apply (enqueue_keeps c msg)|done]).
  - destruct (done c); [done|]. destruct (drained e); [|by repeat split].
    split; [by apply (take_message_room c msg)|done].
Qed.

(** ** Handlers *)

Lemma fail_keeps e w0 w err : keeps w0 w -> post (fail e w err) (keeps w0).
Proof.
  intros H. unfold fail, sendBinaryError. apply post_bind, post_bind, post_any. intros response. cbn.
  etransitivity; [exact H|]. etransitivity; [apply (keeps_offer e w response)|by apply keeps_server].
Qed.

Lemma kv_reply_keeps {A} e w0 w (r : result A) ok :
  keeps w0 w -> post (kv_reply e w r ok) (keeps w0).
Proof.
  intros H. apply post_bind, post_any. intros response. cbn.
  etransitivity; [exact H|apply respond_keeps].
Qed.

Lemma served_reply_keeps {A} e w0 w (r : result A) ok :
  keeps w0 w -> post (served_reply e w r ok) (keeps w0).
Proof.
  intros H. apply post_on_err; [by intros; apply fail_keeps|]. intros a.
  apply post_bind, post_any. intros response. cbn.
  etransitivity; [exact H|]. etransitivity; [apply respond_keeps|by apply keeps_server].
Qed.

Lemma doc_reply_keeps {A} e w0 w (r : result A) ok :
  keeps w0 w -> post (doc_reply e w r ok) (keeps w0).
Proof.
  intros H. apply post_on_err; [by intros; apply fail_keeps|]. intros a.
  apply post_bind, post_any. intros response. cbn.
  etransitivity; [exact H|apply send_counted_keeps].
Qed.

Lemma on_stream_keeps {A} w f : keeps w (@on_stream _ A w f).1.
Proof.
  unfold on_stream. destruct (stream w.1) as [st|]; [|done]. by destruct (f st).
Qed.

Create HintDb keeps.
#[local] Hint Resolve fail_keeps kv_reply_keeps served_reply_keeps doc_reply_keeps on_stream_keeps
  : keeps.
#[local] Hint Extern 1 (keeps _ (on_server _ _)) => by apply keeps_server : keeps.
#[local] Hint Extern 0 (keeps ?w ?w) => reflexivity : keeps.

Lemma stream_handler_keeps {A} e w (x : World * result A) ok :
  keeps w x.1 -> post (let '(w, r) := x in served_reply e w r ok) (keeps w).
Proof. destruct x as [w' r]. apply served_reply_keeps. Qed.

Lemma doc_handler_keeps {A} e w (d : result A) err (k : A -> result World) :
  (forall a, post (k a) (keeps w)) -> post (on_err d (fun x => fail e w (err x)) k) (keeps w).
Proof. intros Hk. apply post_on_err; [by intros; apply fail_keeps|done]. Qed.

Lemma stream_handlers_keep e w req :
  Forall (fun h => post (h e w req) (keeps w))
    [processBinarySPublish; processBinarySConsume; processBinarySCommit;
     processBinarySCreateTopic; processBinarySSubscribe; processBinarySUnsubscribe;
     processBinarySPublishBatch].
Proof.
  repeat constructor; try (by apply stream_handler_keeps, on_stream_keeps).
  unfold processBinarySPublishBatch. destruct (on_stream w _) as [w' r] eqn:E.
  assert (keeps w w') by (change w' with (w', r).1; rewrite <- E; apply on_stream_keeps).
  destruct r; eauto with keeps.
Qed.

Lemma docs_reply_keeps {A} e w (x : DocStore * result A) ok :
  post (let '(w, r) := on_docs w x in doc_reply e w r ok) (keeps w).
Proof. by apply doc_reply_keeps, keeps_server. Qed.

Lemma doc_handlers_keep e w req :
  Forall (fun h => post (h e w req) (keeps w))
    [processBinaryDocInsert; processBinaryDocFind; processBinaryDocUpdate;
     processBinaryDocDelete; processBinaryDocIndex].
Proof.
  repeat constructor; unfold processBinaryDocInsert, processBinaryDocFind, processBinaryDocUpdate,
    processBinaryDocDelete, processBinaryDocIndex;
    (destruct (docs w.1) as [ds|]; [|by apply fail_keeps]);
    try (apply doc_handler_keeps; intros doc).
  - apply docs_reply_keeps.
  - by apply doc_reply_keeps.
  - destruct (entry doc "set"); try (by apply fail_keeps).
    apply post_on_err; [by intros; apply fail_keeps|]. intros results. apply docs_reply_keeps.
  - apply docs_reply_keeps.
  - apply docs_reply_keeps.
Qed.

Lemma handle_keeps e w req : post (handle e w req) (keeps w).
Proof.
  pose proof (stream_handlers_keep e w req) as Hs. pose proof (doc_handlers_keep e w req) as Hd.
  rewrite Forall_forall in Hs, Hd. unfold handle.
  repeat match goal with |- post (if ?b then _ else _) _ => destruct b end;
    try match goal with |- post (?h e w req) _ =>
      (by apply (Hs h); repeat constructor) || (by apply (Hd h); repeat constructor) end;
    try (apply kv_reply_keeps || apply served_reply_keeps || apply fail_keeps);
    done || by apply keeps_server.
Qed.

(** ** Requests *)

(** The job a request may leave in the queue. *)
Definition job_of (id n : Z) (c : Connection) (job : Job) : Prop :=
  conn job = id /\ jbuf job = readBuf c /\ within n (value job) /\ Forall (within n) (values job) /\
  paired (cmd job) (keys job) (values job).
Definition request_keeps (id n : Z) w w' : Prop :=
  conn_keeps w.2 w'.2 /\
  (jobQueue w'.1 = jobQueue w.1 \/
   exists job, jobQueue w'.1 = jobQueue w.1 ++ [job] /\ job_of id n w.2 job /\
     len (jobQueue w.1) < DefaultJobQueueSize).

Lemma keeps_request id n w w' : keeps w w' -> request_keeps id n w w'.
Proof. intros [H E]. split; [done|by left]. Qed.

Lemma post_mono {A} (m : result A) (P Q : A -> Prop) : post m P -> (forall a, P a -> Q a) -> post m Q.
Proof. destruct m; cbn; auto. Qed.

Lemma error_keeps e w err : keeps w (on_server (sendError e w err) (count count_error)).
Proof. etransitivity; [apply keeps_offer|by apply keeps_server]. Qed.

Lemma dispatch_keeps e id n w job :
  job_of id n w.2 job -> post (dispatch e w job (busy e)) (request_keeps id n w).
Proof.
  intros Hj. destruct w as [s c]. unfold dispatch, select_send.
  destruct (stopped s); cbn [orb andb].
  { destruct (done c), (pick e); cbn; done || by apply keeps_request. }
  destruct (Z.ltb_spec (len (jobQueue s)) DefaultJobQueueSize); cbn [andb].
  - destruct (done c), (pick e); cbn [negb orb post]; try (by apply keeps_request);
      (split; [by repeat split|right; by exists job]).
  - destruct (done c); cbn [post]; [by apply keeps_request|].
    apply keeps_request, error_keeps.
Qed.

Lemma busy_response_keeps e w msg : keeps w (respond_busy e w msg).
Proof.
  unfold respond_busy. destruct (select_send _ _ _); try apply respond_keeps.
  etransitivity; [apply respond_keeps|apply keeps_offer].
Qed.

Lemma store_keeps w st : keeps w (on_server w (fun s => set_store s st)).
Proof. by apply keeps_server. Qed.

Lemma fast_batch_keeps e w cmd ks vs : post (processFastPathBatch e w cmd ks vs) (keeps w).
Proof.
  unfold processFastPathBatch.
  destruct (is_cmd cmd "MSET"); [|destruct (is_cmd cmd "MGET"); [|destruct (is_cmd cmd "MDEL")]].
  - destruct (batch_set _ _ _ _) as [st r]. apply post_on_err; intros; cbn.
    + etransitivity; [apply (store_keeps w st)|apply keeps_offer].
    + etransitivity; [apply (store_keeps w st)|apply busy_response_keeps].
  - apply post_on_err; intros; [apply keeps_offer|apply busy_response_keeps].
  - destruct (KV.BatchDelete _ _) as [st r]. apply post_on_err; intros; cbn.
    + etransitivity; [apply (store_keeps w st)|apply keeps_offer].
    + etransitivity; [apply (store_keeps w st)|apply busy_response_keeps].
  - apply keeps_offer.
Qed.

Lemma text_keeps e w id data :
  post (processRequestText e w id data) (request_keeps id (len data) w).
Proof.
  unfold processRequestText. pose proof (parse_within data) as Hp.
  destruct (parseCommandExtended data) as [[cmd k v ks vs]|err|];
    [|apply keeps_request, error_keeps|done].
  destruct Hp as (Hv & Hvs & Hm). cbn [c_value c_values c_cmd c_keys] in *.
  destruct (shouldUseFastPath _ _), ks as [ks|].
  - eapply post_mono; [apply fast_batch_keeps|apply keeps_request].
  - unfold processFastPath. destruct (single_command _ _ _ _) as [st r].
    apply post_bind, post_any. intros response. apply keeps_request.
    etransitivity; [apply (store_keeps w st)|apply respond_keeps].
  - apply dispatch_keeps. pose proof (len_nonneg data).
    split_and!; [done|done|split; cbn; lia|done|exact Hm].
  - apply dispatch_keeps. split_and!; [done|done|done|constructor|].
    intros E. specialize (Hm E). cbn in *. destruct vs; [done|]. discriminate.
Qed.

Lemma hybrid_keeps e w id data :
  post (processRequestHybrid e w id data) (request_keeps id (len data) w).
Proof.
  unfold processRequestHybrid. destruct (is_binary data); [|apply text_keeps].
  eapply post_mono; [|apply keeps_request]. unfold processRequestBinary.
  apply post_on_err; [by intros; apply fail_keeps|apply handle_keeps].
Qed.
End Keeps.
