(* ===== verification/ServerSystem.v ===== *)
(** The running server: every reachable state is well formed, and no job ends
    the process. *)
From stdpp Require Import base list numbers gmap relations strings.
From Stdlib Require Import ZArith Lia.
From S2P Require Import Prelude GoBytes Fields Fmt Badger KVStorage KVCorrect KVRefine ServerState ServerText ServerBinary Server ServerKV ServerLines ServerInvariant.

(** ** Well-formed states *)

Section WellFormed.
Context {bdg : Badger} {batch : BadgerBatch}.
Implicit Types (e : Env) (sys : System).

(** A buffer that an open connection holds. *)
Definition owned sys (b id : Z) : Prop :=
  exists c, connections sys !! id = Some c /\ id ∈ open_ sys /\ (b = readBuf c \/ b = writeBuf c).

(** The slices of a job lie in a buffer that exists, its connection does, and an
    MSET has as many values as keys. *)
Definition job_ok sys (job : Job) : Prop :=
  is_Some (connections sys !! conn job) /\ is_Some (buffers sys !! jbuf job) /\
  within readBuf_size (value job) /\ Forall (within readBuf_size) (values job) /\
  paired (cmd job) (keys job) (values job).

(** Channels hold at most their capacity, buffers have their size, connections
    have buffers, no buffer has two owners, and the pool holds buffers that
    nobody owns. *)
Record well_formed sys : Prop := {
  wf_out : map_Forall (fun _ c => len (outQueue c) <= outQueue_cap) (connections sys);
  wf_queue : len (jobQueue (server sys)) <= DefaultJobQueueSize;
  wf_jobs : Forall (job_ok sys) (jobQueue (server sys));
  wf_buffers : map_Forall (fun _ b => len b = readBuf_size) (buffers sys);
  wf_conns : map_Forall (fun _ c => is_Some (buffers sys !! readBuf c) /\
    is_Some (buffers sys !! writeBuf c) /\ readBuf c <> writeBuf c) (connections sys);
  wf_owned : forall b id id', owned sys b id -> owned sys b id' -> id = id';
  wf_pool : forall b, b ∈ pool sys -> is_Some (buffers sys !! b) /\ forall id, ~ owned sys b id;
  wf_pool_nodup : NoDup (pool sys);
}.

(** A connection that keeps its buffers keeps every owner. *)
Lemma owned_set_connection sys s id c c' b i :
  connections sys !! id = Some c -> conn_keeps c c' ->
  owned (set_connection sys s id c') b i <-> owned sys b i.
Proof.
  intros Hc (Hr & Hw & _). unfold owned. cbn [set_connection connections open_].
  destruct (decide (i = id)) as [->|Hi].
  - rewrite lookup_insert_eq. rewrite Hc. split; intros (x & [= <-] & Ho & Hb); eexists;
      (split_and!; [done|done|]); rewrite ?Hr, ?Hw in *; done.
  - by rewrite lookup_insert_ne.
Qed.

Lemma job_ok_set_connection sys s id c job :
  job_ok sys job -> job_ok (set_connection sys s id c) job.
Proof.
  intros (Hc & Hrest). split; [|exact Hrest]. cbn. apply lookup_insert_is_Some'. by right.
Qed.

(** Updating the server and a connection. *)
Lemma wf_set_connection sys s id c c' :
  well_formed sys -> connections sys !! id = Some c -> conn_keeps c c' ->
  len (jobQueue s) <= DefaultJobQueueSize -> Forall (job_ok sys) (jobQueue s) ->
  well_formed (set_connection sys s id c').
Proof.
  intros W Hc Hk Hq Hj. pose proof Hk as (Hr & Hw & Ho).
  assert (Hown : forall b i, owned (set_connection sys s id c') b i <-> owned sys b i)
    by (intros; by eapply owned_set_connection).
  split; cbn [set_connection connections server buffers pool].
  - apply map_Forall_insert_2; [|apply W]. apply Ho. by apply (wf_out _ W id c).
  - done.
  - eapply Forall_impl; [exact Hj|]. intros. by apply job_ok_set_connection.
  - apply W.
  - apply map_Forall_insert_2; [|apply W]. rewrite Hr, Hw. by apply (wf_conns _ W id c).
  - intros b i i'. rewrite !Hown. apply W.
  - intros b Hb. destruct (wf_pool _ W b Hb) as [? Hno]. split; [done|]. intros i. by rewrite Hown.
  - apply W.
Qed.

Lemma take_message_keeps c : conn_keeps c (take_message c).
Proof.
  unfold conn_keeps, take_message. destruct (outQueue c) as [|x l] eqn:E; [by rewrite E|].
  split_and!; [done|done|]. cbn. rewrite len_cons. lia.
Qed.

Lemma cancel_keeps c : conn_keeps c (cancel c).
Proof. by repeat split. Qed.

(** ** Buffers *)

Definition set_buffers sys (bufs : gmap Z bytes) : System :=
  mkSystem (server sys) (connections sys) (open_ sys) bufs (pool sys).

(** More buffers, or the same with other bytes. *)
Lemma wf_set_buffers sys bufs :
  well_formed sys -> map_Forall (fun _ b => len b = readBuf_size) bufs ->
  (forall b, is_Some (buffers sys !! b) -> is_Some (bufs !! b)) ->
  well_formed (set_buffers sys bufs).
Proof.
  intros W Hl Hb. split; cbn [set_buffers connections server buffers pool]; try apply W.
  - eapply Forall_impl; [apply W|]. intros job (Hc & Hj & Hrest). split_and!; [done|by apply Hb|apply Hrest..].
  - done.
  - intros id c Hc. destruct (wf_conns _ W id c Hc) as (H1 & H2 & H3). split_and!; auto.
  - intros b Hin. destruct (wf_pool _ W b Hin) as [H1 H2]. split; [auto|exact H2].
Qed.

Lemma fill_buffer_len buf data :
  len buf = readBuf_size -> len data <= readBuf_size -> len (fill_buffer buf data) = readBuf_size.
Proof.
  intros Hb Hd. pose proof (len_nonneg data). unfold fill_buffer. rewrite len_app, len_dropZ; lia.
Qed.

Lemma make_buffer_lookup bufs b x :
  make_buffer bufs b !! x =
    if decide (x = b) then Some (default (zeros readBuf_size) (bufs !! b)) else bufs !! x.
Proof.
  unfold make_buffer. case_decide as Hx.
  - subst x. destruct (bufs !! b) eqn:E; [by rewrite E|]. by rewrite lookup_insert_eq.
  - destruct (bufs !! b); [done|]. by rewrite lookup_insert_ne by done.
Qed.

Lemma make_buffer_ok bufs b :
  map_Forall (fun _ b => len b = readBuf_size) bufs ->
  map_Forall (fun _ b => len b = readBuf_size) (make_buffer bufs b) /\
  (forall x, is_Some (bufs !! x) -> is_Some (make_buffer bufs b !! x)) /\
  is_Some (make_buffer bufs b !! b).
Proof.
  intros Hl. split_and!.
  - intros x buf. rewrite make_buffer_lookup. case_decide; [|by apply Hl].
    intros [= <-]. destruct (bufs !! b) as [buf|] eqn:E; [by apply (Hl b)|]. by apply len_zeros.
  - intros x Hx. rewrite make_buffer_lookup. by case_decide.
  - rewrite make_buffer_lookup. by case_decide.
Qed.

(** ** The steps *)

Lemma answer_job_keeps e (w : Server * Connection) response :
  conn_keeps w.2 (answer_job e w response).2 /\ jobQueue (answer_job e w response).1 = jobQueue w.1.
Proof.
  destruct w as [s c]. pose proof (offer_keeps e c response) as Hk. revert Hk.
  unfold answer_job, offer. by destruct (select_send _ _ _).
Qed.

Lemma wf_read e sys id c data sys' :
  well_formed sys -> connections sys !! id = Some c -> 0 < len data <= readBuf_size ->
  read_step e sys id c data = Ok sys' -> well_formed sys'.
Proof.
  intros W Hc Hd. unfold read_step. destruct (wf_conns _ W id c Hc) as ([buf Hb] & _ & _).
  rewrite Hb. change (default [] (Some buf)) with buf. pose proof (hybrid_keeps e (server sys, c) id data) as Hk.
  destruct (processRequestHybrid e (server sys, c) id data) as [[s c']| |] eqn:E;
    cbn [server]; rewrite E; [|done..].
  intros [= <-]. destruct Hk as [Hk Hq]. cbn [fst snd] in Hk, Hq.
  assert (W' : well_formed (set_buffers sys (<[readBuf c := fill_buffer buf data]> (buffers sys)))).
  { apply wf_set_buffers; [done| |].
    - apply map_Forall_insert_2; [|apply W]. apply fill_buffer_len; [|lia]. by apply (wf_buffers _ W (readBuf c)).
    - intros b Hsome. apply lookup_insert_is_Some'. by right. }
  apply (wf_set_connection _ s id c c' W'); [done|done| |].
  - destruct Hq as [->|(job & -> & _ & Hl)]; [apply W|]. rewrite len_snoc. lia.
  - pose proof (wf_jobs _ W') as Hj.
    destruct Hq as [->|(job & -> & (Hid & Hbuf & Hv & Hvs & Hm) & _)]; [done|].
    apply Forall_app. split; [done|]. constructor; [|constructor].
    assert (Hw : forall w, within (len data) w -> within readBuf_size w)
      by (unfold within; intros; lia).
    split_and!; cbn; [by rewrite Hid, Hc|by rewrite Hbuf, lookup_insert_eq|by apply Hw| |exact Hm].
    by eapply Forall_impl.
Qed.

Lemma wf_work e sys job jobs c sys' :
  well_formed sys -> jobQueue (server sys) = job :: jobs -> connections sys !! conn job = Some c ->
  worker_step e sys job jobs c = Ok sys' -> well_formed sys'.
Proof.
  intros W Hj Hc. unfold worker_step. destruct (processJob _ _ _ _) as [st r].
  destruct r as [response| |]; [|done..]. rewrite bind_ok.
  destruct (answer_job_keeps e (set_store (set_jobs (server sys) jobs) st, c) response) as [Hk Ha].
  destruct (answer_job _ _ _) as [s c']. intros [= <-]. cbn [fst snd] in Hk, Ha.
  apply (wf_set_connection _ _ _ c); [done|done|done|..]; rewrite Ha; cbn [jobQueue set_store set_jobs].
  - pose proof (wf_queue _ W) as Hq. rewrite Hj, len_cons in Hq. lia.
  - pose proof (wf_jobs _ W) as H. rewrite Hj in H. by apply Forall_cons in H as [_ H].
Qed.

Lemma wf_accept sys id rbuf wbuf :
  well_formed sys -> connections sys !! id = None -> rbuf <> wbuf ->
  rbuf ∈ pool sys \/ buffers sys !! rbuf = None ->
  wbuf ∈ pool sys \/ buffers sys !! wbuf = None ->
  well_formed (accept sys id rbuf wbuf).
Proof.
  intros W Hid Hne Hr Hw.
  assert (Hfree : forall b i, b ∈ pool sys \/ buffers sys !! b = None -> ~ owned sys b i).
  { intros b i [Hb|Hb] Ho; [by apply (wf_pool _ W b Hb) in Ho|].
    destruct Ho as (c & Hc & _ & Hbc). destruct (wf_conns _ W i c Hc) as (H1 & H2 & _).
    apply (is_Some_None (A := bytes)). rewrite <- Hb. by destruct Hbc as [->| ->]. }
  assert (Hown : forall b i, owned (accept sys id rbuf wbuf) b i ->
    (i = id /\ (b = rbuf \/ b = wbuf)) \/ (i <> id /\ owned sys b i)).
  { intros b i (c & Hc & Ho & Hb). cbn in Hc, Ho. apply lookup_insert_Some in Hc as [[<- <-]|[Hi Hc]].
    - left. by cbn in Hb.
    - right. split; [done|]. exists c. split_and!; [done| |done].
      by apply elem_of_union in Ho as [->%elem_of_singleton|]. }
  destruct (make_buffer_ok (buffers sys) rbuf (wf_buffers _ W)) as (Hl1 & Hm1 & Hr1).
  destruct (make_buffer_ok (make_buffer (buffers sys) rbuf) wbuf Hl1) as (Hl2 & Hm2 & Hw2).
  split; cbn [accept connections server buffers pool].
  - apply map_Forall_insert_2; [done|apply W].
  - apply W.
  - eapply Forall_impl; [apply W|]. intros job (Hc & Hj & Hrest). split_and!; [|auto|apply Hrest..].
    apply lookup_insert_is_Some'. by right.
  - done.
  - apply map_Forall_insert_2; [cbn; auto|]. intros i c Hc.
    destruct (wf_conns _ W i c Hc) as (H1 & H2 & H3). auto.
  - intros b i i' [[-> Hb]|[Hi Ho]]%Hown [[-> Hb']|[Hi' Ho']]%Hown; [done| | |by eapply W].
    + exfalso. by destruct Hb as [->| ->]; [apply (Hfree _ _ Hr Ho')|apply (Hfree _ _ Hw Ho')].
    + exfalso. by destruct Hb' as [->| ->]; [apply (Hfree _ _ Hr Ho)|apply (Hfree _ _ Hw Ho)].
  - intros b [[Hb1 Hb2] Hb]%list_elem_of_filter. destruct (wf_pool _ W b Hb) as [Hs Hno].
    split; [auto|]. intros i [[-> Hbb]|[_ Ho]]%Hown; [by destruct Hbb|by apply (Hno i)].
  - apply NoDup_filter, W.
Qed.

Lemma wf_hang_up sys id c :
  well_formed sys -> connections sys !! id = Some c -> id ∈ open_ sys ->
  well_formed (hang_up sys id c).
Proof.
  intros W Hc Ho. destruct (wf_conns _ W id c Hc) as (H1 & H2 & Hne).
  assert (Hr : owned sys (readBuf c) id) by (exists c; auto).
  assert (Hw : owned sys (writeBuf c) id) by (exists c; auto).
  assert (Hown : forall b i, owned (hang_up sys id c) b i -> i <> id /\ owned sys b i).
  { intros b i (c' & Hc' & Hi & Hb). cbn in *. apply elem_of_difference in Hi as [Hi Hn].
    rewrite elem_of_singleton in Hn. split; [done|]. by exists c'. }
  split; cbn [hang_up connections server buffers pool]; try apply W.
  - intros b i i' [_ Hi]%Hown [_ Hi']%Hown. by eapply W.
  - intros b Hb. apply elem_of_cons in Hb as [->|Hb]; [|apply elem_of_cons in Hb as [->|Hb]].
    + split; [done|]. intros i [Hi Hi']%Hown. apply Hi. by eapply W.
    + split; [done|]. intros i [Hi Hi']%Hown. apply Hi. by eapply W.
    + destruct (wf_pool _ W b Hb) as [Hs Hno]. split; [done|]. intros i [_ Hi]%Hown. by apply (Hno i).
  - apply NoDup_cons. split.
    { intros [E|Hb]%elem_of_cons; [done|]. by apply (proj2 (wf_pool _ W _ Hb) id). }
    apply NoDup_cons. split; [|apply W]. intros Hb. by apply (proj2 (wf_pool _ W _ Hb) id).
Qed.

Lemma wf_stop sys : well_formed sys -> well_formed (Stop sys).
Proof.
  intros W. assert (Hown : forall b i, owned (Stop sys) b i -> owned sys b i).
  { intros b i (c & Hc & Ho & Hb). cbn in Hc. rewrite lookup_fmap in Hc.
    destruct (connections sys !! i) as [c0|] eqn:E; [|done]. injection Hc as <-. by exists c0. }
  split; cbn [Stop connections server buffers pool]; try apply W.
  - apply map_Forall_fmap. apply W.
  - eapply Forall_impl; [apply W|]. intros job ((c & Hc) & Hrest). split; [|exact Hrest].
    cbn. rewrite lookup_fmap, Hc. by eexists.
  - apply map_Forall_fmap. apply W.
  - intros b i i' Hi%Hown Hi'%Hown. by eapply W.
  - intros b Hb. destruct (wf_pool _ W b Hb) as [Hs Hno]. split; [done|]. intros i Hi%Hown. by apply (Hno i).
Qed.

Lemma wf_elapse d sys : well_formed sys -> well_formed (elapse d sys).
Proof. intros [H1 H2 H3 H4 H5 H6 H7 H8]. by split. Qed.

Lemma wf_step sys sys' : step sys sys' -> well_formed sys -> well_formed sys'.
Proof.
  intros Hs W. destruct Hs as [sys id rbuf wbuf Hid Hne Hr Hw|e sys id c data sys' Hc _ Hd Hr
    |sys id c Hc _|e sys job jobs c sys' Hj Hc Hw|sys id c Hc _|sys id c Hc Ho _|sys _|d sys _].
  - by apply wf_accept.
  - by eapply wf_read.
  - eapply wf_set_connection; [done|done|apply take_message_keeps|apply W..].
  - by eapply wf_work.
  - eapply wf_set_connection; [done|done|apply cancel_keeps|apply W..].
  - by eapply wf_hang_up.
  - by apply wf_stop.
  - by apply wf_elapse.
Qed.

Lemma wf_start s : jobQueue s = [] -> well_formed (start s).
Proof.
  intros Hj. split; cbn [start connections server buffers pool]; rewrite ?Hj;
    try done; try (by constructor).
  - by intros b i i' (c & Hc & _).
  - by intros b []%elem_of_nil.
Qed.

Lemma reachable_wf s sys : jobQueue s = [] -> rtc step (start s) sys -> well_formed sys.
Proof.
  intros Hj. assert (H0 : well_formed (start s)) by (by apply wf_start).
  intros Hr. induction Hr as [|x y z Hxy _ IH]; [done|]. by eapply IH, wf_step.
Qed.
End WellFormed.

(** ** Properties *)

Section Properties.
Context {bdg : Badger} {laws : BadgerLaws} {batch : BadgerBatch} {blaws : BadgerBatchLaws}.
Implicit Types (e : Env) (sys : System).

(** C11: in every state a server reaches, whatever it reads and in whichever
    order its loops take turns: responses and jobs stay within the capacity of
    their queues, read buffers keep their size, no buffer has two open
    connections or is in the pool while it has one, and the slices of a queued
    job lie within a buffer, as many values as keys in an MSET. *)
Theorem server_stays_well_formed s sys :
  jobQueue s = [] -> rtc step (start s) sys -> well_formed sys.
Proof. apply reachable_wf. Qed.

Lemma kv_no_panic st op : ttl_ok op -> (kv_exec st op).2 <> Panic.
Proof.
  intros Hop. destruct (kv_exec_refined st op Hop) as [[-> _]|(err & ws & -> & _)]; [|done].
  apply spec_no_panic.
Qed.

(** A computation that returns a value. *)
Definition returns {A} (r : result A) : Prop := exists a, r = Ok a.

Lemma reply_returns {A} (r : result A) ok :
  r <> Panic -> (forall a, returns (ok a)) -> returns (reply r ok).
Proof. destruct r; intros Hr Ho; [apply Ho|by eexists|done]. Qed.

Lemma with_reply_panic {A} (k : A -> KVReply) (x : KV.Storage * result A) :
  (with_reply k x).2 <> Panic -> x.2 <> Panic.
Proof. unfold with_reply. by destruct x as [st []]. Qed.

(** No operation of the storage panics, so no command does. *)
Lemma single_command_safe st cmd key value : returns (single_command st cmd key value).2.
Proof.
  unfold single_command.
  pose proof (with_reply_panic _ _ (kv_no_panic st (OSet key value 0) ltac:(by left))) as HS.
  pose proof (with_reply_panic _ _ (kv_no_panic st (OGet key) I)) as HG.
  pose proof (with_reply_panic _ _ (kv_no_panic st (ODelete key) I)) as HD.
  pose proof (with_reply_panic _ _ (kv_no_panic st (OExists key) I)) as HE.
  pose proof (with_reply_panic _ _ (kv_no_panic st (OIncr key) I)) as HI.
  pose proof (with_reply_panic _ _ (kv_no_panic st (ODecr key) I)) as HX.
  assert (Hn : forall n, returns (number_reply n)) by (intros n; rewrite number_reply_ok; by eexists).
  repeat match goal with |- context [if ?b then _ else _] => destruct b end; cbn [snd];
    try (destruct (KV.Set_ _ _ _ _)); try (destruct (KV.Delete _ _));
    try (destruct (KV.Incr _ _)); try (destruct (KV.Decr _ _));
    first [by eexists | apply reply_returns; [done|by eexists || by apply Hn]].
Qed.

(** A job may panic on an MSET with too few values only. *)
Lemma processJob_safe e st buf job :
  paired (cmd job) (keys job) (values job) -> returns (processJob e st buf job).2.
Proof.
  intros Hpair.
  unfold processJob. set (ks := default [] (keys job)).
  pose proof (fun kvs => with_reply_panic _ _ (kv_no_panic st (OBatchSet kvs 0) ltac:(by left))) as HS.
  pose proof (with_reply_panic _ _ (kv_no_panic st (OBatchGet ks) I)) as HG.
  pose proof (with_reply_panic _ _ (kv_no_panic st (OBatchDelete ks) I)) as HD.
  destruct (is_cmd (cmd job) "MSET") eqn:Hm; [|destruct (is_cmd (cmd job) "MGET");
    [apply reply_returns; [done|by eexists]|destruct (is_cmd (cmd job) "MDEL"); [|apply single_command_safe]]].
  - unfold batch_set. apply bool_decide_eq_true in Hm.
    rewrite pair_map_zip by (rewrite length_map; by apply Hpair).
    set (kvs := insert_pairs ∅ _). specialize (HS (pair_order e kvs)).
    destruct (KV.BatchSet _ _ _) as [st' r]. apply reply_returns; [done|by eexists].
  - destruct (KV.BatchDelete _ _) as [st' r]. apply reply_returns; [done|by eexists].
Qed.

(** C18: a worker survives its jobs: in every reachable state the first job of
    the queue has a connection to answer on, and running it does not end the
    process, whatever the read buffer holds by then. *)
Theorem queued_job_runs e s sys job jobs :
  jobQueue s = [] -> rtc step (start s) sys -> jobQueue (server sys) = job :: jobs ->
  exists c sys', connections sys !! conn job = Some c /\
    worker_step e sys job jobs c = Ok sys' /\ jobQueue (server sys') = jobs /\
    step sys sys'.
Proof.
  intros Hs Hr Hj. assert (W : well_formed sys) by (apply (reachable_wf s); done).
  pose proof (wf_jobs _ W) as H. rewrite Hj in H.
  apply Forall_cons in H as [([c Hc] & _ & _ & _ & Hpair) _].
  exists c. pose proof (processJob_safe e (store (set_jobs (server sys) jobs))
    (default [] (buffers sys !! jbuf job)) job Hpair) as Hp.
  assert (exists sys', worker_step e sys job jobs c = Ok sys' /\ jobQueue (server sys') = jobs)
    as (sys' & Hw & Hq).
  { unfold worker_step. destruct (processJob _ _ _ _) as [st r]. destruct Hp as [m Hm].
    cbn [snd] in Hm. rewrite Hm, bind_ok.
    pose proof (proj2 (answer_job_keeps e (set_store (set_jobs (server sys) jobs) st, c) m)) as Hq.
    destruct (answer_job _ _ _) as [s' c']. by eexists. }
  exists sys'. split_and!; [done|done|done|]. by eapply Work.
Qed.
End Properties.
