(* ===== verification/ServerWitness.v ===== *)
(** The server's theorems at work: a server on the engine over finite maps, one
    connection, and each theorem applied to a concrete request. *)
From stdpp Require Import base list numbers gmap relations strings.
From Stdlib Require Import ZArith Lia.
From S2P Require Import Prelude GoBytes Fields Fmt Badger KVStorage KVCorrect KVRefine StreamStorage StreamService Protocol ProtocolDecode ProtocolSpec ProtocolParse ProtocolCorrect ProtocolTrip Json JsonTrip DocStorage DocHelpers DocStore DocSpec DocRefine DocIndex DocRestart ServerState ServerText ServerBinary ServerDocs Server ServerWire ServerKV ServerLines ServerInvariant ServerSystem GoValue.

Definition sample_env : Env :=
  mkEnv 1700000000000 (str "uuid-1") 1700000000000 1700000000000000000 (fun _ => 1700000000000)
    (fun _ => 1700000000000000000) map_to_list map_to_list id (fun cs => (map_to_list cs).*1)
    (fun _ => 1700000000000) (str "uuid-2") id map_to_list 20000 true true.

Definition sample_server : Server (bdg := mem_badger) :=
  NewServer empty_storage mem_empty (Some empty_docs).
Definition sample_conn : Connection := mkConnection 1 2 [] [] false 0 0.
Definition sample_world : Server * Connection := (sample_server, sample_conn).

Lemma one_request_per_read_witness :
  (data ← encode_call (CallGet (str "k")); processRequestHybrid sample_env sample_world 1 (data ++ data))
  = handle sample_env sample_world (intended (CallGet (str "k"))).
Proof.
  destruct (decode_call (CallGet (str "k")) []) as (w & _ & E & _); [by vm_compute|].
  refine (eq_trans _ (one_request_per_read sample_env sample_world 1 (CallGet (str "k"))
    (frame (OpCode (intended (CallGet (str "k")))) w) _)); [by rewrite E|by vm_compute].
Defined.

(** A value of 32757 bytes and a DEL request: the key "k" and the rest of the
    SET's frame fill the read buffer up to the DEL. *)
Definition long_pad : bytes := replicate (Z.to_nat 32756) 97.
Definition hidden_delete : bytes := default [] (match encode_call (CallDelete (str "x")) with Ok d => Some d | _ => None end).

Lemma long_value_is_executed_witness :
  exists wire, encode_call (CallSet (str "k") (long_pad ++ hidden_delete)) = Ok wire /\
    processRequestHybrid sample_env sample_world 1 (takeZ readBuf_size wire)
    = fail sample_env sample_world (errorf "incomplete request") /\
    forall e' w', processRequestHybrid (bdg := mem_badger) (batch := mem_batch) e' w' 1 (dropZ readBuf_size wire)
                  = handle e' w' (intended (CallDelete (str "x"))).
Proof.
  refine (long_value_is_executed sample_env sample_world 1 (str "k") long_pad (CallDelete (str "x"))
    hidden_delete _ _ _ _ _).
  - by vm_compute.
  - unfold long_pad, len. by rewrite length_replicate.
  - by vm_compute.
  - by vm_compute.
  - unfold long_pad, len. by rewrite length_replicate.
Defined.

Lemma delete_command_refused_witness :
  processRequestHybrid sample_env sample_world 1 (str "DEL " ++ (str "user:1" ++ CRLF))
  = Ok (count count_error sample_server,
      offer sample_env sample_conn (frame StatusError (str "incomplete request"))).
Proof.
  refine (delete_command_refused sample_env sample_world 1 (str "DEL ") (str "user:1" ++ CRLF) _ _ _ _).
  - by left.
  - by repeat constructor.
  - done.
  - done.
Defined.

Lemma malformed_frame_ends_process_witness :
  processRequestHybrid sample_env sample_world 1 (frame OpGet (be16 65535) ++ []) = Panic.
Proof.
  refine (malformed_frame_ends_process sample_env sample_world 1 OpGet 65535 [] _ _); [by left|lia].
Defined.

Lemma counter_requests_unknown_witness :
  (data ← encode_call (CallIncr (str "hits")); processRequestHybrid sample_env sample_world 1 (data ++ []))
  = Ok (count count_error sample_server,
      offer sample_env sample_conn (frame StatusError (str "unknown opcode"))).
Proof.
  refine (counter_requests_unknown sample_env sample_world 1 (CallIncr (str "hits")) [] _ _);
    [by vm_compute|by right; left].
Defined.

Lemma sample_orders : orders_pairs sample_env.
Proof. by intros m. Qed.

Definition set_request : bytes := frame OpSet (str16 (str "k") ++ blob32 (str "v")).

Lemma kv_end_to_end_witness :
  exists w' response,
    processRequestHybrid sample_env sample_world 1 set_request = Ok w' /\
    view (store w'.1) = (kv_spec (view empty_storage) (OSet (str "k") (str "v") 0)).1 /\
    same_but_store sample_server w'.1 /\ outQueue w'.2 = [] ++ [response] /\
    DecodeResponse response = Ok (mkResponse StatusOK [] [] []).
Proof.
  refine (kv_end_to_end (bdg := mem_badger) (batch := mem_batch) sample_env sample_world 1
    (CallSet (str "k") (str "v")) (OSet (str "k") (str "v") 0) set_request _ _ _ _ _ _).
  - done.
  - by vm_compute.
  - by vm_compute.
  - exact sample_orders.
  - done.
  - done.
Defined.

Lemma text_end_to_end_witness :
  exists w', processRequestHybrid sample_env sample_world 1 (line [str "SET"; str "k"; str "v"]) = Ok w' /\
    view (store w'.1) = (kv_spec (view empty_storage) (OSet (str "k") (str "v") 0)).1 /\
    same_but_store sample_server w'.1 /\ outQueue w'.2 = [] ++ [ok_line].
Proof.
  refine (text_end_to_end (bdg := mem_badger) (batch := mem_batch) sample_env sample_world 1
    (TSet (str "k") (str "v")) _ _); [|done].
  split; [by repeat constructor|done].
Defined.

(** The worker that finds the next line in the buffer stores its bytes. *)
Definition sample_pairs : list (bytes * bytes) := [(str "k", str "secret")].
Lemma queued_values_are_read_late_witness :
  exists s job, processRequestHybrid sample_env sample_world 1 (line (str "MSET" :: pair_words sample_pairs))
      = Ok (s, count_op sample_conn) /\
    forall e' st, processJob e' st (str "GET of:client42") job =
      let '(st, r) := batch_set e' st [str "k"] [str "client"] in (st, reply r (fun _ => Ok ok_line)).
Proof.
  destruct (queued_values_are_read_late (bdg := mem_badger) (batch := mem_batch) sample_env sample_world 1
    sample_pairs) as (s & job & H & _ & _ & _ & _ & Hj); [done|by repeat constructor|done|done|done|].
  exists s, job. split; [exact H|]. intros e' st. exact (Hj e' st (str "GET of:client42")).
Defined.

(** A connection is accepted and reads an MSET, which a worker then finds. *)
Lemma mset_reached :
  exists sys job, rtc step (start sample_server) sys /\ jobQueue (server sys) = [job] /\ conn job = 1.
Proof.
  pose (sys1 := accept (start sample_server) 1 1 2).
  assert (Hc : connections sys1 !! 1 = Some sample_conn) by apply lookup_insert_eq.
  pose proof (mset_queued (bdg := mem_badger) (batch := mem_batch) sample_env
    (sample_server, sample_conn) 1 sample_pairs) as H.
  pose (job := mset_job (bdg := mem_badger) (sample_server, sample_conn) 1 sample_pairs).
  exists (set_connection (mkSystem sample_server (connections sys1) (open_ sys1)
    (<[1 := fill_buffer (default [] (buffers sys1 !! 1)) (line (str "MSET" :: pair_words sample_pairs))]>
      (buffers sys1)) (pool sys1)) (count count_slow (set_jobs sample_server [job])) 1 (count_op sample_conn)), job.
  split_and!; [|reflexivity|reflexivity].
  eapply rtc_l; [apply (Accept _ 1 1 2); [done|done|by right|by right]|].
  eapply rtc_l; [|apply rtc_refl]. eapply (Read sample_env sys1 1 sample_conn); [exact Hc| | |].
  - cbn. by apply elem_of_union; left; apply elem_of_singleton.
  - instantiate (1 := line (str "MSET" :: pair_words sample_pairs)). done.
  - unfold read_step. cbn [server sys1 accept start].
    rewrite H; [reflexivity|done|by repeat constructor|done..].
Qed.

Lemma server_stays_well_formed_witness :
  exists sys job, jobQueue (server sys) = [job] /\ conn job = 1 /\ well_formed sys.
Proof.
  destruct mset_reached as (sys & job & Hr & Hq & Hc). exists sys, job.
  split; [exact Hq|]. split; [exact Hc|].
  refine (server_stays_well_formed sample_server sys _ Hr). reflexivity.
Defined.

Lemma queued_job_runs_witness :
  exists sys job c sys', rtc step (start sample_server) sys /\ jobQueue (server sys) = [job] /\
    connections sys !! conn job = Some c /\ worker_step sample_env sys job [] c = Ok sys'.
Proof.
  destruct mset_reached as (sys & job & Hr & Hq & _).
  destruct (queued_job_runs (bdg := mem_badger) (batch := mem_batch) sample_env sample_server sys job [])
    as (c & sys' & Hc' & Hw & _ & _); [done|exact Hr|exact Hq|].
  by exists sys, job, c, sys'.
Defined.

Definition ann_document : Document :=
  <[str "name" := VString (str "ann")]> (<[str "age" := VInt 30]> ∅).
Definition ann_json : bytes := match Marshal (VObject ann_document) with Ok data => data | _ => [] end.
Definition insert_ann : bytes :=
  match encode_call (CallDocInsert users ann_json) with Ok msg => msg | _ => [] end.

Lemma ann_document_ok : doc_ok ann_document.
Proof. split; [by vm_compute|]. apply Nat.leb_le. by vm_compute. Qed.

(** A second document of that name, into the collection that is indexed by name. *)
Definition users_world : Server * Connection := (set_docs sample_server sample_docs, sample_conn).

Lemma doc_insert_end_to_end_witness :
  exists ds', holds (doc_spec sample_documents
      (DInsert 1700000000000 (str "uuid-2") users (Some (norm_doc ann_document)))).1 ds' /\
    doc_served users_world (processRequestHybrid sample_env users_world 1 insert_ann) ds'
      (ReplyValue (insert_id (str "uuid-2") (norm_doc ann_document))).
Proof.
  refine (doc_insert_end_to_end (bdg := mem_badger) (batch := mem_batch) sample_env users_world 1
    users ann_document ann_json insert_ann sample_documents sample_docs _ _ _ _ _ _ _ _ _ _).
  - apply ann_document_ok.
  - by vm_compute.
  - by vm_compute.
  - by vm_compute.
  - done.
  - exact sample_holds.
  - done.
  - done.
  - split_and!; [exact users_name_ok|done|done|apply doc_ok_norm, ann_document_ok|right].
    split; [by vm_compute|]. intros coll f v Hc Hf Hv. unfold sample_docs in Hc. cbn [indexes] in Hc. apply lookup_singleton_Some in Hc as [_ <-].
    apply elem_of_dom in Hf as [idx Hf]. unfold name_coll in Hf. apply lookup_singleton_Some in Hf as [<- _].
    assert (v = VString (str "ann")) as -> by (vm_compute in Hv; injection Hv as <-; reflexivity). by split; [|eexists].
  - by vm_compute.
Defined.

(** The indexed store of users named "ann", and a query for that name. *)
Definition query_filter : value :=
  VObject (list_to_map [(str "field", VString name_field); (str "operator", VString OpEq);
    (str "value", VString (str "ann"))]).
Definition query_data : bmap value := {[ str "filters" := VArray [query_filter] ]}.
Definition query_request : Request :=
  doc_request OpDocFind users (match Marshal (VObject query_data) with Ok data => data | _ => [] end).
Definition indexed_world : Server * Connection := (set_docs sample_server indexed_docs, sample_conn).

Lemma unlimited_query_finds_nothing_witness :
  doc_served indexed_world (processBinaryDocFind sample_env indexed_world query_request) indexed_docs
    (ReplyValue (str "null")).
Proof.
  refine (proj1 (unlimited_query_finds_nothing (bdg := mem_badger) sample_env
    indexed_world query_request query_data indexed_docs name_coll ann_query name_index
    (Some (KString (str "ann"))) _ _ _ _ _ _ _ _ _)).
  - by vm_compute.
  - by vm_compute.
  - by vm_compute.
  - done.
  - done.
  - done.
  - exact users_indexed.
  - exact by_name_decides.
  - done.
Defined.
