(* ===== verification/HttpApi.v ===== *)
(** The HTTP API of the server (internal/server/http_api.go): routes, and the
    handlers of keys and queues, on the stores that the server shares with it. *)
From stdpp Require Import base list numbers gmap strings.
From Stdlib Require Import ZArith Lia.
From S2P Require Import Prelude Fmt Badger KVStorage QueueService GoFloat GoValue Json JsonStruct ServerState.

(** ** Requests and responses *)

Record HttpRequest : Type := mkHttpRequest {
  Method : bytes;
  Path : bytes;
  RawQuery : bytes;
  Body : bytes;
}.

(** What the handlers read from elsewhere: the time as a text, the order of a
    loop over a map, the identifier and the time of a message pushed, and
    whether the engine's copy of an empty value is a nil slice; its copy of any
    other value is not nil. *)
Record HttpEnv : Type := mkHttpEnv {
  time_text : bytes;
  range_pairs : KV.kv_map -> list (bytes * bytes);
  push_uuid : bytes;
  push_now : Z;
  empty_is_nil : bool;
}.

Definition nil_copy (e : HttpEnv) (v : bytes) : bool := bool_decide (v = []) && empty_is_nil e.

Record HttpResponse : Type := mkHttpResponse {
  StatusCode : Z;
  Header : list (bytes * bytes);
  Written : bytes;
}.

Definition OK : Z := 200.
Definition Created : Z := 201.
Definition BadRequest : Z := 400.
Definition NotFound : Z := 404.
Definition MethodNotAllowed : Z := 405.
Definition InternalServerError : Z := 500.

Definition json_type : list (bytes * bytes) := [(str "Content-Type", str "application/json")].

(** [json.NewEncoder(w).Encode(..)] of a struct or a map with the given members. *)
Definition answer (status : Z) (members : list (bytes * bytes)) : HttpResponse :=
  mkHttpResponse status json_type (object_text members ++ [10]).

Definition writeError (message : bytes) (status : Z) : HttpResponse :=
  answer status [(str "error", quote message)].
Definition write_error (message : string) (status : Z) : HttpResponse := writeError (str message) status.
Arguments write_error message%_string status.

Definition success (status : Z) : HttpResponse := answer status [(str "status", quote (str "success"))].

(** [strings.Contains(s, sub)] *)
Fixpoint contains (sub s : bytes) : bool :=
  bool_decide (sub `prefix_of` s) || match s with [] => false | _ :: s => contains sub s end.

Definition is_method (r : HttpRequest) (m : string) : bool := bool_decide (Method r = str m).
Arguments is_method r m%_string.

(** The structs of the request bodies, before they are decoded. *)
Definition SetRequest : struct := [(str "key", FString []); (str "value", FString []); (str "ttl", FInt 0)].
Definition DeleteRequest : struct := [(str "key", FString [])].
Definition UpdateRequest : struct := SetRequest.
Definition PushRequest : struct := [(str "queue", FString []); (str "message", FString [])].
Definition PopRequest : struct := [(str "queue", FString [])].
Definition CreateQueueRequest : struct := [(str "name", FString [])].
Definition DeleteQueueRequest : struct := [(str "name", FString [])].

Definition Second : Z := 1000000000.

(** The fields of the responses, in the order of their structs. *)
Definition StatusResponse (nodeID status time : bytes) : list (bytes * bytes) :=
  [(str "nodeId", quote nodeID); (str "status", quote status); (str "time", quote time)].
Definition KVItem (kv : bytes * bytes) : list (bytes * bytes) :=
  [(str "key", quote kv.1); (str "value", quote kv.2); (str "size", fmt_d (len kv.2))].
Definition KVListResponse (items : list bytes) : list (bytes * bytes) :=
  [(str "items", array_text items); (str "total", fmt_d (len items))].
Definition QueueListResponse (items : list bytes) : list (bytes * bytes) :=
  [(str "items", array_text items); (str "total", fmt_d (len items))].
Definition GetResponse (key value : bytes) : list (bytes * bytes) :=
  [(str "key", quote key); (str "value", quote value)].
Definition PopResponse (message : bytes) : list (bytes * bytes) := [(str "message", quote message)].

Section Handlers.
Context {bdg : Badger} {batch : BadgerBatch}.
Implicit Types (s : Server) (r : HttpRequest) (e : HttpEnv).

(** A handler runs on the server's stores; a panic of it is recovered by package
    net/http, which drops the connection. *)
Abbreviation handler := (HttpEnv -> Server -> HttpRequest -> Server * result HttpResponse).

Definition reply {A} s (x : result A) (failed : error -> HttpResponse) (ok : A -> HttpResponse)
    : Server * result HttpResponse :=
  (s, on_err x (fun err => Ok (failed err)) (fun a => Ok (ok a))).

(** The answer to a failed call of a storage. *)
Definition internal (err : error) : HttpResponse := writeError (error_text err) InternalServerError.

(** [if r.Method != .. { .. }] *)
Definition allowed (ok : bool) s (k : Server * result HttpResponse) : Server * result HttpResponse :=
  if ok then k else (s, Ok (write_error "Method not allowed" MethodNotAllowed)).

(** Decode the body, and go on with the struct. *)
Definition decoded (fs : struct) s r (k : struct -> Server * result HttpResponse)
    : Server * result HttpResponse :=
  match Decode fs (Body r) with
  | Some req => k req
  | None => (s, Ok (write_error "Invalid request body" BadRequest))
  end.

Definition required (present : bool) (message : string) s (k : Server * result HttpResponse)
    : Server * result HttpResponse :=
  if present then k else (s, Ok (write_error message BadRequest)).
Arguments required present message%_string s k.

Definition given (x : bytes) : bool := negb (bool_decide (x = [])).

(** [time.Duration(ttl)*time.Second] of a positive ttl, wrapped around. *)
Definition ttl_of_request (ttl : Z) : Z := int64 ((if 0 <? ttl then ttl else 0) * Second).

Definition handleHealth : handler := fun e s r =>
  (s, Ok (answer OK [(str "status", quote (str "ok"))])).

Definition handleStatus (nodeID : bytes) : handler := fun e s r =>
  (s, Ok (answer OK (StatusResponse nodeID (str "running") (time_text e)))).

Definition handleKVKeys : handler := fun e s r =>
  allowed (is_method r "GET") s
    (reply s (KV.ScanKeysWithValues (store s) [] 100)
      (fun err => writeError (str "Failed to scan keys: " ++ error_text err) InternalServerError)
      (fun kvPairs =>
        let items := range_pairs e kvPairs in
        answer OK (KVListResponse (map (fun item => object_text (KVItem item)) items)))).

Definition handleKVGet : handler := fun e s r =>
  allowed (is_method r "GET") s
    (let key := query_get (RawQuery r) (str "key") in
     required (given key) "key parameter is required" s
       (reply s (KV.Get (store s) key)
         (fun err =>
           if contains (str "not found") (error_text err)
           then write_error "Key not found" NotFound else internal err)
         (fun value =>
           if nil_copy e value then write_error "Key not found" NotFound
           else answer OK (GetResponse key value)))).

(** [hs.server.store.Set(..)] of a decoded request. *)
Definition set_key s (req : struct) (status : Z) : Server * result HttpResponse :=
  let '(st, err) := KV.Set_ (store s) (string_field req "key") (string_field req "value")
                      (ttl_of_request (int_field req "ttl")) in
  reply (set_store s st) err internal (fun _ => success status).

Definition handleKVSet : handler := fun e s r =>
  allowed (is_method r "POST") s (decoded SetRequest s r (fun req =>
    required (given (string_field req "key") && given (string_field req "value"))
      "key and value are required" s (set_key s req Created))).

Definition handleKVDelete : handler := fun e s r =>
  allowed (is_method r "POST" || is_method r "DELETE") s (decoded DeleteRequest s r (fun req =>
    required (given (string_field req "key")) "key is required" s
      (let '(st, err) := KV.Delete (store s) (string_field req "key") in
       reply (set_store s st) err internal (fun _ => success OK)))).

Definition handleKVUpdate : handler := fun e s r =>
  allowed (is_method r "POST" || is_method r "PUT") s (decoded UpdateRequest s r (fun req =>
    required (given (string_field req "key") && given (string_field req "value"))
      "key and value are required" s
      (match KV.Get (store s) (string_field req "key") with
       | Ok _ => set_key s req OK
       | Err _ => (s, Ok (write_error "Key does not exist" NotFound))
       | Panic => (s, Panic)
       end))).

Definition handleQueuesGet : handler := fun e s r =>
  allowed (is_method r "GET") s
    (s, Ok (answer OK (QueueListResponse []))).

Definition handleQueuePush : handler := fun e s r =>
  allowed (is_method r "POST") s (decoded PushRequest s r (fun req =>
    required (given (string_field req "queue") && given (string_field req "message"))
      "queue and message are required" s
      (let '(db, err) := Queue_Push (queue s) (push_uuid e) (push_now e)
                           (string_field req "queue") (string_field req "message") in
       reply (set_queue s db) err internal (fun _ => success Created)))).

Definition handleQueuePop : handler := fun e s r =>
  allowed (is_method r "POST") s (decoded PopRequest s r (fun req =>
    required (given (string_field req "queue")) "queue is required" s
      (let '(db, message) := Queue_Pop (queue s) (string_field req "queue") in
       reply (set_queue s db) message internal (fun message =>
         if nil_copy e message then write_error "Queue is empty" NotFound
         else answer OK (PopResponse message))))).

(** Queues are neither created nor deleted. *)
Definition named_queue (fs : struct) : handler := fun e s r =>
  allowed (is_method r "POST") s (decoded fs s r (fun req =>
    required (given (string_field req "name")) "name is required" s (s, Ok (success OK)))).
Definition handleQueueCreate : handler := named_queue CreateQueueRequest.
Definition handleQueueDelete : handler := named_queue DeleteQueueRequest.

(** [registerRoutes]; the other paths are answered by package net/http. *)
Definition registerRoutes (nodeID : bytes) : list (string * handler) :=
  [("/health", handleHealth); ("/status", handleStatus nodeID);
   ("/kv/keys", handleKVKeys); ("/kv/get", handleKVGet); ("/kv/set", handleKVSet);
   ("/kv/delete", handleKVDelete); ("/kv/update", handleKVUpdate);
   ("/queues", handleQueuesGet); ("/queues/push", handleQueuePush); ("/queues/pop", handleQueuePop);
   ("/queues/create", handleQueueCreate); ("/queues/delete", handleQueueDelete)]%string.

Definition route (nodeID path : bytes) : option handler :=
  snd <$> List.find (fun p => bool_decide (str p.1 = path)) (registerRoutes nodeID).

Definition cors_headers : list (bytes * bytes) :=
  [(str "Access-Control-Allow-Origin", str "*");
   (str "Access-Control-Allow-Methods", str "GET, POST, PUT, DELETE, OPTIONS");
   (str "Access-Control-Allow-Headers", str "Content-Type, Authorization")].

Definition cors (res : HttpResponse) : HttpResponse :=
  mkHttpResponse (StatusCode res) (cors_headers ++ Header res) (Written res).
Definition with_cors (x : Server * result HttpResponse) : Server * result HttpResponse :=
  (x.1, res ← x.2; Ok (cors res)).

(** A request through the middleware and the routes: None is an answer of package
    net/http, 404 or a redirect. *)
Definition serve (nodeID : bytes) e s r : option (Server * result HttpResponse) :=
  if is_method r "OPTIONS" then Some (with_cors (s, Ok (mkHttpResponse OK [] [])))
  else h ← route nodeID (Path r); Some (with_cors (h e s r)).
End Handlers.
