(* ===== verification/HttpCorrect.v ===== *)
(** The HTTP API: requests on keys are operations on the finite map behind the
    server; requests refused change nothing; what is pushed to a queue is not
    popped.  Then the theorems at work, on the sample server. *)
From stdpp Require Import base list numbers gmap strings.
From Stdlib Require Import ZArith Lia.
From S2P Require Import Prelude Fields Fmt Badger QueueStorage QueueFifo QueueAck QueueMailbox QueueDelivery QueueService KVStorage KVCorrect KVRefine GoFloat GoValue Json JsonTrip JsonStruct ServerState ServerKV ServerWitness HttpApi.

(** ** Requests that are refused *)

Section Refused.
Context {bdg : Badger} {batch : BadgerBatch}.
Implicit Types (s : Server) (r : HttpRequest) (e : HttpEnv) (x : Server * result HttpResponse).

(** A response of the client's fault leaves the server as it was. *)
Definition quiet s x : Prop :=
  forall res, x.2 = Ok res -> 400 <= StatusCode res < 500 -> x.1 = s.

Lemma quiet_here s o : quiet s (s, o).
Proof. by intros res. Qed.

Lemma quiet_reply {A} s s' (o : result A) failed ok :
  (forall err, 500 <= StatusCode (failed err)) -> (forall a, StatusCode (ok a) < 400) ->
  quiet s (reply s' o failed ok).
Proof.
  intros Hf Ho res. unfold reply. destruct o as [a|err|]; cbn; intros [= <-].
  - specialize (Ho a). lia.
  - specialize (Hf err). lia.
Qed.

Lemma quiet_allowed b s k : quiet s k -> quiet s (allowed b s k).
Proof. intros Hk. destruct b; [done|apply quiet_here]. Qed.
Lemma quiet_decoded fs s r k : (forall req, quiet s (k req)) -> quiet s (decoded fs s r k).
Proof. intros Hk. unfold decoded. destruct (Decode fs (Body r)); [apply Hk|apply quiet_here]. Qed.
Lemma quiet_required b m s k : quiet s k -> quiet s (required b m s k).
Proof. intros Hk. destruct b; [done|apply quiet_here]. Qed.

Create HintDb quiet.
#[local] Hint Resolve quiet_here quiet_allowed quiet_decoded quiet_required : quiet.

Lemma set_key_quiet s req status : status < 400 -> quiet s (set_key s req status).
Proof. intros Hs. unfold set_key. destruct (KV.Set_ _ _ _ _). by apply quiet_reply. Qed.
#[local] Hint Resolve set_key_quiet : quiet.

Lemma decoded_quiet ok fs s r (k : struct -> Server * result HttpResponse) :
  (forall req, quiet s (k req)) -> quiet s (allowed ok s (decoded fs s r k)).
Proof. auto with quiet. Qed.

(** Every route but the pop is quiet. *)
Lemma routes_quiet nodeID e s r :
  Forall (fun p => p.1 = "/queues/pop"%string \/ quiet s (p.2 e s r)) (registerRoutes nodeID).
Proof.
  repeat (apply Forall_cons; split; [try (by left); right; cbn [snd]|]); [..|by apply Forall_nil].
  - apply quiet_here.
  - apply quiet_here.
  - apply quiet_allowed. unfold reply. destruct (KV.ScanKeysWithValues (store s) [] 100); apply quiet_here.
  - apply quiet_allowed, quiet_required. unfold reply. destruct (KV.Get (store s) _); apply quiet_here.
  - apply decoded_quiet. intros req. apply quiet_required. by apply set_key_quiet.
  - apply decoded_quiet. intros req. apply quiet_required.
    destruct (KV.Delete (store s) _). by apply quiet_reply.
  - apply decoded_quiet. intros req. apply quiet_required.
    destruct (KV.Get (store s) _); try apply quiet_here. by apply set_key_quiet.
  - apply quiet_allowed, quiet_here.
  - apply decoded_quiet. intros req. apply quiet_required.
    destruct (Queue_Push _ _ _ _ _). by apply quiet_reply.
  - apply decoded_quiet. intros req. apply quiet_required, quiet_here.
  - apply decoded_quiet. intros req. apply quiet_required, quiet_here.
Qed.

Lemma route_in nodeID path h :
  route nodeID path = Some h -> exists name, str name = path /\ (name, h) ∈ registerRoutes nodeID.
Proof.
  unfold route. destruct (List.find _ _) as [[name h']|] eqn:E; [|done]. intros [= <-].
  apply List.find_some in E as [Hin Hn%bool_decide_eq_true]. exists name. split; [done|].
  by apply list_elem_of_In.
Qed.

Lemma pop_changes e s r :
  quiet s (handleQueuePop e s r) \/
  exists q, (Queue_Pop (queue s) q).2 = Ok [] /\ empty_is_nil e = true.
Proof.
  unfold handleQueuePop, allowed, decoded, required.
  destruct (is_method r "POST"); [|left; apply quiet_here].
  destruct (Decode PopRequest (Body r)) as [req|]; [|left; apply quiet_here].
  destruct (given _); [|left; apply quiet_here].
  destruct (Queue_Pop (queue s) (string_field req "queue")) as [db [v|err|]] eqn:E.
  - destruct (nil_copy e v) eqn:Hn.
    { apply andb_true_iff in Hn as [->%bool_decide_eq_true Hn].
      right. exists (string_field req "queue"). by rewrite E. }
    left. unfold reply. cbn. rewrite Hn. intros res [= <-]. cbn. unfold OK. lia.
  - left. intros res [= <-]. cbn. unfold InternalServerError. lia.
  - left. by intros res.
Qed.
End Refused.

(** ** Calls on keys

    The requests of the web front end, their bodies as JSON. *)
Inductive HttpCall : Type :=
| HGet (key : bytes)
| HSet (key value : bytes) (ttl : Z)
| HUpdate (key value : bytes) (ttl : Z)
| HDelete (key : bytes).

Definition key_body (key value : bytes) (ttl : Z) : bytes :=
  object_text [(str "key", quote key); (str "value", quote value); (str "ttl", fmt_d ttl)].

Definition request_of (c : HttpCall) : HttpRequest :=
  match c with
  | HGet k => mkHttpRequest (str "GET") (str "/kv/get") (str "key=" ++ query_escape k) []
  | HSet k v ttl => mkHttpRequest (str "POST") (str "/kv/set") [] (key_body k v ttl)
  | HUpdate k v ttl => mkHttpRequest (str "POST") (str "/kv/update") [] (key_body k v ttl)
  | HDelete k => mkHttpRequest (str "POST") (str "/kv/delete") [] (object_text [(str "key", quote k)])
  end.

Definition key_ok (k : bytes) : Prop := k <> [] /\ bytes_ok k /\ utf8 k = true.

(** Times to live up to 292 years. *)
Definition call_ok (c : HttpCall) : Prop :=
  match c with
  | HGet k | HDelete k => key_ok k
  | HSet k v ttl | HUpdate k v ttl =>
      key_ok k /\ v <> [] /\ utf8 v = true /\ 0 <= ttl <= 9223372036
  end.

Definition stored_for (v : KVState) (k x : bytes) (ttl : Z) : KVState :=
  (kv_spec v (OSet k x (ttl * Second))).1.

(** What the calls do to the map, and their responses. *)
Definition http_spec (v : KVState) (c : HttpCall) : KVState * HttpResponse :=
  match c with
  | HGet k => (v, match kmap v !! k with
                  | Some x => answer OK [(str "key", quote k); (str "value", quote x)]
                  | None => write_error "Key not found" NotFound
                  end)
  | HSet k x ttl => (stored_for v k x ttl, success Created)
  | HUpdate k x ttl =>
      if bool_decide (is_Some (kmap v !! k)) then (stored_for v k x ttl, success OK)
      else (v, write_error "Key does not exist" NotFound)
  | HDelete k => ((kv_spec v (ODelete k)).1, success OK)
  end.

Lemma set_members_step fs k raw kvs name fs' :
  field_named fs k = Some name -> set_named fs name raw = Some fs' ->
  set_members fs ((k, raw) :: kvs) = set_members fs' kvs.
Proof. intros Hn Hs. cbn [set_members]. unfold set_member. cbn [fst snd]. by rewrite Hn, Hs. Qed.

Lemma key_body_decoded k v ttl :
  utf8 k = true -> utf8 v = true -> i64b ttl = true ->
  Decode SetRequest (key_body k v ttl)
  = Some [(str "key", FString k); (str "value", FString v); (str "ttl", FInt ttl)].
Proof.
  intros Hk Hv Ht. unfold key_body. rewrite Decode_object.
  - erewrite (set_members_step SetRequest); [|reflexivity|].
    2: unfold SetRequest; cbn [set_named]; by rewrite decide_True, set_string.
    erewrite set_members_step; [|reflexivity|].
    2: cbn [set_named fst]; by rewrite decide_False, decide_True, set_string.
    erewrite set_members_step; [done|reflexivity|].
    cbn [set_named fst]. do 2 rewrite decide_False by done. by rewrite decide_True, set_int.
  - repeat (apply Forall_cons; split; [split; [by vm_compute|]|]); [..|by apply Forall_nil].
    + by apply skips_string.
    + by apply skips_string.
    + by apply skips_fmt_d.
Qed.

Lemma delete_body_decoded k :
  utf8 k = true -> Decode DeleteRequest (object_text [(str "key", quote k)]) = Some [(str "key", FString k)].
Proof.
  intros Hk. rewrite Decode_object.
  - erewrite (set_members_step DeleteRequest); [done|reflexivity|].
    unfold DeleteRequest. cbn [set_named]. by rewrite decide_True, set_string.
  - apply Forall_singleton. split; [by vm_compute|]. by apply skips_string.
Qed.

Lemma ttl_small ttl : 0 <= ttl <= 9223372036 -> ttl_of_request ttl = ttl * Second.
Proof.
  intros H. unfold ttl_of_request, Second. replace (if 0 <? ttl then ttl else 0) with ttl
    by (destruct (Z.ltb_spec 0 ttl); lia).
  apply int64_small. unfold i64. lia.
Qed.

Section Calls.
Context {bdg : Badger} {laws : BadgerLaws} {batch : BadgerBatch} {blaws : BadgerBatchLaws}.
Context {rel : BadgerReliable}.
Implicit Types (s : Server) (e : HttpEnv) (st : KV.Storage).

(** The storage's operations on an engine that refuses nothing. *)
Lemma Get_reliable st k :
  KV.closed st = false -> k <> [] ->
  KV.Get st k = match kmap (view st) !! k with Some v => Ok v | None => Err KV.ErrKeyNotFound end.
Proof.
  intros Hc Hk. destruct (kv_reliable st (OGet k)) as [H _]; [done|].
  rewrite spec_open in H by (done || by intros ?%list_elem_of_singleton). cbn [kv_exec kv_open snd with_reply] in H.
  destruct (KV.Get st k), (kmap (view st) !! k); cbn in H; congruence.
Qed.

Lemma done_ok {A} (x : KV.Storage * result A) : (with_reply (fun _ => RDone) x).2 = Ok RDone -> exists a, x.2 = Ok a.
Proof. intros H. apply with_reply_ok in H as (a & H & _). by exists a. Qed.

Lemma Set_reliable st k v ttl :
  KV.closed st = false -> k <> [] -> ttl <= 0 \/ second <= ttl -> exists st',
    KV.Set_ st k v ttl = (st', Ok tt) /\ view st' = (kv_spec (view st) (OSet k v ttl)).1.
Proof.
  intros Hc Hk Ht. destruct (kv_reliable st (OSet k v ttl)) as [H Hv]; [done|].
  rewrite spec_open in H by (done || by intros ?%list_elem_of_singleton).
  destruct (done_ok _ H) as [[] Ho]. cbn [kv_exec with_reply fst] in Hv.
  destruct (KV.Set_ st k v ttl) as [st' o]. cbn in Ho, Hv. subst. by exists st'.
Qed.

Lemma Delete_reliable st k :
  KV.closed st = false -> k <> [] -> exists st',
    KV.Delete st k = (st', Ok tt) /\ view st' = (kv_spec (view st) (ODelete k)).1.
Proof.
  intros Hc Hk. destruct (kv_reliable st (ODelete k)) as [H Hv]; [done|].
  rewrite spec_open in H by (done || by intros ?%list_elem_of_singleton).
  destruct (done_ok _ H) as [[] Ho]. cbn [kv_exec with_reply fst] in Hv.
  destruct (KV.Delete st k) as [st' o]. cbn in Ho, Hv. subst. by exists st'.
Qed.

(** What is said of a request on keys. *)
Definition http_served s (x : option (Server * result HttpResponse)) (y : KVState * HttpResponse) : Prop :=
  exists s', x = Some (s', Ok (cors y.2)) /\ view (store s') = y.1 /\ same_but_store s s'.

Lemma given_true x : x <> [] -> given x = true.
Proof. intros H. unfold given. by rewrite bool_decide_eq_false_2. Qed.

(** A decoded request to store a key. *)
Lemma set_key_served s k v ttl status :
  KV.closed (store s) = false -> k <> [] -> 0 <= ttl <= 9223372036 ->
  http_served s
    (Some (with_cors (set_key s [(str "key", FString k); (str "value", FString v); (str "ttl", FInt ttl)] status)))
    (stored_for (view (store s)) k v ttl, success status).
Proof.
  intros Hc Hk Ht. unfold set_key.
  change (string_field _ "key") with k. change (string_field _ "value") with v.
  change (int_field _ "ttl") with ttl. rewrite ttl_small by done.
  destruct (Set_reliable (store s) k v (ttl * Second) Hc Hk) as (st' & E & Hv).
  { unfold Second, second. lia. }
  rewrite E. exists (set_store s st'). by split_and!.
Qed.

Lemma http_get_served nodeID e s k :
  KV.closed (store s) = false -> key_ok k ->
  (forall v, kmap (view (store s)) !! k = Some v -> nil_copy e v = false) ->
  http_served s (serve nodeID e s (request_of (HGet k))) (http_spec (view (store s)) (HGet k)).
Proof.
  intros Hc (Hk & Hb & _) Hn.
  change (serve nodeID e s _) with (Some (with_cors (handleKVGet e s (request_of (HGet k))))).
  unfold handleKVGet. cbn [request_of RawQuery]. rewrite query_get_one, given_true by done.
  cbn [required allowed is_method]. rewrite Get_reliable by done. cbn [http_spec].
  destruct (kmap (view (store s)) !! k) as [v|] eqn:E.
  - exists s. unfold reply. cbn [on_err]. rewrite (Hn v) by done. by split_and!.
  - exists s. by split_and!.
Qed.

Lemma http_set_served nodeID e s k v ttl :
  KV.closed (store s) = false -> call_ok (HSet k v ttl) ->
  http_served s (serve nodeID e s (request_of (HSet k v ttl))) (http_spec (view (store s)) (HSet k v ttl)).
Proof.
  intros Hc ((Hk & _ & Hu) & Hv & Huv & Ht).
  change (serve nodeID e s _) with (Some (with_cors (handleKVSet e s (request_of (HSet k v ttl))))).
  unfold handleKVSet, decoded. cbn [request_of Body].
  rewrite key_body_decoded by (done || unfold i64b; lia).
  change (string_field _ "key") with k. change (string_field _ "value") with v.
  rewrite !given_true by done. by apply set_key_served.
Qed.

Lemma http_update_served nodeID e s k v ttl :
  KV.closed (store s) = false -> call_ok (HUpdate k v ttl) ->
  http_served s (serve nodeID e s (request_of (HUpdate k v ttl))) (http_spec (view (store s)) (HUpdate k v ttl)).
Proof.
  intros Hc ((Hk & _ & Hu) & Hv & Huv & Ht).
  change (serve nodeID e s _) with (Some (with_cors (handleKVUpdate e s (request_of (HUpdate k v ttl))))).
  unfold handleKVUpdate, decoded. cbn [request_of Body]. unfold UpdateRequest.
  rewrite key_body_decoded by (done || unfold i64b; lia).
  change (string_field _ "key") with k. change (string_field _ "value") with v.
  rewrite !given_true by done. cbn [andb required]. rewrite Get_reliable by done. cbn [http_spec].
  destruct (kmap (view (store s)) !! k) as [x|] eqn:E; cbn [is_Some].
  - rewrite bool_decide_eq_true_2 by done. by apply set_key_served.
  - rewrite bool_decide_eq_false_2 by (by intros []). exists s. by split_and!.
Qed.

Lemma http_delete_served nodeID e s k :
  KV.closed (store s) = false -> key_ok k ->
  http_served s (serve nodeID e s (request_of (HDelete k))) (http_spec (view (store s)) (HDelete k)).
Proof.
  intros Hc (Hk & _ & Hu).
  change (serve nodeID e s _) with (Some (with_cors (handleKVDelete e s (request_of (HDelete k))))).
  unfold handleKVDelete, decoded. cbn [request_of Body]. rewrite delete_body_decoded by done.
  change (string_field _ "key") with k. rewrite given_true by done. cbn [required].
  destruct (Delete_reliable (store s) k Hc Hk) as (st' & E & Hv). rewrite E.
  exists (set_store s st'). by split_and!.
Qed.

(** ** Properties *)

(** C23: a request on keys, from the body or the query that a client writes, is
    an operation on the finite map behind the server, answered with the status
    and the JSON of its outcome; the other stores are as they were.
    The engine is assumed to refuse nothing. *)
Theorem http_calls_refine_map nodeID e s c :
  KV.closed (store s) = false -> call_ok c ->
  (forall k v, kmap (view (store s)) !! k = Some v -> nil_copy e v = false) ->
  exists s', serve nodeID e s (request_of c) = Some (s', Ok (cors (http_spec (view (store s)) c).2)) /\
    view (store s') = (http_spec (view (store s)) c).1 /\ same_but_store s s'.
Proof.
  intros Hc Hok Hn. destruct c.
  - by apply http_get_served; [| |apply Hn].
  - by apply http_set_served.
  - by apply http_update_served.
  - by apply http_delete_served.
Qed.

(** An empty value, as the engine copies it, is not found. *)
Lemma empty_value_not_found nodeID e s k :
  KV.closed (store s) = false -> key_ok k -> kmap (view (store s)) !! k = Some [] -> empty_is_nil e = true ->
  serve nodeID e s (request_of (HGet k)) = Some (s, Ok (cors (write_error "Key not found" NotFound))).
Proof.
  intros Hc (Hk & Hb & _) E Hn.
  change (serve nodeID e s _) with (Some (with_cors (handleKVGet e s (request_of (HGet k))))).
  unfold handleKVGet. cbn [request_of RawQuery]. rewrite query_get_one, given_true by done.
  cbn [required allowed is_method]. rewrite Get_reliable by done. rewrite E.
  unfold reply, nil_copy. cbn [on_err]. by rewrite Hn.
Qed.
End Calls.

Section Queues.
Context {bdg : Badger} {laws : BadgerLaws} {rel : BadgerReliable} {batch : BadgerBatch}.
Implicit Types (s : Server) (e : HttpEnv).

(** C31: a request that is refused with a status of the client's leaves the
    server as it was; only a pop that took an empty message, which the engine
    copies to a nil slice, is answered as if the queue were empty. *)
Theorem refused_requests_change_nothing nodeID e s r s' res :
  serve nodeID e s r = Some (s', Ok res) -> 400 <= StatusCode res < 500 ->
  s' = s \/ (Path r = str "/queues/pop" /\ exists q, (Queue_Pop (queue s) q).2 = Ok [] /\ empty_is_nil e = true).
Proof.
  unfold serve. destruct (is_method r "OPTIONS").
  { intros [= <- <-] H. by left. }
  destruct (route nodeID (Path r)) as [h|] eqn:E; [|done]. cbn [mbind option_bind]. unfold with_cors.
  destruct (h e s r) as [s1 [x| |]] eqn:Eh; cbn; intros [= <- <-] Hs. cbn in Hs.
  apply route_in in E as (name & Hname & Hin).
  pose proof (routes_quiet nodeID e s r) as Hq. rewrite Forall_forall in Hq.
  destruct (Hq _ Hin) as [Hp|Hp]; cbn [fst snd] in Hp.
  - subst name. rewrite <- Hname. destruct (pop_changes e s r) as [Hq'|Hv]; [|by right].
    left. assert (h = handleQueuePop) as ->.
    { revert Hin. clear. intros H. repeat (apply elem_of_cons in H as [H|H]; [congruence|]).
      by apply elem_of_nil in H. }
    specialize (Hq' x). rewrite Eh in Hq'. by apply Hq'.
  - left. specialize (Hp x). rewrite Eh in Hp. by apply Hp.
Qed.

(** Requests on queues. *)
Definition push_request (q m : bytes) : HttpRequest :=
  mkHttpRequest (str "POST") (str "/queues/push") []
    (object_text [(str "queue", quote q); (str "message", quote m)]).
Definition pop_request (q : bytes) : HttpRequest :=
  mkHttpRequest (str "POST") (str "/queues/pop") [] (object_text [(str "queue", quote q)]).

Lemma push_body_decoded q m :
  utf8 q = true -> utf8 m = true ->
  Decode PushRequest (Body (push_request q m)) = Some [(str "queue", FString q); (str "message", FString m)].
Proof.
  intros Hq Hm. cbn [push_request Body]. rewrite Decode_object.
  - erewrite (set_members_step PushRequest); [|reflexivity|].
    2: unfold PushRequest; cbn [set_named]; by rewrite decide_True, set_string.
    erewrite set_members_step; [done|reflexivity|].
    cbn [set_named fst]. by rewrite decide_False, decide_True, set_string.
  - repeat (apply Forall_cons; split; [split; [by vm_compute|by apply skips_string]|]). by apply Forall_nil.
Qed.

Lemma pop_body_decoded q :
  utf8 q = true -> Decode PopRequest (Body (pop_request q)) = Some [(str "queue", FString q)].
Proof.
  intros Hq. cbn [pop_request Body]. rewrite Decode_object.
  - erewrite (set_members_step PopRequest); [done|reflexivity|].
    unfold PopRequest. cbn [set_named]. by rewrite decide_True, set_string.
  - apply Forall_singleton. split; [by vm_compute|]. by apply skips_string.
Qed.

(** A push, whatever it answers, leaves the head/tail queues as they were. *)
Lemma push_keeps_queues nodeID e s q m s1 res q' h l :
  utf8 q = true -> utf8 m = true -> queue_at (contents (queue s)) q' h l ->
  serve nodeID e s (push_request q m) = Some (s1, res) -> queue_at (contents (queue s1)) q' h l.
Proof.
  intros Hq Hm H.
  change (serve nodeID e s (push_request q m)) with (Some (with_cors (handleQueuePush e s (push_request q m)))).
  unfold handleQueuePush, decoded. rewrite push_body_decoded by done.
  change (string_field _ "queue") with q. change (string_field _ "message") with m.
  cbn [allowed is_method]. destruct (given q && given m); cbn [required]; [|by intros [= <- <-]].
  pose proof (PushMessage_frame (queue s) (push_uuid e) (push_now e) q m) as Hf.
  unfold Queue_Push, map_reply. destruct (PushMessage _ _ _ _ _) as [db o].
  intros [= <- <-]. by eapply queue_at_frame.
Qed.

(** A message pushed over HTTP is never popped over HTTP: where the queue
    was empty, the pop after the push answers 500, as an empty queue does. *)
Theorem http_push_is_not_popped nodeID e e' s q m s1 res h :
  q <> [] -> utf8 q = true -> utf8 m = true -> queue_at (contents (queue s)) q h [] ->
  serve nodeID e s (push_request q m) = Some (s1, res) ->
  exists s2, serve nodeID e' s1 (pop_request q)
    = Some (s2, Ok (cors (writeError (str "queue is empty") InternalServerError))).
Proof.
  intros Hne Hq Hm H E. pose proof (push_keeps_queues nodeID e s q m s1 res q h [] Hq Hm H E) as H1.
  change (serve nodeID e' s1 (pop_request q)) with (Some (with_cors (handleQueuePop e' s1 (pop_request q)))).
  unfold handleQueuePop, decoded. rewrite pop_body_decoded by done.
  change (string_field _ "queue") with q. unfold given. rewrite bool_decide_eq_false_2 by done.
  cbn [allowed is_method negb required].
  pose proof (served_reliable _ _ _ _ (Pop_served (queue s1) q h [] Hne H1)) as Hp.
  unfold Queue_Pop. destruct (Pop (queue s1) q) as [db [v|err|]]; cbn [snd] in Hp.
  - by destruct Hp as (? & ? & _).
  - destruct Hp as (_ & -> & _). by eexists.
  - done.
Qed.
End Queues.

Definition http_env : HttpEnv :=
  mkHttpEnv (str "2024-01-01 00:00:00 +0000 UTC") map_to_list (str "id-1") 100 true.
Definition node : bytes := str "node1".

Lemma http_calls_refine_map_witness :
  exists s', serve node http_env sample_server (request_of (HSet (str "k") (str "v") 60))
      = Some (s', Ok (cors (success Created))) /\
    view (store s') = stored_for (view (store sample_server)) (str "k") (str "v") 60 /\
    same_but_store sample_server s'.
Proof.
  refine (http_calls_refine_map (bdg := mem_badger) (batch := mem_batch) node http_env sample_server
    (HSet (str "k") (str "v") 60) _ _ _).
  - done.
  - split_and!; [split_and!; [done|by repeat constructor|by vm_compute]|done|by vm_compute|lia..].
  - intros k v Hk. cbn in Hk. by rewrite lookup_empty in Hk.
Defined.

(** A GET of a route that stores. *)
Lemma refused_requests_change_nothing_witness :
  exists s' res, serve node http_env sample_server (mkHttpRequest (str "GET") (str "/kv/set") [] [])
      = Some (s', Ok res) /\ StatusCode res = 405 /\
    (s' = sample_server \/ (str "/kv/set" = str "/queues/pop" /\
      exists q, (Queue_Pop (queue sample_server) q).2 = Ok [] /\ empty_is_nil http_env = true)).
Proof.
  eexists _, _. split; [reflexivity|]. split; [reflexivity|].
  refine (refused_requests_change_nothing (bdg := mem_badger) (batch := mem_batch) node http_env sample_server
    (mkHttpRequest (str "GET") (str "/kv/set") [] []) _ _ eq_refl _).
  cbn. unfold MethodNotAllowed. lia.
Defined.

Lemma http_push_is_not_popped_witness :
  exists s1 res s2, serve node http_env sample_server (push_request (str "jobs") (str "one")) = Some (s1, res) /\
    serve node http_env s1 (pop_request (str "jobs"))
    = Some (s2, Ok (cors (writeError (str "queue is empty") InternalServerError))).
Proof.
  destruct (serve node http_env sample_server (push_request (str "jobs") (str "one"))) as [[s1 res]|] eqn:E;
    [|discriminate E].
  destruct (http_push_is_not_popped (bdg := mem_badger) (batch := mem_batch) node http_env http_env sample_server
    (str "jobs") (str "one") s1 res 0) as (s2 & E2);
    [done|by vm_compute|by vm_compute|apply queue_at_empty|exact E|].
  exists s1, res, s2. split; [reflexivity|exact E2].
Defined.

(** The body of a request: names in any case, members the struct does not have,
    and text behind the object. *)
Example decoded_body :
  Decode SetRequest
    ([123] ++ quote (str "KEY") ++ str ":" ++ quote (str "a") ++ str ", " ++ quote (str "value") ++ str " : " ++
     quote (str "b") ++ str ", " ++ quote (str "x") ++ str ":[1e999, null]} ignored")
  = Some [(str "key", FString (str "a")); (str "value", FString (str "b")); (str "ttl", FInt 0)].
Proof. by vm_compute. Qed.
