(* ===== verification/ServerMain.v ===== *)
(** The server command (cmd/server/main.go): its flags, the start of a process,
    and the process as a transition system: the loops of the server, the
    requests of the HTTP API, the background tasks of the stream storage, the
    goroutine that waits for a signal, and the deferred calls of [main]. *)
From stdpp Require Import base list numbers gmap strings.
From Stdlib Require Import ZArith Lia.
From S2P Require Import Prelude Fmt GoStrconv Badger KVStorage StreamCodec StreamStorage StreamLog StreamService QueueService DocStore ServerState Server HttpApi.

(** ** Flags (package flag) *)

Record Flags : Type := mkFlags {
  nodeID : bytes;
  httpAddr : bytes;
  raftAddr : bytes;
  joinAddr : bytes;
  dataDir : bytes;
  kvPort : bytes;
  queuePort : bytes;
  partitionCount : Z;
  workerCount : Z;
  useMemory : bool;
}.

Definition default_flags : Flags :=
  mkFlags [] (str ":8080") (str ":9080") [] (str "./data") (str ":6380") (str ":6381") 64 64 false.

(** The variable of a flag gets a value: None without such a flag, [Some None]
    when the value is not of its type. *)
Definition set_flag (f : Flags) (name value : bytes) : option (option Flags) :=
  let '(mkFlags n h r j d p q c w m) := f in
  let named x := bool_decide (name = str x) in
  if named "node-id"%string then Some (Some (mkFlags value h r j d p q c w m))
  else if named "http"%string then Some (Some (mkFlags n value r j d p q c w m))
  else if named "raft"%string then Some (Some (mkFlags n h value j d p q c w m))
  else if named "join"%string then Some (Some (mkFlags n h r value d p q c w m))
  else if named "data"%string then Some (Some (mkFlags n h r j value p q c w m))
  else if named "port"%string then Some (Some (mkFlags n h r j d value q c w m))
  else if named "queue-port"%string then Some (Some (mkFlags n h r j d p value c w m))
  else if named "partitions"%string then Some (c ← ParseInt value; Some (mkFlags n h r j d p q c w m))
  else if named "workers"%string then Some (w ← ParseInt value; Some (mkFlags n h r j d p q c w m))
  else if named "memory"%string then Some (m ← ParseBool value; Some (mkFlags n h r j d p q c w m))
  else None.

(** An argument: no flag, the terminator, one that package flag refuses, or a
    name with the value behind the first equals sign. *)
Inductive argument : Type :=
| NoFlag
| BadFlag
| Flag (name : bytes) (value : option bytes).

Fixpoint split_value (name : bytes) : bytes * option bytes :=
  match name with
  | [] => ([], None)
  | 61 :: value => ([], Some value)
  | c :: rest => let '(name, value) := split_value rest in (c :: name, value)
  end.

Definition flag_name (name : bytes) : argument :=
  match name with
  | [] | 45 :: _ | 61 :: _ => BadFlag
  | _ => let '(name, value) := split_value name in Flag name value
  end.
Definition read_argument (s : bytes) : argument :=
  match s with
  | [45; 45] => NoFlag
  | 45 :: 45 :: name => flag_name name
  | 45 :: c :: name => flag_name (c :: name)
  | _ => NoFlag
  end.

(** [flag.Parse]: the flags, or the exit status. *)
Fixpoint Parse (f : Flags) (args : list bytes) : Flags + Z :=
  match args with
  | [] => inl f
  | arg :: args =>
      match read_argument arg with
      | NoFlag => inl f
      | BadFlag => inr 2
      | Flag name value =>
          if bool_decide (name = str "memory") then
            match set_flag f name (default (str "true") value) with
            | Some (Some f) => Parse f args
            | _ => inr 2
            end
          else
            match set_flag f name [], value, args with
            | None, _, _ => inr (if bool_decide (name = str "help" \/ name = str "h") then 0 else 2)
            | Some _, Some value, _ =>
                match set_flag f name value with Some (Some f) => Parse f args | _ => inr 2 end
            | Some _, None, value :: args =>
                match set_flag f name value with Some (Some f) => Parse f args | _ => inr 2 end
            | Some _, None, [] => inr 2
            end
      end
  end.

Definition kv_dir (f : Flags) : bytes := dataDir f ++ str "/kv".
Definition queue_dir (f : Flags) : bytes := dataDir f ++ str "/queue".
Definition stream_dir (f : Flags) : bytes := dataDir f ++ str "/stream".
Definition doc_dir (f : Flags) : bytes := dataDir f ++ str "/db".

(** ** The surroundings of a process *)

(** [clusterkit.Options], the health checks in nanoseconds. *)
Record Options : Type := mkOptions {
  NodeID : bytes;
  HTTPAddr : bytes;
  RaftAddr : bytes;
  JoinAddr : bytes;
  Bootstrap : bool;
  DataDir : bytes;
  PartitionCount : Z;
  ReplicationFactor : Z;
  HealthCheck : bool * Z * Z * Z;
}.

Definition ckOptions (f : Flags) : Options :=
  mkOptions (nodeID f) (httpAddr f) (raftAddr f) (joinAddr f) (bool_decide (joinAddr f = []))
    (dataDir f ++ str "/cluster") (partitionCount f) 1 (true, 5 * second, 2 * second, 3).

(** The library ClusterKit, which is not part of the repository, the listeners,
    and the environment variable API_PORT. *)
Record Surroundings : Type := mkSurroundings {
  NewClusterKit : Options -> result unit;
  ClusterKit_Start : Options -> result unit;
  Listen : bytes -> result unit;
  ListenHTTP : bytes -> bool;
  API_PORT : bytes;
}.
Implicit Types e : Surroundings.

Definition httpAPIAddr e : bytes :=
  if bool_decide (API_PORT e = []) then str ":8888" else str ":" ++ API_PORT e.

(** ** Processes *)

Inductive Store : Type := Documents | Streams | Queues | Keys.
#[export] Instance Store_eq_dec : EqDecision Store.
Proof. solve_decision. Defined.
(** The deferred calls of [main], the last one first. *)
Definition deferred : list Store := [Documents; Streams; Queues; Keys].

(** Where [main] is: in [srv.Start], or with deferred calls left; and where the
    goroutine of the signal is: waiting, in [srv.Stop] with the job queue closed,
    or past it, in [ck.Stop]. *)
Inductive MainState : Type := Accepting | Closing (rest : list Store).
Inductive SignalState : Type := Waiting | Draining | LeavingCluster.

Section Process.
Context {bdg : Badger} {batch : BadgerBatch} {opening : BadgerOpen}.

Abbreviation Disk := (bmap DB).
Implicit Types (d : Disk) (sys : System) (s : Server).

(** [disk] are the directories as the process found them; [listening] says that
    the server's listener is open, [http] that the one of the HTTP API is. *)
Record Process : Type := mkProcess {
  flags : Flags;
  disk : Disk;
  http : bool;
  system : System;
  main_at : MainState;
  signal_at : SignalState;
  listening : bool;
}.
Implicit Types p : Process.

Definition set_system p sys : Process :=
  mkProcess (flags p) (disk p) (http p) sys (main_at p) (signal_at p) (listening p).
Definition on_stores p s : Process :=
  let sys := system p in
  set_system p (mkSystem s (connections sys) (open_ sys) (buffers sys) (Server.pool sys)).
Definition set_main p (m : MainState) : Process :=
  mkProcess (flags p) (disk p) (http p) (system p) m (signal_at p) (listening p).
Definition set_signal p (m : SignalState) (l : bool) : Process :=
  mkProcess (flags p) (disk p) (http p) (system p) (main_at p) m l.

(** A process serves, has ended and left its directories, or has ended with a
    panic. *)
Inductive Outcome : Type :=
| Serving p
| Ended d (status : Z)
| Crashed.

(** [if err != nil { log.Fatalf(..) }]: the process ends with status 1 and
    without its deferred calls. *)
Definition or_fatal {A} d (r : result A) (k : A -> Outcome) : Outcome :=
  match r with Ok a => k a | Err _ => Ended d 1 | Panic => Crashed end.

(** The process up to [srv.Start], from the directories that it finds. *)
Definition main e d (args : list bytes) : Outcome :=
  match Parse default_flags args with
  | inr status => Ended d status
  | inl f =>
      if bool_decide (nodeID f = []) then Ended d 1 else
      or_fatal d (KV.NewKVStorage (d !! kv_dir f)) (fun store =>
      let d := <[kv_dir f := KV.sdb store]> d in
      or_fatal d (Queue_New (d !! queue_dir f)) (fun queueStore =>
      let d := <[queue_dir f := queueStore]> d in
      or_fatal d (Stream_New (d !! stream_dir f)) (fun streamStore =>
      let d := <[stream_dir f := StreamStorage.db (StreamService.storage streamStore)]> d in
      or_fatal d (DocStore_New (d !! doc_dir f)) (fun docStore =>
      let d := <[doc_dir f := DocStore.storage docStore]> d in
      or_fatal d (NewClusterKit e (ckOptions f)) (fun _ =>
      or_fatal d (ClusterKit_Start e (ckOptions f)) (fun _ =>
      or_fatal d (Listen e (kvPort f)) (fun _ =>
      let srv := NewServerWithWorkers store queueStore (Some streamStore) (Some docStore) in
      Serving (mkProcess f d (ListenHTTP e (httpAPIAddr e)) (start srv) Accepting Waiting true))))))))
  end.

(** The deferred calls, on the stores that the server shares. *)
Definition close_store (order : range_order) (x : Store) s : Server * result unit :=
  match x with
  | Documents =>
      match docs s with
      | Some ds => let '(ds, r) := DocStore_Close ds in (set_docs s ds, r)
      | None => (s, Panic)
      end
  | Streams =>
      match stream s with
      | Some st => let '(st, r) := StreamService.Close order st in (set_stream s st, r)
      | None => (s, Panic)
      end
  | Queues => let '(db, r) := Queue_Close (queue s) in (set_queue s db, r)
  | Keys => let '(st, r) := KV.Close (store s) in (set_store s st, r)
  end.

(** What is in the directories when the process ends. *)
Definition files p : Disk :=
  let s := server (system p) in
  let d := match docs s with Some ds => <[doc_dir (flags p) := DocStore.storage ds]> (disk p) | None => disk p end in
  let d := match stream s with
           | Some st => <[stream_dir (flags p) := StreamStorage.db (StreamService.storage st)]> d
           | None => d
           end in
  <[queue_dir (flags p) := queue s]> (<[kv_dir (flags p) := KV.sdb (store s)]> d).

(** ** Steps *)

(** The loops of connections and workers: no new connection, no stop, and jobs
    are taken only if there are workers. *)
Definition loop_step (workers : Z) sys sys' : Prop :=
  step sys sys' /\ stopped (server sys') = stopped (server sys) /\
  (forall id, connections sys !! id = None -> connections sys' !! id = None) /\
  (0 < workers \/ exists jobs, jobQueue (server sys') = jobQueue (server sys) ++ jobs).

(** A connection that the listener can hand out. *)
Definition acceptable sys (event : Z * Z * Z) : Prop :=
  let '(id, rbuf, wbuf) := event in
  connections sys !! id = None /\ rbuf <> wbuf /\
  (rbuf ∈ Server.pool sys \/ buffers sys !! rbuf = None) /\
  (wbuf ∈ Server.pool sys \/ buffers sys !! wbuf = None).

(** The background tasks of the streams: the turns of the flush worker, a flush
    that [AppendMessage] started, the retention, the flush of the offsets. *)
Inductive background : Stream -> Stream * result unit -> Prop :=
| FlushTick order st :
    valid_order order -> StreamStorage.stopped (StreamService.storage st) = false ->
    background st (on_storage st (worker_tick order (StreamService.storage st)))
| FlushSignal order st :
    valid_order order -> StreamStorage.stopped (StreamService.storage st) = false ->
    background st (on_storage st (worker_signal order (StreamService.storage st)))
| FlushStarted order st :
    valid_order order ->
    background st (on_storage st (run_flush order (StreamService.storage st)))
| Retention now order st :
    (forall ts, order ts ≡ₚ (map_to_list ts).*2) ->
    StreamStorage.stopped (StreamService.storage st) = false ->
    background st (enforceRetention now order st)
| FlushOffsets st :
    StreamStorage.stopped (StreamService.storage st) = false ->
    background st (flushOffsets st, Ok tt).

(** The goroutines that have no handler above them to recover a panic. *)
Inductive panics : System -> Prop :=
| PanicRead (e : Env) sys id c data :
    connections sys !! id = Some c -> id ∈ open_ sys -> 0 < len data <= readBuf_size ->
    read_step e sys id c data = Panic -> panics sys
| PanicWork (e : Env) sys job jobs c :
    jobQueue (server sys) = job :: jobs -> connections sys !! conn job = Some c ->
    worker_step e sys job jobs c = Panic -> panics sys
| PanicBackground sys st st' :
    stream (server sys) = Some st -> background st (st', Panic) -> panics sys.

(** The end of a process: [srv.Stop] when the workers are done, [srv.Start] that
    returns on an error of the listener, the deferred calls one by one, the
    return of [main], and [os.Exit(0)] behind [ck.Stop]. *)
Inductive shutdown_step : Process -> Outcome -> Prop :=
| Drained p :
    signal_at p = Draining -> workerCount (flags p) <= 0 \/ jobQueue (server (system p)) = [] ->
    shutdown_step p (Serving (set_signal p LeavingCluster false))
| StartReturns p :
    main_at p = Accepting -> accept_turn (system p) None = (system p, true) ->
    shutdown_step p (Serving (set_main p (Closing deferred)))
| CloseStore p x rest order s r :
    main_at p = Closing (x :: rest) -> valid_order order ->
    close_store order x (server (system p)) = (s, r) ->
    shutdown_step p (match r with Panic => Crashed | _ => Serving (set_main (on_stores p s) (Closing rest)) end)
| Returns p : main_at p = Closing [] -> shutdown_step p (Ended (files p) 0)
| Exits p : signal_at p = LeavingCluster -> shutdown_step p (Ended (files p) 0).

(** Every step of a process. *)
Inductive process_step : Process -> Outcome -> Prop :=
| Loops p sys : loop_step (workerCount (flags p)) (system p) sys -> process_step p (Serving (set_system p sys))
| Accepts p event :
    main_at p = Accepting -> listening p = true -> acceptable (system p) event ->
    process_step p (Serving (set_system p (accept_turn (system p) (Some event)).1))
| Http p (e : HttpEnv) r s res :
    http p = true -> serve (nodeID (flags p)) e (server (system p)) r = Some (s, res) ->
    process_step p (Serving (on_stores p s))
| Background p st st' r :
    stream (server (system p)) = Some st -> background st (st', r) -> r <> Panic ->
    process_step p (Serving (on_stores p (set_stream (server (system p)) st')))
| Collects p :
    KV.closed (store (server (system p))) = false ->
    process_step p (Serving (on_stores p (set_store (server (system p)) (KV.startGC_tick (store (server (system p)))))))
| Signal p :
    signal_at p = Waiting -> process_step p (Serving (set_signal (set_system p (Stop (system p))) Draining (listening p)))
| Shutdown p o : shutdown_step p o -> process_step p o
| Crash p : panics (system p) -> process_step p Crashed.

(** The runs of a process, and of its end. *)
Definition run_step (o o' : Outcome) : Prop := exists p, o = Serving p /\ process_step p o'.
Definition shut (o o' : Outcome) : Prop := exists p, o = Serving p /\ shutdown_step p o'.
End Process.

Example flags_parsed :
  Parse default_flags [str "-node-id=n1"; str "--port"; str ":7000"; str "-memory"; str "-workers=0x10"; str "rest"]
  = inl (mkFlags (str "n1") (str ":8080") (str ":9080") [] (str "./data") (str ":7000") (str ":6381") 64 16 true).
Proof. by vm_compute. Qed.

Example flags_refused :
  map (Parse default_flags) [[str "-help"]; [str "-nope"]; [str "-workers=many"]; [str "-port"]; [str "-=x"]; [str "-memory=maybe"]]
  = [inr 0; inr 2; inr 2; inr 2; inr 2; inr 2].
Proof. by vm_compute. Qed.
