(* ===== verification/ServerShape.v ===== *)
(** What the handlers, the loops and the background tasks of a server leave alone:
    whether it is stopped, and whether its stores are closed. *)
From stdpp Require Import base list numbers gmap relations strings.
From Stdlib Require Import ZArith Lia.
From S2P Require Import Prelude GoBytes Fmt Badger KVStorage StreamCodec StreamStorage StreamService Json DocStorage DocStore Protocol ServerState ServerText ServerBinary ServerDocs Server ServerInvariant ServerSystem JsonStruct HttpApi ServerMain GoValue.

(** ** What operations leave alone *)

Section Shape.
Context {bdg : Badger} {batch : BadgerBatch}.

Definition st_stopped (st : Stream) : bool := StreamStorage.stopped (StreamService.storage st).

(** Whether the server and its stores are open: the parts of the state that only
    [Stop] and the deferred calls change. *)
Definition shape (s : Server) : bool * bool * option bool * bool :=
  (stopped s, KV.closed (store s), st_stopped <$> stream s,
   match docs s with Some _ => true | None => false end).

(** *** The storages *)

#[local] Create Rewrite HintDb open.

(** An operation whose first component keeps [f]; its result is taken apart. *)
Ltac keep f :=
  repeat match goal with
  | |- context [match ?x with pair _ _ => _ end] =>
      let H := fresh "Hkeep" in
      eassert (f (fst x) = _) as H by (autorewrite with open; reflexivity);
      destruct x as [? ?]; cbn [fst] in H
  | |- context [match ?r with Ok _ => _ | Err _ => _ | Panic => _ end] => destruct r
  | |- context [match ?r with Some _ => _ | None => _ end] => destruct r
  | |- context [if ?b then _ else _] => destruct b
  end;
  cbn [fst snd]; autorewrite with open; try congruence.

Section Storage.
Implicit Types s : StreamStorage.

Lemma on_db_stopped {A} s (x : DB * result A) :
  StreamStorage.stopped (StreamStorage.on_db s x).1 = StreamStorage.stopped s.
Proof. done. Qed.
#[local] Hint Rewrite @on_db_stopped : open.

Lemma offset_stopped s t p : StreamStorage.stopped (getPartitionOffset s t p).1 = StreamStorage.stopped s.
Proof. unfold getPartitionOffset. by keep StreamStorage.stopped. Qed.
#[local] Hint Rewrite offset_stopped : open.

Lemma buffer_stopped now s t p k v :
  StreamStorage.stopped (buffer_message now s t p k v).1 = StreamStorage.stopped s.
Proof. unfold buffer_message. by keep StreamStorage.stopped. Qed.
#[local] Hint Rewrite buffer_stopped : open.

Lemma append_stopped now s t p k v :
  StreamStorage.stopped (AppendMessage now s t p k v).1 = StreamStorage.stopped s.
Proof. unfold AppendMessage. by keep StreamStorage.stopped. Qed.

Lemma item_stopped clock t p s offsets item :
  StreamStorage.stopped (batch_item clock t p (s, offsets) item).1 = StreamStorage.stopped s.
Proof. unfold batch_item. destruct item as [msg i]. by keep StreamStorage.stopped. Qed.
#[local] Hint Rewrite item_stopped : open.

Lemma items_stopped clock t p items s offsets :
  StreamStorage.stopped (batch_items clock t p items s offsets).1 = StreamStorage.stopped s.
Proof.
  revert s offsets. induction items as [|item items IH]; intros s offsets; [done|].
  cbn [batch_items]. by keep StreamStorage.stopped.
Qed.
#[local] Hint Rewrite items_stopped : open.

Lemma groups_stopped clock t groups s offsets :
  StreamStorage.stopped (batch_groups clock t groups s offsets).1 = StreamStorage.stopped s.
Proof.
  revert s offsets. induction groups as [|[p msgs] groups IH]; intros s offsets; [done|].
  cbn [batch_groups]. by keep StreamStorage.stopped.
Qed.
#[local] Hint Rewrite groups_stopped : open.

Lemma append_batch_stopped clock order s t msgs :
  StreamStorage.stopped (AppendMessageBatch clock order s t msgs).1 = StreamStorage.stopped s.
Proof. unfold AppendMessageBatch. by keep StreamStorage.stopped. Qed.

Lemma flush_stopped order s : StreamStorage.stopped (flushWrites order s).1 = StreamStorage.stopped s.
Proof. unfold flushWrites. by case_decide. Qed.
#[local] Hint Rewrite flush_stopped : open.

Lemma flushed_stopped {A} (r : StreamStorage * result A) :
  StreamStorage.stopped (flushed r).1 = StreamStorage.stopped r.1.
Proof. by destruct r as [s []]. Qed.

Lemma worker_stopped order s :
  StreamStorage.stopped (worker_tick order s).1 = StreamStorage.stopped s /\
  StreamStorage.stopped (worker_signal order s).1 = StreamStorage.stopped s /\
  StreamStorage.stopped (run_flush order s).1 = StreamStorage.stopped s.
Proof.
  unfold worker_tick, worker_signal, run_flush.
  split_and!; [|destruct (flushCh s)|destruct (flushes s)]; rewrite ?flushed_stopped, ?flush_stopped; done.
Qed.

Lemma fetch_stopped order s t p start max :
  StreamStorage.stopped (FetchMessages order s t p start max).1 = StreamStorage.stopped s.
Proof. unfold FetchMessages. by keep StreamStorage.stopped. Qed.

Lemma delete_stopped now s t p retention :
  StreamStorage.stopped (DeleteOldMessages now s t p retention).1 = StreamStorage.stopped s.
Proof. done. Qed.
#[local] Hint Rewrite delete_stopped : open.

Lemma enforce_partitions_stopped now s t n p :
  StreamStorage.stopped (enforce_partitions now s t n p).1 = StreamStorage.stopped s.
Proof.
  revert s p. induction n as [|n IH]; intros s p; [done|]. cbn [enforce_partitions].
  by keep StreamStorage.stopped.
Qed.
#[local] Hint Rewrite enforce_partitions_stopped : open.

Lemma enforce_stopped now s ts :
  StreamStorage.stopped (enforce_topics now s ts).1 = StreamStorage.stopped s.
Proof.
  revert s. induction ts as [|t ts IH]; intros s; [done|]. cbn [enforce_topics].
  by keep StreamStorage.stopped.
Qed.
End Storage.

(** *** The service *)

Section Service.
Implicit Types s : Stream.

Lemma then_stopped {A B} (x : Stream * result A) (k : Stream -> A -> Stream * result B) b :
  st_stopped x.1 = b -> (forall s a, st_stopped s = b -> st_stopped (k s a).1 = b) ->
  st_stopped (then_ x k).1 = b.
Proof. intros Hx Hk. destruct x as [s [a|err|]]; [by apply Hk|done..]. Qed.

Lemma metadata_stopped s t : st_stopped (GetTopicMetadata s t).1 = st_stopped s.
Proof. unfold GetTopicMetadata. destruct (_ !! t); [done|]. by apply then_stopped. Qed.

Lemma create_stopped now s t n r : st_stopped (CreateTopic now s t n r).1 = st_stopped s.
Proof. unfold CreateTopic. by apply then_stopped. Qed.

Lemma ensure_stopped now s t : st_stopped (ensure_topic now s t).1 = st_stopped s.
Proof.
  unfold ensure_topic. pose proof (metadata_stopped s t) as H.
  destruct (GetTopicMetadata s t) as [s1 [m|err|]]; cbn [fst] in H; [done| |done].
  apply then_stopped; [by rewrite create_stopped|]. intros s2 [] H2.
  pose proof (metadata_stopped s2 t) as H3.
  destruct (GetTopicMetadata s2 t) as [s3 [m|err'|]]; cbn [fst] in *; congruence.
Qed.

Lemma publish_stopped now nano s t p k v : st_stopped (Publish now nano s t p k v).1 = st_stopped s.
Proof.
  apply then_stopped; [apply ensure_stopped|]. intros s1 m H1. apply then_stopped; [done|].
  intros s2 q <-. apply append_stopped.
Qed.

Lemma publish_batch_stopped now clock nanos order s t msgs :
  st_stopped (PublishBatch now clock nanos order s t msgs).1 = st_stopped s.
Proof.
  apply then_stopped; [apply ensure_stopped|]. intros s1 m H1. apply then_stopped; [done|].
  intros s2 l <-. apply append_batch_stopped.
Qed.

Lemma rebalance_stopped order s g grp : st_stopped (rebalanceGroup order s g grp).1 = st_stopped s.
Proof.
  apply then_stopped; [apply metadata_stopped|]. intros s1 m H1. cbv zeta.
  destruct (_ =? 0); [done|]. by destruct (assign_range _ _ _ _ _).
Qed.

Lemma subscribe_stopped now order s t g c : st_stopped (Subscribe now order s t g c).1 = st_stopped s.
Proof. unfold Subscribe. case_decide; [done|]. by rewrite rebalance_stopped. Qed.

Lemma unsubscribe_stopped order s t g c : st_stopped (Unsubscribe order s t g c).1 = st_stopped s.
Proof.
  unfold Unsubscribe. destruct (groups s !! g); [|done]. case_decide; [done|]. by rewrite rebalance_stopped.
Qed.

Lemma cached_stopped s g t p : st_stopped (getCachedOffset s g t p).1 = st_stopped s.
Proof. unfold getCachedOffset. destruct (_ !! _); [done|]. by apply then_stopped. Qed.

Lemma fetch_partitions_stopped flush g t per s ps :
  st_stopped (fetch_partitions flush g t per s ps).1 = st_stopped s.
Proof.
  revert s. induction ps as [|p ps IH]; intros s; [done|]. cbn [fetch_partitions].
  assert (H : st_stopped (fetch_partition flush g t per s p).1 = st_stopped s).
  { apply then_stopped; [apply cached_stopped|]. intros s1 o <-. apply fetch_stopped. }
  destruct (fetch_partition _ _ _ _ _ _) as [s1 r]. specialize (IH s1).
  destruct (fetch_partitions _ _ _ _ _ _) as [s2 rs]. cbn [fst] in *. congruence.
Qed.

Lemma consume_stopped now flush arrival s t g c n :
  st_stopped (Consume now flush arrival s t g c n).1 = st_stopped s.
Proof.
  unfold Consume. destruct (groups s !! g) as [grp|]; [|done].
  destruct (Consumers grp !! c) as [m|]; [|done]. cbv zeta. destruct (_ =? 0); [done|].
  match goal with |- context [fetch_partitions ?f ?g ?t ?p ?s ?l] =>
    pose proof (fetch_partitions_stopped f g t p s l) as H; destruct (fetch_partitions f g t p s l) as [s1 rs] end.
  cbn [fst] in H. by destruct (_ || _); exact H.
Qed.

Lemma background_stopped st x : background st x -> st_stopped x.1 = st_stopped st.
Proof.
  destruct 1 as [order st _ _|order st _ _|order st _|now order st _ _|st _]; [..|done]; unfold st_stopped;
    cbn [on_storage fst StreamService.storage StreamService.set_storage enforceRetention].
  - apply (worker_stopped order).
  - apply (worker_stopped order).
  - apply (worker_stopped order).
  - apply enforce_stopped.
Qed.
End Service.

(** *** The key-value storage *)

Section Keys.
Implicit Types st : KV.Storage.

Lemma set_closed st k v ttl : KV.closed (KV.Set_ st k v ttl).1 = KV.closed st.
Proof. unfold KV.Set_. destruct (KV.closed st) eqn:E; [done|]. by case_decide. Qed.
Lemma counter_closed st k d : KV.closed (KV.add_counter st k d).1 = KV.closed st.
Proof. unfold KV.add_counter. destruct (KV.closed st) eqn:E; [done|]. by case_decide. Qed.
Lemma delete_closed st k : KV.closed (KV.Delete st k).1 = KV.closed st.
Proof. unfold KV.Delete. destruct (KV.closed st) eqn:E; [done|]. by case_decide. Qed.
Lemma batch_closed {A} st (l : list A) add : KV.closed (KV.with_batch st l add).1 = KV.closed st.
Proof. unfold KV.with_batch. by destruct (KV.fill _ _ _) as [wb []]. Qed.
Lemma batch_set_closed e st ks vs : KV.closed (batch_set e st ks vs).1 = KV.closed st.
Proof.
  unfold batch_set. destruct (pair_map ks vs) as [m| |]; [|done..].
  unfold KV.BatchSet. destruct (KV.closed st) eqn:E; [done|].
  repeat case_match; try done; by rewrite batch_closed.
Qed.
Lemma batch_delete_closed st ks : KV.closed (KV.BatchDelete st ks).1 = KV.closed st.
Proof.
  unfold KV.BatchDelete. destruct (KV.closed st) eqn:E; [done|].
  repeat case_match; try done; by rewrite batch_closed.
Qed.
#[local] Hint Rewrite set_closed counter_closed delete_closed batch_set_closed batch_delete_closed : open.

Lemma single_closed st c k v : KV.closed (single_command st c k v).1 = KV.closed st.
Proof. unfold single_command, KV.Incr, KV.Decr. by keep KV.closed. Qed.
#[local] Hint Rewrite single_closed : open.

Lemma job_closed e st buf job : KV.closed (processJob e st buf job).1 = KV.closed st.
Proof. unfold processJob. by keep KV.closed. Qed.
End Keys.

(** *** Handlers *)

Section Handlers.
Implicit Types (e : Env) (w : World) (req : Request).
Variable b : bool * bool * option bool * bool.

(** What a handler returns keeps the shape [b]. *)
Definition shaped w : Prop := shape w.1 = b.

Lemma respond_shaped e w response : shaped w -> shaped (respond e w response).
Proof. destruct w as [s c]. unfold shaped, respond. by destruct (select_send _ _ _). Qed.

Lemma fail_shaped e w err : shaped w -> post (fail e w err) shaped.
Proof. intros H. unfold fail, sendBinaryError. by apply post_bind, post_bind, post_any. Qed.

Lemma kv_reply_shaped {A} e w (r : result A) ok : shaped w -> post (kv_reply e w r ok) shaped.
Proof. intros H. apply post_bind, post_any. intros response. by apply respond_shaped. Qed.

Lemma served_reply_shaped {A} e w (r : result A) ok : shaped w -> post (served_reply e w r ok) shaped.
Proof.
  intros H. apply post_on_err; [by intros; apply fail_shaped|]. intros a. apply post_bind, post_any.
  intros response. exact (respond_shaped e w response H).
Qed.

Lemma doc_reply_shaped {A} e w (r : result A) ok : shaped w -> post (doc_reply e w r ok) shaped.
Proof.
  intros H. apply post_on_err; [by intros; apply fail_shaped|]. intros a. apply post_bind, post_any.
  intros response. destruct w as [s c]. unfold send_counted, send_wait.
  destruct (select_send _ _ _); [done..|]. by destruct (drained e).
Qed.

Lemma store_shaped w st :
  shaped w -> KV.closed st = KV.closed (store w.1) -> shaped (on_server w (fun s => set_store s st)).
Proof. unfold shaped, shape. cbn. by intros H ->. Qed.

Lemma stream_shaped {A} w f :
  shaped w -> (forall st, st_stopped (f st).1 = st_stopped st) -> shaped (@on_stream _ A w f).1.
Proof.
  intros H Hf. unfold on_stream, shaped, shape in *. destruct (stream w.1) as [st|] eqn:E;
    [|by cbn; rewrite E].
  specialize (Hf st). destruct (f st) as [st' r]. cbn in *. by rewrite Hf.
Qed.

Lemma docs_shaped {A} w ds (x : DocStore * result A) :
  shaped w -> docs w.1 = Some ds -> shaped (on_docs w x).1.
Proof. unfold shaped, shape. cbn. by intros <- ->. Qed.

Lemma stream_reply_shaped {A} e w (f : Stream -> Stream * result A) ok :
  shaped w -> (forall st, st_stopped (f st).1 = st_stopped st) ->
  post (let '(w, r) := on_stream w f in served_reply e w r ok) shaped.
Proof.
  intros H Hf. pose proof (stream_shaped w f H Hf) as H'. destruct (on_stream w f) as [w' r].
  by apply served_reply_shaped.
Qed.

Lemma stream_handlers_shaped e w req :
  shaped w ->
  Forall (fun h => post (h e w req) shaped)
    [processBinarySPublish; processBinarySConsume; processBinarySCommit;
     processBinarySCreateTopic; processBinarySSubscribe; processBinarySUnsubscribe;
     processBinarySPublishBatch].
Proof.
  intros H. repeat constructor; try (apply stream_reply_shaped; [done|intros st];
    auto using publish_stopped, consume_stopped, create_stopped, subscribe_stopped, unsubscribe_stopped).
  unfold processBinarySPublishBatch.
  match goal with |- context [on_stream w ?f] =>
    pose proof (stream_shaped w f H (fun st => publish_batch_stopped _ _ _ _ st _ _)) as H';
    destruct (on_stream w f) as [w' [offsets|err|]] end;
    by (apply served_reply_shaped || apply fail_shaped).
Qed.

Lemma docs_reply_shaped {A} e w ds (x : DocStore * result A) ok :
  shaped w -> docs w.1 = Some ds -> post (let '(w, r) := on_docs w x in doc_reply e w r ok) shaped.
Proof. intros H Hd. apply doc_reply_shaped. by apply (docs_shaped w ds x). Qed.

Lemma doc_handlers_shaped e w req :
  shaped w ->
  Forall (fun h => post (h e w req) shaped)
    [processBinaryDocInsert; processBinaryDocFind; processBinaryDocUpdate;
     processBinaryDocDelete; processBinaryDocIndex].
Proof.
  intros H. repeat constructor; unfold processBinaryDocInsert, processBinaryDocFind, processBinaryDocUpdate,
    processBinaryDocDelete, processBinaryDocIndex;
    (destruct (docs w.1) as [ds|] eqn:Hd; [|by apply fail_shaped]);
    try (apply post_on_err; [by intros; apply fail_shaped|]; intros doc).
  - by eapply docs_reply_shaped.
  - by apply doc_reply_shaped.
  - destruct (entry doc "set"); try (by apply fail_shaped).
    apply post_on_err; [by intros; apply fail_shaped|]. intros results. by eapply docs_reply_shaped.
  - by eapply docs_reply_shaped.
  - by eapply docs_reply_shaped.
Qed.

Lemma handle_shaped e w req : shaped w -> post (handle e w req) shaped.
Proof.
  intros H. pose proof (stream_handlers_shaped e w req H) as Hs.
  pose proof (doc_handlers_shaped e w req H) as Hd. rewrite Forall_forall in Hs, Hd. unfold handle.
  repeat match goal with |- post (if ?x then _ else _) _ => destruct x end;
    try match goal with |- post (?h e w req) _ =>
      (by apply (Hs h); repeat constructor) || (by apply (Hd h); repeat constructor) end;
    try (apply kv_reply_shaped || apply served_reply_shaped || apply fail_shaped); try done;
    (apply store_shaped; [done|]);
    auto using set_closed, delete_closed, batch_set_closed, batch_delete_closed.
Qed.

Lemma busy_shaped e w response : shaped w -> shaped (respond_busy e w response).
Proof.
  intros H. unfold respond_busy. by destruct (select_send _ _ _); apply respond_shaped.
Qed.

Lemma dispatch_shaped e w job : shaped w -> post (dispatch e w job (busy e)) shaped.
Proof.
  intros H. destruct w as [s c]. unfold dispatch. destruct (select_send _ _ _); [|done..].
  by destruct (stopped s).
Qed.

Lemma text_shaped e w id data : shaped w -> post (processRequestText e w id data) shaped.
Proof.
  intros H. unfold processRequestText.
  destruct (parseCommandExtended data) as [[cmd k v ks vs]|err|]; [|done..].
  destruct (shouldUseFastPath _ _), ks as [ks|].
  - unfold processFastPathBatch.
    destruct (is_cmd cmd "MSET"); [|destruct (is_cmd cmd "MGET"); [|destruct (is_cmd cmd "MDEL")]]; [| | |done].
    + pose proof (batch_set_closed e (store w.1) ks (map (cut data) vs)) as Hc.
      destruct (batch_set _ _ _ _) as [st r]. cbn [fst] in Hc. pose proof (store_shaped w st H Hc).
      apply post_on_err; intros; [done|]. by apply busy_shaped.
    + apply post_on_err; intros; [done|]. by apply busy_shaped.
    + pose proof (batch_delete_closed (store w.1) ks) as Hc.
      destruct (KV.BatchDelete _ _) as [st r]. cbn [fst] in Hc. pose proof (store_shaped w st H Hc).
      apply post_on_err; intros; [done|]. by apply busy_shaped.
  - unfold processFastPath. pose proof (single_closed (store w.1) cmd k (cut data v)) as Hc.
    destruct (single_command _ _ _ _) as [st r]. cbn [fst] in Hc.
    apply post_bind, post_any. intros response. by apply respond_shaped, store_shaped.
  - by apply dispatch_shaped.
  - by apply dispatch_shaped.
Qed.

Lemma hybrid_shaped e w id data : shaped w -> post (processRequestHybrid e w id data) shaped.
Proof.
  intros H. unfold processRequestHybrid. destruct (is_binary data); [|by apply text_shaped].
  apply post_on_err; intros; [by apply fail_shaped|by apply handle_shaped].
Qed.
End Handlers.

(** *** Requests over HTTP *)

Definition same_shape (s s' : Server) : Prop := shape s' = shape s /\ jobQueue s' = jobQueue s.

Lemma serve_shape nodeID (e : HttpEnv) s r s' res :
  serve nodeID e s r = Some (s', res) -> same_shape s s'.
Proof.
  unfold serve. destruct (is_method r "OPTIONS"); [by intros [= <- _]|].
  assert (Hkv : forall (st : KV.Storage), KV.closed st = KV.closed (store s) -> same_shape s (set_store s st))
    by (intros st H; split; [unfold shape; cbn; by rewrite H|done]).
  assert (Hset : forall req status, same_shape s (set_key s req status).1).
  { intros req status. unfold set_key.
    match goal with |- context [KV.Set_ ?st ?k ?v ?t] => pose proof (set_closed st k v t); destruct (KV.Set_ st k v t) end.
    by apply Hkv. }
  unfold route, registerRoutes. cbn [List.find].
  repeat match goal with |- context [bool_decide ?P] => destruct (bool_decide P) end; cbn; try done;
    intros [= <- _]; try done.
  all: unfold handleKVKeys, handleKVGet, handleKVSet, handleKVDelete, handleKVUpdate, handleQueuesGet,
    handleQueuePush, handleQueuePop, handleQueueCreate, handleQueueDelete, named_queue, allowed, decoded, required.
  all: repeat match goal with
    | |- context [if ?x then _ else _] => destruct x
    | |- context [match Decode ?f ?x with _ => _ end] => destruct (Decode f x)
    end; try done; try apply Hset.
  - match goal with |- context [KV.Delete ?st ?k] => pose proof (delete_closed st k); destruct (KV.Delete st k) end.
    by apply Hkv.
  - destruct (KV.Get _ _); [apply Hset|done..].
  - by destruct (QueueService.Queue_Pop _ _).
Qed.

(** *** The loops *)

Lemma loop_shape workers sys sys' :
  loop_step workers sys sys' -> shape (server sys') = shape (server sys).
Proof.
  intros (Hs & Hstop & Hnew & _). destruct Hs as [sys id rbuf wbuf Hid|e sys id c data sys' Hc _ Hd Hr
    |sys id c Hc _|e sys job jobs c sys' Hj Hc Hw|sys id c Hc _|sys id c Hc Ho _|sys Hf|d sys _]; try done.
  - unfold read_step in Hr.
    match type of Hr with context [processRequestHybrid e ?w id data] =>
      pose proof (hybrid_shaped (shape w.1) e w id data eq_refl) as Hk;
      destruct (processRequestHybrid e w id data) as [[s c']|err|]; [|done..] end.
    injection Hr as <-. exact Hk.
  - unfold worker_step in Hw.
    match type of Hw with context [processJob ?e ?st ?buf ?job] =>
      pose proof (job_closed e st buf job) as Hk; destruct (processJob e st buf job) as [st' [r|err|]]; [|done..] end.
    cbn [mbind result_bind] in Hw. unfold answer_job in Hw. cbn [fst] in Hk.
    destruct (select_send _ _ _); injection Hw as <-; unfold shape; cbn in *; by rewrite Hk.
  - by rewrite Hf in Hstop.
Qed.
End Shape.
