(* ===== verification/ServerShutdown.v ===== *)
(** How a process of the server command lives and ends: the invariant of every
    reachable process, the ways in which a shutdown ends, and what the next
    process finds in the directories. *)
From stdpp Require Import base list numbers gmap relations strings.
From Stdlib Require Import ZArith Lia.
From S2P Require Import Prelude GoBytes Fmt Badger KVStorage KVCorrect StreamCodec StreamStorage StreamKeys StreamLog StreamService QueueStorage QueueService Json DocStorage DocStore DocSpec DocRestart Protocol ServerState ServerText ServerBinary ServerDocs Server ServerInvariant ServerSystem JsonStruct HttpApi ServerMain ServerShape GoValue.

(** ** The invariant of a process *)

Section Life.
Context {bdg : Badger} {laws : BadgerLaws} {batch : BadgerBatch} {blaws : BadgerBatchLaws}
  {opening : BadgerOpen}.
Implicit Types (p : Process) (o : Outcome).

(** The deferred calls that are still to be made. *)
Definition pending p : list Store := match main_at p with Accepting => deferred | Closing rest => rest end.
Definition open_store (x : Store) p : bool := bool_decide (x ∈ pending p).

(** The system is well formed; the server is stopped once the signal has come; the
    listener closes when the workers are done; [main] closes the stores in the
    order of [deferred], after the signal only; and a store is closed just when
    its deferred call was made. *)
Record alive p : Prop := {
  al_system : well_formed (system p);
  al_signal : signal_at p = Waiting <-> stopped (server (system p)) = false;
  al_listening : listening p = false <-> signal_at p = LeavingCluster;
  al_main : main_at p = Accepting \/ signal_at p <> Waiting;
  al_pending : exists closed, deferred = closed ++ pending p;
  al_stores : shape (server (system p)) =
    (stopped (server (system p)), negb (open_store Keys p), Some (negb (open_store Streams p)), true);
}.

Lemma wf_on_stores p s :
  well_formed (system p) -> jobQueue s = jobQueue (server (system p)) -> well_formed (system (on_stores p s)).
Proof. intros W Hj. destruct W as [H1 H2 H3 H4 H5 H6 H7 H8]. split; cbn; rewrite ?Hj; try done. Qed.

(** A change of the server that keeps its shape and its jobs. *)
Lemma alive_stores p s :
  alive p -> same_shape (server (system p)) s -> alive (on_stores p s).
Proof.
  intros [H1 H2 H3 H4 H5 H6] [Hs Hj]. assert (Hst : stopped s = stopped (server (system p))).
  { pose proof (f_equal (fun x => x.1.1.1) Hs) as H. exact H. }
  split; cbn; rewrite ?Hst; try done; [by apply wf_on_stores|]. rewrite Hs. exact H6.
Qed.

(** *** The deferred calls *)

Lemma DBClose_returns (db : DB) : (DBClose db).2 <> Panic.
Proof. destruct (DBClose_law db) as (_ & _ & [->|(err & -> & _)]); done. Qed.

Lemma stream_close_returns order (st : Stream) :
  valid_order order -> st_stopped st = false ->
  (StreamService.Close order st).2 <> Panic /\ st_stopped (StreamService.Close order st).1 = true.
Proof.
  intros Ho Hst. unfold StreamService.Close, StreamStorage.Close, st_stopped in *. rewrite Hst.
  pose proof (flush_stopped order (set_stopped (StreamService.storage st))) as Hf.
  destruct (flushWrites_served order (set_stopped (StreamService.storage st)) Ho) as [_ Hs].
  destruct (flushWrites order _) as [s' [[]|err|]]; cbn in *; [split; [apply DBClose_returns|done]..|done].
Qed.

Lemma close_store_shape order x s s' r (b : bool) rest closed :
  valid_order order -> deferred = closed ++ x :: rest ->
  shape s = (b, negb (bool_decide (Keys ∈ x :: rest)), Some (negb (bool_decide (Streams ∈ x :: rest))), true) ->
  close_store order x s = (s', r) ->
  r <> Panic /\ jobQueue s' = jobQueue s /\
  shape s' = (b, negb (bool_decide (Keys ∈ rest)), Some (negb (bool_decide (Streams ∈ rest))), true).
Proof.
  intros Ho Hd Hs Hc.
  assert (Hx : (x = Documents /\ rest = [Streams; Queues; Keys]) \/ (x = Streams /\ rest = [Queues; Keys]) \/
    (x = Queues /\ rest = [Keys]) \/ (x = Keys /\ rest = [])).
  { destruct closed as [|? [|? [|? [|? l]]]]; unfold deferred in Hd; cbn in Hd; injection Hd as Hd; subst; auto.
    by destruct l. }
  unfold shape in *. destruct Hx as [[-> ->]|[[-> ->]|[[-> ->]|[-> ->]]]]; cbn [close_store] in Hc.
  - destruct (docs s) as [ds|]; [|done]. unfold DocStore_Close, DocStorageClose in Hc. pose proof (DBClose_returns (DocStore.storage ds)).
    destruct (DBClose _) as [db r']. injection Hc as <- <-. split_and!; [done..|exact Hs].
  - destruct (stream s) as [st|]; [|done]. assert (Hst : st_stopped st = false) by (by injection Hs).
    destruct (stream_close_returns order st Ho Hst) as [H1 H2].
    destruct (StreamService.Close order st) as [st' r']. injection Hc as <- <-. cbn [fst snd] in *.
    split_and!; [done..|]. cbn. rewrite H2. cbn in Hs. destruct (docs s); by injection Hs as -> ->.
  - unfold Queue_Close, QueueStorageClose in Hc. pose proof (DBClose_returns (queue s)). destruct (DBClose _) as [db r']. injection Hc as <- <-.
    split_and!; [done..|exact Hs].
  - assert (Hk : KV.closed (store s) = false) by (by injection Hs).
    unfold KV.Close in Hc. rewrite Hk in Hc. pose proof (DBClose_returns (KV.sdb (store s))).
    destruct (DBClose _) as [db r']. injection Hc as <- <-. split_and!; [done..|]. cbn in *.
    injection Hs as E1 _ E3 E4. by rewrite E1, E3, E4.
Qed.

(** The next deferred call of a process. *)
Lemma close_next p order x rest s r :
  alive p -> main_at p = Closing (x :: rest) -> valid_order order ->
  close_store order x (server (system p)) = (s, r) ->
  r <> Panic /\ jobQueue s = jobQueue (server (system p)) /\
  shape s = (stopped (server (system p)), negb (bool_decide (Keys ∈ rest)),
             Some (negb (bool_decide (Streams ∈ rest))), true).
Proof.
  intros [_ _ _ _ [closed Hd] Hs] Hm Ho Hc. unfold open_store, pending in *. rewrite Hm in *.
  by eapply close_store_shape.
Qed.

(** *** The steps *)

Lemma shutdown_alive p o :
  alive p -> signal_at p <> Waiting -> shutdown_step p o ->
  match o with
  | Serving p' => alive p' /\ signal_at p' <> Waiting
  | Ended d status => status = 0 /\ d = files p
  | Crashed => False
  end.
Proof.
  intros H Hsig Hs. pose proof H as [H1 H2 H3 H4 H5 H6].
  destruct Hs as [p Hd Hj|p Hm Ha|p x rest order s r Hm Ho Hc|p Hm|p Hl]; [| | |done|done].
  - split; [|done]. split; cbn; try done; [|by right]. split; [done|]. intros Hst%H2. congruence.
  - split; [|done]. split; cbn; try done; [by right|by exists []|]. unfold open_store, pending in *. cbn.
    by rewrite Hm in H6.
  - destruct (close_next p order x rest s r H Hm Ho Hc) as (Hr & Hj & Hs).
    destruct H5 as [closed H5]. unfold pending in H5. rewrite Hm in H5.
    assert (Hst : stopped s = stopped (server (system p))).
    { pose proof (f_equal (fun x => x.1.1.1) Hs) as Hf. exact Hf. }
    assert (Hal : alive (set_main (on_stores p s) (Closing rest))).
    { split; cbn; rewrite ?Hst; try done; [by apply wf_on_stores|by right|].
      exists (closed ++ [x]). by rewrite <- app_assoc. }
    by destruct r.
Qed.

Lemma process_alive p o :
  alive p -> process_step p o ->
  match o with
  | Serving p' => alive p'
  | Ended d status => status = 0 /\ signal_at p <> Waiting /\ d = files p
  | Crashed => True
  end.
Proof.
  intros H Hs. pose proof H as [H1 H2 H3 H4 H5 H6].
  destruct Hs as [p sys Hl|p [[id rbuf] wbuf] Hm Hls (Hid & Hne & Hr & Hw)|p e r s res _ Hserve|p st st' r Hst Hb _
    |p Hgc|p Hw|p o Hs|p _]; [| | | | | | |done].
  - pose proof (loop_shape _ _ _ Hl) as Hsh. destruct Hl as (Hstep & Hst & _).
    split; cbn; try done; [by eapply wf_step|by rewrite Hst|]. rewrite Hsh, Hst. exact H6.
  - split; cbn; try done. by apply wf_accept.
  - apply alive_stores; [done|]. by eapply serve_shape.
  - apply alive_stores; [done|]. split; [|done]. unfold shape. cbn. rewrite Hst. cbn.
    pose proof (background_stopped _ _ Hb) as Hk. cbn [fst] in Hk. by rewrite Hk.
  - by apply alive_stores.
  - split; cbn; try done; [by apply wf_stop| |by right|]. split; [|done]. intros Hl. apply H3 in Hl. congruence.
    unfold shape in *. cbn. injection H6 as -> -> ->. done.
  - assert (Hsig : signal_at p <> Waiting).
    { destruct Hs as [p Hd Hj|p Hm Ha|p x rest order s r Hm Ho Hc|p Hm|p Hl]; try congruence.
      - intros Hwt%H2. unfold accept_turn in Ha. rewrite Hwt in Ha. done.
      - by destruct H4; [congruence|].
      - by destruct H4; [congruence|]. }
    pose proof (shutdown_alive p o H Hsig Hs) as Hr.
    by destruct o as [p'|d st|]; [destruct Hr|destruct Hr|].
Qed.

(** The stores have four directories. *)
Lemma dirs_differ (dir a b : bytes) : a <> b -> dir ++ a <> dir ++ b.
Proof. by intros Hab ?%app_inv_head. Qed.

(** A process that [main] has started. *)
Lemma main_serves e d args p :
  main e d args = Serving p ->
  exists f d' http store q docDB ds streamDB,
    p = mkProcess f d' http (start (NewServerWithWorkers store q (Some (StreamService.New streamDB)) (Some ds)))
      Accepting Waiting true /\
    Parse default_flags args = inl f /\ nodeID f <> [] /\
    KV.NewKVStorage (d !! kv_dir f) = Ok store /\ DBOpen (d !! queue_dir f) = Ok q /\
    DBOpen (d !! stream_dir f) = Ok streamDB /\ DBOpen (d !! doc_dir f) = Ok docDB /\
    DocStore.New docDB = Ok ds.
Proof.
  unfold main. destruct (Parse default_flags args) as [f|status]; [|done].
  destruct (bool_decide (nodeID f = [])) eqn:Hn; [done|]. apply bool_decide_eq_false in Hn. unfold or_fatal.
  destruct (KV.NewKVStorage _) as [store| |] eqn:E1; [|done..].
  unfold Queue_New, QueueNewStorage, Stream_New, DocStore_New, DocNewStorage.
  destruct (DBOpen (_ !! queue_dir f)) as [q| |] eqn:E2; [|done..]. cbn [on_err].
  destruct (DBOpen (_ !! stream_dir f)) as [streamDB| |] eqn:E3; [|done..]. cbn [on_err StreamService.storage New].
  destruct (DBOpen (_ !! doc_dir f)) as [docDB| |] eqn:E4; [|done..]. cbn [on_err mbind result_bind].
  destruct (DocStore.New docDB) as [ds| |] eqn:E5; [|done..].
  destruct (NewClusterKit e _); [|done..]. destruct (ClusterKit_Start e _); [|done..].
  destruct (Listen e _); [|done..]. intros [= <-].
  rewrite lookup_insert_ne in E2 by by apply dirs_differ.
  rewrite !lookup_insert_ne in E3 by by apply dirs_differ.
  rewrite !lookup_insert_ne in E4 by by apply dirs_differ.
  by eexists f, _, _, store, q, docDB, ds, streamDB.
Qed.

Lemma started_alive e d args p : main e d args = Serving p -> alive p.
Proof.
  intros (f & d' & http & store & q & docDB & ds & streamDB & -> & _ & _ & Hkv & _)%main_serves.
  split; cbn; try done; [by apply wf_start|by left|by exists []|].
  unfold shape. cbn. unfold KV.NewKVStorage in Hkv. destruct (DBOpen _); [|done..].
  by injection Hkv as <-.
Qed.

(** ** Properties *)

(** C20: every state that a process of the server command reaches is in order,
    from the flags to the last deferred call, whatever it reads and in whichever
    order its goroutines take turns; and a process that has served ends with
    status 0 only, after a signal, or with a panic. *)
Theorem process_lifecycle e d args o :
  rtc run_step (main e d args) o ->
  match o with
  | Serving p => alive p
  | Ended d' status => o = main e d args \/
      status = 0 /\ exists p, alive p /\ signal_at p <> Waiting /\ d' = files p
  | Crashed => True
  end.
Proof.
  intros Hr. assert (H0 : match main e d args with Serving p => alive p | _ => True end).
  { destruct (main e d args) as [p| |] eqn:E; [|done..]. by eapply started_alive. }
  revert o Hr. apply rtc_ind_r; [by destruct (main e d args); auto|].
  intros o o' _ (p & -> & Hs) Hp. pose proof (process_alive p o' Hp Hs) as Ho.
  destruct o' as [p'|d' status|]; [done| |done]. destruct Ho as (-> & Hsig & ->). right. eauto.
Qed.

(** The steps that a shutdown has left, at most. *)
Definition steps_left o : nat :=
  match o with
  | Serving p =>
      (match main_at p with Accepting => 6 | Closing rest => S (length rest) end +
       match signal_at p with Waiting => 2 | Draining => 1 | LeavingCluster => 0 end)%nat
  | _ => O
  end.

Lemma shutdown_decreases p o : shutdown_step p o -> (steps_left o < steps_left (Serving p))%nat.
Proof.
  destruct 1 as [p Hs _|p Hm _|p x rest order s r Hm _ _|p Hm|p Hs]; cbn -[Nat.add].
  - rewrite Hs. lia.
  - rewrite Hm. cbn [length deferred]. lia.
  - rewrite Hm. destruct r; cbn -[Nat.add]; lia.
  - rewrite Hm. lia.
  - rewrite Hs. destruct (main_at p); lia.
Qed.

(** A process that a signal has reached, and whose workers are done. *)
Definition drained p : Prop :=
  signal_at p <> Waiting /\
  (workerCount (flags p) <= 0 \/ jobQueue (server (system p)) = [] \/ signal_at p = LeavingCluster).

Lemma drained_next p o :
  alive p -> drained p -> shutdown_step p o ->
  match o with Serving p' => alive p' /\ drained p' | Ended _ status => status = 0 | Crashed => False end.
Proof.
  intros H [Hsig Hd] Hs. pose proof (shutdown_alive p o H Hsig Hs) as Hn.
  destruct o as [p'|d status|]; [|by destruct Hn|done]. destruct Hn as [Hal Hsig'].
  split; [done|]. split; [done|].
  inversion Hs as [q E1 E2|q E1 E2|q x rest order s r Hm Ho Hc|q E1|q E1]; subst; cbn; auto.
  destruct (close_next p order x rest s r H Hm Ho Hc) as (Hr & Hj & _).
  destruct r; simplify_eq; cbn; by rewrite Hj.
Qed.

Lemma drained_moves p : drained p -> exists o, shutdown_step p o.
Proof.
  intros [Hsig Hd]. destruct (signal_at p) eqn:Hs; [done| |].
  - exists (Serving (set_signal p LeavingCluster false)). apply Drained; [done|].
    destruct Hd as [|[|]]; [by left|by right|done].
  - eexists. by apply Exits.
Qed.

(** C21: once a signal has come and the workers are done, the process ends by
    itself: whatever the order in which [main] and the goroutine of the signal
    take turns, after at most seven steps neither can go on, and then the process
    has ended with status 0; no deferred call panics. *)
Theorem shutdown_ends p n o :
  alive p -> drained p -> nsteps shut n (Serving p) o ->
  (n <= 7)%nat /\ ((exists d, o = Ended d 0) \/ exists o', shut o o').
Proof.
  intros Hal Hd Hn.
  assert (H : (n + steps_left o <= steps_left (Serving p))%nat /\
    match o with Serving p' => alive p' /\ drained p' | Ended _ status => status = 0 | Crashed => False end).
  { remember (Serving p) as o0 eqn:E. revert p E Hal Hd. induction Hn as [o|n o1 o2 o3 (q & -> & Hs) Hrest IH];
      intros p E Hal Hd; [subst o; split; [lia|done]|]. injection E as ->.
    pose proof (shutdown_decreases p o2 Hs). pose proof (drained_next p o2 Hal Hd Hs) as Hnext.
    destruct o2 as [p2|d2 st2|]; [| |done].
    - destruct Hnext as [H1 H2]. destruct (IH p2 eq_refl H1 H2) as [? ?]. split; [lia|done].
    - inversion Hrest as [|? ? ? ? (? & ? & _)]; [subst|done]. split; [cbn -[steps_left] in *; lia|done]. }
  destruct H as [Hle Ho]. split.
  - destruct Hd as [Hsig _]. assert (Hmax : (steps_left (Serving p) <= 7)%nat); [|lia].
    destruct Hal as [_ _ _ _ [closed H5] _]. unfold pending in H5. cbn -[Nat.add].
    apply (f_equal length) in H5. rewrite length_app in H5.
    destruct (main_at p), (signal_at p); cbn in H5 |- *; done || lia.
  - destruct o as [p'|d status|]; [|by left; exists d; subst|done].
    right. destruct Ho as [_ Hd']. destruct (drained_moves p' Hd') as [o' Hs]. exists o', p'. done.
Qed.
End Life.

(** ** What the next process finds *)

Section Restart.
Context {bdg : Badger} {laws : BadgerLaws} {rel : BadgerReliable} {batch : BadgerBatch}
  {blaws : BadgerBatchLaws} {opening : BadgerOpen} {olaws : BadgerOpenLaws}.
Implicit Types (p : Process) (o : Outcome) (db : DB).

(** Two states of a database with the same entries. *)
Definition same_entries db db' : Prop := contents db' = contents db /\ expiry db' = expiry db.

#[export] Instance same_entries_equiv : Equivalence same_entries.
Proof.
  unfold same_entries. split; [by intros db|by intros db db' []|].
  intros db1 db2 db3 [-> ->] [-> ->]. done.
Qed.

Lemma DBClose_entries db : same_entries db (DBClose db).1 /\ (DBClose db).2 = Ok tt.
Proof.
  destruct (DBClose_law db) as (Hc & He & [Hr|(err & _ & Hf)]); [done|by destruct (no_fault err)].
Qed.

Lemma DBOpen_entries db : exists db', DBOpen (Some db) = Ok db' /\ same_entries db db'.
Proof.
  pose proof (DBOpen_law (Some db)) as H. destruct (DBOpen _) as [db'|err|]; [|by destruct (no_fault err)|done].
  by exists db'.
Qed.

(** The entries of a stream database once the buffer is on disk. *)
Definition flushed_entries (order : range_order) (st : Stream) : Badger.store :=
  let s := StreamService.storage st in
  put_all (map own_entry (buffered order s)) (contents (StreamStorage.db s)).

Lemma stream_close_flushes order (st : Stream) :
  valid_order order -> st_stopped st = false ->
  contents (StreamStorage.db (StreamService.storage (StreamService.Close order st).1)) = flushed_entries order st.
Proof.
  intros Ho Hst. unfold StreamService.Close, StreamStorage.Close, st_stopped, flushed_entries in *. rewrite Hst.
  destruct (flushWrites_served order (set_stopped (StreamService.storage st)) Ho) as [_ Hs].
  apply served_reliable in Hs. destruct (flushWrites order _) as [s' [[]|err|]]; cbn in *; [|by destruct Hs|done].
  destruct (DBClose_entries (StreamStorage.db s')) as [[-> _] _]. exact Hs.
Qed.

(** What a shutdown leaves of the stores [s0] of the process. *)
Record kept (s0 s : Server) (streams_open : Prop) : Prop := {
  kept_keys : same_entries (KV.sdb (store s0)) (KV.sdb (store s));
  kept_queue : same_entries (queue s0) (queue s);
  kept_docs : exists ds0 ds, docs s0 = Some ds0 /\ docs s = Some ds /\
    same_entries (DocStore.storage ds0) (DocStore.storage ds);
  kept_stream : exists st0 st, stream s0 = Some st0 /\ stream s = Some st /\
    ((streams_open /\ st = st0) \/
     (~ streams_open /\ exists order, valid_order order /\
        contents (StreamStorage.db (StreamService.storage st)) = flushed_entries order st0));
}.

Definition kept_from p0 p : Prop :=
  flags p = flags p0 /\ disk p = disk p0 /\
  kept (server (system p0)) (server (system p)) (Streams ∈ pending p).

Lemma shape_stores s a b c : shape s = (a, b, Some c, true) ->
  exists ds st, docs s = Some ds /\ stream s = Some st /\ st_stopped st = c.
Proof.
  unfold shape. destruct (docs s) as [ds|], (stream s) as [st|]; cbn; intros [= <- <-]; eauto.
Qed.

Lemma kept_refl p : alive p -> Streams ∈ pending p -> kept_from p p.
Proof.
  intros H Hp. destruct (shape_stores _ _ _ _ (al_stores p H)) as (ds & st & Hds & Hst & _).
  split_and!; [done..|]. split; [done|done| |].
  - by exists ds, ds.
  - exists st, st. by split_and!; [..|left].
Qed.

Lemma kept_close p0 p order x rest s r :
  alive p -> main_at p = Closing (x :: rest) -> valid_order order ->
  close_store order x (server (system p)) = (s, r) ->
  kept (server (system p0)) (server (system p)) (Streams ∈ pending p) ->
  kept (server (system p0)) s (Streams ∈ rest).
Proof.
  intros Hal Hm Ho Hc [Hk Hq (ds0 & ds & Hd0 & Hd & Hds) (st0 & st & Hs0 & Hs & Hst)].
  unfold pending in Hst. rewrite Hm in Hst. pose proof (al_stores p Hal) as Hsh.
  destruct (shape_stores _ _ _ _ Hsh) as (ds' & st' & Hd' & Hs' & Hopen).
  assert (ds' = ds) as -> by congruence. assert (st' = st) as -> by congruence. clear Hd' Hs' Hsh.
  unfold open_store, pending in Hopen. rewrite Hm in Hopen.
  assert (Hrest : x <> Streams -> (Streams ∈ x :: rest <-> Streams ∈ rest)).
  { intros Hx. split; [by intros [?|?]%elem_of_cons; [subst|]|by right]. }
  destruct x; cbn [close_store] in Hc; rewrite ?Hd, ?Hs in Hc.
  - unfold DocStore_Close, DocStorageClose in Hc.
    destruct (DBClose_entries (DocStore.storage ds)) as [Hdb _]. destruct (DBClose _) as [db r'].
    injection Hc as <- <-. split; [done|done| |].
    + exists ds0, (mkDocStore db (indexes ds)). split_and!; [done..|]. by transitivity (DocStore.storage ds).
    + exists st0, st. rewrite <- Hrest by done. done.
  - rewrite bool_decide_eq_true_2 in Hopen by by left. cbn in Hopen.
    destruct Hst as [[_ ->]|[Hn _]]; [|destruct Hn; by left].
    pose proof (stream_close_flushes order st0 Ho Hopen) as Hf.
    destruct (StreamService.Close order st0) as [st1 r'] eqn:E. injection Hc as <- <-. split; [done|done| |].
    + by exists ds0, ds.
    + exists st0, st1. split_and!; [done..|]. right. split; [|by exists order].
      destruct (al_pending p Hal) as [closed Hp]. unfold pending in Hp. rewrite Hm in Hp.
      assert (Hnd : NoDup deferred) by (by apply (bool_decide_unpack _)).
      rewrite Hp in Hnd. apply NoDup_app in Hnd as (_ & _ & Hnd). by apply NoDup_cons in Hnd as [Hnd _].
  - unfold Queue_Close, QueueStorageClose in Hc.
    destruct (DBClose_entries (queue (server (system p)))) as [Hdb _]. destruct (DBClose _) as [db r'].
    injection Hc as <- <-. split; [done|by transitivity (queue (server (system p)))|by exists ds0, ds|].
    exists st0, st. rewrite <- Hrest by done. done.
  - unfold KV.Close in Hc. destruct (KV.closed _).
    + injection Hc as <- <-. split; [done..|by exists ds0, ds|]. exists st0, st. by rewrite <- Hrest by done.
    + destruct (DBClose_entries (KV.sdb (store (server (system p))))) as [Hdb _].
      destruct (DBClose _) as [db r']. injection Hc as <- <-.
      split; [by transitivity (KV.sdb (store (server (system p))))|done|by exists ds0, ds|].
      exists st0, st. by rewrite <- Hrest by done.
Qed.

Lemma kept_step p0 p p' :
  alive p -> kept_from p0 p -> shutdown_step p (Serving p') -> kept_from p0 p'.
Proof.
  intros Hal (Hf & Hd & Hk) Hs.
  inversion Hs as [q E1 E2|q Hm E2|q x rest order s r Hm Ho Hc|q E1|q E1]; subst; [done| |].
  - split_and!; [done..|]. unfold pending in *. rewrite Hm in Hk. done.
  - destruct r; simplify_eq; (split_and!; [done..|]); by apply (kept_close p0 p order x rest s _ Hal Hm Ho Hc).
Qed.

(** What a shutdown that began in [p0] reaches. *)
Lemma shut_keeps p0 o :
  alive p0 -> signal_at p0 <> Waiting -> Streams ∈ pending p0 -> rtc shut (Serving p0) o ->
  match o with
  | Serving p => alive p /\ signal_at p <> Waiting /\ kept_from p0 p
  | Ended d status => exists p, status = 0 /\ d = files p /\ kept_from p0 p
  | Crashed => False
  end.
Proof.
  intros Hal Hsig Hst. pose proof (kept_refl p0 Hal Hst) as Hk. revert o. apply rtc_ind_r; [done|].
  intros o o' _ (p & -> & Hs) (H1 & H2 & H3).
  pose proof (shutdown_alive p o' H1 H2 Hs) as Ho. destruct o' as [p'|d' st'|]; [| |done].
  - destruct Ho as [? ?]. split_and!; [done..|]. exact (kept_step p0 p p' H1 H3 Hs).
  - destruct Ho as [-> ->]. by exists p.
Qed.

Lemma files_lookup p ds st :
  docs (server (system p)) = Some ds -> stream (server (system p)) = Some st ->
  files p !! kv_dir (flags p) = Some (KV.sdb (store (server (system p)))) /\
  files p !! queue_dir (flags p) = Some (queue (server (system p))) /\
  files p !! stream_dir (flags p) = Some (StreamStorage.db (StreamService.storage st)) /\
  files p !! doc_dir (flags p) = Some (DocStore.storage ds).
Proof.
  intros Hd Hs. unfold files. rewrite Hd, Hs. split_and!.
  - rewrite lookup_insert_ne by by apply dirs_differ. apply lookup_insert_eq.
  - apply lookup_insert_eq.
  - rewrite !lookup_insert_ne by by apply dirs_differ. apply lookup_insert_eq.
  - rewrite !lookup_insert_ne by by apply dirs_differ. apply lookup_insert_eq.
Qed.

(** No index metadata, or metadata that was saved. *)
Definition readable_index (m : Badger.store) : Prop :=
  m !! metadataKey = None \/
  exists data (idx : bmap (list bytes)),
    m !! metadataKey = Some data /\ Json.Unmarshal data = Ok (norm (VObject (VStrings <$> idx))).

(** Every index is there without documents. *)
Definition indexes_empty (ds : DocStore) : Prop :=
  forall c f idx, index_at (DocStore.indexes ds) c f = Some idx -> idx = ∅.

Lemma rebuilt_empty (db : DB) m : indexes_empty (mkDocStore db (rebuild m ∅)).
Proof.
  intros c f idx. unfold index_at. cbn [DocStore.indexes]. rewrite rebuild_empties, lookup_fmap.
  destruct (m !! c) as [fields|]; [|done]. cbn. rewrite empties_lookup. destruct (decide _); congruence.
Qed.

(** Metadata has no time to live that could make it unreadable. *)
Lemma readable_later d db db' :
  later d db db' -> readable_index (contents db) -> readable_index (contents db').
Proof.
  intros Hl Hr. destruct (contents db' !! metadataKey) as [data'|] eqn:E; [|by left]. right.
  pose proof (lapse_keeps _ _ _ _ _ _ _ Hl E) as E'. destruct Hr as [Hn|(data & idx & Hd & Hu)]; [congruence|].
  exists data', idx. split; [done|]. by simplify_eq.
Qed.

Lemma New_readable db :
  readable_index (contents db) ->
  exists ds, DocStore.New db = Ok ds /\ DocStore.storage ds = db /\ indexes_empty ds.
Proof.
  intros [Hn|(data & idx & Hd & Hu)].
  - unfold DocStore.New, loadIndexMetadata, DocStorage.GetJSON. cbn [DocStore.storage].
    pose proof (doc_Get_wp db metadataKey ltac:(done)) as HG.
    destruct (DocStorage.Get db metadataKey) as [data|err|]; [congruence| |done].
    destruct HG as [Hf|[-> _]]; [by destruct (no_fault err)|]. eexists. split_and!; [done..|].
    intros c f idx. unfold index_at. cbn. by rewrite lookup_empty.
  - eexists. split_and!; [by eapply load_saved|done|]. apply rebuilt_empty.
Qed.

(** What the outside world has to grant a process with the flags [f]. *)
Definition granted e (f : Flags) : Prop :=
  nodeID f <> [] /\ NewClusterKit e (ckOptions f) = Ok tt /\ ClusterKit_Start e (ckOptions f) = Ok tt /\
  Listen e (kvPort f) = Ok tt.

(** A database that is opened after a pause. *)
Lemma Elapse_entries pause (db db' : DB) :
  0 <= pause -> same_entries (Elapse pause db) db' -> later pause db db'.
Proof. unfold later. intros Hp [H1 H2]. rewrite H1, H2. by apply Elapse_law. Qed.

Lemma main_boots e d args f pause kdb q sdb ddb :
  Parse default_flags args = inl f -> granted e f -> 0 <= pause ->
  d !! kv_dir f = Some kdb -> d !! queue_dir f = Some q -> d !! stream_dir f = Some sdb ->
  d !! doc_dir f = Some ddb -> readable_index (contents ddb) ->
  exists p, main e (Elapse pause <$> d) args = Serving p /\ flags p = f /\ signal_at p = Waiting /\
    (let st := store (server (system p)) in KV.closed st = false /\ later pause kdb (KV.sdb st)) /\
    later pause q (queue (server (system p))) /\
    (exists st, stream (server (system p)) = Some st /\
       later pause sdb (StreamStorage.db (StreamService.storage st))) /\
    (exists ds, docs (server (system p)) = Some ds /\ later pause ddb (DocStore.storage ds) /\
       indexes_empty ds).
Proof.
  intros Hf (Hn & Hc & Hs & Hl) Hp Hk Hq Hst Hd Hr.
  destruct (DBOpen_entries (Elapse pause kdb)) as (kdb' & Ek & Sk).
  destruct (DBOpen_entries (Elapse pause q)) as (q' & Eq & Sq).
  destruct (DBOpen_entries (Elapse pause sdb)) as (sdb' & Es & Ss).
  destruct (DBOpen_entries (Elapse pause ddb)) as (ddb' & Ed & Sd).
  apply (Elapse_entries pause) in Sk, Sq, Ss, Sd; [|done..].
  destruct (New_readable ddb' (readable_later _ _ _ Sd Hr)) as (ds & En & Hds & Hempty).
  unfold main. rewrite Hf, bool_decide_eq_false_2 by done. unfold KV.NewKVStorage, or_fatal.
  unfold Queue_New, QueueNewStorage, Stream_New, DocStore_New, DocNewStorage.
  rewrite lookup_fmap, Hk. cbn [fmap option_fmap option_map]. rewrite Ek. cbn [mbind result_bind].
  rewrite lookup_insert_ne, lookup_fmap, Hq by by apply dirs_differ. cbn [fmap option_fmap option_map]. rewrite Eq.
  rewrite !lookup_insert_ne, lookup_fmap, Hst by by apply dirs_differ. cbn [fmap option_fmap option_map]. rewrite Es.
  cbn [on_err]. rewrite !lookup_insert_ne, lookup_fmap, Hd by by apply dirs_differ.
  cbn [fmap option_fmap option_map]. rewrite Ed. cbn [on_err mbind result_bind].
  rewrite En, Hc, Hs, Hl.
  eexists. split; [reflexivity|]. cbn. split_and!; [done..|by eexists|]. exists ds. by rewrite Hds.
Qed.

(** C5: a shutdown, whichever deferred calls it makes before the process exits, and
    a process with the same flags that is started on the directories [pause]
    nanoseconds later.  Of the keys, the queues and the documents the new process
    stores the entries that the old one stored, less those whose time to live has
    lapsed meanwhile (which only keys are given); of the streams it stores what was
    on disk when the signal came, or, when [main] closed them in time, the
    buffered messages as well.  The indexes of the documents come back without
    entries: a query that an index serves finds a document of the old process only
    once it was written again.  The engine is assumed to refuse nothing. *)
Theorem restart_after_shutdown p d status e args st pause :
  alive p -> signal_at p <> Waiting -> main_at p = Accepting ->
  stream (server (system p)) = Some st ->
  rtc shut (Serving p) (Ended d status) ->
  Parse default_flags args = inl (flags p) -> granted e (flags p) -> 0 <= pause ->
  (forall ds, docs (server (system p)) = Some ds -> readable_index (contents (DocStore.storage ds))) ->
  let s := server (system p) in
  exists p', main e (Elapse pause <$> d) args = Serving p' /\
    let s' := server (system p') in
    (KV.closed (store s') = false /\ later pause (KV.sdb (store s)) (KV.sdb (store s'))) /\
    later pause (queue s) (queue s') /\
    (exists ds ds', docs s = Some ds /\ docs s' = Some ds' /\
       later pause (DocStore.storage ds) (DocStore.storage ds') /\ indexes_empty ds') /\
    (exists db1 st', d !! stream_dir (flags p) = Some db1 /\ stream s' = Some st' /\
       later pause db1 (StreamStorage.db (StreamService.storage st')) /\
       (contents db1 = contents (StreamStorage.db (StreamService.storage st)) \/
        exists order, valid_order order /\ contents db1 = flushed_entries order st)).
Proof.
  intros Hal Hsig Hm Hst Hr Hf Hg Hpause Hi s.
  assert (Hpend : Streams ∈ pending p) by (unfold pending; rewrite Hm; by right; left).
  destruct (shut_keeps p _ Hal Hsig Hpend Hr) as (q & -> & -> & Hfl & Hdisk & Hk).
  destruct Hk as [Hkv Hq (ds0 & ds & Hd0 & Hd & Sd) (st0 & st1 & Hs0 & Hs1 & Hst1)].
  assert (st0 = st) as -> by congruence.
  destruct (files_lookup q ds st1 Hd Hs1) as (L1 & L2 & L3 & L4). rewrite Hfl in *.
  destruct (main_boots e (files q) args (flags p) pause _ _ _ _ Hf Hg Hpause L1 L2 L3 L4)
    as (p' & Hp & _ & _ & [Hc Hv] & Hq' & (st' & Hst' & Ss) & (ds' & Hds' & Sd' & Hempty)).
  { destruct Sd as [-> _]. by apply Hi. }
  unfold later in Hv, Hq', Sd' |- *. destruct Hkv as [Hk1 Hk2], Hq as [Hq1 Hq2], Sd as [Sd1 Sd2].
  exists p'. split; [done|]. split_and!.
  - done.
  - unfold s. by rewrite <- Hk1, <- Hk2.
  - unfold s. by rewrite <- Hq1, <- Hq2.
  - exists ds0, ds'. rewrite <- Sd1, <- Sd2. by split_and!.
  - eexists _, st'. split_and!; [exact L3|done|done|].
    destruct Hst1 as [[_ ->]|[_ (order & Ho & ->)]]; [by left|]. right. by exists order.
Qed.

(** *** Both ends of the streams happen *)

Lemma run_shut o o' : rtc shut o o' -> rtc run_step o o'.
Proof.
  apply (rtc_subrel shut run_step). intros o1 o2 (p & -> & H). exists p. split; [done|by constructor].
Qed.

(** [main] closes what is left. *)
Lemma closes_all p rest :
  alive p -> signal_at p <> Waiting -> main_at p = Closing rest ->
  exists p', rtc shut (Serving p) (Serving p') /\ main_at p' = Closing [].
Proof.
  revert p. induction rest as [|x rest IH]; intros p Hal Hsig Hm; [by exists p|].
  destruct (close_store map_to_list x (server (system p))) as [s r] eqn:Hc.
  assert (Ho : valid_order map_to_list) by (by intros b).
  pose proof (CloseStore p x rest map_to_list s r Hm Ho Hc) as Hs.
  destruct (close_next p _ x rest s r Hal Hm Ho Hc) as (Hr & _ & _).
  pose proof (shutdown_alive p _ Hal Hsig Hs) as Hn. set (p1 := set_main (on_stores p s) (Closing rest)) in *.
  destruct (IH p1) as (p' & Hrun & Hm'); [by destruct r; destruct Hn..|done|].
  exists p'. split; [|done]. eapply rtc_l; [|exact Hrun]. exists p. split; [done|]. by destruct r.
Qed.

(** A signal and the workers' end. *)
Definition signalled p : Process :=
  set_signal (set_signal (set_system p (Stop (system p))) Draining (listening p)) LeavingCluster false.

Lemma signalled_run p :
  signal_at p = Waiting -> workerCount (flags p) <= 0 \/ jobQueue (server (system p)) = [] ->
  rtc run_step (Serving p) (Serving (signalled p)).
Proof.
  intros Hs Hj. eapply rtc_l; [exists p; split; [done|by apply Signal]|].
  apply rtc_once. eexists. split; [done|]. apply Shutdown. by apply Drained.
Qed.

(** C26: [os.Exit] in the goroutine of the signal races with the deferred calls of
    [main], which it skips: from every serving process without waiting jobs, a
    signal may end it with status 0 and nothing of the write buffer of the streams
    on disk, the messages whose offsets were acknowledged included, or with status
    0 and all of it on disk.  The engine is assumed to refuse nothing. *)
Theorem exit_races_with_the_flush p st :
  alive p -> signal_at p = Waiting -> workerCount (flags p) <= 0 \/ jobQueue (server (system p)) = [] ->
  stream (server (system p)) = Some st ->
  exists d1 d2 db1 db2 order,
    rtc run_step (Serving p) (Ended d1 0) /\ d1 !! stream_dir (flags p) = Some db1 /\
    contents db1 = contents (StreamStorage.db (StreamService.storage st)) /\
    rtc run_step (Serving p) (Ended d2 0) /\ d2 !! stream_dir (flags p) = Some db2 /\
    valid_order order /\ contents db2 = flushed_entries order st.
Proof.
  intros Hal Hs Hj Hst. pose proof (signalled_run p Hs Hj) as Hrun. set (q := signalled p) in *.
  assert (Hq : alive q).
  { pose proof (process_alive p _ Hal (Signal p Hs)) as H1.
    set (p1 := set_signal _ _ _) in H1. exact (process_alive p1 _ H1 (Shutdown p1 _ (Drained p1 eq_refl Hj))). }
  assert (Hm : main_at q = Accepting) by (by destruct (al_main p Hal); [|congruence]).
  assert (Hpend : Streams ∈ pending q) by (unfold pending; rewrite Hm; by right; left).
  destruct (shape_stores _ _ _ _ (al_stores q Hq)) as (ds & st' & Hds & Hst' & _).
  assert (st' = st) as -> by (cbn in Hst'; congruence).
  (* the process exits at once *)
  assert (E1 : rtc run_step (Serving p) (Ended (files q) 0)).
  { eapply rtc_r; [exact Hrun|]. exists q. split; [done|]. by apply Shutdown, Exits. }
  destruct (files_lookup q ds st Hds Hst') as (_ & _ & L1 & _).
  (* main returns first *)
  assert (Hret : shutdown_step q (Serving (set_main q (Closing deferred)))) by by apply StartReturns.
  destruct (shutdown_alive q _ Hq ltac:(done) Hret) as [Hq1 Hsig1].
  destruct (closes_all _ _ Hq1 Hsig1 eq_refl) as (q2 & Hcl & Hm2).
  assert (Hall : rtc shut (Serving q) (Serving q2)) by (eapply rtc_l; [by exists q|exact Hcl]).
  destruct (shut_keeps q _ Hq ltac:(done) Hpend Hall) as (Hq2 & _ & Hfl & _ & Hk).
  destruct Hk as [_ _ (_ & ds2 & _ & Hds2 & _) (st0 & st2 & Hs0 & Hs2 & Hflush)].
  assert (st0 = st) as -> by congruence.
  destruct Hflush as [[Hin _]|[_ (order & Ho & Hc)]].
  { unfold pending in Hin. rewrite Hm2 in Hin. by apply elem_of_nil in Hin. }
  destruct (files_lookup q2 ds2 st2 Hds2 Hs2) as (_ & _ & L2 & _).
  exists (files q), (files q2), (StreamStorage.db (StreamService.storage st)),
    (StreamStorage.db (StreamService.storage st2)), order.
  rewrite Hfl in L2. split_and!; [done..| |done|done|done].
  eapply rtc_r; [etransitivity; [exact Hrun|exact (run_shut _ _ Hall)]|].
  exists q2. split; [done|]. by apply Shutdown, Returns.
Qed.

(** A request of the slow path that is read while the server stops: the send on
    the closed job queue may be chosen, and panics, which ends the process. *)
Theorem stopping_may_crash p (e : Env) id c data cmd key value values :
  alive p -> signal_at p <> Waiting ->
  connections (system p) !! id = Some c -> id ∈ open_ (system p) -> 0 < len data <= readBuf_size ->
  is_binary data = false -> parseCommandExtended data = Ok (mkCommand cmd key value None values) ->
  shouldUseFastPath (avgLatency c) cmd = false -> pick e = true ->
  process_step p Crashed.
Proof.
  intros Hal Hsig Hc Ho Hd Hb Hp Hf Hpick. apply Crash. eapply PanicRead; [exact Hc|done|exact Hd|].
  unfold read_step, processRequestHybrid, processRequestText. rewrite Hb, Hp. cbn [fst snd server].
  rewrite Hf. unfold processSlowPath, dispatch.
  destruct (stopped (server (system p))) eqn:Hs; [|by destruct Hsig; apply (al_signal p Hal)].
  unfold select_send. rewrite Hpick. by rewrite orb_true_r.
Qed.
End Restart.

(** ** The theorems at work *)

Definition sample_args : list bytes := [str "-node-id=node-1"; str "-workers"; str "2"].
Definition sample_flags : Flags :=
  mkFlags (str "node-1") (str ":8080") (str ":9080") [] (str "./data") (str ":6380") (str ":6381") 64 2 false.
Definition sample_surroundings : Surroundings :=
  mkSurroundings (fun _ => Ok tt) (fun _ => Ok tt) (fun _ => Ok tt) (fun _ => true) [].

Abbreviation mem_main := (main (bdg := mem_badger) (opening := mem_open)).

Definition sample_process : Process (bdg := mem_badger) :=
  mkProcess sample_flags
    (<[doc_dir sample_flags := mem_empty]> (<[stream_dir sample_flags := mem_empty]>
      (<[queue_dir sample_flags := mem_empty]> (<[kv_dir sample_flags := mem_empty]> ∅))))
    true
    (start (NewServerWithWorkers (KV.mkStorage mem_empty false) mem_empty
      (Some (StreamService.New (bdg := mem_badger) mem_empty)) (Some (mkDocStore (mem_empty : DB (Badger := mem_badger)) ∅))))
    Accepting Waiting true.

Lemma sample_parsed : Parse default_flags sample_args = inl sample_flags.
Proof. by vm_compute. Qed.

Lemma sample_serves : mem_main sample_surroundings ∅ sample_args = Serving sample_process.
Proof. unfold main. rewrite sample_parsed. reflexivity. Qed.

(** The sample process with a key and a published message. *)
Definition published : Stream (bdg := mem_badger) :=
  (Publish 1000 0 (StreamService.New (bdg := mem_badger) mem_empty) (str "events") 0 (str "k") (str "v")).1.
Definition busy_process : Process (bdg := mem_badger) :=
  let s := server (system sample_process) in
  on_stores sample_process
    (set_stream (set_store s (KV.Set_ (store s) (str "a") (str "1") 0).1) published).

Lemma sample_alive : alive sample_process.
Proof.
  exact (started_alive sample_surroundings ∅ sample_args sample_process sample_serves).
Qed.

Lemma busy_alive : alive busy_process.
Proof.
  apply (alive_stores sample_process); [exact sample_alive|]. split; by vm_compute.
Qed.

Lemma process_lifecycle_witness : alive (signalled sample_process).
Proof.
  refine (process_lifecycle (bdg := mem_badger) sample_surroundings ∅ sample_args
    (Serving (signalled sample_process)) _).
  rewrite sample_serves. apply (signalled_run sample_process); [done|by right].
Defined.

Lemma signalled_alive p : alive (bdg := mem_badger) p -> signal_at p = Waiting ->
  jobQueue (server (system p)) = [] -> alive (signalled p).
Proof.
  intros Hal Hs Hj. pose proof (process_alive p _ Hal (Signal p Hs)) as H1.
  set (p1 := set_signal _ _ _) in H1.
  exact (process_alive p1 _ H1 (Shutdown p1 _ (Drained p1 eq_refl (or_intror Hj)))).
Qed.

Lemma shutdown_ends_witness :
  (1 <= 7)%nat /\ ((exists d, Ended (files (signalled busy_process)) 0 = Ended d 0) \/
    exists o, shut (Ended (files (signalled busy_process)) 0) o).
Proof.
  refine (shutdown_ends (bdg := mem_badger) (signalled busy_process) 1 _ _ _ _).
  - by apply signalled_alive; [apply busy_alive|..].
  - split; [done|]. by right; right.
  - apply nsteps_once. exists (signalled busy_process). split; [done|by apply Exits].
Defined.

(** An hour later. *)
Lemma restart_after_shutdown_witness :
  exists p', mem_main sample_surroundings (Elapse (3600 * second) <$> files (signalled busy_process)) sample_args = Serving p' /\
    let s := server (system (signalled busy_process)) in
    let s' := server (system p') in
    (KV.closed (store s') = false /\ later (3600 * second) (KV.sdb (store s)) (KV.sdb (store s'))) /\
    later (3600 * second) (queue s) (queue s') /\
    (exists ds ds', docs s = Some ds /\ docs s' = Some ds' /\
       later (3600 * second) (DocStore.storage ds) (DocStore.storage ds') /\ indexes_empty ds') /\
    (exists db1 st', files (signalled busy_process) !! stream_dir sample_flags = Some db1 /\ stream s' = Some st' /\
       later (3600 * second) db1 (StreamStorage.db (StreamService.storage st')) /\
       (contents db1 = contents (StreamStorage.db (StreamService.storage published)) \/
        exists order, valid_order order /\ contents db1 = flushed_entries order published)).
Proof.
  refine (restart_after_shutdown (bdg := mem_badger) (signalled busy_process) _ 0 sample_surroundings
    sample_args published (3600 * second) _ _ _ _ _ _ _ _ _).
  - by apply signalled_alive; [apply busy_alive|..].
  - done.
  - done.
  - done.
  - apply rtc_once. exists (signalled busy_process). split; [done|by apply Exits].
  - by vm_compute.
  - done.
  - done.
  - intros ds [= <-]. left. by vm_compute.
Defined.

Definition published_key : bytes := makeMessageKey (str "events") 0 0.

Lemma exit_races_with_the_flush_witness :
  flushed_entries map_to_list published !! published_key <> None /\
  exists d1 d2 db1 db2 order,
    rtc run_step (Serving busy_process) (Ended d1 0) /\ d1 !! stream_dir sample_flags = Some db1 /\
    contents db1 = contents (StreamStorage.db (StreamService.storage published)) /\
    rtc run_step (Serving busy_process) (Ended d2 0) /\ d2 !! stream_dir sample_flags = Some db2 /\
    valid_order order /\ contents db2 = flushed_entries order published.
Proof.
  split; [by vm_compute|].
  apply (exit_races_with_the_flush (bdg := mem_badger) busy_process published);
    [exact busy_alive|done|by right|done].
Defined.
