(* ===== verification/NetConn.v ===== *)
(** Programs that change a state, may fail or panic, and may never return: a
    small monad for the client, which threads its network and its pool through
    every call, with a calculus of weakest preconditions.  Then a client's TCP
    connection (internal/net/connection.go): buffered reads and writes over a
    network that is not part of the repository. *)
From stdpp Require Import base list numbers strings.
From Stdlib Require Import ZArith Lia.
From S2P Require Import Prelude GoBytes Fields.

(** ** Programs

    [None]: the call never returns. *)
Definition prog (S A : Type) : Type := S -> option (S * result A).

#[export] Instance prog_ret {S} : MRet (prog S) := fun A a s => Some (s, Ok a).
#[export] Instance prog_bind {S} : MBind (prog S) := fun A B f m s =>
  match m s with
  | Some (s', Ok a) => f a s'
  | Some (s', Err e) => Some (s', Err e)
  | Some (s', Panic) => Some (s', Panic)
  | None => None
  end.

Section Primitives.
Context {S : Type}.

(** The outcome of a function that changes nothing. *)
Definition lift {A} (r : result A) : prog S A := fun s => Some (s, r).
Definition throw {A} (e : error) : prog S A := lift (Err e).
Definition panic {A} : prog S A := lift Panic.
(** A receive that nothing will satisfy. *)
Definition block {A} : prog S A := fun _ => None.
Definition gets {A} (f : S -> A) : prog S A := fun s => Some (s, Ok (f s)).
Definition modify (f : S -> S) : prog S unit := fun s => Some (f s, Ok tt).

(** [x, err := m; ..], the error in the program's hands. *)
Definition try {A} (m : prog S A) : prog S (result A) := fun s =>
  match m s with
  | Some (s', Panic) => Some (s', Panic)
  | Some (s', r) => Some (s', Ok r)
  | None => None
  end.

(** [defer d()] in front of [m]: [d] runs however [m] ends. *)
Definition finally {A} (m : prog S A) (d : prog S unit) : prog S A := fun s =>
  match m s with
  | Some (s', r) =>
      match d s' with
      | Some (s'', Panic) => Some (s'', Panic)
      | Some (s'', _) => Some (s'', r)
      | None => None
      end
  | None => None
  end.

(** [fmt.Errorf("..: %w", err)] around an error. *)
Definition wrapping {A} (msg : string) (r : result A) : result A :=
  match r with Err e => Err (Errorf (str msg ++ error_text e)) | _ => r end.
End Primitives.
Arguments wrapping {A} msg%_string r.

(** ** Weakest preconditions

    [wp m Q s]: the call returns, and its outcome satisfies [Q]. *)
Definition wp {S A} (m : prog S A) (Q : S -> result A -> Prop) (s : S) : Prop :=
  match m s with Some (s', r) => Q s' r | None => False end.

Section Wp.
Context {S A B : Type}.
Implicit Types (s : S).

Lemma wp_intro (m : prog S A) Q s s' r : m s = Some (s', r) -> Q s' r -> wp m Q s.
Proof. unfold wp. by intros ->. Qed.

Lemma wp_run (m : prog S A) Q s : wp m Q s -> exists s' r, m s = Some (s', r) /\ Q s' r.
Proof. unfold wp. destruct (m s) as [[s' r]|]; [|done]. eauto. Qed.

Lemma prog_wp_mono (m : prog S A) (P Q : S -> result A -> Prop) s :
  wp m P s -> (forall s' r, P s' r -> Q s' r) -> wp m Q s.
Proof. unfold wp. destruct (m s) as [[s' r]|]; [|done]. auto. Qed.

Lemma prog_bind_wp (m : prog S A) (f : A -> prog S B) Q s :
  wp m (fun s' r =>
    match r with Ok a => wp (f a) Q s' | Err e => Q s' (Err e) | Panic => Q s' Panic end) s ->
  wp (m ≫= f) Q s.
Proof. unfold wp, mbind, prog_bind. by destruct (m s) as [[s' []]|]. Qed.

Lemma wp_finally (m : prog S A) (d : prog S unit) Q s :
  wp m (fun s' r => wp d (fun s'' x => Q s'' (match x with Panic => Panic | _ => r end)) s') s ->
  wp (finally m d) Q s.
Proof.
  unfold wp, finally. destruct (m s) as [[s' r]|]; [|done].
  by destruct (d s') as [[s'' []]|].
Qed.

Lemma bind_run (m : prog S A) (f : A -> prog S B) s s' a :
  m s = Some (s', Ok a) -> (m ≫= f) s = f a s'.
Proof. intros H. unfold mbind, prog_bind. by rewrite H. Qed.

Lemma bind_err (m : prog S A) (f : A -> prog S B) s s' e :
  m s = Some (s', Err e) -> (m ≫= f) s = Some (s', Err e).
Proof. intros H. unfold mbind, prog_bind. by rewrite H. Qed.

Lemma finally_run (m : prog S A) (d : prog S unit) s s' s'' r :
  m s = Some (s', r) -> d s' = Some (s'', Ok tt) -> finally m d s = Some (s'', r).
Proof. intros H Hd. unfold finally. by rewrite H, Hd. Qed.
End Wp.

(** ** The network

    The sockets of package net, by number.  [net_recv] is one [Read]: at least a
    byte, or an error (the end of the stream, an expired deadline); [net_send] one
    [Write] of all the bytes.  A deadline is the time allowed from the call on.
    None as an outcome: the call waits for the peer for ever. *)
Class Network (N : Type) : Type := {
  net_dial : N -> Z -> option Z -> bytes -> option (N * option error);
  net_send : N -> Z -> option Z -> bytes -> option (N * option error);
  net_recv : N -> Z -> option Z -> option (N * (byte * bytes + error));
  net_hang_up : N -> Z -> N * option error;
}.

(** Package net keeps deadlines: a call that has one returns.  Nothing is said
    of calls without. *)
Class Deadlines (N : Type) {network : Network N} : Prop := {
  dial_returns (net : N) id d addr : net_dial net id (Some d) addr <> None;
  send_returns (net : N) id d data : net_send net id (Some d) data <> None;
  recv_returns (net : N) id d : net_recv net id (Some d) <> None;
}.

(** The sentinel errors of package io. *)
Definition EOF : error := Sentinel "io.EOF" (str "EOF").
Definition ErrUnexpectedEOF : error := Sentinel "io.ErrUnexpectedEOF" (str "unexpected EOF").

(** ** Connections *)

(** [unread] is what the buffered reader holds, [write_error] the error that its
    writer keeps.  The writer holds no bytes between calls but those a failed
    write left, which are never sent. *)
Record Connection : Type := mkConnection {
  conn : Z;
  unread : bytes;
  write_error : option error;
  readTimeout : Z;
  writeTimeout : Z;
  closed : bool;
}.

Record ConnectionOptions : Type := mkConnectionOptions {
  Address : bytes;
  DialTimeout : Z;
  ReadTimeout : Z;
  WriteTimeout : Z;
  BufferSize : Z;
}.

(** Durations are in nanoseconds. *)
Definition Second : Z := 1000000000.

Definition DefaultConnectionOptions (address : bytes) : ConnectionOptions :=
  mkConnectionOptions address (5 * Second) (10 * Second) (10 * Second) 65536.

Definition set_unread (l : bytes) (c : Connection) : Connection :=
  mkConnection (conn c) l (write_error c) (readTimeout c) (writeTimeout c) (closed c).
Definition set_write_error (e : error) (c : Connection) : Connection :=
  mkConnection (conn c) (unread c) (Some e) (readTimeout c) (writeTimeout c) (closed c).
Definition set_closed (c : Connection) : Connection :=
  mkConnection (conn c) (unread c) (write_error c) (readTimeout c) (writeTimeout c) true.

Definition errConnClosed : error := errorf "connection closed".

(** [if timeout > 0 { conn.SetDeadline(time.Now().Add(timeout)) }] *)
Definition deadline (timeout : Z) : option Z := if 0 <? timeout then Some timeout else None.

(** [net.DialTimeout]: a timeout of zero is none. *)
Definition dial_limit (timeout : Z) : option Z := if timeout =? 0 then None else Some timeout.

Section Connection.
Context {N : Type} {network : Network N}.
Implicit Types (net : N) (c : Connection).

(** [NewConnection] of the socket number [id]. *)
Definition NewConnection (opts : option ConnectionOptions) (id : Z) : prog N Connection := fun net =>
  match opts with
  | None => Some (net, Err (errorf "options cannot be nil"))
  | Some opts =>
      match net_dial net id (dial_limit (DialTimeout opts)) (Address opts) with
      | None => None
      | Some (net, Some err) =>
          Some (net, Err (Errorf (str "failed to connect to " ++ Address opts ++ str ": " ++ error_text err)))
      | Some (net, None) =>
          Some (net, Ok (mkConnection id [] None (ReadTimeout opts) (WriteTimeout opts) false))
      end
  end.

Definition Write (data : bytes) : prog (N * Connection) unit := fun '(net, c) =>
  if closed c then Some ((net, c), Err errConnClosed)
  else match write_error c with
  | Some err => Some ((net, c), Err err)
  | None =>
      match net_send net (conn c) (deadline (writeTimeout c)) data with
      | None => None
      | Some (net, None) => Some ((net, c), Ok tt)
      | Some (net, Some err) => Some ((net, set_write_error err c), Err err)
      end
  end.

(** [io.ReadFull]: what was read before an error is lost. *)
Definition cut_short (got : bytes) (err : error) : error :=
  if negb (len got =? 0) && is_sentinel err EOF then ErrUnexpectedEOF else err.

(** A turn asks the socket for more; one that returns gives at least a byte. *)
Fixpoint read_full (fuel : nat) (n : Z) : prog (N * Connection) bytes := fun '(net, c) =>
  if n <=? len (unread c)
  then Some ((net, set_unread (dropZ n (unread c)) c), Ok (takeZ n (unread c)))
  else match fuel with
  | O => None
  | S fuel =>
      match net_recv net (conn c) (deadline (readTimeout c)) with
      | None => None
      | Some (net, inl (b, chunk)) => read_full fuel n (net, set_unread (unread c ++ b :: chunk) c)
      | Some (net, inr err) => Some ((net, set_unread [] c), Err (cut_short (unread c) err))
      end
  end.

Definition Read (n : Z) : prog (N * Connection) bytes := fun '(net, c) =>
  if closed c then Some ((net, c), Err errConnClosed)
  else read_full (Z.to_nat n) n (net, c).

Definition ReadHeader : prog (N * Connection) (byte * Z) :=
  header ← Read 5;
  lift (status ← index header 0; l ← slice header 1 5; payloadLen ← Uint32 l 0;
        Ok (status, payloadLen)).

Definition Close : prog (N * Connection) unit := fun '(net, c) =>
  if closed c then Some ((net, c), Ok tt)
  else match net_hang_up net (conn c) with
  | (net, None) => Some ((net, set_closed c), Ok tt)
  | (net, Some err) => Some ((net, set_closed c), Err err)
  end.

Definition IsConnected : prog (N * Connection) bool := gets (fun x => negb (closed x.2)).
End Connection.
