(* ===== verification/ClientPool.v ===== *)
(** The client and its pool of connections, as one caller uses them
    (internal/net/pool.go, clients/go/client.go): the calls of Pool.v run to
    their end, on connections over a network. *)
From stdpp Require Import base list numbers gmap strings.
From Stdlib Require Import ZArith Lia.
From S2P Require Import Prelude NetConn Pool.

(** The list without its first [x]. *)
Fixpoint remove_one (x : Z) (l : list Z) : list Z :=
  match l with
  | [] => []
  | y :: l => if decide (y = x) then l else y :: remove_one x l
  end.

Module PoolOptions.
Record PoolOptions : Type := mkPoolOptions {
  Address : bytes;
  MinSize : Z;
  MaxSize : Z;
  DialTimeout : Z;
  ReadTimeout : Z;
  WriteTimeout : Z;
  MaxIdleTime : Z;
  BufferSize : Z;
}.

Definition DefaultPoolOptions (address : bytes) : PoolOptions :=
  mkPoolOptions address 64 256 (5 * Second) (10 * Second) (10 * Second) (300 * Second) 65536.

(** The options of the pool's connections. *)
Definition connection_options (o : PoolOptions) : ConnectionOptions :=
  mkConnectionOptions (Address o) (DialTimeout o) (ReadTimeout o) (WriteTimeout o) (BufferSize o).
End PoolOptions.
Import PoolOptions (PoolOptions, mkPoolOptions).

Module ClientOptions.
Record ClientOptions : Type := mkClientOptions {
  Address : bytes;
  MinConnections : Z;
  MaxConnections : Z;
  DialTimeout : Z;
  ReadTimeout : Z;
  WriteTimeout : Z;
}.

Definition DefaultOptions (address : bytes) : ClientOptions :=
  mkClientOptions address 16 256 (5 * Second) (30 * Second) (30 * Second).

Definition pool_options (o : ClientOptions) : PoolOptions :=
  mkPoolOptions (Address o) (MinConnections o) (MaxConnections o) (DialTimeout o) (ReadTimeout o)
    (WriteTimeout o) (300 * Second) 65536.
End ClientOptions.
Import ClientOptions (ClientOptions).

Section Client.
Context {N : Type} {network : Network N}.

(** ** State

    The network, what the calls of the pool share, and the connections by
    number. *)
Record Client : Type := mkClient {
  net : N;
  shared : Shared;
  sockets : gmap Z Connection;
  opts : ConnectionOptions;
  maxSize : Z;
}.
Implicit Types (cl : Client).

Definition set_shared cl (s : Shared) : Client :=
  mkClient (net cl) s (sockets cl) (opts cl) (maxSize cl).
Definition set_socket cl (n : N) (id : Z) (c : Connection) : Client :=
  mkClient n (shared cl) (<[id := c]> (sockets cl)) (opts cl) (maxSize cl).
Definition set_net cl (n : N) : Client :=
  mkClient n (shared cl) (sockets cl) (opts cl) (maxSize cl).

Definition update (f : Shared -> Shared) : prog Client unit :=
  modify (fun cl => set_shared cl (f (shared cl))).

(** A method of the connection number [id]. *)
Definition method {A} (id : Z) (m : prog (N * Connection) A) : prog Client A := fun cl =>
  match sockets cl !! id with
  | None => Some (cl, Panic)
  | Some c =>
      match m (net cl, c) with
      | Some ((n, c), r) => Some (set_socket cl n id c, r)
      | None => None
      end
  end.

(** [conn.Close()] in the pool, its error ignored. *)
Definition close_conn (id : Z) : prog Client unit :=
  _ ← try (method id Close); update (add_dead id).

(** ** Get *)

(** [NewConnection(p.opts)]: the next number. *)
Definition dial_next : prog Client Z := fun cl =>
  let id := next (shared cl) in
  match NewConnection (Some (opts cl)) id (net cl) with
  | Some (n, Ok c) => Some (set_socket (set_shared cl (set_next (id + 1) (shared cl))) n id c, Ok id)
  | Some (n, Err e) => Some (set_net cl n, Err e)
  | Some (n, Panic) => Some (set_net cl n, Panic)
  | None => None
  end.

(** [<-p.conns]: nil from a closed channel; an open empty one blocks. *)
Definition receive_conn : prog Client (option Z) := fun cl =>
  match conns (shared cl) with
  | c :: rest => Some (set_shared cl (set_conns rest (shared cl)), Ok (Some c))
  | [] => if chan_open (shared cl) then None else Some (cl, Ok None)
  end.

(** The connection is the caller's. *)
Definition hold (id : Z) : prog Client Z :=
  _ ← update (fun s => set_held (id :: held s) s); mret id.

(** A connection received: [dead] goes on when it is closed. *)
Definition checked (c : option Z) (dead : prog Client Z) : prog Client Z :=
  match c with
  | None => panic
  | Some id =>
      alive ← method id IsConnected;
      if (alive : bool) then hold id else _ ← update (add_active (-1)); dead
  end.

(** Each turn that waits takes a connection out of the channel. *)
Fixpoint createNewOrWait (fuel : nat) : prog Client Z :=
  match fuel with
  | O => block
  | S fuel => fun cl =>
      (if pool_closed (shared cl) then throw errPoolClosed
       else if activeCount (shared cl) <? maxSize cl then
         _ ← update (add_active 1);
         r ← try dial_next;
         match r with
         | Ok id => hold id
         | Err e => _ ← update (add_active (-1)); throw e
         | Panic => panic
         end
       else c ← receive_conn; checked c (createNewOrWait fuel)) cl
  end.

Definition Get : prog Client Z := fun cl =>
  let fuel := S (length (conns (shared cl))) in
  (if bool_decide (conns (shared cl) = []) && chan_open (shared cl) then createNewOrWait fuel
   else c ← receive_conn; checked c (createNewOrWait fuel)) cl.

(** ** Put *)

Definition release (id : Z) : prog Client unit :=
  update (fun s => set_held (remove_one id (held s)) s).

(** The select: a send on a closed channel panics, the default branch closes
    the connection. *)
Definition put_send (id : Z) : prog Client unit := fun cl =>
  (if negb (chan_open (shared cl)) then panic
   else if len (conns (shared cl)) <? maxSize cl
   then update (fun s => set_conns (conns s ++ [id]) s)
   else _ ← close_conn id; update (add_active (-1))) cl.

Definition Put (conn : option Z) : prog Client unit :=
  match conn with
  | None => mret tt
  | Some id =>
      _ ← release id;
      alive ← method id IsConnected;
      if (alive : bool) then put_send id else update (add_active (-1))
  end.

(** ** Close *)

(** [for conn := range p.conns { conn.Close() }] of a closed channel. *)
Fixpoint drain (fuel : nat) : prog Client unit := fun cl =>
  match conns (shared cl), fuel with
  | [], _ => Some (cl, Ok tt)
  | id :: rest, S fuel =>
      (_ ← update (set_conns rest); _ ← close_conn id; _ ← update add_drained; drain fuel) cl
  | _, O => None
  end.

Definition ClosePool : prog Client unit := fun cl =>
  (if pool_closed (shared cl) then mret tt
   else
     _ ← update (set_pool_closed true);
     _ ← (if chan_open (shared cl) then update (set_chan_open false) else panic);
     drain (length (conns (shared cl)))) cl.

(** ** Construction *)

(** The loop that dials the initial connections. *)
Fixpoint dial_pool (n : nat) : prog Client unit :=
  match n with
  | O => mret tt
  | S n =>
      r ← try dial_next;
      match r with
      | Ok id =>
          _ ← update (fun s => set_conns (conns s ++ [id]) s);
          _ ← update (add_active 1);
          dial_pool n
      | Err e =>
          _ ← ClosePool;
          throw (Errorf (str "failed to create initial connection: " ++ error_text e))
      | Panic => panic
      end
  end.

Definition new_shared : Shared := mkShared [] true false 0 [] [] 0 0.

Definition NewConnectionPool (opts : option PoolOptions) : prog N Client := fun n =>
  match opts with
  | None => Some (n, Err (errorf "options cannot be nil"))
  | Some opts =>
      if (PoolOptions.MinSize opts <? 0) || (PoolOptions.MaxSize opts <? PoolOptions.MinSize opts)
      then Some (n, Err (errorf "invalid pool size configuration"))
      else
        let cl := mkClient n new_shared ∅ (PoolOptions.connection_options opts)
                    (PoolOptions.MaxSize opts) in
        match dial_pool (Z.to_nat (PoolOptions.MinSize opts)) cl with
        | Some (cl, Ok _) => Some (net cl, Ok cl)
        | Some (cl, Err e) => Some (net cl, Err e)
        | Some (cl, Panic) => Some (net cl, Panic)
        | None => None
        end
  end.

Definition NewClient (opts : option ClientOptions) : prog N Client :=
  match opts with
  | None => throw (errorf "options cannot be nil")
  | Some opts =>
      if bool_decide (ClientOptions.Address opts = []) then throw (errorf "address is required")
      else
        r ← try (NewConnectionPool (Some (ClientOptions.pool_options opts)));
        lift (wrapping "failed to create connection pool: " r)
  end.

(** ** Calls *)

(** [conn, err := pool.Get(); ..; defer pool.Put(conn); ..] *)
Definition with_conn {A} (body : Z -> prog Client A) : prog Client A :=
  id ← Get; finally (body id) (Put (Some id)).

Definition Close_ : prog Client unit := ClosePool.

Definition Ping : prog Client unit := with_conn (fun _ => mret tt).
End Client.
Arguments Client N : clear implicits.
