(* ===== verification/ClientCalls.v ===== *)
(** The calls of the Go client on the key-value store, the queue and the streams
    (clients/go: helpers.go, kv_client.go, queue_client.go, stream_client.go,
    client.go): a request written, a response read, on a connection of the pool. *)
From stdpp Require Import base list numbers gmap strings.
From Stdlib Require Import ZArith Lia.
From S2P Require Import Prelude GoBytes Fmt Protocol NetConn ClientPool.

Section Client.
Context {N : Type} {network : Network N}.
Abbreviation on_wire := (prog (N * Connection)).
Abbreviation on_client := (prog (Client N)).

(** ** Reading responses (helpers.go) *)

(** The error of a response that is not OK: its payload, if any. *)
Definition response_error {A} (payloadLen : Z) : on_wire A :=
  if 0 <? payloadLen then payload ← Read payloadLen; throw (Errorf payload)
  else throw (errorf "operation failed").

Definition readOKResponse : on_wire unit :=
  '(status, payloadLen) ← ReadHeader;
  if negb (status =? StatusOK) then response_error payloadLen
  else if 0 <? payloadLen then _ ← Read payloadLen; mret tt else mret tt.

Definition readValueResponse : on_wire bytes :=
  '(status, payloadLen) ← ReadHeader;
  if status =? StatusNotFound then throw (errorf "key not found")
  else if negb (status =? StatusOK) then response_error payloadLen
  else if payloadLen =? 0 then mret [] else Read payloadLen.

Definition invalid_multi : error := errorf "invalid multi-value response".

(** The loop over [count] values; [used] makes of each a result. *)
Definition parse_values {A} (err : error) (used : bytes -> result A) (payload : bytes)
    : result (list A) :=
  if len payload <? 2 then Err invalid_multi else
  hdr ← slice payload 0 2;
  count ← Uint16 hdr 0;
  st ← for_n (Z.to_nat count) 0 (2, []) (fun '(pos, values) i =>
    if len payload <? pos + 4 then Err err else
    valueLen ← Uint32 payload pos;
    let pos := pos + 4 in
    if len payload <? pos + valueLen then Err err else
    value ← slice payload pos (pos + valueLen);
    let pos := pos + valueLen in
    x ← used value;
    Ok (pos, values ++ [x]));
  Ok (snd st).

Definition readMultiValueResponse : on_wire (list bytes) :=
  '(status, payloadLen) ← ReadHeader;
  if negb (status =? StatusMultiValue) && negb (status =? StatusOK) then response_error payloadLen
  else if payloadLen =? 0 then mret []
  else payload ← Read payloadLen; lift (parse_values invalid_multi Ok payload).

(** [request := ..; if err := conn.Write(request); err != nil {..}; read(conn)] *)
Definition ask {A} (request : result bytes) (read : on_wire A) : on_wire A :=
  req ← lift request; _ ← Write req; read.

Definition call {A} (request : result bytes) (read : on_wire A) : on_client A :=
  with_conn (fun id => method id (ask request read)).

(** [if len(value) != 8 { .. }; int64(binary.BigEndian.Uint64(value))] *)
Definition eight_bytes (err : error) (value : bytes) : result Z :=
  if negb (len value =? 8) then Err err else v ← Uint64 value 0; Ok (int64 v).

Definition readCounter (err : error) : on_wire Z :=
  value ← readValueResponse; lift (eight_bytes err value).
End Client.
Abbreviation on_wire N := (prog (N * Connection)).
Abbreviation on_client N := (prog (Client N)).

(** ** Key-value calls (kv_client.go) *)

Module KVClient.
Section KVClient.
Context {N : Type} {network : Network N}.

Definition Set_ (key value : bytes) : on_client N unit :=
  call (EncodeSetRequest key value) readOKResponse.
Definition Get (key : bytes) : on_client N bytes :=
  call (EncodeGetRequest key) readValueResponse.
Definition Delete (key : bytes) : on_client N unit :=
  call (EncodeDeleteRequest key) readOKResponse.

(** A response that is not an OK with a payload means no, and is left as it is. *)
Definition readExists : on_wire N bool :=
  '(status, payloadLen) ← ReadHeader;
  if (status =? StatusOK) && (0 <? payloadLen)
  then payload ← Read payloadLen; lift (b ← index payload 0; Ok (b =? 1))
  else mret false.

Definition Exists (key : bytes) : on_client N bool := call (EncodeExistsRequest key) readExists.

Definition invalid_counter : error := errorf "invalid counter value".
Definition Incr (key : bytes) : on_client N Z :=
  call (EncodeIncrRequest key) (readCounter invalid_counter).
Definition Decr (key : bytes) : on_client N Z :=
  call (EncodeDecrRequest key) (readCounter invalid_counter).

Definition MSet (keys values : list bytes) : on_client N unit :=
  if negb (len keys =? len values) then throw (errorf "keys and values length mismatch")
  else call (EncodeMSetRequest keys values) readOKResponse.
Definition MGet (keys : list bytes) : on_client N (list bytes) :=
  call (EncodeMGetRequest keys) readMultiValueResponse.
Definition MDelete (keys : list bytes) : on_client N unit :=
  call (EncodeMDeleteRequest keys) readOKResponse.
End KVClient.
End KVClient.

(** ** Queue calls (queue_client.go) *)

Module QueueClient.
Section QueueClient.
Context {N : Type} {network : Network N}.

Definition Push (queue item : bytes) : on_client N unit :=
  call (EncodeQPushRequest queue item) readOKResponse.
Definition Pop (queue : bytes) : on_client N bytes :=
  call (EncodeQPopRequest queue) readValueResponse.
Definition Peek (queue : bytes) : on_client N bytes :=
  call (EncodeQPeekRequest queue) readValueResponse.
Definition invalid_length : error := errorf "invalid length value".
Definition Len (queue : bytes) : on_client N Z :=
  call (EncodeQLenRequest queue) (readCounter invalid_length).
Definition Clear (queue : bytes) : on_client N unit :=
  call (EncodeQClearRequest queue) readOKResponse.
End QueueClient.
End QueueClient.

(** ** Stream calls (stream_client.go) *)

Module StreamClient.
Record StreamMessage : Type := mkStreamMessage {
  ID : Z;
  Timestamp : Z;
  Key : bytes;
  Value : bytes;
  Partition : Z;
  Offset : Z;
}.

Definition invalid_message : error := errorf "invalid message data".

(** The number and the partition are not in the data: they stay zero. *)
Definition decodeStreamMessage (data : bytes) : result StreamMessage :=
  if len data <? 18 then Err invalid_message else
  let pos := 0 in
  offset ← Uint64 data pos;
  let pos := pos + 8 in
  timestamp ← Uint64 data pos;
  let pos := pos + 8 in
  keyLen ← Uint16 data pos;
  let pos := pos + 2 in
  if len data <? pos + keyLen + 4 then Err invalid_message else
  key ← slice data pos (pos + keyLen);
  let pos := pos + keyLen in
  valLen ← Uint32 data pos;
  let pos := pos + 4 in
  if len data <? pos + valLen then Err invalid_message else
  value ← slice data pos (pos + valLen);
  Ok (mkStreamMessage 0 (int64 timestamp) key value 0 offset).

Section StreamClient.
Context {N : Type} {network : Network N}.

Definition CreateTopic (topic : bytes) (partitions retentionMs : Z) : on_client N unit :=
  call (EncodeSCreateTopicRequest topic partitions retentionMs) readOKResponse.
Definition Publish (topic : bytes) (partition : Z) (key value : bytes) : on_client N unit :=
  call (EncodeSPublishRequest topic partition key value) readOKResponse.
Definition Subscribe (topic group consumer : bytes) : on_client N unit :=
  call (EncodeSSubscribeRequest topic group consumer) readOKResponse.

(** The payload of an error is not read; that of an OK is read and dropped. *)
Definition readMessages : on_wire N (list StreamMessage) :=
  '(status, payloadLen) ← ReadHeader;
  if negb (status =? StatusOK) && negb (status =? StatusMultiValue)
  then throw (Errorf (str "server error: status " ++ fmt_d status))
  else
    payload ← Read payloadLen;
    if status =? StatusMultiValue
    then lift (parse_values (errorf "invalid response") decodeStreamMessage payload)
    else mret [].

Definition Consume (topic group consumer : bytes) (count : Z) : on_client N (list StreamMessage) :=
  call (EncodeSConsumeRequest topic group consumer count) readMessages.
Definition Commit (topic group : bytes) (partition offset : Z) : on_client N unit :=
  call (EncodeSCommitRequest topic group partition offset) readOKResponse.
Definition Unsubscribe (topic group consumer : bytes) : on_client N unit :=
  call (EncodeSUnsubscribeRequest topic group consumer) readOKResponse.

(** [Client.Publish] and [Client.PublishBatch] of client.go. *)
Definition ClientPublish (topic : bytes) (partition : Z) (key value : bytes) : on_client N unit :=
  Publish topic partition key value.
Definition PublishBatch (topic : bytes) (messages : list BatchMessage) : on_client N unit :=
  call (EncodeSPublishBatchRequest topic messages) readOKResponse.
End StreamClient.
End StreamClient.
