(* ===== verification/ClientReads.v ===== *)
(** What the client relies on in the network and the server behind it, and what
    each of its readers makes of a response: its outcome as a function of the
    status and the payload, and the bytes it leaves unread. *)
From stdpp Require Import base list numbers gmap strings.
From Stdlib Require Import ZArith Lia.
From S2P Require Import Prelude GoBytes Fields Fmt Protocol ProtocolSpec NetConn ClientPool ClientCalls.

(** ** A service behind the network

    [view] is the state that requests change, [pending] the bytes that will arrive
    on a socket, [fresh] says of a number that it can be dialled.  [served v req Q]: in the state [v] the request is answered by one
    frame, and the next state, its status and its payload satisfy [Q]. *)
Class Service (N V : Type) : Type := {
  view : N -> V;
  pending : N -> Z -> bytes;
  connected : N -> Z -> Prop;
  fresh : N -> Z -> Prop;
  served : V -> bytes -> (V -> byte -> bytes -> Prop) -> Prop;
}.

(** Nothing changes but the socket number [id]. *)
Record only_socket {N V} `{Service N V} (id : Z) (net net' : N) : Prop := {
  only_pending i : i <> id -> pending net' i = pending net i;
  only_connected i : i <> id -> connected net' i <-> connected net i;
  only_fresh i : i <> id -> fresh net i -> fresh net' i;
}.

(** A network that loses nothing, in front of a server that answers: the bytes
    of [pending] arrive in chunks of any size, then nothing does, and a read that
    has a deadline fails. *)
Class ServiceLaws (N V : Type) {network : Network N} {service : Service N V} : Prop := {
  dial_law net id d addr : fresh net id -> exists net',
    net_dial net id d addr = Some (net', None) /\ view net' = view net /\ pending net' id = [] /\
    connected net' id /\ only_socket id net net';
  send_law net id d req Q : connected net id -> served (view net) req Q -> exists net' st p,
    net_send net id d req = Some (net', None) /\ Q (view net') st p /\ u32 (len p) /\
    pending net' id = pending net id ++ frame st p /\ connected net' id /\ only_socket id net net';
  recv_law net id d : connected net id -> pending net id <> [] -> exists net' b chunk,
    net_recv net id d = Some (net', inl (b, chunk)) /\ view net' = view net /\
    b :: chunk ++ pending net' id = pending net id /\ connected net' id /\ only_socket id net net';
  recv_nothing net id d : connected net id -> pending net id = [] -> exists net' e,
    net_recv net id (Some d) = Some (net', inr e) /\ view net' = view net /\ pending net' id = [] /\
    connected net' id /\ only_socket id net net';
}.

Section Reads.
Context {N V : Type} {network : Network N} {service : Service N V} {laws : ServiceLaws N V}.
Implicit Types (net : N) (c : Connection).

Lemma only_socket_refl id net : only_socket id net net.
Proof. by split. Qed.

Lemma only_socket_trans id net1 net2 net3 :
  only_socket id net1 net2 -> only_socket id net2 net3 -> only_socket id net1 net3.
Proof.
  intros [P1 C1 F1] [P2 C2 F2]. split; intros i Hi.
  - by rewrite P2, P1.
  - by rewrite C2, C1.
  - auto.
Qed.

(** ** Reading

    What is still to be read from a connection. *)
Definition incoming net c : bytes := unread c ++ pending net (conn c).

(** A connection that a call can use, with [s] still to be read. *)
Record usable (s : bytes) net c : Prop := {
  usable_open : closed c = false;
  usable_write : write_error c = None;
  usable_connected : connected net (conn c);
  usable_incoming : incoming net c = s;
}.

(** From one state of a connection to another by reading, up to [s]. *)
Record read_to (s : bytes) (x y : N * Connection) : Prop := {
  read_usable : usable s y.1 y.2;
  read_conn : conn y.2 = conn x.2;
  read_timeout : readTimeout y.2 = readTimeout x.2;
  read_view : view y.1 = view x.1;
  read_only : only_socket (conn x.2) x.1 y.1;
}.

Lemma read_to_refl s net c : usable s net c -> read_to s (net, c) (net, c).
Proof. intros H. split; [done..|]. apply only_socket_refl. Qed.

Lemma read_to_trans s t x y z : read_to s x y -> read_to t y z -> read_to t x z.
Proof.
  intros [_ C1 T1 V1 O1] [U2 C2 T2 V2 O2]. split; [done|congruence..|].
  rewrite C1 in O2. by eapply only_socket_trans.
Qed.

(** A chunk received. *)
Lemma recv_step s net c b chunk net' :
  usable s net c -> net_recv net (conn c) (deadline (readTimeout c)) = Some (net', inl (b, chunk)) ->
  pending net (conn c) <> [] ->
  read_to s (net, c) (net', set_unread (unread c ++ b :: chunk) c).
Proof.
  intros [Ho Hw Hc Hs] E Hp.
  destruct (recv_law net (conn c) (deadline (readTimeout c)) Hc Hp)
    as (net'' & b' & chunk' & E' & Hv & Hp' & Hc' & Ho').
  rewrite E in E'. injection E' as <- <- <-. split; [split|..]; try done.
  rewrite <- Hs. unfold incoming. cbn [set_unread unread conn fst snd]. by rewrite <- app_assoc, <- Hp'.
Qed.

(** What is buffered is taken at once. *)
Lemma read_full_buffered fuel n s net c :
  usable s net c -> 0 <= n <= len (unread c) ->
  wp (read_full fuel n) (fun y r => r = Ok (takeZ n s) /\ read_to (dropZ n s) (net, c) y) (net, c).
Proof.
  intros [Ho Hw Hc <-] Hn.
  assert (E : read_full fuel n (net, c)
    = Some ((net, set_unread (dropZ n (unread c)) c), Ok (takeZ n (unread c)))).
  { destruct fuel; cbn [read_full]; by rewrite (proj2 (Z.leb_le n _)) by lia. }
  eapply wp_intro; [exact E|]. unfold incoming. split; [by rewrite takeZ_app_le by lia|].
  split; [split|..]; try done.
  unfold incoming, dropZ. cbn [set_unread unread conn fst snd].
  by rewrite drop_app_le by (unfold len in *; lia).
Qed.

Lemma read_full_ok fuel n s net c :
  usable s net c -> 0 <= n <= len s -> n - len (unread c) <= Z.of_nat fuel ->
  wp (read_full fuel n) (fun y r => r = Ok (takeZ n s) /\ read_to (dropZ n s) (net, c) y) (net, c).
Proof.
  revert net c. induction fuel as [|fuel IH]; intros net c Hu Hn Hf;
    (destruct (Z.le_gt_cases n (len (unread c))) as [Hl|Hl];
     [apply read_full_buffered; [done|lia]|]); [lia|].
  assert (Hp : pending net (conn c) <> []).
  { destruct Hu as [_ _ _ <-]. unfold incoming in Hn. intros E. rewrite E, app_nil_r in Hn. lia. }
  destruct (recv_law net (conn c) (deadline (readTimeout c)) (usable_connected _ _ _ Hu) Hp)
    as (net' & b & chunk & E & _).
  pose proof (recv_step s net c b chunk net' Hu E Hp) as Hr.
  unfold wp. cbn [read_full]. rewrite (proj2 (Z.leb_gt n _)), E by lia.
  eapply prog_wp_mono; [apply IH|].
  - by apply Hr.
  - done.
  - cbn [set_unread unread]. len_lia.
  - intros y r [-> Hy]. split; [done|]. by eapply read_to_trans.
Qed.

Lemma Read_ok n s net c :
  usable s net c -> 0 <= n <= len s ->
  wp (Read n) (fun y r => r = Ok (takeZ n s) /\ read_to (dropZ n s) (net, c) y) (net, c).
Proof.
  intros Hu Hn. unfold Read. unfold wp at 1. rewrite (usable_open _ _ _ Hu).
  apply (read_full_ok (Z.to_nat n) n s net c Hu Hn). pose proof (len_nonneg (unread c)). lia.
Qed.

(** What is missing never arrives: what there is is lost. *)
Lemma read_full_short fuel n s net c :
  usable s net c -> 0 < readTimeout c -> len s < n -> n - len (unread c) <= Z.of_nat fuel ->
  wp (read_full fuel n) (fun y r => (exists e, r = Err e) /\ read_to [] (net, c) y) (net, c).
Proof.
  revert net c. induction fuel as [|fuel IH]; intros net c Hu Ht Hn Hf;
    assert (Hl : len (unread c) < n)
      by (destruct Hu as [_ _ _ <-]; unfold incoming in Hn; len_lia); [lia|].
  unfold wp. cbn [read_full]. rewrite (proj2 (Z.leb_gt n _)) by lia.
  destruct (decide (pending net (conn c) = [])) as [Hp|Hp].
  - destruct (recv_nothing net (conn c) (readTimeout c) (usable_connected _ _ _ Hu) Hp)
      as (net' & e & E & Hv & Hp' & Hc' & Ho').
    unfold deadline. rewrite (proj2 (Z.ltb_lt _ _) Ht), E. split; [by eexists|]. destruct Hu as [Ho Hw Hc Hs].
    split; [split|..]; try done.
  - destruct (recv_law net (conn c) (deadline (readTimeout c)) (usable_connected _ _ _ Hu) Hp)
      as (net' & b & chunk & E & _).
    rewrite E. pose proof (recv_step s net c b chunk net' Hu E Hp) as Hr.
    eapply prog_wp_mono; [apply IH|].
    + by apply Hr.
    + done.
    + done.
    + cbn [set_unread unread]. len_lia.
    + intros y r [He Hy]. split; [done|]. by eapply read_to_trans.
Qed.

Lemma Read_short n s net c :
  usable s net c -> 0 < readTimeout c -> len s < n ->
  wp (Read n) (fun y r => (exists e, r = Err e) /\ read_to [] (net, c) y) (net, c).
Proof.
  intros Hu Ht Hn. unfold Read. unfold wp at 1. rewrite (usable_open _ _ _ Hu).
  apply (read_full_short (Z.to_nat n) n s net c Hu Ht Hn). pose proof (len_nonneg (unread c)).
  pose proof (len_nonneg s). lia.
Qed.
End Reads.

(** ** Outcomes *)

Definition error_answer (p : bytes) : error :=
  if 0 <? len p then Errorf p else errorf "operation failed".

Definition ok_answer (st : byte) (p : bytes) : result unit :=
  if st =? StatusOK then Ok tt else Err (error_answer p).

Definition value_answer (st : byte) (p : bytes) : result bytes :=
  if st =? StatusNotFound then Err (errorf "key not found")
  else if st =? StatusOK then Ok p else Err (error_answer p).

Definition multi_answer (st : byte) (p : bytes) : result (list bytes) :=
  if (st =? StatusMultiValue) || (st =? StatusOK)
  then if len p =? 0 then Ok [] else parse_values invalid_multi Ok p
  else Err (error_answer p).

Definition exists_answer (st : byte) (p : bytes) : result bool :=
  if (st =? StatusOK) && (0 <? len p) then b ← index p 0; Ok (b =? 1) else Ok false.

Definition counter_answer (err : error) (st : byte) (p : bytes) : result Z :=
  v ← value_answer st p; eight_bytes err v.

Definition messages_answer (st : byte) (p : bytes) : result (list StreamClient.StreamMessage) :=
  if st =? StatusMultiValue then parse_values (errorf "invalid response") StreamClient.decodeStreamMessage p
  else if st =? StatusOK then Ok []
  else Err (Errorf (str "server error: status " ++ fmt_d st)).

(** What is left of the payload: nothing; that of a NotFound; that of what
    [Exists] takes for a no; that of an error to [Consume]. *)
Definition nothing_left (st : byte) (p : bytes) : bytes := [].
Definition value_left (st : byte) (p : bytes) : bytes :=
  if st =? StatusNotFound then p else [].
Definition exists_left (st : byte) (p : bytes) : bytes := if st =? StatusOK then [] else p.
Definition messages_left (st : byte) (p : bytes) : bytes :=
  if (st =? StatusOK) || (st =? StatusMultiValue) then [] else p.

Section Readers.
Context {N V : Type} {network : Network N} {service : Service N V} {laws : ServiceLaws N V}.
Implicit Types (net : N) (c : Connection).

(** ** Rules

    The program ends with [r], [s] still to be read. *)
Definition reads {A} (m : prog (N * Connection) A) (x : N * Connection) (r : result A) (s : bytes) : Prop :=
  wp m (fun y r' => r' = r /\ read_to s x y) x.

Lemma reads_lift {A} (r : result A) s net c : usable s net c -> reads (lift r) (net, c) r s.
Proof. intros H. eapply wp_intro; [done|]. split; [done|]. by apply read_to_refl. Qed.

Lemma reads_bind {A B} (m : prog (N * Connection) A) (f : A -> prog (N * Connection) B) net c a s r t :
  reads m (net, c) (Ok a) s ->
  (forall net' c', usable s net' c' -> reads (f a) (net', c') r t) ->
  reads (m ≫= f) (net, c) r t.
Proof.
  intros Hm Hf. apply prog_bind_wp. eapply prog_wp_mono; [exact Hm|]. intros [net' c'] x [-> Hy].
  eapply prog_wp_mono; [apply Hf, Hy|]. intros z x [-> Hz]. split; [done|]. by eapply read_to_trans.
Qed.

Lemma reads_Read n s net c :
  usable s net c -> 0 <= n <= len s -> reads (Read n) (net, c) (Ok (takeZ n s)) (dropZ n s).
Proof. apply Read_ok. Qed.

(** A payload in front. *)
Lemma reads_payload p rest net c :
  usable (p ++ rest) net c -> reads (Read (len p)) (net, c) (Ok p) rest.
Proof.
  intros H. pose proof (reads_Read (len p) _ net c H ltac:(len_lia)) as Hr.
  by rewrite takeZ_app_eq, dropZ_app_eq in Hr.
Qed.

(** A status and the length it announces. *)
Definition header_of (st : byte) (n : Z) (rest : bytes) : bytes := st :: be32 n ++ rest.

Lemma text_header st n rest net c :
  u32 n -> usable (header_of st n rest) net c -> reads ReadHeader (net, c) (Ok (st, n)) rest.
Proof.
  intros Hn Hu. unfold ReadHeader. change (header_of st n rest) with ((st :: be32 n) ++ rest) in Hu.
  eapply reads_bind.
  - replace 5 with (len (st :: be32 n)) by len_lia. by apply reads_payload.
  - intros net' c' H'.
    assert (E : (status ← index (st :: be32 n) 0; l ← slice (st :: be32 n) 1 5;
      payloadLen ← Uint32 l 0; Ok (status, payloadLen)) = Ok (st, n)).
    { change (index (st :: be32 n) 0) with (Ok st).
      change (slice (st :: be32 n) 1 5) with (Ok (be32 n)). cbn [mbind result_bind].
      rewrite (Uint32_read _ 0 n []); [done|done|done|]. by rewrite app_nil_r. }
    rewrite E. by apply reads_lift.
Qed.

Lemma reads_header st p rest net c :
  u32 (len p) -> usable (frame st p ++ rest) net c ->
  reads ReadHeader (net, c) (Ok (st, len p)) (p ++ rest).
Proof.
  intros Hp Hu. apply text_header; [done|].
  unfold frame in Hu. rewrite <- !app_assoc in Hu. exact Hu.
Qed.

(** ** Readers

    On a response in front of other bytes. *)
Definition reads_as {A} (m : prog (N * Connection) A) (f : byte -> bytes -> result A)
    (left : byte -> bytes -> bytes) : Prop :=
  forall st p rest net c, u32 (len p) -> usable (frame st p ++ rest) net c ->
    reads m (net, c) (f st p) (left st p ++ rest).

Lemma reads_after_header {A} (k : byte * Z -> prog (N * Connection) A) (f : byte -> bytes -> result A) left :
  (forall st p rest net c, usable (p ++ rest) net c ->
    reads (k (st, len p)) (net, c) (f st p) (left st p ++ rest)) ->
  reads_as (ReadHeader ≫= k) f left.
Proof.
  intros H st p rest net c Hp Hu. eapply reads_bind; [by apply reads_header|].
  intros net' c' H'. by apply H.
Qed.

Lemma reads_response_error {A} p rest net c :
  usable (p ++ rest) net c ->
  reads (@response_error N network A (len p)) (net, c) (Err (error_answer p)) rest.
Proof.
  intros H. unfold response_error, error_answer. destruct (Z.ltb_spec 0 (len p)) as [Hl|Hl].
  - eapply reads_bind; [by apply reads_payload|]. intros. by apply reads_lift.
  - apply reads_lift. rewrite (len_0_nil p) in H; [done|]. pose proof (len_nonneg p). lia.
Qed.

Lemma no_payload (p rest : bytes) net c : len p <= 0 -> usable (p ++ rest) net c -> usable rest net c.
Proof. intros Hl H. rewrite (len_0_nil p) in H; [done|]. pose proof (len_nonneg p). lia. Qed.

Lemma readOKResponse_reads : reads_as readOKResponse ok_answer nothing_left.
Proof.
  apply reads_after_header. intros st p rest net c Hu. cbn [app nothing_left].
  unfold ok_answer. destruct (st =? StatusOK); cbn [negb]; [|by apply reads_response_error].
  destruct (Z.ltb_spec 0 (len p)) as [Hl|Hl].
  - eapply reads_bind; [by apply reads_payload|]. intros. by apply reads_lift.
  - apply reads_lift. by eapply no_payload.
Qed.

Lemma readValueResponse_reads : reads_as readValueResponse value_answer value_left.
Proof.
  apply reads_after_header. intros st p rest net c Hu. unfold value_answer, value_left.
  destruct (st =? StatusNotFound); [by apply reads_lift|]. cbn [app].
  destruct (st =? StatusOK); cbn [negb]; [|by apply reads_response_error].
  destruct (Z.eqb_spec (len p) 0) as [Hl|Hl]; [|by apply reads_payload].
  rewrite (len_0_nil p Hl) in *. by apply reads_lift.
Qed.

Lemma readMultiValueResponse_reads : reads_as readMultiValueResponse multi_answer nothing_left.
Proof.
  apply reads_after_header. intros st p rest net c Hu. unfold multi_answer. cbn [app nothing_left].
  rewrite <- negb_orb. destruct (_ || _); cbn [negb]; [|by apply reads_response_error].
  destruct (Z.eqb_spec (len p) 0) as [Hl|Hl].
  - apply reads_lift. eapply no_payload; [|done]. lia.
  - eapply reads_bind; [by apply reads_payload|]. intros. by apply reads_lift.
Qed.

Lemma readExists_reads : reads_as KVClient.readExists exists_answer exists_left.
Proof.
  apply reads_after_header. intros st p rest net c Hu. unfold exists_answer, exists_left.
  destruct (st =? StatusOK); cbn [andb]; [|by apply reads_lift].
  destruct (Z.ltb_spec 0 (len p)) as [Hl|Hl].
  - eapply reads_bind; [by apply reads_payload|]. intros. by apply reads_lift.
  - apply reads_lift. by eapply no_payload.
Qed.

(** A reader whose value is turned into another. *)
Lemma reads_as_lift {A B} (m : prog (N * Connection) A) (g : A -> result B) f left :
  reads_as m f left -> reads_as (v ← m; lift (g v)) (fun st p => v ← f st p; g v) left.
Proof.
  intros Hm st p rest net c Hp Hu. pose proof (Hm st p rest net c Hp Hu) as Hr.
  apply prog_bind_wp. eapply prog_wp_mono; [exact Hr|]. intros [net' c'] x [-> Hy].
  by destruct (f st p).
Qed.

Lemma readCounter_reads err : reads_as (readCounter err) (counter_answer err) value_left.
Proof. apply reads_as_lift, readValueResponse_reads. Qed.

Lemma readMessages_reads : reads_as StreamClient.readMessages messages_answer messages_left.
Proof.
  apply reads_after_header. intros st p rest net c Hu. unfold messages_answer, messages_left.
  rewrite <- negb_orb. destruct (Z.eqb_spec st StatusOK) as [->|Hok]; cbn [orb negb].
  - eapply reads_bind; [by apply reads_payload|]. intros. by apply reads_lift.
  - destruct (Z.eqb_spec st StatusMultiValue) as [->|Hmv]; cbn [negb].
    + eapply reads_bind; [by apply reads_payload|]. intros. by apply reads_lift.
    + by apply reads_lift.
Qed.
End Readers.

(** ** Values *)

(** The values of a response, each as it is used. *)
Lemma parse_values_complete {A} err (used : bytes -> result A) vs xs :
  u16 (len vs) -> Forall long vs -> Forall2 (fun v x => used v = Ok x) vs xs ->
  parse_values err used (be16 (len vs) ++ cat blob32 vs) = Ok xs.
Proof.
  intros Hn Hall Hx. unfold parse_values, u16 in *.
  rewrite <- (app_nil_r (be16 (len vs) ++ cat blob32 vs)).
  go_read1. go_read1. go_read1. rewrite to_nat_len.
  rewrite (for_n_run vs (fun dn => (2 + len (cat blob32 dn), take (length dn) xs))).
  - cbn [mbind result_bind snd]. by rewrite (Forall2_length _ _ _ Hx), firstn_all.
  - intros dn v rest ->. rewrite !Forall_app, Forall_cons in Hall.
    destruct Hall as (_ & Hv & _). unfold long, u32 in Hv.
    apply Forall2_app_inv_l in Hx as (xs1 & xs2 & H1 & H2 & ->).
    apply Forall2_cons_inv_l in H2 as (x & xs3 & Hvx & H3 & ->).
    rewrite !cat_app, !cat_cons, cat_nil.
    change (blob32 v) with (be32 (len v) ++ v).
    go_read. rewrite Hvx. cbn [mbind result_bind]. rewrite length_app. cbn [length].
    rewrite (Forall2_length _ _ _ H1), take_app_length, take_app_add. cbn [take].
    do 2 f_equal. len_lia.
Qed.
