(* ===== verification/ClientSync.v ===== *)
(** The pool between calls: which connections wait in it, what is left unread on
    them, and what a call makes of both.  A call is answered by what it finds on
    its connection.  Then a new client: the connections it dials, that it starts
    in step with the server, and the options that leave it without any. *)
From stdpp Require Import base list numbers gmap strings.
From Stdlib Require Import ZArith Lia.
From S2P Require Import Prelude GoBytes Fields Fmt Protocol ProtocolSpec NetConn Pool ClientPool ClientCalls ClientReads.

Section Sync.
Context {N V : Type} {network : Network N} {service : Service N V} {laws : ServiceLaws N V}.
Implicit Types (cl : Client N).

(** ** The invariant *)

(** What is still to be read from the connection number [id]. *)
Definition left_over cl (id : Z) : bytes :=
  match sockets cl !! id with Some c => incoming (net cl) c | None => [] end.

Definition live cl (id : Z) : Prop :=
  id < next (shared cl) /\
  exists c, sockets cl !! id = Some c /\ usable (left_over cl id) (net cl) c.

(** An open pool whose connections, in the channel or in the hands of callers,
    can all be used. *)
Record sound cl : Prop := {
  sound_open : pool_closed (shared cl) = false /\ chan_open (shared cl) = true;
  sound_active : activeCount (shared cl) = len (conns (shared cl)) + len (held (shared cl));
  sound_max : activeCount (shared cl) <= maxSize cl;
  sound_nodup : NoDup (conns (shared cl) ++ held (shared cl));
  sound_live : forall id, id ∈ conns (shared cl) ++ held (shared cl) -> live cl id;
  sound_named : forall id c, sockets cl !! id = Some c -> conn c = id;
  sound_fresh : forall id, next (shared cl) <= id -> fresh (net cl) id;
}.

(** Only what concerns [id] has changed, and the connections' owners. *)
Record same_others (id : Z) cl cl' : Prop := {
  same_left i : i <> id -> left_over cl' i = left_over cl i;
  same_max : maxSize cl' = maxSize cl;
}.

Lemma same_others_trans id cl1 cl2 cl3 :
  same_others id cl1 cl2 -> same_others id cl2 cl3 -> same_others id cl1 cl3.
Proof. intros [L1 M1] [L2 M2]. split; [intros i Hi; by rewrite L2, L1|congruence]. Qed.

(** ** A method of a connection *)

(** The connection has been used, up to [s]. *)
Record touched (s : bytes) (x y : N * Connection) : Prop := {
  touched_usable : usable s y.1 y.2;
  touched_conn : conn y.2 = conn x.2;
  touched_only : only_socket (conn x.2) x.1 y.1;
}.

Lemma read_touched s x y : read_to s x y -> touched s x y.
Proof. by intros []. Qed.

Lemma touched_trans s t x y z : touched s x y -> touched t y z -> touched t x z.
Proof.
  intros [_ C1 O1] [U2 C2 O2]. split; [done|congruence|].
  rewrite C1 in O2. by eapply only_socket_trans.
Qed.

Lemma left_over_only cl net' id c' i :
  sound cl -> only_socket id (net cl) net' -> i <> id ->
  left_over (set_socket cl net' id c') i = left_over cl i.
Proof.
  intros H Ho Hi. unfold left_over. cbn [sockets set_socket net].
  rewrite lookup_insert_ne by done. destruct (sockets cl !! i) as [d|] eqn:E; [|done].
  unfold incoming. rewrite (only_pending _ _ _ Ho); [done|].
  by rewrite (sound_named cl H i d E).
Qed.

Lemma live_only cl net' id c' i :
  sound cl -> only_socket id (net cl) net' -> i <> id ->
  live cl i -> live (set_socket cl net' id c') i.
Proof.
  intros H Ho Hi (Hn & c & Hc & U). split; [done|]. exists c.
  cbn [sockets set_socket net]. rewrite lookup_insert_ne by done. split; [done|].
  pose proof (left_over_only cl net' id c' i H Ho Hi) as El.
  destruct U as [U1 U2 U3 U4]. split; [done..| |].
  - apply (only_connected _ _ _ Ho); [by rewrite (sound_named cl H i c Hc)|done].
  - rewrite El, <- U4. unfold incoming. rewrite (only_pending _ _ _ Ho); [done|].
    by rewrite (sound_named cl H i c Hc).
Qed.

(** The socket number [id] is used, or made. *)
Lemma set_socket_sound cl net' id c' s :
  sound cl -> only_socket id (net cl) net' -> conn c' = id -> usable s net' c' ->
  id < next (shared cl) -> sound (set_socket cl net' id c').
Proof.
  intros H Ho Hid U Hn. pose proof H as [H1 H2 H3 H4 H5 H6 H7]. split; try done.
  - intros i Hi. destruct (decide (i = id)) as [->|Hne].
    + split; [done|]. exists c'. cbn [sockets set_socket net]. rewrite lookup_insert_eq.
      split; [done|]. unfold left_over. cbn [sockets set_socket net]. rewrite lookup_insert_eq.
      destruct U. by split.
    + apply live_only; [done..|]. by apply H5.
  - intros i c. cbn [sockets set_socket]. destruct (decide (i = id)) as [->|Hne].
    + rewrite lookup_insert_eq. by intros [= <-].
    + rewrite lookup_insert_ne by done. apply H6.
  - intros i Hi. cbn [net set_socket shared] in *. apply (only_fresh _ _ _ Ho); [lia|by apply H7].
Qed.

Lemma left_over_here cl net' id c' :
  left_over (set_socket cl net' id c') id = incoming net' c'.
Proof. unfold left_over. cbn [sockets set_socket net]. by rewrite lookup_insert_eq. Qed.

(** The call ends as [Q] says of the service, the outcome and what is left
    unread on [id]. *)
Record used {A} (id : Z) (Q : V -> result A -> bytes -> Prop) cl cl' (r : result A) : Prop := {
  used_outcome : Q (view (net cl')) r (left_over cl' id);
  used_sound : sound cl';
  used_others : same_others id cl cl';
}.

Lemma method_used {A} (m : prog (N * Connection) A) id Q cl :
  sound cl -> id ∈ conns (shared cl) ++ held (shared cl) ->
  (forall c, sockets cl !! id = Some c -> usable (left_over cl id) (net cl) c ->
    wp m (fun y r => exists s, Q (view y.1) r s /\ touched s (net cl, c) y) (net cl, c)) ->
  exists cl' r, method id m cl = Some (cl', r) /\ used id Q cl cl' r /\ shared cl' = shared cl.
Proof.
  intros H Hin Hm. destruct (sound_live cl H id Hin) as (Hn & c & Hc & U).
  pose proof (sound_named cl H id c Hc) as Hid.
  destruct (wp_run _ _ _ (Hm c Hc U)) as ([net' c'] & r & E & s & HQ & T).
  destruct T as [T1 T2 T3]. cbn [fst snd] in *. rewrite Hid in *.
  unfold method. rewrite Hc, E. eexists _, _. split; [done|]. split; [|done]. split.
  - rewrite left_over_here. by destruct T1 as [_ _ _ ->].
  - by eapply set_socket_sound.
  - split; [|done]. intros i Hi. by apply left_over_only.
Qed.

(** ** Getting a connection *)

Definition front cl : bytes :=
  match conns (shared cl) with id :: _ => left_over cl id | [] => [] end.

(** The connections that the client has, or would dial. *)
Definition made cl (c : Connection) : Prop :=
  (exists id, sockets cl !! id = Some c) \/ readTimeout c = ReadTimeout (opts cl).

(** A connection is taken from the channel, or dialled. *)
Record got (id : Z) cl cl' : Prop := {
  got_sound : sound cl';
  got_held : held (shared cl') = id :: held (shared cl);
  got_conns : conns (shared cl') = tail (conns (shared cl));
  got_left : left_over cl' id = front cl;
  got_view : view (net cl') = view (net cl);
  got_others : same_others id cl cl';
  got_front c rest : conns (shared cl) = c :: rest -> id = c;
  got_made c : sockets cl' !! id = Some c -> made cl c;
}.

(** A change of the calls' shared state that leaves the connections in place. *)
Lemma set_shared_sound cl s :
  sound cl -> pool_closed s = false -> chan_open s = true ->
  conns s ++ held s ≡ₚ conns (shared cl) ++ held (shared cl) ->
  activeCount s = activeCount (shared cl) -> next s = next (shared cl) ->
  sound (set_shared cl s).
Proof.
  intros [H1 H2 H3 H4 H5 H6 H7] Ho Hc Hp Ha Hx. split; cbn [shared set_shared maxSize net sockets].
  - done.
  - apply Permutation_length in Hp. rewrite !length_app in Hp. unfold len in *. lia.
  - lia.
  - by rewrite Hp.
  - intros id Hi. rewrite Hp in Hi. destruct (H5 id Hi) as (Hn & c & Hs & U). split; [|by exists c].
    cbn [shared set_shared]. lia.
  - done.
  - intros id Hi. apply H7. lia.
Qed.

Lemma live_connected cl id c :
  live cl id -> sockets cl !! id = Some c -> method id IsConnected cl = Some (cl, Ok true).
Proof.
  intros (_ & c' & E & U) Hc. unfold method. rewrite Hc. cbn.
  replace c' with c in U by congruence. rewrite (usable_open _ _ _ U). cbn. do 3 f_equal.
  unfold set_socket. rewrite insert_id by done. by destruct cl.
Qed.

Lemma sound_connected cl id :
  sound cl -> id ∈ conns (shared cl) ++ held (shared cl) ->
  method id IsConnected cl = Some (cl, Ok true).
Proof.
  intros H Hi. pose proof (sound_live cl H id Hi) as Hl. pose proof Hl as (_ & c & Hc & _).
  by eapply live_connected.
Qed.

(** The first connection in the channel. *)
Lemma Get_waiting cl id rest :
  sound cl -> conns (shared cl) = id :: rest ->
  exists cl', Get cl = Some (cl', Ok id) /\ got id cl cl'.
Proof.
  intros H Hc.
  assert (Hp : forall h, rest ++ id :: h ≡ₚ (id :: rest) ++ h) by (intros; solve_Permutation).
  set (s := set_conns rest (shared cl)).
  assert (E : method id IsConnected (set_shared cl s) = Some (set_shared cl s, Ok true)).
  { assert (Hl : live cl id) by (apply sound_live; [done|rewrite Hc; by left]).
    destruct Hl as (Hn & c & Hs & U). apply (live_connected _ _ c); [|done].
    split; [done|]. by exists c. }
  exists (set_shared cl (set_held (id :: held (shared cl)) s)). split.
  - unfold Get. rewrite Hc, bool_decide_eq_false_2 by done. cbn [andb length].
    erewrite bind_run; [|unfold receive_conn; rewrite Hc; done].
    unfold checked. by erewrite bind_run by exact E.
  - split; try done.
    + apply set_shared_sound; try done; try apply H. cbn. by rewrite Hc, Hp.
    + by rewrite Hc.
    + unfold front. by rewrite Hc.
    + intros x l. rewrite Hc. by intros [= <- _].
    + intros c Hs. left. by exists id.
Qed.

(** A new connection. *)
Lemma adopt_sound cl net' s' id c :
  sound cl -> id = next (shared cl) -> conn c = id -> usable [] net' c ->
  only_socket id (net cl) net' ->
  pool_closed s' = false -> chan_open s' = true ->
  conns s' ++ held s' ≡ₚ id :: conns (shared cl) ++ held (shared cl) ->
  activeCount s' = activeCount (shared cl) + 1 -> activeCount s' <= maxSize cl ->
  next s' = next (shared cl) + 1 ->
  sound (set_socket (set_shared cl s') net' id c).
Proof.
  intros H Hid Hcid U Ho Hpc Hco Hp Ha Hm Hn. pose proof H as [H1 H2 H3 H4 H5 H6 H7].
  assert (Hout : id ∉ conns (shared cl) ++ held (shared cl)).
  { intros Hin. destruct (H5 id Hin). lia. }
  split; cbn [shared set_socket set_shared maxSize net sockets].
  - done.
  - apply Permutation_length in Hp. cbn in Hp. rewrite !length_app in Hp. unfold len in *. lia.
  - done.
  - rewrite Hp. by constructor.
  - intros i Hi. rewrite Hp in Hi. apply elem_of_cons in Hi as [->|Hi].
    + split; [cbn; lia|]. exists c. cbn [sockets set_socket]. rewrite lookup_insert_eq.
      split; [done|]. rewrite left_over_here. destruct U. by split.
    + assert (i <> id) by congruence.
      destruct (live_only cl net' id c i H Ho) as (Hlt & d & Hd & Ud); [done|by apply H5|].
      split; [cbn in *; lia|]. by exists d.
  - intros i d. destruct (decide (i = id)) as [->|Hne].
    + rewrite lookup_insert_eq. by intros [= <-].
    + rewrite lookup_insert_ne by done. apply H6.
  - intros i Hi. apply (only_fresh _ _ _ Ho); [lia|apply H7; lia].
Qed.

Lemma Get_dial cl :
  sound cl -> conns (shared cl) = [] -> activeCount (shared cl) < maxSize cl ->
  exists cl' id, Get cl = Some (cl', Ok id) /\ got id cl cl'.
Proof.
  intros H Hc Ha. pose proof H as [[H1 H1'] H2 H3 H4 H5 H6 H7].
  set (id := next (shared cl)).
  destruct (dial_law (net cl) id (dial_limit (DialTimeout (opts cl))) (Address (opts cl)) (H7 id ltac:(lia)))
    as (net' & E & Hv & Hp & Hcn & Ho).
  set (c := mkConnection id [] None (ReadTimeout (opts cl)) (WriteTimeout (opts cl)) false).
  set (s := set_next (id + 1) (set_held (id :: held (shared cl)) (add_active 1 (shared cl)))).
  exists (set_socket (set_shared cl s) net' id c), id.
  assert (U : usable [] net' c) by by split.
  split.
  - unfold Get. rewrite Hc, bool_decide_eq_true_2, H1' by done. cbn [andb length createNewOrWait].
    rewrite H1, (proj2 (Z.ltb_lt _ _)) by done. erewrite bind_run; [|done].
    assert (Ed : dial_next (set_shared cl (add_active 1 (shared cl)))
      = Some (set_socket (set_shared cl (set_next (id + 1) (add_active 1 (shared cl)))) net' id c, Ok id)).
    { unfold dial_next, NewConnection. cbn [shared set_shared next add_active net opts].
      fold id. by rewrite E. }
    erewrite bind_run; [|unfold try; rewrite Ed; done]. done.
  - assert (Hl : forall i, i <> id -> left_over (set_socket (set_shared cl s) net' id c) i = left_over cl i).
    { intros i Hi. apply (left_over_only cl net' id c i H Ho Hi). }
    split; try done.
    + apply adopt_sound; try done; try (cbn; lia). cbn. by rewrite Hc.
    + cbn. by rewrite Hc.
    + rewrite left_over_here. unfold front. rewrite Hc. unfold incoming. cbn. by rewrite Hp.
    + intros x l. by rewrite Hc.
    + intros d. cbn [sockets set_socket]. rewrite lookup_insert_eq. intros [= <-]. by right.
Qed.

Lemma Get_ok cl :
  sound cl -> conns (shared cl) <> [] \/ activeCount (shared cl) < maxSize cl ->
  exists cl' id, Get cl = Some (cl', Ok id) /\ got id cl cl'.
Proof.
  intros H Hr. destruct (conns (shared cl)) as [|id rest] eqn:Hc.
  - apply Get_dial; [done..|]. by destruct Hr.
  - destruct (Get_waiting cl id rest H Hc) as (cl' & E & G). by exists cl', id.
Qed.

(** ** Giving it back *)

Lemma Put_ok cl id h :
  sound cl -> held (shared cl) = id :: h ->
  Put (Some id) cl
  = Some (set_shared cl (set_conns (conns (shared cl) ++ [id]) (set_held h (shared cl))), Ok tt) /\
  sound (set_shared cl (set_conns (conns (shared cl) ++ [id]) (set_held h (shared cl)))).
Proof.
  intros H Hh. pose proof (sound_open cl H) as [Ho Hc].
  assert (Hl : live cl id) by (apply sound_live; [done|rewrite Hh; set_solver]).
  split.
  - assert (Er : release id cl = Some (set_shared cl (set_held h (shared cl)), Ok tt)).
    { unfold release, update, modify. rewrite Hh. cbn [remove_one]. by rewrite decide_True. }
    cbn [Put]. erewrite bind_run by exact Er. destruct Hl as (Hn & c & Hs & U).
    erewrite bind_run; [|apply (live_connected _ _ c); [|done]; split; [done|by exists c]].
    unfold put_send. cbn. rewrite Hc. cbn [negb].
    pose proof (sound_active cl H) as Ha. pose proof (sound_max cl H).
    rewrite Hh, len_cons in Ha. rewrite (proj2 (Z.ltb_lt _ _)) by len_lia. done.
  - apply set_shared_sound; try done. cbn. rewrite Hh. solve_Permutation.
Qed.

(** ** Calls *)

Definition available cl : Prop :=
  conns (shared cl) <> [] \/ activeCount (shared cl) < maxSize cl.

(** After a call on the connection number [id]: it waits at the end of the
    channel, and [Q] holds of the service, the outcome and what is left unread. *)
Record after_call {A} (id : Z) (Q : V -> result A -> bytes -> Prop) cl cl' (r : result A) : Prop := {
  after_outcome : Q (view (net cl')) r (left_over cl' id);
  after_sound : sound cl';
  after_conns : conns (shared cl') = tail (conns (shared cl)) ++ [id];
  after_held : held (shared cl') = held (shared cl);
  after_others : same_others id cl cl';
  after_front c rest : conns (shared cl) = c :: rest -> id = c;
}.

(** The call returns, as [Q] says. *)
Definition call_wp {A} (m : prog (Client N) A) (Q : V -> result A -> bytes -> Prop) cl : Prop :=
  exists cl' id r, m cl = Some (cl', r) /\ after_call id Q cl cl' r.

Lemma call_wp_mono {A} (m : prog (Client N) A) (Q R : V -> result A -> bytes -> Prop) cl :
  call_wp m Q cl -> (forall v r s, Q v r s -> R v r s) -> call_wp m R cl.
Proof.
  intros (cl' & id & r & E & [A1 A2 A3 A4 A5 A6]) HQR. exists cl', id, r.
  split; [done|]. split; auto.
Qed.

(** What becomes of the outcome, outside the connection. *)
Lemma call_wp_bind {A B} (m : prog (Client N) A) (g : A -> result B) (Q : V -> result B -> bytes -> Prop) cl :
  call_wp m (fun v r s => Q v (a ← r; g a) s) cl -> call_wp (a ← m; lift (g a)) Q cl.
Proof.
  intros (cl' & id & r & E & [A1 A2 A3 A4 A5 A6]). exists cl', id, (a ← r; g a).
  split; [|by split]. unfold mbind at 1, prog_bind. rewrite E. by destruct r.
Qed.

(** The request is written and answered, behind what was left unread. *)
Lemma ask_used {A} (m : prog (N * Connection) A) (Q : V -> byte -> bytes -> Prop)
    (R : V -> result A -> bytes -> Prop) req s0 net c :
  (forall st p net, Q (view net) st p -> u32 (len p) -> usable (s0 ++ frame st p) net c ->
    wp m (fun y r => exists s, R (view net) r s /\ read_to s (net, c) y) (net, c)) ->
  usable s0 net c -> served (view net) req Q ->
  wp (ask (Ok req) m) (fun y r => exists s, R (view y.1) r s /\ touched s (net, c) y) (net, c).
Proof.
  intros Hm [Ho Hw Hc Hs] Ha.
  destruct (send_law net (conn c) (deadline (writeTimeout c)) req Q Hc Ha)
    as (net' & st & p & E & HQ & Hf & Hp & Hc' & Hos).
  unfold ask. apply prog_bind_wp. eapply wp_intro; [done|]. apply prog_bind_wp.
  eapply wp_intro; [unfold Write; rewrite Ho, Hw, E; done|].
  assert (U : usable (s0 ++ frame st p) net' c).
  { split; try done. unfold incoming. by rewrite Hp, app_assoc, <- Hs. }
  eapply prog_wp_mono; [by eapply Hm|]. intros [net'' c''] r (s & HR & Hr). exists s.
  pose proof (read_view _ _ _ Hr) as Hv. cbn [fst] in *. split; [by rewrite Hv|].
  eapply touched_trans; [|by apply read_touched]. by split.
Qed.

Lemma with_conn_reads {A} (body : Z -> prog (Client N) A) (m : prog (N * Connection) A)
    (Q : V -> byte -> bytes -> Prop) (R : V -> result A -> bytes -> Prop) req cl :
  (forall id x, body id x = method id (ask (Ok req) m) x) ->
  sound cl -> available cl -> served (view (net cl)) req Q ->
  (forall st p net c, made cl c -> Q (view net) st p -> u32 (len p) -> usable (front cl ++ frame st p) net c ->
    wp m (fun y r => exists s, R (view net) r s /\ read_to s (net, c) y) (net, c)) ->
  call_wp (with_conn body) R cl.
Proof.
  intros Hb H Hav Ha Hm. destruct (Get_ok cl H Hav) as (cl1 & id & E1 & [G1 G2 G3 G4 G5 G6 G7 G8]).
  destruct (method_used (ask (Ok req) m) id R cl1) as (cl2 & r & E2 & [U1 U2 U3] & Hsh).
  - done.
  - rewrite G2. set_solver.
  - intros c Hc U. rewrite G4 in U.
    apply (ask_used m Q R req (front cl)); [by eauto|done|by rewrite G5].
  - destruct (Put_ok cl2 id (held (shared cl)) U2) as [E3 S3]; [by rewrite Hsh|].
    eexists _, id, r. split.
    + unfold with_conn. erewrite bind_run by exact E1.
      eapply finally_run; [by rewrite Hb|exact E3].
    + pose proof (same_others_trans _ _ _ _ G6 U3) as [L M]. split; try done.
      cbn. by rewrite Hsh, G3.
Qed.

Lemma call_reads {A} (m : prog (N * Connection) A) (Q : V -> byte -> bytes -> Prop)
    (R : V -> result A -> bytes -> Prop) req cl :
  sound cl -> available cl -> served (view (net cl)) req Q ->
  (forall st p net c, made cl c -> Q (view net) st p -> u32 (len p) -> usable (front cl ++ frame st p) net c ->
    wp m (fun y r => exists s, R (view net) r s /\ read_to s (net, c) y) (net, c)) ->
  call_wp (call (Ok req) m) R cl.
Proof. by apply with_conn_reads. Qed.

(** A call is answered by the first response on its connection, which may be one
    left there: its own answer is then left for the next call. *)
Lemma call_late {A} (m : prog (N * Connection) A) f left Q req cl st0 p0 rest :
  reads_as m f left -> sound cl -> available cl -> served (view (net cl)) req Q ->
  front cl = frame st0 p0 ++ rest -> u32 (len p0) ->
  call_wp (call (Ok req) m)
    (fun v r s => exists st p, Q v st p /\ r = f st0 p0 /\ s = left st0 p0 ++ rest ++ frame st p) cl.
Proof.
  intros Hm H Hav Ha Hf Hp0. apply (call_reads m Q); [done..|]. intros st p net c _ HQ Hp U.
  rewrite Hf, <- app_assoc in U.
  eapply prog_wp_mono; [apply (Hm st0 p0 (rest ++ frame st p)); [done|exact U]|]. intros y r [-> Hy].
  exists (left st0 p0 ++ rest ++ frame st p). split; [by exists st, p|done].
Qed.

(** ** Calls in step

    Between calls nothing is left unread: the next call is answered by the
    answer to its own request. *)
Record in_step cl : Prop := {
  step_sound : sound cl;
  step_available : available cl;
  step_unread : forall id, id ∈ conns (shared cl) -> left_over cl id = [];
}.

Lemma in_step_front cl : in_step cl -> front cl = [].
Proof.
  intros [_ _ H]. unfold front. destruct (conns (shared cl)) as [|id rest]; [done|].
  apply H. by left.
Qed.

Lemma after_in_step {A} cl cl' id Q (r : result A) :
  in_step cl -> after_call id Q cl cl' r -> left_over cl' id = [] -> in_step cl'.
Proof.
  intros [_ _ H] [A1 A2 A3 A4 A5 A6] Hl. split; [done|left; rewrite A3; by destruct (tail _)|].
  intros i Hi. destruct (decide (i = id)) as [->|Hne]; [done|].
  rewrite (same_left _ _ _ A5 i Hne). apply H.
  rewrite A3, elem_of_app, list_elem_of_singleton in Hi. destruct Hi as [Ht|]; [|done].
  destruct (conns (shared cl)); [by apply elem_of_nil in Ht|by right].
Qed.

Lemma call_in_step {A} (m : prog (N * Connection) A) f left Q req cl :
  reads_as m f left -> in_step cl -> served (view (net cl)) req Q ->
  call_wp (call (Ok req) m) (fun v r s => exists st p, Q v st p /\ r = f st p /\ s = left st p) cl.
Proof.
  intros Hm H Ha. apply (call_reads m Q); [apply H|apply H|done|]. intros st p net c _ HQ Hp U.
  rewrite in_step_front in U by done. cbn [app] in U. rewrite <- (app_nil_r (frame st p)) in U.
  eapply prog_wp_mono; [by apply Hm|]. intros y r [-> Hy]. exists (left st p ++ []).
  split; [|done]. exists st, p. by rewrite app_nil_r.
Qed.
End Sync.

Section Start.
Context {N V : Type} {network : Network N} {service : Service N V} {laws : ServiceLaws N V}.
Implicit Types (cl : Client N).

(** A pool under construction: no caller has a connection, and nothing was read
    or written. *)
Record dialled (n : Z) cl : Prop := {
  dialled_sound : sound cl;
  dialled_free : held (shared cl) = [];
  dialled_conns : len (conns (shared cl)) = n;
  dialled_unread : forall id, id ∈ conns (shared cl) -> left_over cl id = [];
}.

Lemma dialled_none net o m :
  0 <= m -> (forall id, 0 <= id -> fresh net id) -> dialled 0 (mkClient net new_shared ∅ o m).
Proof.
  intros Hm Hf. split; try done.
  - split; try done.
    + by apply NoDup_nil_2.
    + intros id Hi. by apply elem_of_nil in Hi.
Qed.

(** A turn of the loop that dials. *)
Lemma dial_turn cl n k :
  dialled n cl -> n < maxSize cl -> exists cl',
    dial_pool (S k) cl = dial_pool k cl' /\ dialled (n + 1) cl' /\
    maxSize cl' = maxSize cl /\ view (net cl') = view (net cl).
Proof.
  intros [H Hh Hc Hu] Hn. pose proof H as [[H1 H1'] H2 H3 H4 H5 H6 H7].
  set (id := next (shared cl)).
  destruct (dial_law (net cl) id (dial_limit (DialTimeout (opts cl))) (Address (opts cl)) (H7 id ltac:(lia)))
    as (net' & E & Hv & Hp & Hcn & Ho).
  set (c := mkConnection id [] None (ReadTimeout (opts cl)) (WriteTimeout (opts cl)) false).
  set (s := add_active 1 (set_conns (conns (shared cl) ++ [id]) (set_next (id + 1) (shared cl)))).
  assert (U : usable [] net' c) by by split.
  exists (set_socket (set_shared cl s) net' id c). split_and!; [|split|done|done].
  - cbn [dial_pool].
    assert (Ed : try dial_next cl
      = Some (set_socket (set_shared cl (set_next (id + 1) (shared cl))) net' id c, Ok (Ok id))).
    { unfold try, dial_next, NewConnection. fold id. by rewrite E. }
    by erewrite bind_run by exact Ed.
  - rewrite Hh in H2. change (len []) with 0 in H2. apply adopt_sound; try done; cbn; [|lia..].
    rewrite Hh, !app_nil_r. solve_Permutation.
  - done.
  - cbn. len_lia.
  - intros i Hi. destruct (decide (i = id)) as [->|Hne].
    + rewrite left_over_here. unfold incoming. cbn. by rewrite Hp.
    + rewrite <- (Hu i) by (cbn in Hi; apply elem_of_app in Hi as [|Hi%list_elem_of_singleton]; done). apply (left_over_only cl net' id c i H Ho Hne).
Qed.

Lemma dial_pool_dials k cl n :
  dialled n cl -> n + Z.of_nat k <= maxSize cl -> exists cl',
    dial_pool k cl = Some (cl', Ok tt) /\ dialled (n + Z.of_nat k) cl' /\
    maxSize cl' = maxSize cl /\ view (net cl') = view (net cl).
Proof.
  revert cl n. induction k as [|k IH]; intros cl n H Hn.
  - exists cl. split_and!; [done|by rewrite Z.add_0_r|done..].
  - destruct (dial_turn cl n k H) as (cl1 & -> & H' & Hm & Hv); [lia|].
    destruct (IH cl1 (n + 1) H') as (cl2 & E & H2 & Hm2 & Hv2); [lia|].
    exists cl2. split_and!; [done|by replace (n + Z.of_nat (S k)) with (n + 1 + Z.of_nat k) by lia
                            |congruence..].
Qed.

Lemma dialled_in_step cl n : dialled n cl -> 0 < n \/ 0 < maxSize cl -> in_step cl.
Proof.
  intros [H Hh Hc Hu] Hn. split; [done| |done]. unfold available.
  pose proof (sound_active cl H) as Ha. rewrite Hh in Ha. change (len []) with 0 in Ha.
  destruct (conns (shared cl)); [right|by left]. change (len []) with 0 in *. lia.
Qed.

(** ** Properties *)

(** C28: in front of a service a new client has its least number of connections
    open, all unread, and is in step; the service has not changed. *)
Theorem new_client_in_step net (o : ClientOptions.ClientOptions) :
  (forall id, 0 <= id -> fresh net id) -> ClientOptions.Address o <> [] ->
  0 <= ClientOptions.MinConnections o <= ClientOptions.MaxConnections o ->
  0 < ClientOptions.MaxConnections o ->
  exists net' cl, NewClient (Some o) net = Some (net', Ok cl) /\ in_step cl /\
    len (conns (shared cl)) = ClientOptions.MinConnections o /\
    maxSize cl = ClientOptions.MaxConnections o /\ view (ClientPool.net cl) = view net.
Proof.
  intros Hf Ha Hm Hpos.
  set (cl0 := mkClient net new_shared ∅ (PoolOptions.connection_options (ClientOptions.pool_options o))
                (ClientOptions.MaxConnections o)).
  destruct (dial_pool_dials (Z.to_nat (ClientOptions.MinConnections o)) cl0 0)
    as (cl & E & H & Hmax & Hv); [apply dialled_none; [lia|done]|cbn; lia|].
  rewrite Z2Nat.id, Z.add_0_l in H by lia.
  exists (ClientPool.net cl), cl. split_and!.
  - unfold NewClient. rewrite bool_decide_eq_false_2 by done.
    assert (En : try (NewConnectionPool (Some (ClientOptions.pool_options o))) net
      = Some (ClientPool.net cl, Ok (Ok cl))).
    { unfold try, NewConnectionPool. cbn [PoolOptions.MinSize PoolOptions.MaxSize ClientOptions.pool_options].
      rewrite (proj2 (Z.ltb_ge _ _)), (proj2 (Z.ltb_ge _ _)) by lia. cbn [orb]. fold cl0. by rewrite E. }
    by erewrite bind_run by exact En.
  - eapply dialled_in_step; [exact H|]. rewrite Hmax. by right.
  - apply H.
  - by rewrite Hmax.
  - by rewrite Hv.
Qed.

(** With room for no connection the options are accepted, and every call waits for
    one for ever. *)
Lemma empty_pool_blocks net (o : ClientOptions.ClientOptions) :
  ClientOptions.Address o <> [] -> ClientOptions.MinConnections o = 0 -> ClientOptions.MaxConnections o = 0 ->
  exists cl, NewClient (Some o) net = Some (net, Ok cl) /\ Get cl = None.
Proof.
  intros Ha Hmin Hmax. eexists. split.
  - unfold NewClient. rewrite bool_decide_eq_false_2 by done. unfold NewConnectionPool, ClientOptions.pool_options.
    cbn [PoolOptions.MinSize PoolOptions.MaxSize]. rewrite Hmin, Hmax. reflexivity.
  - done.
Qed.
End Start.
