(* ===== verification/ClientDB.v ===== *)
(** The document calls of the Go client (clients/go/db_client.go): the queries it
    builds, their JSON, and the calls that send them. *)
From stdpp Require Import base list numbers gmap strings.
From Stdlib Require Import ZArith Lia.
From S2P Require Import Prelude Fmt Badger GoFloat GoValue Json Protocol NetConn ClientPool ClientCalls.

Module DBClient.
Record QueryFilter : Type := mkQueryFilter { Field : bytes; Operator : bytes; Value : value }.

Record SortOption : Type := mkSortOption { SortField : bytes; Direction : bytes }.

Definition Eq : bytes := str "eq".
Definition Ne : bytes := str "ne".
Definition Gt : bytes := str "gt".
Definition Gte : bytes := str "gte".
Definition Lt : bytes := str "lt".
Definition Lte : bytes := str "lte".
Definition In : bytes := str "in".
Definition Asc : bytes := str "asc".
Definition Desc : bytes := str "desc".

(** The structs by their tags, in the order of their declaration. *)
Definition filter_text (f : QueryFilter) : bytes :=
  object_text [(str "field", quote (Field f)); (str "operator", quote (Operator f));
               (str "value", encode (Value f))].
Definition sort_text (s : SortOption) : bytes :=
  object_text [(str "field", quote (SortField s)); (str "direction", quote (Direction s))].
Definition filters_text (filters : list QueryFilter) : bytes :=
  array_text (map filter_text filters).
Definition filters_ok (filters : list QueryFilter) : bool :=
  forallb (fun f => encodable (Value f)) filters.

(** [json.Marshal(opts)] of a map, its keys in order. *)
Definition marshal_opts (ok : bool) (fields : list (bytes * bytes)) : result bytes :=
  if ok then Ok (object_text fields) else Err json_error.

(** ** The builders *)

Record QueryBuilder : Type := mkQueryBuilder {
  collection : bytes;
  filters : list QueryFilter;
  sort : option SortOption;
  skip : Z;
  limit : Z;
}.
Implicit Types qb : QueryBuilder.

Definition Query (collection : bytes) : QueryBuilder := mkQueryBuilder collection [] None 0 (-1).

Definition Where qb (field operator : bytes) (value : value) : QueryBuilder :=
  mkQueryBuilder (collection qb) (filters qb ++ [mkQueryFilter field operator value]) (sort qb)
    (skip qb) (limit qb).
Definition OrderBy qb (field direction : bytes) : QueryBuilder :=
  mkQueryBuilder (collection qb) (filters qb) (Some (mkSortOption field direction)) (skip qb) (limit qb).
Definition Skip qb (n : Z) : QueryBuilder :=
  mkQueryBuilder (collection qb) (filters qb) (sort qb) n (limit qb).
Definition Take qb (n : Z) : QueryBuilder :=
  mkQueryBuilder (collection qb) (filters qb) (sort qb) (skip qb) n.

Definition query_opts qb : result bytes :=
  marshal_opts (filters_ok (filters qb))
    ([(str "filters", filters_text (filters qb)); (str "limit", fmt_d (limit qb));
      (str "skip", fmt_d (skip qb))] ++
     match sort qb with Some s => [(str "sort", sort_text s)] | None => [] end).

Record UpdateBuilder : Type := mkUpdateBuilder {
  ucollection : bytes;
  ufilters : list QueryFilter;
  setFields : bmap value;
  merge : bool;
}.
Implicit Types ub : UpdateBuilder.

Definition Update (collection : bytes) : UpdateBuilder := mkUpdateBuilder collection [] ∅ true.

Definition UWhere ub (field operator : bytes) (value : value) : UpdateBuilder :=
  mkUpdateBuilder (ucollection ub) (ufilters ub ++ [mkQueryFilter field operator value])
    (setFields ub) (merge ub).
Definition Set_ ub (field : bytes) (value : value) : UpdateBuilder :=
  mkUpdateBuilder (ucollection ub) (ufilters ub) (<[field := value]> (setFields ub)) (merge ub).

Definition update_opts ub : result bytes :=
  marshal_opts (filters_ok (ufilters ub) && encodable (VObject (setFields ub)))
    [(str "filters", filters_text (ufilters ub)); (str "merge", encode (VBool (merge ub)));
     (str "set", encode (VObject (setFields ub)))].

Record DeleteBuilder : Type := mkDeleteBuilder {
  dcollection : bytes;
  dfilters : list QueryFilter;
}.
Implicit Types db : DeleteBuilder.

Definition Delete (collection : bytes) : DeleteBuilder := mkDeleteBuilder collection [].

Definition DWhere db (field operator : bytes) (value : value) : DeleteBuilder :=
  mkDeleteBuilder (dcollection db) (dfilters db ++ [mkQueryFilter field operator value]).

Definition delete_opts db : result bytes :=
  marshal_opts (filters_ok (dfilters db)) [(str "filters", filters_text (dfilters db))].

(** ** The calls *)

Section DBClient.
Context {N : Type} {network : Network N}.

(** Marshalled once a connection is at hand. *)
Definition send_json {A} (msg : string) (json : result bytes) (request : bytes -> result bytes)
    (read : on_wire N A) : on_client N A :=
  with_conn (fun id =>
    data ← lift (wrapping msg json); method id (ask (request data) read)).
Arguments send_json {A} msg%_string json request read.

(** A nil document is encoded as null. *)
Definition Insert (collection : bytes) (doc : option (bmap value)) : on_client N bytes :=
  send_json "failed to marshal document: "
    (Marshal (match doc with Some d => VObject d | None => VNil end))
    (EncodeDocInsertRequest collection) readValueResponse.

Definition readIndex : on_wire N unit :=
  resp ← readValueResponse;
  lift (if bool_decide (resp = str "OK") then Ok tt
        else Err (Errorf (str "index creation returned unexpected response: " ++ resp))).

Definition CreateIndex (collection field : bytes) : on_client N unit :=
  call (EncodeDocIndexRequest collection field) readIndex.

(** [json.Unmarshal(resp, &results)] into a slice of maps: null is nil. *)
Definition result_doc (v : value) : result (bmap value) :=
  match v with VObject m => Ok m | VNil => Ok ∅ | _ => Err json_error end.
Definition unmarshal_results (resp : bytes) : result (list (bmap value)) :=
  v ← Unmarshal resp;
  match v with
  | VArray l => for_each l [] (fun docs v => d ← result_doc v; Ok (docs ++ [d]))
  | VNil => Ok []
  | _ => Err json_error
  end.

Definition readResults : on_wire N (list (bmap value)) :=
  resp ← readValueResponse;
  lift (wrapping "failed to unmarshal results: " (unmarshal_results resp)).

(** [Exec] of the builders. *)
Definition executeFind qb : on_client N (list (bmap value)) :=
  send_json "failed to marshal query options: " (query_opts qb)
    (EncodeDocFindRequest (collection qb)) readResults.
Definition executeUpdate ub : on_client N unit :=
  send_json "failed to marshal update options: " (update_opts ub)
    (EncodeDocUpdateRequest (ucollection ub)) readOKResponse.
Definition executeDelete db : on_client N unit :=
  send_json "failed to marshal delete options: " (delete_opts db)
    (EncodeDocDeleteRequest (dcollection db)) readOKResponse.
End DBClient.
End DBClient.
