(* ===== verification/ClientAnswers.v ===== *)
(** The client's calls against any service: what each returns, and when the
    client stays in step with the server. *)
From stdpp Require Import base list numbers gmap strings.
From Stdlib Require Import ZArith Lia.
From S2P Require Import Prelude GoBytes Fields Fmt Badger GoValue Protocol ProtocolSpec ProtocolCorrect NetConn Pool ClientPool ClientCalls ClientReads ClientSync ClientDB.

(** ** Calls and outcomes *)

Inductive Outcome : Type :=
| ODone
| OValue (value : bytes)
| OValues (values : list bytes)
| OBool (b : bool)
| OCount (n : Z)
| OMessages (messages : list StreamClient.StreamMessage)
| ODocs (docs : list (bmap value)).

Definition index_answer (st : byte) (p : bytes) : result unit :=
  resp ← value_answer st p;
  (if bool_decide (resp = str "OK") then Ok tt
   else Err (Errorf (str "index creation returned unexpected response: " ++ resp))).
Definition docs_answer (st : byte) (p : bytes) : result (list (bmap value)) :=
  resp ← value_answer st p;
  wrapping "failed to unmarshal results: " (DBClient.unmarshal_results resp).

(** What a call makes of the response to its request, and leaves of it. *)
Definition call_outcome (c : ClientCall) (st : byte) (p : bytes) : result Outcome :=
  match c with
  | CallGet _ | CallQPop _ | CallQPeek _ | CallDocInsert _ _ => v ← value_answer st p; Ok (OValue v)
  | CallExists _ => b ← exists_answer st p; Ok (OBool b)
  | CallIncr _ | CallDecr _ => n ← counter_answer KVClient.invalid_counter st p; Ok (OCount n)
  | CallQLen _ => n ← counter_answer QueueClient.invalid_length st p; Ok (OCount n)
  | CallMGet _ => vs ← multi_answer st p; Ok (OValues vs)
  | CallSConsume _ _ _ _ => ms ← messages_answer st p; Ok (OMessages ms)
  | CallDocFind _ _ => ds ← docs_answer st p; Ok (ODocs ds)
  | CallDocIndex _ _ => _ ← index_answer st p; Ok ODone
  | _ => _ ← ok_answer st p; Ok ODone
  end.
Definition unread_after (c : ClientCall) : byte -> bytes -> bytes :=
  match c with
  | CallGet _ | CallQPop _ | CallQPeek _ | CallDocInsert _ _ | CallIncr _ | CallDecr _ | CallQLen _
  | CallDocFind _ _ | CallDocIndex _ _ => value_left
  | CallExists _ => exists_left
  | CallSConsume _ _ _ _ => messages_left
  | _ => nothing_left
  end.

Section Answers.
Context {N V : Type} {network : Network N} {service : Service N V} {laws : ServiceLaws N V}.
Implicit Types (cl : Client N).

Definition giving {S A} (f : A -> Outcome) (m : prog S A) : prog S Outcome :=
  a ← m; lift (Ok (f a)).
Definition done_with {S} : prog S unit -> prog S Outcome := giving (fun _ => ODone).

(** The calls of the client's interface.  Those on documents are given the JSON
    that the builders make. *)
Definition perform (c : ClientCall) : on_client N Outcome :=
  match c with
  | CallSet k v => done_with (KVClient.Set_ k v)
  | CallGet k => giving OValue (KVClient.Get k)
  | CallDelete k => done_with (KVClient.Delete k)
  | CallExists k => giving OBool (KVClient.Exists k)
  | CallIncr k => giving OCount (KVClient.Incr k)
  | CallDecr k => giving OCount (KVClient.Decr k)
  | CallMSet kvs => done_with (KVClient.MSet (map fst kvs) (map snd kvs))
  | CallMGet ks => giving OValues (KVClient.MGet ks)
  | CallMDelete ks => done_with (KVClient.MDelete ks)
  | CallQPush q v => done_with (QueueClient.Push q v)
  | CallQPop q => giving OValue (QueueClient.Pop q)
  | CallQPeek q => giving OValue (QueueClient.Peek q)
  | CallQLen q => giving OCount (QueueClient.Len q)
  | CallQClear q => done_with (QueueClient.Clear q)
  | CallSPublish t p k v => done_with (StreamClient.Publish t p k v)
  | CallSPublishBatch t ms => done_with (StreamClient.PublishBatch t ms)
  | CallSConsume t g c n => giving OMessages (StreamClient.Consume t g c n)
  | CallSCommit t g p o => done_with (StreamClient.Commit t g p o)
  | CallSCreateTopic t p ms => done_with (StreamClient.CreateTopic t p ms)
  | CallSSubscribe t g c => done_with (StreamClient.Subscribe t g c)
  | CallSUnsubscribe t g c => done_with (StreamClient.Unsubscribe t g c)
  | CallDocInsert c d => giving OValue (call (EncodeDocInsertRequest c d) readValueResponse)
  | CallDocFind c q => giving ODocs (call (EncodeDocFindRequest c q) DBClient.readResults)
  | CallDocUpdate c o => done_with (call (EncodeDocUpdateRequest c o) readOKResponse)
  | CallDocDelete c o => done_with (call (EncodeDocDeleteRequest c o) readOKResponse)
  | CallDocIndex c f => done_with (DBClient.CreateIndex c f)
  end.

Lemma readIndex_reads : reads_as DBClient.readIndex index_answer value_left.
Proof. apply (reads_as_lift readValueResponse), readValueResponse_reads. Qed.
Lemma readResults_reads : reads_as DBClient.readResults docs_answer value_left.
Proof. apply (reads_as_lift readValueResponse), readValueResponse_reads. Qed.

Lemma MSet_call kvs :
  KVClient.MSet (map fst kvs) (map snd kvs)
  = call (EncodeMSetRequest (map fst kvs) (map snd kvs)) (@readOKResponse N network).
Proof. unfold KVClient.MSet. unfold len. by rewrite !length_map, Z.eqb_refl. Qed.

(** Every call is a request and a reader. *)
Lemma perform_call c :
  exists A (m : on_wire N A) f left g,
    reads_as m f left /\ perform c = giving g (call (encode_call c) m) /\
    (forall st p, call_outcome c st p = (a ← f st p; Ok (g a))) /\ unread_after c = left.
Proof.
  destruct c; cbn [perform]; rewrite ?MSet_call; unfold done_with;
    eexists _, _, _, _, _; (split; [|split; [reflexivity|split; [by intros|reflexivity]]]).
  all: first [apply readOKResponse_reads|apply readValueResponse_reads|apply readExists_reads
             |apply readCounter_reads|apply readMultiValueResponse_reads|apply readMessages_reads
             |apply readIndex_reads|apply readResults_reads].
Qed.

(** What a call returns, and leaves on its connection. *)
Lemma giving_wp {A} (g : A -> Outcome) (m : on_client N A) (Q : V -> result Outcome -> bytes -> Prop) cl :
  call_wp m (fun v r s => Q v (a ← r; Ok (g a)) s) cl -> call_wp (giving g m) Q cl.
Proof. apply call_wp_bind. Qed.

Lemma perform_in_step cl c req Q :
  in_step cl -> encode_call c = Ok req -> served (view (net cl)) req Q ->
  call_wp (perform c) (fun v r s => exists st p,
    Q v st p /\ r = call_outcome c st p /\ s = unread_after c st p) cl.
Proof.
  intros H He Hs. destruct (perform_call c) as (A & m & f & left & g & Hm & -> & Ho & ->).
  rewrite He. apply giving_wp. eapply call_wp_mono; [by apply (call_in_step m f left Q)|].
  intros v r s (st & p & HQ & -> & ->). exists st, p. by rewrite Ho.
Qed.

Lemma perform_late cl c req Q st0 p0 :
  sound cl -> available cl -> encode_call c = Ok req -> served (view (net cl)) req Q ->
  front cl = frame st0 p0 -> u32 (len p0) ->
  call_wp (perform c) (fun v r s => exists st p,
    Q v st p /\ r = call_outcome c st0 p0 /\ s = unread_after c st0 p0 ++ frame st p) cl.
Proof.
  intros H Hav He Hs Hf Hp. destruct (perform_call c) as (A & m & f & left & g & Hm & -> & Ho & ->).
  rewrite He. rewrite <- (app_nil_r (frame st0 p0)) in Hf. apply giving_wp.
  eapply call_wp_mono; [by apply (call_late m f left Q req cl st0 p0 [])|].
  intros v r s (st & p & HQ & -> & ->). exists st, p. by rewrite Ho.
Qed.

(** ** Text that is not a response

    The reader fails on a header that announces more than there is. *)
Definition strange (st : byte) : Prop :=
  st <> StatusOK /\ st <> StatusNotFound /\ st <> StatusMultiValue.

Definition fails_on_text {A} (m : on_wire N A) : Prop :=
  forall st n rest net c, strange st -> u32 n -> len rest < n ->
    usable (header_of st n rest) net c -> 0 < readTimeout c ->
    wp m (fun y r => (exists e, r = Err e) /\ read_to [] (net, c) y) (net, c).

Lemma fails_after_header {A} (k : byte * Z -> on_wire N A) :
  (forall st n, strange st -> k (st, n) = response_error n) -> fails_on_text (ReadHeader ≫= k).
Proof.
  intros Hk st n rest net c Hst Hn Hl Hu Ht. apply prog_bind_wp.
  eapply prog_wp_mono; [by apply (text_header st n rest)|]. intros [net' c'] r [-> Hy]. cbn beta iota.
  rewrite Hk by done. unfold response_error. pose proof (len_nonneg rest).
  rewrite (proj2 (Z.ltb_lt 0 n)) by lia. apply prog_bind_wp.
  eapply prog_wp_mono; [apply (Read_short n rest); [apply Hy| |done]|].
  { pose proof (read_timeout _ _ _ Hy) as E. cbn in E. by rewrite E. }   intros z r [[e ->] Hz]. split; [by exists e|by eapply read_to_trans].
Qed.

Lemma fails_lift {A B} (m : on_wire N A) (g : A -> result B) :
  fails_on_text m -> fails_on_text (v ← m; lift (g v)).
Proof.
  intros Hm st n rest net c Hst Hn Hl Hu Ht. apply prog_bind_wp.
  eapply prog_wp_mono; [by eapply Hm|]. intros y r [[e ->] Hy]. split; [by exists e|done].
Qed.

Lemma readOKResponse_fails : fails_on_text readOKResponse.
Proof.
  apply fails_after_header. intros st n (H0 & _). by rewrite (proj2 (Z.eqb_neq st _)).
Qed.
Lemma readValueResponse_fails : fails_on_text readValueResponse.
Proof.
  apply fails_after_header. intros st n (H0 & H2 & _). by rewrite !(proj2 (Z.eqb_neq st _)).
Qed.
Lemma readMultiValueResponse_fails : fails_on_text readMultiValueResponse.
Proof.
  apply fails_after_header. intros st n (H0 & _ & H4). by rewrite !(proj2 (Z.eqb_neq st _)).
Qed.

(** The calls that do not read the payload of an error. *)
Definition leaves_errors (c : ClientCall) : bool :=
  match c with CallExists _ | CallSConsume _ _ _ _ => true | _ => false end.

Lemma perform_fails c :
  leaves_errors c = false ->
  exists A (m : on_wire N A) g, fails_on_text m /\ perform c = giving g (call (encode_call c) m).
Proof.
  destruct c; try done; intros _; cbn [perform]; rewrite ?MSet_call; unfold done_with;
    eexists _, _, _; (split; [|reflexivity]);
    repeat apply fails_lift;
    first [apply readOKResponse_fails|apply readValueResponse_fails|apply readMultiValueResponse_fails].
Qed.

(** On a connection with text left on it the call fails, and takes all there is. *)
Lemma perform_on_text cl c req Q st n rest :
  sound cl -> available cl -> (forall d, made cl d -> 0 < readTimeout d) ->
  leaves_errors c = false -> encode_call c = Ok req ->
  served (view (net cl)) req (fun v st' p => Q v /\ len rest + 5 + len p < n) ->
  front cl = header_of st n rest -> strange st -> u32 n ->
  call_wp (perform c) (fun v r s => Q v /\ (exists e, r = Err e) /\ s = []) cl.
Proof.
  intros H Hav Ht Hc He Hs Hf Hst Hn. destruct (perform_fails c Hc) as (A & m & g & Hm & ->).
  rewrite He. apply giving_wp.
  apply (call_reads m (fun v st' p => Q v /\ len rest + 5 + len p < n)); [done..|].
  intros st' p net c' Hd [HQ Hl] Hp U. rewrite Hf in U. unfold header_of in U.
  cbn [app] in U. rewrite <- app_assoc in U.
  eapply prog_wp_mono; [eapply (Hm st n (rest ++ frame st' p)); [done|done| |exact U|by apply Ht]|].
  - unfold frame. len_lia.
  - intros y r [[e ->] Hy]. exists []. split; [|done]. split_and!; [done|by exists e|done].
Qed.

(** A call that leaves the text of an error on the only connection: the call after
    it fails, unless the text announces no more than the next response has. *)
Lemma unread_error_breaks cl c req c' req' b n rest r :
  in_step cl -> len (conns (shared cl)) <= 1 -> encode_call c = Ok req ->
  (forall cl' r d, perform c cl = Some (cl', r) -> made cl' d -> 0 < readTimeout d) ->
  leaves_errors c' = false -> encode_call c' = Ok req' -> strange b -> u32 n ->
  unread_after c StatusError (header_of b n rest) = header_of b n rest ->
  call_outcome c StatusError (header_of b n rest) = r ->
  served (view (net cl)) req (fun v st p => st = StatusError /\ p = header_of b n rest /\
    served v req' (fun _ _ p => True /\ len rest + 5 + len p < n)) ->
  exists cl' cl'' e, perform c cl = Some (cl', r) /\ perform c' cl' = Some (cl'', Err e).
Proof.
  intros H Hone He Ht Hc' He' Hb Hn Hu <- Hs.
  destruct (perform_in_step cl c req _ H He Hs) as (cl1 & id & r & E & HA).
  destruct (after_outcome _ _ _ _ _ HA) as (st & p & (-> & -> & Hs1) & -> & Hlo).
  assert (Hc1 : conns (shared cl1) = [id]).
  { rewrite (after_conns _ _ _ _ _ HA). destruct (conns (shared cl)) as [|x [|y l]]; [done..|].
    exfalso. rewrite !len_cons in Hone. pose proof (len_nonneg l). lia. }
  destruct (perform_on_text cl1 c' req' (fun _ => True) b n rest) as (cl2 & i & r & E' & HA').
  - apply HA.
  - left. by rewrite Hc1.
  - intros d. by eapply Ht.
  - done.
  - done.
  - done.
  - unfold front. by rewrite Hc1, Hlo, Hu.
  - done.
  - done.
  - destruct (after_outcome _ _ _ _ _ HA') as (_ & [e ->] & _). by exists cl1, cl2, e.
Qed.

(** ** Properties *)

(** C17: a call of a client in step with the server returns what its response
    says; the client stays in step unless a part of that response is left
    unread. *)
Theorem call_returns_its_answer cl c req Q :
  in_step cl -> encode_call c = Ok req -> served (view (net cl)) req Q ->
  exists cl' st p, perform c cl = Some (cl', call_outcome c st p) /\ Q (view (net cl')) st p /\
    (unread_after c st p = [] -> in_step cl').
Proof.
  intros H He Hs. destruct (perform_in_step cl c req Q H He Hs) as (cl' & id & r & E & HA).
  destruct (after_outcome _ _ _ _ _ HA) as (st & p & HQ & -> & Hl).
  exists cl', st, p. split_and!; [done..|]. intros Hn. rewrite Hn in Hl. by eapply after_in_step.
Qed.

(** A response that an abandoned call left on a connection answers the next
    call on it, whatever that call asks; its own answer is left for the call
    after. *)
Theorem late_answer_is_taken cl c req Q st0 p0 :
  sound cl -> available cl -> encode_call c = Ok req -> served (view (net cl)) req Q ->
  front cl = frame st0 p0 -> u32 (len p0) ->
  exists cl' id st p, perform c cl = Some (cl', call_outcome c st0 p0) /\ Q (view (net cl')) st p /\
    left_over cl' id = unread_after c st0 p0 ++ frame st p /\
    conns (shared cl') = tail (conns (shared cl)) ++ [id].
Proof.
  intros H Hav He Hs Hf Hp.
  destruct (perform_late cl c req Q st0 p0 H Hav He Hs Hf Hp) as (cl' & id & r & E & HA).
  destruct (after_outcome _ _ _ _ _ HA) as (st & p & HQ & -> & Hl).
  exists cl', id, st, p. split_and!; [done..|apply HA].
Qed.
End Answers.
