(* ===== verification/ClientReturns.v ===== *)
(** Calls return: whatever arrives or not, a call of a client with timeouts ends,
    unless every connection that the pool allows is in the hands of other callers.
    Package net keeps its deadlines; the code sets one before each dial, read and
    write. *)
From stdpp Require Import base list numbers gmap strings.
From Stdlib Require Import ZArith Lia.
From S2P Require Import Prelude GoBytes Fmt Protocol ProtocolCorrect NetConn Pool ClientPool ClientCalls ClientDB ClientAnswers ClientReads ClientSync.

(** ** Programs that return

    From every state with the property [P], to one. *)
Definition keeps {S A} (P : S -> Prop) (m : prog S A) : Prop := forall s, P s -> wp m (fun s' _ => P s') s.

Create HintDb returns.

Section Keeps.
Context {S A B : Type} (P : S -> Prop).

Lemma keeps_lift (r : result A) : keeps P (lift r).
Proof. by intros s Hs. Qed.

Lemma keeps_bind (m : prog S A) (f : A -> prog S B) :
  keeps P m -> (forall a, keeps P (f a)) -> keeps P (m ≫= f).
Proof.
  intros Hm Hf s Hs. apply prog_bind_wp. eapply prog_wp_mono; [by apply Hm|].
  intros s' [a|e|] Hs'; [by apply Hf|done..].
Qed.

Lemma keeps_try (m : prog S A) : keeps P m -> keeps P (try m).
Proof. intros Hm s Hs. specialize (Hm s Hs). unfold wp, try in *. by destruct (m s) as [[s' []]|]. Qed.

Lemma keeps_if (b : bool) (m m' : prog S A) : keeps P m -> keeps P m' -> keeps P (if b then m else m').
Proof. by destruct b. Qed.

Lemma keeps_finally (m : prog S A) (d : prog S unit) : keeps P m -> keeps P d -> keeps P (finally m d).
Proof.
  intros Hm Hd s Hs. apply wp_finally. eapply prog_wp_mono; [by apply Hm|]. intros s' r Hs'. by apply Hd.
Qed.
End Keeps.

#[export] Hint Resolve keeps_lift keeps_bind keeps_try keeps_if keeps_finally : returns.
#[export] Hint Extern 1 (keeps _ (mret _)) => exact (fun s H => H) : returns.
#[export] Hint Extern 1 (keeps _ (throw _)) => exact (fun s H => H) : returns.
#[export] Hint Extern 1 (keeps _ panic) => exact (fun s H => H) : returns.
#[export] Hint Extern 2 (keeps _ (match ?x with _ => _ end)) => destruct x : returns.

Section Client.
Context {N : Type} {network : Network N} {deadlines : Deadlines N}.
Implicit Types (cl : Client N) (net : N) (c : Connection).

(** ** The connection *)

Definition timed_conn c : Prop := 0 < readTimeout c /\ 0 < writeTimeout c.
Definition timed_socket (x : N * Connection) : Prop := timed_conn x.2.

Lemma deadline_set timeout : 0 < timeout -> deadline timeout = Some timeout.
Proof. intros H. unfold deadline. by rewrite (proj2 (Z.ltb_lt _ _) H). Qed.

(** Every turn of [read_full] adds at least a byte. *)
Lemma read_full_returns fuel n net c :
  n - len (unread c) <= Z.of_nat fuel -> timed_conn c ->
  wp (read_full fuel n) (fun y _ => timed_socket y) (net, c).
Proof.
  revert net c. induction fuel as [|fuel IH]; intros net c Hf Ht; unfold wp; cbn [read_full];
    destruct (Z.leb_spec n (len (unread c))) as [Hl|Hl]; try done; [lia|].
  rewrite deadline_set by apply Ht.
  pose proof (recv_returns net (conn c) (readTimeout c)) as Hr.
  destruct (net_recv _ _ _) as [[net' [[b chunk]|e]]|]; [|done..].
  apply IH; [|done]. cbn [set_unread unread]. len_lia.
Qed.

Lemma Read_returns n : keeps timed_socket (Read (N := N) n).
Proof.
  intros [net c] Ht. unfold Read, wp. destruct (closed c); [done|]. apply read_full_returns; [|done].
  pose proof (len_nonneg (unread c)). lia.
Qed.

Lemma Write_returns data : keeps timed_socket (Write (N := N) data).
Proof.
  intros [net c] Ht. unfold Write, wp. destruct (closed c); [done|]. destruct (write_error c); [done|].
  rewrite deadline_set by apply Ht. pose proof (send_returns net (conn c) (writeTimeout c) data) as Hs.
  by destruct (net_send _ _ _ _) as [[? []]|].
Qed.

Lemma Close_returns : keeps timed_socket (Close (N := N)).
Proof.
  intros [net c] Ht. unfold Close, wp. destruct (closed c); [done|]. by destruct (net_hang_up _ _) as [? []].
Qed.

Lemma IsConnected_returns : keeps timed_socket (IsConnected (N := N)).
Proof. by intros [net c]. Qed.

Hint Resolve Read_returns Write_returns Close_returns IsConnected_returns : returns.

Lemma ReadHeader_returns : keeps timed_socket (ReadHeader (N := N)).
Proof. unfold ReadHeader. auto with returns. Qed.
Hint Resolve ReadHeader_returns : returns.

Lemma response_error_returns {A} n : keeps timed_socket (@response_error N network A n).
Proof. unfold response_error. auto with returns. Qed.
Hint Resolve response_error_returns : returns.

Ltac reader_returns :=
  repeat (apply keeps_bind; [by auto with returns|intros]);
  repeat match goal with |- context [let '(_, _) := ?x in _] => destruct x end;
  auto 10 with returns.

Lemma readOKResponse_returns : keeps timed_socket (readOKResponse (N := N)).
Proof. unfold readOKResponse. reader_returns. Qed.
Lemma readValueResponse_returns : keeps timed_socket (readValueResponse (N := N)).
Proof. unfold readValueResponse. reader_returns. Qed.
Lemma readMultiValueResponse_returns : keeps timed_socket (readMultiValueResponse (N := N)).
Proof. unfold readMultiValueResponse. reader_returns. Qed.
Lemma readExists_returns : keeps timed_socket (KVClient.readExists (N := N)).
Proof. unfold KVClient.readExists. reader_returns. Qed.
Lemma readMessages_returns : keeps timed_socket (StreamClient.readMessages (N := N)).
Proof. unfold StreamClient.readMessages. reader_returns. Qed.
Hint Resolve readOKResponse_returns readValueResponse_returns readMultiValueResponse_returns
  readExists_returns readMessages_returns : returns.

(** ** The client

    Its options have timeouts, and so have its connections. *)
Record timed cl : Prop := {
  timed_dial : DialTimeout (opts cl) <> 0;
  timed_read : 0 < ReadTimeout (opts cl);
  timed_write : 0 < WriteTimeout (opts cl);
  timed_sockets id c : sockets cl !! id = Some c -> timed_conn c;
}.

Lemma timed_set_socket cl net id c : timed cl -> timed_conn c -> timed (set_socket cl net id c).
Proof.
  intros [H1 H2 H3 H4] Hc. split; [done..|]. intros i d. cbn [sockets set_socket].
  destruct (decide (i = id)) as [->|Hne]; [rewrite lookup_insert_eq; by intros [= <-]|].
  rewrite lookup_insert_ne by done. apply H4.
Qed.

Lemma timed_made cl c : timed cl -> made cl c -> 0 < readTimeout c.
Proof. intros [H1 H2 H3 H4] [[id Hc]|E]; [by apply (H4 id)|by rewrite E]. Qed.

Lemma update_returns f : keeps timed (update (N := N) f).
Proof. intros cl []. by split. Qed.
Hint Resolve update_returns : returns.

Lemma method_returns {A} id (m : prog (N * Connection) A) : keeps timed_socket m -> keeps timed (method id m).
Proof.
  intros Hm cl H. unfold method, wp. destruct (sockets cl !! id) as [c|] eqn:Hc; [|done].
  specialize (Hm (net cl, c) (timed_sockets cl H id c Hc)). unfold wp in Hm.
  destruct (m _) as [[[] ?]|]; [|done]. by apply timed_set_socket.
Qed.
Hint Resolve method_returns : returns.

(** ** The pool *)

Lemma Put_returns o : keeps timed (Put (N := N) o).
Proof.
  destruct o as [id|]; [|by intros cl H]. cbn [Put]. unfold release. apply keeps_bind; [by auto with returns|]. intros _.
  apply keeps_bind; [by auto with returns|]. intros [|]; [|by auto with returns].
  intros cl H. unfold wp, put_send. destruct (chan_open (shared cl)); cbn [negb]; [|done].
  destruct (_ <? _); [by apply update_returns|]. revert cl H. unfold close_conn.
  apply keeps_bind; [|by auto with returns]. auto with returns.
Qed.
Hint Resolve Put_returns : returns.

(** Connections that callers hold, as the pool counts them. *)
Definition lent cl : Z := activeCount (shared cl) - len (conns (shared cl)).

Lemma dial_next_returns : keeps timed (dial_next (N := N)).
Proof.
  intros cl H. unfold wp, dial_next, NewConnection, dial_limit. rewrite (proj2 (Z.eqb_neq _ _)) by apply H.
  pose proof (dial_returns (net cl) (next (shared cl)) (DialTimeout (opts cl)) (Address (opts cl))) as Hd.
  destruct (net_dial _ _ _ _) as [[n [e|]]|]; [|apply timed_set_socket|done]; destruct H; by split.
Qed.
Hint Resolve dial_next_returns : returns.

Lemma checked_returns o (k : prog (Client N) Z) cl :
  timed cl -> wp k (fun cl' _ => timed cl') (set_shared cl (add_active (-1) (shared cl))) ->
  wp (checked o k) (fun cl' _ => timed cl') cl.
Proof.
  intros H Hk. destruct o as [id|]; [|done]. cbn [checked]. apply prog_bind_wp.
  unfold wp, method. destruct (sockets cl !! id) as [c|] eqn:Hc; [|done]. cbn.
  replace (set_socket cl (net cl) id c) with cl
    by (unfold set_socket; rewrite insert_id by done; by destruct cl).
  by destruct (closed c); [|destruct H].
Qed.

(** A new connection in a turn of [createNewOrWait]. *)
Lemma create_new_returns :
  keeps timed (_ ← update (add_active 1); r ← try (dial_next (N := N));
    match r with
    | Ok id => hold id
    | Err e => _ ← update (add_active (-1)); throw e
    | Panic => panic
    end).
Proof.
  apply keeps_bind; [by auto with returns|]. intros _. apply keeps_bind; [by auto with returns|].
  unfold hold. intros []; auto with returns.
Qed.

Lemma create_returns fuel cl :
  (length (conns (shared cl)) < fuel)%nat -> lent cl < maxSize cl -> timed cl ->
  wp (createNewOrWait fuel) (fun cl' _ => timed cl') cl.
Proof.
  unfold lent. revert cl. induction fuel as [|fuel IH]; intros cl Hf Hl Ht; [lia|].
  unfold wp. cbn [createNewOrWait]. destruct (pool_closed (shared cl)); [done|].
  destruct (Z.ltb_spec (activeCount (shared cl)) (maxSize cl)) as [Ha|Ha]; [by apply create_new_returns|].
  apply prog_bind_wp. unfold wp, receive_conn.
  destruct (conns (shared cl)) as [|id rest] eqn:Hc; [rewrite len_nil in Hl; lia|].
  apply checked_returns; [by destruct Ht|].
  apply IH; cbn [shared set_shared add_active set_conns conns activeCount maxSize]; [..|by destruct Ht].
  - cbn [length] in Hf. lia.
  - rewrite len_cons in Hl. lia.
Qed.

Lemma Get_returns cl : lent cl < maxSize cl -> timed cl -> wp Get (fun cl' _ => timed cl') cl.
Proof.
  intros Hl Ht. unfold wp, Get. destruct (conns (shared cl)) as [|id rest] eqn:Hc.
  - destruct (chan_open (shared cl)) eqn:Ho.
    + rewrite bool_decide_eq_true_2 by done. apply create_returns; [rewrite Hc; cbn; lia|done..].
    + rewrite bool_decide_eq_true_2 by done. cbn [andb]. apply prog_bind_wp.
      unfold wp, receive_conn. by rewrite Hc, Ho.
  - rewrite bool_decide_eq_false_2 by done. cbn [andb]. apply prog_bind_wp.
    unfold wp, receive_conn. rewrite Hc. apply checked_returns; [by destruct Ht|].
    apply create_returns; cbn [shared set_shared add_active set_conns conns activeCount maxSize length];
      [lia| |by destruct Ht].
    unfold lent in *. cbn. rewrite Hc, len_cons in Hl. lia.
Qed.

Lemma with_conn_returns {A} (body : Z -> prog (Client N) A) cl :
  (forall id, keeps timed (body id)) -> lent cl < maxSize cl -> timed cl ->
  wp (with_conn body) (fun cl' _ => timed cl') cl.
Proof.
  intros Hb Hl Ht. unfold with_conn. apply prog_bind_wp.
  eapply prog_wp_mono; [by apply Get_returns|]. intros cl1 [id|e|] H1; [|done..].
  assert (H : keeps timed (finally (body id) (Put (Some id)))) by auto with returns. by apply H.
Qed.

(** Every call. *)
Lemma perform_returns cl (c : ClientCall) :
  lent cl < maxSize cl -> timed cl -> wp (perform c) (fun cl' _ => timed cl') cl.
Proof.
  intros Hl Ht.
  assert (Hc : forall A req (m : on_wire N A), keeps timed_socket m ->
    wp (call req m) (fun cl' _ => timed cl') cl).
  { intros A req m Hm. apply with_conn_returns; [|done..]. intros id. unfold ask. auto with returns. }
  assert (Hg : forall A (g : A -> Outcome) (m : on_client N A),
    wp m (fun cl' _ => timed cl') cl -> wp (giving g m) (fun cl' _ => timed cl') cl).
  { intros A g m Hm. apply prog_bind_wp. eapply prog_wp_mono; [exact Hm|]. by intros cl' []. }
  destruct c; cbn [perform]; unfold done_with; apply Hg; rewrite ?MSet_call; apply Hc;
    unfold readCounter, DBClient.readResults, DBClient.readIndex; auto with returns.
Qed.

(** ** A new client *)

Definition draining (k : nat) cl : Prop := timed cl /\ (length (conns (shared cl)) <= k)%nat.

Lemma close_conn_returns k id : keeps (draining k) (close_conn (N := N) id).
Proof.
  unfold close_conn. apply keeps_bind.
  - apply keeps_try. intros cl [Ht Hk]. pose proof (method_returns id Close Close_returns cl Ht) as H.
    unfold wp, method in *. destruct (sockets cl !! id) as [c|]; [|done].
    destruct (Close (net cl, c)) as [[[n d] r]|]; done.
  - intros _ cl [Ht Hk]. split; [by apply (update_returns (add_dead id))|done].
Qed.

Lemma drain_returns k cl : draining k cl -> wp (drain k) (fun cl' _ => timed cl') cl.
Proof.
  revert cl. induction k as [|k IH]; intros cl [Ht Hk]; unfold wp; cbn [drain];
    destruct (conns (shared cl)) as [|id rest] eqn:Hc; cbn [length] in Hk; try done; [lia|].
  apply prog_bind_wp. eapply wp_intro; [done|]. apply prog_bind_wp.
  eapply prog_wp_mono; [apply (close_conn_returns k)|].
  - split; [by apply (update_returns (set_conns rest))|]. cbn. lia.
  - intros cl1 [a|e|] [H1 H2]; [|done..]. apply prog_bind_wp. eapply wp_intro; [done|].
    apply IH. split; [by apply (update_returns add_drained)|done].
Qed.

Lemma ClosePool_returns : keeps timed (ClosePool (N := N)).
Proof.
  intros cl Ht. unfold wp, ClosePool. destruct (pool_closed (shared cl)); [done|].
  apply prog_bind_wp. eapply wp_intro; [done|]. apply prog_bind_wp.
  assert (H1 : timed (set_shared cl (set_pool_closed true (shared cl)))) by by apply (update_returns (set_pool_closed true)).
  destruct (chan_open (shared cl)); [|done]. eapply wp_intro; [done|]. apply drain_returns.
  split; [|done]. by apply (update_returns (set_chan_open false) _ H1).
Qed.

Lemma dial_pool_returns n : keeps timed (dial_pool (N := N) n).
Proof.
  induction n as [|n IH]; cbn [dial_pool]; [by intros cl H|]. apply keeps_bind; [by auto with returns|].
  intros [id|e|]; [|apply keeps_bind; [apply ClosePool_returns|]|]; auto with returns.
Qed.

Lemma new_client_returns net (o : ClientOptions.ClientOptions) :
  ClientOptions.DialTimeout o <> 0 -> 0 < ClientOptions.ReadTimeout o -> 0 < ClientOptions.WriteTimeout o ->
  exists net' r, NewClient (Some o) net = Some (net', r) /\ forall cl, r = Ok cl -> timed cl.
Proof.
  intros Hd Hr Hw. cut (wp (NewClient (Some o)) (fun _ r => forall cl, r = Ok cl -> timed cl) net).
  { intros (net' & r & E & H)%wp_run. by exists net', r. }
  unfold NewClient. destruct (bool_decide _); [done|]. apply prog_bind_wp.
  unfold wp, try, NewConnectionPool. destruct (_ || _); [done|].
  set (cl0 := mkClient net new_shared ∅ _ _).
  assert (Ht : timed cl0) by (split; [done..|]; intros i c; cbn; by rewrite lookup_empty).
  pose proof (dial_pool_returns (Z.to_nat (PoolOptions.MinSize (ClientOptions.pool_options o))) cl0 Ht) as H.
  unfold wp in H. destruct (dial_pool _ cl0) as [[cl1 [[]|e|]]|]; [|done..].
  cbn. by intros cl [= <-].
Qed.

(** ** Properties *)

(** C15: on a network that keeps deadlines, whatever else it does with the bytes,
    a client with a timeout for dials, reads and writes is made or refused, and
    every call of such a client returns while the pool may still lend a
    connection, and leaves it such a client. *)
Theorem calls_return :
  (forall net (o : ClientOptions.ClientOptions),
    ClientOptions.DialTimeout o <> 0 -> 0 < ClientOptions.ReadTimeout o -> 0 < ClientOptions.WriteTimeout o ->
    exists net' r, NewClient (Some o) net = Some (net', r) /\ forall cl, r = Ok cl -> timed cl) /\
  forall cl (c : ClientCall), timed cl -> lent cl < maxSize cl ->
    exists cl' r, perform c cl = Some (cl', r) /\ timed cl'.
Proof.
  split; [apply new_client_returns|]. intros cl c Ht Hl.
  by apply (wp_run (perform c) (fun cl' _ => timed cl')), perform_returns.
Qed.
End Client.

(** Without a read timeout a silent network keeps a read for ever. *)
Lemma untimed_read_blocks {N} `{Network N} (net : N) c n :
  closed c = false -> readTimeout c <= 0 -> len (unread c) < n ->
  net_recv net (conn c) None = None -> Read n (net, c) = None.
Proof.
  intros Hc Ht Hn Hr. unfold Read. rewrite Hc. pose proof (len_nonneg (unread c)).
  destruct (Z.to_nat n) as [|fuel] eqn:E; [lia|]. cbn [read_full]. rewrite (proj2 (Z.leb_gt _ _)) by lia.
  unfold deadline. by rewrite (proj2 (Z.ltb_ge _ _)), Hr by lia.
Qed.
