(* ===== verification/ClientRefine.v ===== *)
(** The pool as one caller runs it refines the pool as a transition system: a call
    of ClientPool.v that returns is a run of the steps of Pool.v. *)
From stdpp Require Import base list numbers gmap strings relations.
From Stdlib Require Import ZArith Lia.
From S2P Require Import Prelude NetConn Pool ClientPool.

Section Refine.
Context {N : Type} {network : Network N}.
Implicit Types (cl : Client N) (s : Shared).

(** A call goes on from [p] to [p']. *)
Definition run_call (maxSize : Z) : relation (Shared * pc) :=
  rtc (fun x y => call_step maxSize x.1 x.2 y.1 y.2).

(** Where a call of [Get] is when it ends. *)
Definition get_end (r : result Z) : pc :=
  match r with Ok id => GetReturn (Ok id) | Err e => GetReturn (Err e) | Panic => Crashed None end.

(** Closed connections are the dead ones; every number in the channel or held is
    that of a connection. *)
Record coherent cl : Prop := {
  coherent_known id : id ∈ conns (shared cl) ++ held (shared cl) -> is_Some (sockets cl !! id);
  coherent_dead id c : sockets cl !! id = Some c -> closed c = true <-> id ∈ dead (shared cl);
  coherent_next id : is_Some (sockets cl !! id) \/ id ∈ dead (shared cl) -> id < next (shared cl);
}.

Lemma coherent_shared cl s :
  coherent cl -> dead s = dead (shared cl) -> next s = next (shared cl) ->
  (forall id, id ∈ conns s ++ held s -> id ∈ conns (shared cl) ++ held (shared cl)) ->
  coherent (set_shared cl s).
Proof.
  intros [H1 H2 H3] Hd Hn Hi. split; cbn [shared set_shared sockets]; rewrite ?Hd, ?Hn; eauto.
Qed.

Lemma IsConnected_run cl id c :
  sockets cl !! id = Some c -> method id IsConnected cl = Some (cl, Ok (negb (closed c))).
Proof.
  intros Hc. unfold method. rewrite Hc. cbn. do 3 f_equal.
  unfold set_socket. rewrite insert_id by done. by destruct cl.
Qed.

Lemma run_step maxSize s p s' p' z :
  call_step maxSize s p s' p' -> run_call maxSize (s', p') z -> run_call maxSize (s, p) z.
Proof. intros. by apply (rtc_l _ _ (s', p')). Qed.

Lemma receive_conn_run cl cl' r :
  receive_conn cl = Some (cl', r) ->
  exists c rest, r = Ok c /\ cl' = set_shared cl (set_conns rest (shared cl)) /\
    receive (shared cl) c (shared cl') /\ conns (shared cl) = option_list c ++ rest.
Proof.
  unfold receive_conn. destruct (conns (shared cl)) as [|id rest] eqn:Hc.
  - destruct (chan_open (shared cl)) eqn:Ho; [done|]. intros [= <- <-]. exists None, [].
    split_and!; [done| |by constructor|done].
    destruct cl as [n s so o m]. cbn in *. unfold set_shared, set_conns. cbn. rewrite <- Hc.
    by destruct s.
  - intros [= <- <-]. exists (Some id), rest. split_and!; [done|done|by constructor|done].
Qed.

Definition waits (maxSize : Z) (p : option Z -> pc) (dead : pc) : Prop :=
  (forall s, call_step maxSize s (p None) s (Crashed None)) /\
  (forall s c, c ∉ Pool.dead s ->
    call_step maxSize s (p (Some c)) (set_held (c :: held s) s) (GetReturn (Ok c))) /\
  (forall s c, c ∈ Pool.dead s -> call_step maxSize s (p (Some c)) s dead) /\
  (forall s, call_step maxSize s dead (add_active (-1) s) CreateStart).

Lemma get_waits maxSize : waits maxSize GetCheck GetDead.
Proof. split_and!; intros; by constructor. Qed.
Lemma wait_waits maxSize : waits maxSize WaitCheck WaitDead.
Proof. split_and!; intros; by constructor. Qed.

(** The call that was at [p] ends with [r]. *)
Definition ends cl p cl' (r : result Z) : Prop :=
  run_call (maxSize cl) (shared cl, p) (shared cl', get_end r) /\ coherent cl' /\
  maxSize cl' = maxSize cl.

Lemma ends_step cl p cl1 p1 cl' r :
  call_step (maxSize cl) (shared cl) p (shared cl1) p1 -> maxSize cl1 = maxSize cl ->
  ends cl1 p1 cl' r -> ends cl p cl' r.
Proof.
  intros Hs Hm (Hr & Hc & Hm'). rewrite Hm in *. split_and!; [by eapply run_step|done|done].
Qed.

Lemma ends_now cl p cl' r :
  call_step (maxSize cl) (shared cl) p (shared cl') (get_end r) -> coherent cl' ->
  maxSize cl' = maxSize cl -> ends cl p cl' r.
Proof. intros Hs Hc Hm. split_and!; [by apply rtc_once|done|done]. Qed.

(** A connection received and checked, when what follows is a run. *)
Lemma checked_ends cl c (k : prog (Client N) Z) (p : option Z -> pc) dead cl' r :
  waits (maxSize cl) p dead -> coherent cl ->
  (forall id, c = Some id -> is_Some (sockets cl !! id)) ->
  (forall cl1, coherent cl1 -> maxSize cl1 = maxSize cl -> k cl1 = Some (cl', r) ->
    ends cl1 CreateStart cl' r) ->
  checked c k cl = Some (cl', r) -> ends cl (p c) cl' r.
Proof.
  intros (W1 & W2 & W3 & W4) Hc Hk HI. destruct c as [id|]; cbn [checked].
  - destruct (Hk id eq_refl) as [c Hs]. erewrite bind_run by by apply IsConnected_run.
    pose proof (coherent_dead cl Hc id c Hs) as Hd.
    destruct (closed c) eqn:Ecl; cbn [negb].
    + erewrite bind_run; [|done]. intros E.
      apply (ends_step cl _ cl dead); [by apply W3, Hd|done|].
      apply (ends_step cl _ (set_shared cl (add_active (-1) (shared cl))) CreateStart);
        [apply W4|done|]. apply HI; [by apply coherent_shared|done|exact E].
    + intros [= <- <-]. apply ends_now; [apply W2; intros H; by apply Hd in H| |done].
      split; cbn [shared set_shared sockets set_held conns held Pool.dead next];
        [|apply Hc..].
      intros i Hi. apply elem_of_app in Hi as [Hi|Hi].
      * apply Hc, elem_of_app. by left.
      * apply elem_of_cons in Hi as [->|Hi]; [done|]. apply Hc, elem_of_app. by right.
  - intros [= <- <-]. by apply ends_now.
Qed.

(** [<-p.conns], then the check. *)
Lemma receive_ends cl (k : prog (Client N) Z) p0 (p : option Z -> pc) dead cl' r :
  waits (maxSize cl) p dead -> coherent cl ->
  (forall s c s', receive s c s' -> call_step (maxSize cl) s p0 s' (p c)) ->
  (forall cl1, coherent cl1 -> maxSize cl1 = maxSize cl -> k cl1 = Some (cl', r) ->
    ends cl1 CreateStart cl' r) ->
  (c ← receive_conn; checked c k) cl = Some (cl', r) -> ends cl p0 cl' r.
Proof.
  intros HW Hc Hp HI E. destruct (receive_conn cl) as [[cl1 x]|] eqn:Er;
    [|by unfold mbind, prog_bind in E; rewrite Er in E].
  destruct (receive_conn_run cl cl1 x Er) as (c & rest & -> & -> & Hr & Hcs).
  erewrite bind_run in E by exact Er.
  eapply ends_step; [by apply Hp, Hr|done|].
  eapply checked_ends; [done|..|exact E].
  - apply coherent_shared; [done..|]. intros id. cbn. rewrite Hcs, !elem_of_app. tauto.
  - intros id ->. apply (coherent_known cl Hc). rewrite Hcs. set_solver.
  - intros cl2 H2 Hm2. by apply HI.
Qed.

(** A dial, in the state that counts it. *)
Lemma dial_next_run cl cl' r :
  coherent cl -> dial_next cl = Some (cl', r) ->
  match r with
  | Ok id => id = next (shared cl) /\ shared cl' = set_next (id + 1) (shared cl) /\
      maxSize cl' = maxSize cl /\
      coherent (set_shared cl' (set_held (id :: held (shared cl)) (shared cl')))
  | Err _ => shared cl' = shared cl /\ maxSize cl' = maxSize cl /\ coherent cl'
  | Panic => False
  end.
Proof.
  intros [H1 H2 H3]. unfold dial_next, NewConnection.
  destruct (net_dial _ _ _ _) as [[n [e|]]|]; [| |done].
  - intros [= <- <-]. split_and!; [done..|]. by split.
  - intros [= <- <-]. split_and!; [done..|].
    assert (Hout : next (shared cl) ∉ dead (shared cl)).
    { intros Hi. pose proof (H3 (next (shared cl)) (or_intror Hi)). lia. }
    split; cbn [shared set_shared sockets set_socket set_held set_next conns held dead next].
    + intros i Hi. destruct (decide (i = next (shared cl))) as [->|Hne].
      * rewrite lookup_insert_eq. by eexists.
      * rewrite lookup_insert_ne by done. apply H1.
        rewrite elem_of_app, elem_of_cons in Hi. rewrite elem_of_app. tauto.
    + intros i c. destruct (decide (i = next (shared cl))) as [->|Hne].
      * rewrite lookup_insert_eq. intros [= <-]. cbn. split; [done|]. intros. by destruct Hout.
      * rewrite lookup_insert_ne by done. apply H2.
    + intros i. destruct (decide (i = next (shared cl))) as [->|Hne]; [lia|].
      rewrite lookup_insert_ne by done. intros Hi. specialize (H3 i Hi). lia.
Qed.

Lemma create_ends fuel cl cl' r :
  coherent cl -> createNewOrWait fuel cl = Some (cl', r) -> ends cl CreateStart cl' r.
Proof.
  revert cl. induction fuel as [|fuel IH]; intros cl Hc; [done|]. cbn [createNewOrWait].
  destruct (pool_closed (shared cl)) eqn:Hp.
  { intros [= <- <-]. apply ends_now; [by constructor|done|done]. }
  destruct (Z.ltb_spec (activeCount (shared cl)) (maxSize cl)) as [Hl|Hl].
  - set (cl1 := set_shared cl (add_active 1 (shared cl))).
    erewrite (bind_run _ _ cl cl1) by done.
    assert (H1 : coherent cl1) by by apply coherent_shared.
    destruct (dial_next cl1) as [[cl2 [id|e|]]|] eqn:Ed.
    + destruct (dial_next_run cl1 cl2 _ H1 Ed) as (-> & Hs & Hm & H2).
      erewrite bind_run; [|unfold try; rewrite Ed; done]. intros [= <- <-].
      apply (ends_step cl _ cl1 Dialing); [by constructor|done|].
      apply ends_now; [|rewrite Hs in *; exact H2|done].
      cbn [shared set_shared]. rewrite Hs. apply dial_ok.
    + destruct (dial_next_run cl1 cl2 _ H1 Ed) as (Hs & Hm & H2).
      erewrite bind_run; [|unfold try; rewrite Ed; done]. intros [= <- <-].
      apply (ends_step cl _ cl1 Dialing); [by constructor|done|].
      apply (ends_step cl1 _ cl1 (DialFailed e)); [by constructor|done|].
      apply ends_now; [|by apply coherent_shared|done].
      cbn [shared set_shared]. rewrite Hs. by apply dial_failed.
    + by destruct (dial_next_run cl1 cl2 _ H1 Ed).
    + unfold try, mbind, prog_bind. by rewrite Ed.
  - intros E. apply (ends_step cl _ cl Waiting); [by constructor|done|].
    eapply receive_ends; [apply wait_waits|done|by constructor| |exact E].
    intros cl1 H1 Hm E1. by apply IH.
Qed.

(** ** Get *)

Lemma Get_ends cl cl' r :
  coherent cl -> Get cl = Some (cl', r) -> ends cl GetStart cl' r.
Proof.
  intros Hc. unfold Get.
  destruct (bool_decide (conns (shared cl) = [])) eqn:Hd; cbn [andb].
  - apply bool_decide_eq_true in Hd. destruct (chan_open (shared cl)) eqn:Ho.
    + intros E. apply (ends_step cl _ cl CreateStart); [by apply get_default|done|].
      by eapply create_ends.
    + intros E. eapply receive_ends; [apply get_waits|done|by constructor| |exact E].
      intros cl1 H1 _ E1. by eapply create_ends.
  - intros E. eapply receive_ends; [apply get_waits|done|by constructor| |exact E].
    intros cl1 H1 _ E1. by eapply create_ends.
Qed.

(** ** Put *)

Lemma remove_one_perm id l : id ∈ l -> l ≡ₚ id :: remove_one id l.
Proof.
  induction l as [|y l IH]; intros Hi; [by apply elem_of_nil in Hi|]. cbn [remove_one].
  destruct (decide (y = id)) as [->|Hne]; [done|].
  apply elem_of_cons in Hi as [->|Hi]; [done|]. rewrite (IH Hi) at 1. apply Permutation_swap.
Qed.

(** A connection closed by the pool. *)
Lemma close_conn_run cl id c :
  coherent cl -> sockets cl !! id = Some c -> exists cl',
    close_conn id cl = Some (cl', Ok tt) /\ shared cl' = add_dead id (shared cl) /\
    maxSize cl' = maxSize cl /\ coherent cl'.
Proof.
  intros [H1 H2 H3] Hc.
  assert (Hcl : exists n c' r, method id Close cl = Some (set_socket cl n id c', r) /\
    closed c' = true /\ r <> Panic).
  { unfold method. rewrite Hc. unfold Close. destruct (closed c) eqn:E.
    - by eexists _, c, _.
    - destruct (net_hang_up (net cl) (conn c)) as [n [e|]]; by eexists _, (set_closed c), _. }
  destruct Hcl as (n & c' & r & E & Hc' & Hr).
  exists (set_shared (set_socket cl n id c') (add_dead id (shared cl))). split_and!; [|done..|].
  - unfold close_conn. destruct r; [| |done]; (erewrite bind_run; [|unfold try; rewrite E; done]); done.
  - split; cbn [shared set_shared sockets set_socket add_dead conns held dead next].
    + intros i Hi. destruct (decide (i = id)) as [->|Hne].
      * rewrite lookup_insert_eq. by eexists.
      * rewrite lookup_insert_ne by done. by apply H1.
    + intros i d. destruct (decide (i = id)) as [->|Hne].
      * rewrite lookup_insert_eq. intros [= <-]. split; [by left|done].
      * rewrite lookup_insert_ne, elem_of_cons by done. intros Hd. rewrite (H2 i d Hd).
        split; [by right|]. by intros [->|].
    + intros i Hi. apply H3. destruct (decide (i = id)) as [->|Hne]; [left; by eexists|].
      rewrite lookup_insert_ne, elem_of_cons in Hi by done.
      destruct Hi as [|[->|]]; [by left|done|by right].
Qed.

Definition put_end (id : Z) (r : result unit) : pc :=
  match r with Ok _ => PutReturn | _ => Crashed (Some id) end.

Lemma Put_ends cl id cl' r :
  coherent cl -> id ∈ held (shared cl) -> Put (Some id) cl = Some (cl', r) ->
  run_call (maxSize cl) (set_held (remove_one id (held (shared cl))) (shared cl), PutStart (Some id))
    (shared cl', put_end id r) /\ coherent cl'.
Proof.
  intros Hc Hi E. cbn [Put] in E. pose proof (remove_one_perm id _ Hi) as Hp.
  destruct (coherent_known cl Hc id) as [c Hs]; [apply elem_of_app; by right|].
  set (cl1 := set_shared cl (set_held (remove_one id (held (shared cl))) (shared cl))).
  assert (H1 : coherent cl1).
  { apply coherent_shared; [done..|]. intros i. cbn. rewrite !elem_of_app.
    intros [Hx|Hx]; [by left|right]. rewrite Hp. by right. }
  erewrite (bind_run _ _ cl cl1) in E by done.
  erewrite bind_run in E by (apply IsConnected_run; exact Hs).
  pose proof (coherent_dead cl Hc id c Hs) as Hd.
  destruct (closed c) eqn:Ecl; cbn [negb] in E.
  { injection E as <- <-. split; [|by apply coherent_shared].
    eapply run_step; [by apply put_dead, Hd|]. apply rtc_once. apply put_drop. }
  assert (Ha : id ∉ dead (shared cl1)) by (intros H; by apply Hd in H).
  unfold put_send in E. destruct (chan_open (shared cl1)) eqn:Ho; cbn [negb] in E.
  - destruct (Z.ltb_spec (len (conns (shared cl1))) (maxSize cl1)) as [Hl|Hl].
    + injection E as <- <-. split.
      * eapply run_step; [by apply put_alive|]. apply rtc_once. by apply Pool.put_send.
      * split; [|apply H1..]. intros i. cbn. rewrite !elem_of_app, list_elem_of_singleton.
        intros [[Hx | ->]|Hx]; [|by eexists|]; apply (coherent_known cl1 H1), elem_of_app; auto.
    + destruct (close_conn_run cl1 id c H1 Hs) as (cl2 & E2 & Hsh & Hm & H2).
      erewrite bind_run in E by exact E2. injection E as <- <-. split; [|by apply coherent_shared].
      eapply run_step; [by apply put_alive|]. eapply run_step; [by apply put_full|].
      eapply run_step; [apply put_close|]. apply rtc_once. cbn [shared set_shared].
      rewrite Hsh. apply put_drop.
  - injection E as <- <-. split; [|done].
    eapply run_step; [by apply put_alive|]. apply rtc_once. by apply put_closed.
Qed.

(** ** Close *)

Definition close_end (r : result unit) : pc :=
  match r with Ok _ => CloseReturn | _ => Crashed None end.

Lemma drain_ends fuel cl cl' r :
  coherent cl -> drain fuel cl = Some (cl', r) ->
  run_call (maxSize cl) (shared cl, CloseDrain) (shared cl', close_end r) /\ coherent cl'.
Proof.
  revert cl. induction fuel as [|fuel IH]; intros cl Hc; cbn [drain];
    destruct (conns (shared cl)) as [|id rest] eqn:E; try done.
  1,2: intros [= <- <-]; split; [apply rtc_once; by constructor|done].
  destruct (coherent_known cl Hc id) as [c Hs]; [rewrite E; by left|].
  set (cl1 := set_shared cl (set_conns rest (shared cl))).
  assert (H1 : coherent cl1).
  { apply coherent_shared; [done..|]. intros i. cbn. rewrite E. by right. }
  erewrite (bind_run _ _ cl cl1) by done.
  destruct (close_conn_run cl1 id c H1 Hs) as (cl2 & E2 & Hsh & Hm & H2).
  erewrite bind_run by exact E2.
  set (cl3 := set_shared cl2 (add_drained (shared cl2))).
  erewrite (bind_run _ _ cl2 cl3) by done. intros E3.
  destruct (IH cl3) as [Hr H']; [by apply coherent_shared|done|]. split; [|done].
  cbn in Hm. change (maxSize cl3) with (maxSize cl2) in Hr. rewrite Hm in Hr.
  eapply run_step; [by apply close_drain|]. unfold cl3 in Hr. cbn [shared set_shared] in Hr.
  by rewrite Hsh in Hr.
Qed.

Lemma ClosePool_ends cl cl' r :
  coherent cl -> ClosePool cl = Some (cl', r) ->
  run_call (maxSize cl) (shared cl, CloseStart) (shared cl', close_end r) /\ coherent cl'.
Proof.
  intros Hc. unfold ClosePool. destruct (pool_closed (shared cl)) eqn:Hp.
  { intros [= <- <-]. split; [apply rtc_once; by constructor|done]. }
  set (cl1 := set_shared cl (set_pool_closed true (shared cl))).
  assert (H1 : coherent cl1) by by apply coherent_shared.
  erewrite (bind_run _ _ cl cl1) by done. destruct (chan_open (shared cl)) eqn:Ho.
  - set (cl2 := set_shared cl1 (set_chan_open false (shared cl1))).
    erewrite (bind_run _ _ cl1 cl2) by done. intros E.
    destruct (drain_ends (length (conns (shared cl))) cl2 cl' r) as [Hr H']; [by apply coherent_shared|done|].
    split; [|done]. eapply run_step; [by apply close_first|]. by eapply run_step; [apply close_chan|].
  - intros [= <- <-]. split; [|done]. eapply run_step; [by apply close_first|].
    apply rtc_once. by apply close_chan_again.
Qed.

(** ** Properties *)

(** [Get], [Put] and [Close] as one caller runs them are runs of the calls
    of the pool's transition system: they end where the run ends, with the same
    shared state. *)
Theorem pool_calls_are_runs cl cl' :
  coherent cl ->
  (forall r, Get cl = Some (cl', r) ->
    run_call (maxSize cl) (shared cl, GetStart) (shared cl', get_end r)) /\
  (forall id r, id ∈ held (shared cl) -> Put (Some id) cl = Some (cl', r) ->
    run_call (maxSize cl)
      (set_held (remove_one id (held (shared cl))) (shared cl), PutStart (Some id))
      (shared cl', put_end id r)) /\
  (forall r, ClosePool cl = Some (cl', r) ->
    run_call (maxSize cl) (shared cl, CloseStart) (shared cl', close_end r)).
Proof.
  intros Hc. split_and!; intros.
  - by apply Get_ends.
  - by apply Put_ends.
  - by apply ClosePool_ends.
Qed.
End Refine.
