(* ===== verification/Loopback.v ===== *)
(** A network with the server behind it: what a client writes on a socket is read
    by the running server, and what the server writes arrives.  Every operation of
    the network is a run of the server's steps. *)
From stdpp Require Import base list numbers gmap relations strings.
From Stdlib Require Import ZArith Lia.
From S2P Require Import Prelude GoBytes Fields Fmt Badger NetConn ClientPool ClientReads ProtocolSpec KVStorage Protocol ServerState ServerText ServerBinary Server ServerKV.

(** ** The network

    [delivered] are the bytes on their way to the client, by socket; [clock]
    counts what has happened, [crashed] says that the server's process ended. *)
Section Loopback.
Context {bdg : Badger} {batch : BadgerBatch}.

Record Loop : Type := mkLoop {
  sys : System;
  delivered : gmap Z bytes;
  clock : nat;
  crashed : bool;
}.
Implicit Types (l : Loop).

(** What the server reads from elsewhere, and whether a read of the client that
    has a deadline expires, as time goes by. *)
Context (envs : nat -> Env) (expires : nat -> bool).

Definition reset : error := External (str "connection reset by peer").
Definition timeout : error := External (str "i/o timeout").

(** The server accepts, with two buffers of its own. *)
Definition loop_dial l (id : Z) (address : bytes) : Loop * option error :=
  match connections (sys l) !! id, buffers (sys l) !! (2 * id), buffers (sys l) !! (2 * id + 1) with
  | None, None, None =>
      if crashed l then (l, Some (External (str "connection refused")))
      else (mkLoop (accept (sys l) id (2 * id) (2 * id + 1)) (<[id := []]> (delivered l)) (clock l) false, None)
  | _, _, _ => (l, Some (External (str "connection refused")))
  end.

(** The write loop sends all that waits. *)
Definition flush l (id : Z) (c : Connection) : Loop :=
  mkLoop (set_connection (sys l) (server (sys l)) id (Nat.iter (length (outQueue c)) take_message c))
    (<[id := default [] (delivered l !! id) ++ concat (outQueue c)]> (delivered l)) (clock l) (crashed l).

(** A turn of the read loop on [data], and what it makes the write loop send. *)
Definition receive l (id : Z) (data : bytes) : Loop * option error :=
  match connections (sys l) !! id with
  | Some c =>
      if crashed l || done c || negb (bool_decide (id ∈ open_ (sys l))) then (l, Some reset)
      else match read_step (envs (clock l)) (sys l) id c data with
      | Ok s =>
          let l := mkLoop s (delivered l) (S (clock l)) false in
          (match connections s !! id with Some c => flush l id c | None => l end, None)
      | _ => (mkLoop (sys l) (delivered l) (S (clock l)) true, None)
      end
  | None => (l, Some reset)
  end.

(** What a client writes is read in pieces that fit the read buffer. *)
Fixpoint receive_all (fuel : nat) l (id : Z) (data : bytes) : Loop * option error :=
  match fuel with
  | O => (l, None)
  | S fuel =>
      if len data <=? 0 then (l, None)
      else match receive l id (takeZ readBuf_size data) with
      | (l, None) => receive_all fuel l id (dropZ readBuf_size data)
      | (l, Some e) => (l, Some e)
      end
  end.

Definition loop_send l (id : Z) (deadline : option Z) (data : bytes) : Loop * option error :=
  receive_all (length data) l id data.

(** A read without a deadline waits for bytes, or for the server's end. *)
Definition loop_recv l (id : Z) (deadline : option Z) : option (Loop * (byte * bytes + error)) :=
  let tick := mkLoop (sys l) (delivered l) (S (clock l)) (crashed l) in
  let timed := bool_decide (is_Some deadline) in
  if timed && expires (clock l) then Some (tick, inr timeout)
  else match delivered l !! id with
  | Some (b :: chunk) =>
      Some (mkLoop (sys l) (<[id := []]> (delivered l)) (S (clock l)) (crashed l), inl (b, chunk))
  | _ => if crashed l then Some (tick, inr EOF)
         else if timed then Some (tick, inr timeout) else None
  end.

(** The server's loops end, and give the buffers back. *)
Definition loop_hang_up l (id : Z) : Loop * option error :=
  match connections (sys l) !! id with
  | Some c =>
      if crashed l || negb (bool_decide (id ∈ open_ (sys l))) then (l, None)
      else
        let s := set_connection (sys l) (server (sys l)) id (cancel c) in
        (mkLoop (hang_up s id (cancel c)) (delivered l) (clock l) false, None)
  | None => (l, None)
  end.

#[export] Instance loop_network : Network Loop := {
  net_dial l id limit address := Some (loop_dial l id address);
  net_send l id deadline data := Some (loop_send l id deadline data);
  net_recv := loop_recv;
  net_hang_up := loop_hang_up;
}.

#[export] Instance loop_deadlines : Deadlines Loop.
Proof.
  split; [done..|]. intros l id d. cbn. unfold loop_recv. rewrite bool_decide_eq_true_2 by done.
  cbn [andb]. destruct (expires _); [done|]. destruct (delivered l !! id) as [[|b chunk]|]; try done;
    by destruct (crashed l).
Qed.

(** ** Runs of the server *)

Definition runs l l' : Prop := rtc step (sys l) (sys l').

Lemma runs_trans l1 l2 l3 : runs l1 l2 -> runs l2 l3 -> runs l1 l3.
Proof. unfold runs. intros. by etransitivity. Qed.

Lemma runs_refl l : runs l l.
Proof. apply rtc_refl. Qed.
#[local] Hint Resolve runs_refl : core.

Lemma dial_runs l id address : runs l (loop_dial l id address).1.
Proof.
  unfold loop_dial. destruct (connections (sys l) !! id) eqn:E1; [done|].
  destruct (buffers (sys l) !! (2 * id)) eqn:E2; [done|].
  destruct (buffers (sys l) !! (2 * id + 1)) eqn:E3; [done|].
  destruct (crashed l); [done|]. apply rtc_once. apply Accept; auto. lia.
Qed.

Lemma take_messages_run n s id c :
  connections s !! id = Some c -> id ∈ open_ s ->
  rtc step s (set_connection s (server s) id (Nat.iter n take_message c)).
Proof.
  intros Hc Ho. induction n as [|n IH]; cbn [Nat.iter].
  - unfold set_connection. rewrite insert_id by done. by destruct s.
  - eapply rtc_r; [exact IH|].
    pose proof (Write (set_connection s (server s) id (Nat.iter n take_message c)) id
      (Nat.iter n take_message c) (lookup_insert_eq _ _ _) Ho) as W.
    unfold set_connection at 2 3 4 in W. cbn in W. by rewrite insert_insert_eq in W.
Qed.

Lemma receive_runs l id data :
  0 < len data <= readBuf_size -> runs l (receive l id data).1.
Proof.
  intros Hd. unfold receive. destruct (connections (sys l) !! id) as [c|] eqn:Hc; [|done].
  destruct (crashed l), (done c), (bool_decide (id ∈ open_ (sys l))) eqn:Ho; try done.
  apply bool_decide_eq_true in Ho. cbn [orb negb].
  destruct (read_step _ _ _ _ _) as [s| |] eqn:Er; [|apply rtc_refl..]. cbn [fst].
  assert (H1 : step (sys l) s) by (by eapply Read).
  assert (Ho' : id ∈ open_ s).
  { unfold read_step in Er. destruct (processRequestHybrid _ _ _ _) as [[s' c']| |]; [|done..].
    by injection Er as <-. }
  destruct (connections s !! id) as [c'|] eqn:Hc'; [|by apply rtc_once].
  eapply rtc_l; [exact H1|]. by apply take_messages_run.
Qed.

Lemma receive_all_runs fuel l id data : runs l (receive_all fuel l id data).1.
Proof.
  revert l data. induction fuel as [|fuel IH]; intros l data; cbn [receive_all]; [done|].
  destruct (Z.leb_spec (len data) 0); [done|].
  assert (Hd : 0 < len (takeZ readBuf_size data) <= readBuf_size).
  { unfold takeZ, len, readBuf_size in *. rewrite length_take. lia. }
  pose proof (receive_runs l id (takeZ readBuf_size data) Hd) as Hr.
  destruct (receive l id _) as [l' [e|]]; [done|]. by eapply runs_trans.
Qed.

Lemma hang_up_runs l id : runs l (loop_hang_up l id).1.
Proof.
  unfold loop_hang_up. destruct (connections (sys l) !! id) as [c|] eqn:Hc; [|done].
  destruct (crashed l), (bool_decide (id ∈ open_ (sys l))) eqn:Ho; try done.
  apply bool_decide_eq_true in Ho. cbn [orb negb fst].
  eapply rtc_l; [by apply (Cancel _ _ _ Hc)|]. apply rtc_once. apply HangUp; [|done..].
  cbn. apply lookup_insert_eq.
Qed.

(** Whatever a client does on the network, the server takes its own steps. *)
Lemma network_runs l l' id address deadline data :
  (forall e, net_dial l id deadline address = Some (l', e) -> runs l l') /\
  (forall e, net_send l id deadline data = Some (l', e) -> runs l l') /\
  (forall r, net_recv l id deadline = Some (l', r) -> runs l l') /\
  (forall e, net_hang_up l id = (l', e) -> runs l l').
Proof.
  cbn. split_and!; intros r E.
  - pose proof (dial_runs l id address) as H. injection E as E. by rewrite E in H.
  - pose proof (receive_all_runs (length data) l id data) as H. injection E as E. unfold loop_send in E. by rewrite E in H.
  - unfold loop_recv in E. destruct (_ && _); [simplify_eq; apply rtc_refl|].
    destruct (delivered l !! id) as [[|b d]|], (crashed l), (bool_decide (is_Some deadline));
      simplify_eq; apply rtc_refl.
  - pose proof (hang_up_runs l id) as H. by rewrite E in H.
Qed.

(** ** The server as a service

    A request that fits a read and that the server answers with one frame,
    whatever it reads from elsewhere. *)
Context (good : Env -> Prop).

Definition served_by (s : Server) (req : bytes) (Q : Server -> byte -> bytes -> Prop) : Prop :=
  0 < len req <= readBuf_size /\
  forall e id c, good e -> ready c -> exists s' c' st p,
    processRequestHybrid e (s, c) id req = Ok (s', c') /\
    outQueue c' = outQueue c ++ [frame st p] /\ done c' = done c /\ readBuf c' = readBuf c /\
    stopped s' = stopped s /\ u32 (len p) /\ Q s' st p.

Lemma served_by_mono s req (Q R : Server -> byte -> bytes -> Prop) :
  served_by s req Q -> (forall s' st p, Q s' st p -> R s' st p) -> served_by s req R.
Proof.
  intros [Hd H] HQR. split; [done|]. intros e id c Hg Hr.
  destruct (H e id c Hg Hr) as (s' & c' & st & p & ? & ? & ? & ? & ? & ? & ?).
  exists s', c', st, p. split_and!; auto.
Qed.

Definition served_on l (id : Z) : Prop :=
  crashed l = false /\ exists c, connections (sys l) !! id = Some c /\ id ∈ open_ (sys l) /\
    done c = false /\ outQueue c = [] /\ readBuf c = 2 * id.

Definition unused l (id : Z) : Prop :=
  crashed l = false /\ stopped (server (sys l)) = false /\ connections (sys l) !! id = None /\
  buffers (sys l) !! (2 * id) = None /\ buffers (sys l) !! (2 * id + 1) = None.

#[export] Instance loop_service : Service Loop Server := {
  view l := server (sys l);
  pending l id := default [] (delivered l !! id);
  connected := served_on;
  fresh := unused;
  served := served_by;
}.

(** The states of two loops agree on all sockets but one. *)
Lemma only_socket_intro id l l' :
  crashed l' = crashed l -> stopped (server (sys l')) = stopped (server (sys l)) ->
  (forall i, i <> id -> delivered l' !! i = delivered l !! i) ->
  (forall i, i <> id -> connections (sys l') !! i = connections (sys l) !! i) ->
  (forall i, i <> id -> i ∈ open_ (sys l') <-> i ∈ open_ (sys l)) ->
  (forall i, i <> id -> unused l i ->
    buffers (sys l') !! (2 * i) = None /\ buffers (sys l') !! (2 * i + 1) = None) ->
  only_socket id l l'.
Proof.
  intros Hcr Hst Hd Hc Ho Hb. split; intros i Hi; cbn.
  - by rewrite Hd.
  - unfold served_on. rewrite Hcr, Hc by done. by setoid_rewrite (Ho i Hi).
  - intros Hu. destruct (Hb i Hi Hu) as [B1 B2]. destruct Hu as (U1 & U2 & U3 & _).
    unfold unused. rewrite Hcr, Hst, Hc by done. done.
Qed.

Lemma dial_served l id address : unused l id -> exists l',
  loop_dial l id address = (l', None) /\ server (sys l') = server (sys l) /\
  delivered l' !! id = Some [] /\ served_on l' id /\ only_socket id l l'.
Proof.
  intros (U1 & U2 & U3 & U4 & U5). unfold loop_dial. rewrite U3, U4, U5, U1.
  eexists. split; [done|]. split_and!; [done|apply lookup_insert_eq| |].
  - split; [done|]. eexists. cbn. rewrite lookup_insert_eq, U2. split_and!; try done. set_solver.
  - apply only_socket_intro; cbn; try done.
    + intros i Hi. by rewrite lookup_insert_ne.
    + intros i Hi. by rewrite lookup_insert_ne.
    + intros i Hi. rewrite elem_of_union, elem_of_singleton. tauto.
    + intros i Hi (_ & _ & _ & B1 & B2). unfold make_buffer. rewrite U4.
      rewrite lookup_insert_ne by lia. rewrite U5. by rewrite !lookup_insert_ne by lia.
Qed.

Lemma take_all n c : n = length (outQueue c) ->
  let c' := Nat.iter n take_message c in
  outQueue c' = [] /\ done c' = done c /\ readBuf c' = readBuf c.
Proof.
  cbv zeta. revert c. induction n as [|n IH]; intros c Hn.
  - by destruct (outQueue c) eqn:E; [|done].
  - rewrite Nat.iter_succ_r. destruct (outQueue c) as [|m q] eqn:E; [done|].
    destruct (IH (take_message c)) as (H1 & H2 & H3).
    + unfold take_message. rewrite E. cbn in *. lia.
    + split_and!; [done|rewrite H2|rewrite H3]; unfold take_message; by rewrite E.
Qed.

Lemma read_step_ok e s id c data srv c' :
  processRequestHybrid e (server s, c) id data = Ok (srv, c') ->
  exists bufs, read_step e s id c data
    = Ok (mkSystem srv (<[id := c']> (connections s)) (open_ s) bufs (Server.pool s)) /\
    bufs = <[readBuf c := fill_buffer (default [] (buffers s !! readBuf c)) data]> (buffers s).
Proof. intros H. eexists. split; [|done]. unfold read_step. cbn [server]. by rewrite H. Qed.

(** The one piece of a request that fits. *)
Lemma send_fits l id d data :
  0 < len data <= readBuf_size ->
  loop_send l id d data = receive l id data.
Proof.
  intros Hd. unfold loop_send. destruct (length data) as [|n] eqn:Hn.
  { unfold len in Hd. lia. }
  cbn [receive_all]. rewrite (proj2 (Z.leb_gt _ _)) by lia.
  rewrite takeZ_all, dropZ_all by lia. destruct (receive l id data) as [l' [e|]]; [done|].
  by destruct n.
Qed.

Lemma send_served l id d req Q :
  (forall n, good (envs n)) -> served_on l id -> served_by (server (sys l)) req Q ->
  exists l' st p, loop_send l id d req = (l', None) /\ Q (server (sys l')) st p /\ u32 (len p) /\
    delivered l' !! id = Some (default [] (delivered l !! id) ++ frame st p) /\
    served_on l' id /\ only_socket id l l'.
Proof.
  intros Hgood (Hcr & c & Hc & Ho & Hdone & Hq & Hb) [Hd Hs].
  destruct (Hs (envs (clock l)) id c (Hgood _)) as (srv & c' & st & p & E & Eq & Edone & Eb & Est & Ep & HQ).
  { split; [done|]. rewrite Hq. done. }
  rewrite Hq in Eq. cbn [app] in Eq.
  destruct (read_step_ok _ _ _ _ _ _ _ E) as (bufs & Er & Hbufs).
  destruct (take_all (length (outQueue c')) c' eq_refl) as (T1 & T2 & T3).
  rewrite send_fits by done. unfold receive. rewrite Hc, Hcr, Hdone, bool_decide_eq_true_2 by done.
  cbn [orb negb]. rewrite Er. cbn [connections]. rewrite lookup_insert_eq.
  eexists _, st, p. split; [done|]. unfold flush. cbn [sys server delivered].
  split_and!; [done|done| | |].
  - rewrite lookup_insert_eq, Eq. cbn. by rewrite app_nil_r.
  - split; [done|]. eexists. cbn. rewrite lookup_insert_eq. split_and!; [done|done|congruence|done|congruence].
  - apply only_socket_intro; cbn; try done.
    + intros i Hi. by rewrite lookup_insert_ne.
    + intros i Hi. by rewrite !lookup_insert_ne.
    + intros i Hi (_ & _ & _ & B1 & B2). rewrite Hbufs, Hb.
      by rewrite !lookup_insert_ne by lia.
Qed.

Lemma tick_only id l n cr dl :
  cr = crashed l -> (forall i, i <> id -> dl !! i = delivered l !! i) ->
  only_socket id l (mkLoop (sys l) dl n cr).
Proof.
  intros -> Hd. apply only_socket_intro; try done. by intros i Hi (_ & _ & _ & B1 & B2).
Qed.

(** In front of the server, a network that is never late is a service. *)
Lemma loop_laws :
  (forall n, good (envs n)) -> (forall n, expires n = false) -> ServiceLaws Loop Server.
Proof.
  intros Hgood Hlate. split; cbn.
  - intros l id d addr Hf. destruct (dial_served l id addr Hf) as (l' & E & Hv & Hd & Hc & Ho).
    exists l'. by rewrite E, Hd.
  - intros l id d req Q Hc Hs.
    destruct (send_served l id d req Q Hgood Hc Hs) as (l' & st & p & E & HQ & Hp & Hd & Hc' & Ho).
    exists l', st, p. by rewrite E, Hd.
  - intros l id d Hc Hp. unfold loop_recv. rewrite Hlate, andb_false_r.
    destruct (delivered l !! id) as [[|b chunk]|]; [done| |done].
    eexists _, b, chunk. split; [done|]. split_and!; [done| |done|].
    + cbn. by rewrite lookup_insert_eq, app_nil_r.
    + apply tick_only; [done|]. intros i Hi. by rewrite lookup_insert_ne.
  - intros l id d Hc Hp. pose proof Hc as (Hcr & _). unfold loop_recv.
    rewrite Hlate, andb_false_r, Hcr, bool_decide_eq_true_2 by done.
    destruct (delivered l !! id) as [[|b chunk]|] eqn:E; [|done|].
    all: eexists _, _; split; [done|]; split_and!; [done|cbn; by rewrite E| |by apply tick_only].
    all: destruct Hc as [_ Hc]; by split.
Qed.
End Loopback.
