(* ===== verification/ClientServer.v ===== *)
(** The client with the server behind it: key-value calls, from the call to what
    it returns, are operations on a finite map; a call that the server does not
    know breaks the calls after it. *)
From stdpp Require Import base list numbers gmap relations strings.
From Stdlib Require Import ZArith Lia.
From S2P Require Import Prelude GoBytes Fields Fmt Badger NetConn Pool ClientPool ClientCalls ClientReads ClientSync ClientDB ClientAnswers ClientReturns KVStorage KVCorrect KVRefine Protocol ProtocolDecode ProtocolSpec ProtocolParse ProtocolCorrect ProtocolTrip ServerState ServerText ServerBinary Server ServerWire ServerKV Loopback.

(** ** Outcomes of key-value calls *)

(** What a call returns of the outcome of its operation. *)
Definition kv_outcome (op : KVOp) (r : result KVReply) : result Outcome :=
  match r with
  | Ok (KVCorrect.RValue v) => Ok (OValue v)
  | Ok (RMap m) => Ok (OValues (in_key_order (op_keys op) m))
  | Err err => Err (error_answer (error_text err))
  | _ => Ok ODone
  end.

(** The key-value calls, and what they do to the map behind the server: the
    opcodes of the last three are not in the server's switch. *)
Definition kv_call (c : ClientCall) : bool :=
  match c with
  | CallSet _ _ | CallGet _ | CallDelete _ | CallMSet _ | CallMGet _ | CallMDelete _
  | CallExists _ | CallIncr _ | CallDecr _ => true
  | _ => false
  end.

Definition call_spec (v : KVState) (c : ClientCall) : KVState * result Outcome :=
  match kv_op c with
  | Some op => let x := kv_spec v op in (x.1, kv_outcome op x.2)
  | None => (v, match c with CallExists _ => Ok (OBool false) | _ => Err (Errorf (str "unknown opcode")) end)
  end.

Lemma multi_complete vs :
  u16 (len vs) -> Forall long vs -> multi_answer StatusMultiValue (be16 (len vs) ++ cat blob32 vs) = Ok vs.
Proof.
  intros Hn Hv. unfold multi_answer. rewrite Z.eqb_refl. cbn [orb]. rewrite (proj2 (Z.eqb_neq _ _)) by len_lia.
  apply parse_values_complete; [done..|]. clear. induction vs; by constructor.
Qed.

Lemma kv_outcome_ok c op v :
  kv_op c = Some op ->
  let r := (kv_spec v op).2 in
  let a := kv_answer op r in
  reply_fits a ->
  call_outcome c (Status (reply_response a)) (reply_payload a) = kv_outcome op r /\
  unread_after c (Status (reply_response a)) (reply_payload a) = [].
Proof.
  intros Hop r a Hf. subst a r. unfold kv_spec in *. destruct (kclosed v); [|case_decide].
  1,2: by destruct c; try done; injection Hop as <-.
  destruct c; try done; injection Hop as <-; try done; cbn [kv_open op_writes fst snd] in *.
  - by destruct (kmap v !! key).
  - destruct Hf as [_ [Hn Hl]]. cbn in Hn, Hl. split; [|done].
    cbn [call_outcome kv_answer reply_response Status reply_payload kv_outcome op_keys].
    by rewrite multi_complete.
Qed.

(** ** The server's answers *)

Section Answers.
Context {bdg : Badger} {batch : BadgerBatch}.
Implicit Types (e : Env) (w : World).

Lemma respond_conn e w response :
  ready w.2 -> done (respond e w response).2 = done w.2 /\ readBuf (respond e w response).2 = readBuf w.2.
Proof.
  destruct w as [s c]. unfold ready. cbn [fst snd]. intros [Hd Hl].
  unfold respond, select_send, out_ready. by rewrite (proj2 (Z.ltb_lt _ _) Hl), Hd.
Qed.

Lemma offer_ready e c msg :
  ready c -> let c' := offer e c msg in
  outQueue c' = outQueue c ++ [msg] /\ done c' = done c /\ readBuf c' = readBuf c.
Proof.
  intros [Hd Hl]. unfold offer, select_send, out_ready. by rewrite (proj2 (Z.ltb_lt _ _) Hl), Hd.
Qed.

Lemma call_len c data : fits c -> encode_call c = Ok data -> 0 < len data.
Proof.
  intros Hf He. destruct (decode_call c [] Hf) as (p & _ & Hp & _).
  assert (data = frame (OpCode (intended c)) p) as -> by congruence. unfold frame. len_lia.
Qed.

(** The handler sent one frame, and changed nothing else of the connection. *)
Record answered (s : Server) (k : Connection) w (st : byte) (p : bytes) : Prop := {
  answered_out : outQueue w.2 = outQueue k ++ [frame st p];
  answered_done : done w.2 = done k;
  answered_buf : readBuf w.2 = readBuf k;
  answered_stopped : stopped w.1 = stopped s;
}.

Lemma respond_answered e s w st p :
  ready w.2 -> stopped w.1 = stopped s -> answered s w.2 (respond e w (frame st p)) st p.
Proof.
  intros Hr Hs. destruct (respond_ready e w (frame st p) Hr) as (Ho & _ & Hsame).
  destruct (respond_conn e w (frame st p) Hr) as [Hd Hb].
  split; [done..|]. rewrite <- Hs. apply Hsame.
Qed.

(** A client's request is served as its handler answers it. *)
Lemma served_call good s c data (Q : Server -> byte -> bytes -> Prop) :
  fits c -> encode_call c = Ok data -> len data <= readBuf_size ->
  (forall e k, good e -> ready k -> exists w st p,
    handle e (s, k) (intended c) = Ok w /\ answered s k w st p /\ u32 (len p) /\ Q w.1 st p) ->
  served_by good s data Q.
Proof.
  intros Hf He Hl H. split; [split; [by eapply call_len|done]|]. intros e id k Hg Hr.
  rewrite (hybrid_call e (s, k) id c data Hf He).
  destruct (H e k Hg Hr) as ([s' k'] & st & p & -> & [A1 A2 A3 A4] & Hp & HQ).
  by eexists _, _, _, _.
Qed.

(** The counters' requests are answered with an error. *)
Lemma counter_served good s c data :
  fits c -> OpCode (intended c) ∈ [OpExists; OpIncr; OpDecr] -> encode_call c = Ok data ->
  len data <= readBuf_size ->
  served_by good s data (fun s' st p =>
    s' = count count_error s /\ st = StatusError /\ p = str "unknown opcode").
Proof.
  intros Hf Hop He Hl. apply (served_call good s c); [done..|]. intros e k _ Hr.
  exists (count count_error s, offer e k (frame StatusError (str "unknown opcode"))),
    StatusError, (str "unknown opcode").
  destruct (offer_ready e k (frame StatusError (str "unknown opcode")) Hr) as (O1 & O2 & O3).
  split_and!; [|by split|done..].
  by destruct c; try (exfalso; revert Hop; by apply (bool_decide_eq_false_1 _));
    unfold handle; cbn; rewrite fail_spec.
Qed.
End Answers.

Section KV.
Context {bdg : Badger} {laws : BadgerLaws} {batch : BadgerBatch} {blaws : BadgerBatchLaws}.
Context {rel : BadgerReliable}.
Implicit Types (s : Server).

Lemma kv_served s c op data :
  kv_op c = Some op -> fits c -> encode_call c = Ok data -> len data <= readBuf_size ->
  let x := kv_spec (KVCorrect.view (store s)) op in
  let a := kv_answer op x.2 in
  reply_fits a ->
  served_by orders_pairs s data (fun s' st p =>
    KVCorrect.view (store s') = x.1 /\ same_but_store s s' /\
    st = Status (reply_response a) /\ p = reply_payload a).
Proof.
  intros Hop Hf Hd Hl x a Hfit. apply (served_call orders_pairs s c); [done..|].
  intros e k He Hr. destruct (called_exec e (store s) op He) as [H2 H1];
    [by destruct c; try done; injection Hop as <-|].
  rewrite (handle_kv e (s, k) c op Hop) by (cbn [fst]; rewrite H2; apply spec_no_panic).
  fold x in H1, H2. cbn [fst]. rewrite H2. fold a. rewrite encode_reply_frame, bind_ok.
  set (w := on_server _ _).
  destruct (respond_ready e w (frame (Status (reply_response a)) (reply_payload a)) Hr)
    as (_ & Hst & Hsame).
  eexists _, _, _. split; [done|]. split; [by apply (respond_answered e s w)|].
  destruct Hfit as [Hp _]. pose proof (len_nonneg (reply_payload a)).
  split_and!; [unfold u32; lia|by rewrite Hst|done..].
Qed.

Context (envs : nat -> Env) (expires : nat -> bool).
Hypothesis orders : forall n, orders_pairs (envs n).
Hypothesis in_time : forall n, expires n = false.

#[local] Instance loop_net : Network Loop := loop_network envs expires.
#[local] Instance loop_svc : Service Loop Server := loop_service orders_pairs.
#[local] Instance loop_service_laws : ServiceLaws Loop Server :=
  loop_laws envs expires orders_pairs orders in_time.
Implicit Types (cl : Client Loop).

Definition kv_state cl : KVState := KVCorrect.view (store (server (sys (ClientPool.net cl)))).

(** C6: each of the client's nine key-value calls, in step with the server, from
    the call to what it returns, for a request that fits a read of the server
    (32 KB) and an answer that fits its length fields: [Set], [Get], [Delete],
    [MSet], [MGet] and [MDelete] are operations on the finite map behind the
    server; [Incr] and [Decr], which the server does not know, return its error,
    and [Exists] says no whatever the map holds, all three without effect.  The
    client stays in step, but for [Exists], which leaves the server's error unread
    on the connection that it puts back.  The engine is assumed to refuse nothing. *)
Theorem client_kv_end_to_end cl c data :
  in_step cl -> kv_call c = true -> fits c -> encode_call c = Ok data -> len data <= readBuf_size ->
  (forall op, kv_op c = Some op -> reply_fits (kv_answer op (kv_spec (kv_state cl) op).2)) ->
  let x := call_spec (kv_state cl) c in
  exists cl', perform c cl = Some (cl', x.2) /\ kv_state cl' = x.1 /\
    match c with
    | CallExists _ => exists id, conns (shared cl') = tail (conns (shared cl)) ++ [id] /\
        left_over cl' id = str "unknown opcode"
    | _ => in_step cl'
    end.
Proof.
  intros H Hk Hf He Hl Hfit x. unfold call_spec in x. destruct (kv_op c) as [op|] eqn:Hop.
  - specialize (Hfit op eq_refl). pose proof (kv_served _ c op data Hop Hf He Hl Hfit) as Hs.
    destruct (kv_outcome_ok c op (kv_state cl) Hop Hfit) as [Ho Hu].
    destruct (perform_in_step cl c data _ H He Hs) as (cl' & id & r & E & HA).
    destruct (after_outcome _ _ _ _ _ HA) as (st & p & (Hv & _ & -> & ->) & -> & Hlo).
    unfold kv_state in Ho, Hu. rewrite Hu in Hlo. rewrite Ho in E.
    exists cl'. split_and!; [exact E|exact Hv|]. destruct c; try done; by eapply after_in_step.
  - pose proof (counter_served orders_pairs (server (sys (ClientPool.net cl))) c data Hf
      ltac:(by destruct c; try done; apply (bool_decide_eq_true_1 _)) He Hl) as Hs.
    destruct (perform_in_step cl c data _ H He Hs) as (cl' & id & r & E & HA).
    destruct (after_outcome _ _ _ _ _ HA) as (st & p & (Hv & -> & ->) & -> & Hlo).
    exists cl'. unfold kv_state in *. cbn [ClientReads.view loop_svc loop_service] in Hv.
    destruct c; try done; (split_and!; [exact E|by rewrite Hv|]); [|by eapply after_in_step..].
    exists id. split; [apply HA|exact Hlo].
Qed.

(** [Exists] leaves the error's text unread, so that the next [Get] on the
    connection fails. *)
Theorem exists_breaks_the_next_call cl k v req req' :
  in_step cl -> timed cl -> lent cl < maxSize cl -> len (conns (shared cl)) <= 1 ->
  fits (CallExists k) -> encode_call (CallExists k) = Ok req -> len req <= readBuf_size ->
  fits (CallGet k) -> encode_call (CallGet k) = Ok req' -> len req' <= readBuf_size ->
  kv_spec (kv_state cl) (OGet k) = (kv_state cl, Ok (KVCorrect.RValue v)) -> len v < 2 ^ 30 ->
  exists cl' cl'' e, perform (CallExists k) cl = Some (cl', Ok (OBool false)) /\
    perform (CallGet k) cl' = Some (cl'', Err e).
Proof.
  intros H Ht Hlent Hone Hf He Hl Hf' He' Hl' Hk Hv.
  apply (unread_error_breaks cl (CallExists k) req (CallGet k) req' 117
    (be_get [110; 107; 110; 111]) (str "wn opcode")); try done.
  { intros cl' r d E. pose proof (perform_returns cl (CallExists k) Hlent Ht) as Hp.
    unfold wp in Hp. rewrite E in Hp. by apply timed_made. }
  eapply served_by_mono.
  { apply (counter_served _ _ (CallExists k)); [done| |done..].
    by apply (bool_decide_eq_true_1 _). }
  intros s' st p (-> & -> & ->). split_and!; [done..|].
  pose proof (kv_served (count count_error (server (sys (ClientPool.net cl)))) (CallGet k) (OGet k)
    req' eq_refl Hf' He' Hl') as Hs'. cbv zeta in Hs'.
  change (KVCorrect.view (store (count count_error _))) with (kv_state cl) in Hs'. rewrite Hk in Hs'. cbn [kv_answer snd] in Hs'.
  eapply served_by_mono; [apply Hs'; split; [cbn [reply_payload]; lia|done]|].
  intros s' st p (_ & _ & _ & ->). split; [done|]. cbn [reply_payload].
  change (len (str "wn opcode")) with 9. change (be_get [110; 107; 110; 111]) with 1852534383. lia.
Qed.
End KV.
