(* ===== verification/ClientStream.v ===== *)
(** Streams from the client's side: the messages it decodes are those the server
    fetched; what it makes of an error. *)
From stdpp Require Import base list numbers gmap relations strings.
From Stdlib Require Import ZArith Lia.
From S2P Require Import Prelude GoBytes Fields Fmt Badger NetConn Pool ClientPool ClientCalls ClientReads ClientSync ClientDB ClientAnswers KVStorage StreamCodec StreamStorage StreamKeys StreamLog StreamService StreamConsume Protocol ProtocolDecode ProtocolSpec ProtocolParse ProtocolCorrect ProtocolTrip ServerState ServerText ServerBinary Server ServerWire ServerKV Loopback ClientServer.

(** ** Messages *)

(** What the client makes of a message. *)
Definition client_message (msg : Message) : StreamClient.StreamMessage :=
  StreamClient.mkStreamMessage 0 (int64 (Timestamp msg)) (StreamCodec.Key msg)
    (StreamCodec.Value msg) 0 (uint64 (StreamCodec.Offset msg)).

(** The server writes a consumed message as the storage does. *)
Lemma encode_message_wire msg : encode_message msg = Ok (message_wire msg).
Proof. unfold encode_message, message_wire. writes. Qed.

Lemma decodeStreamMessage_wire msg :
  message_fits msg -> StreamClient.decodeStreamMessage (message_wire msg) = Ok (client_message msg).
Proof.
  intros (Hk & Hv). unfold short, long, u16, u32 in *. rewrite <- (app_nil_r (message_wire msg)).
  unfold message_wire, StreamClient.decodeStreamMessage, str16, blob32. cbv zeta. go_read.
  unfold client_message. by rewrite int64_uint64_any.
Qed.

Lemma encode_messages msgs acc :
  for_each msgs acc (fun values msg => buf ← encode_message msg; Ok (values ++ [buf]))
  = Ok (acc ++ map message_wire msgs).
Proof.
  revert acc. induction msgs as [|msg msgs IH]; intros acc; cbn [for_each map]; [by rewrite app_nil_r|].
  rewrite encode_message_wire, !bind_ok, IH. by rewrite <- app_assoc.
Qed.

Definition messages_reply (msgs : list Message) : Reply := ReplyMulti (map message_wire msgs).

Lemma messages_complete msgs :
  Forall message_fits msgs -> reply_fits (messages_reply msgs) ->
  messages_answer StatusMultiValue (reply_payload (messages_reply msgs)) = Ok (map client_message msgs).
Proof.
  intros Hm (_ & Hn & Hl). unfold messages_answer. rewrite Z.eqb_refl.
  apply parse_values_complete; [done..|]. clear Hn Hl.
  induction Hm; cbn [map]; constructor; [by apply decodeStreamMessage_wire|done].
Qed.

(** ** Consuming *)

Section Consume.
Context {bdg : Badger} {laws : BadgerLaws} {rel : BadgerReliable} {batch : BadgerBatch}.

(** Environments that order what the stream leaves to chance, without loss. *)
Definition stream_env (e : Env) : Prop :=
  valid_order (flush_order e) /\ forall l, arrival e l ≡ₚ l.

Lemma served_reply_ok {A} e s w (a : A) (ok : A -> result bytes) st p :
  ready w.2 -> stopped w.1 = stopped s -> ok a = Ok (frame st p) -> exists w',
    served_reply e w (Ok a) ok = Ok w' /\ answered s w.2 w' st p /\ stream w'.1 = stream w.1.
Proof.
  intros Hr Hs Hok. unfold served_reply. cbn [on_err]. rewrite Hok, bind_ok.
  destruct (respond_answered e s w st p Hr Hs) as [A1 A2 A3 A4].
  destruct (respond_ready e w (frame st p) Hr) as (_ & _ & _ & Hst & _).
  eexists. split; [done|]. split; [by split|done].
Qed.

(** What a member is due: from each of its partitions, in some order and up to
    some partition, the messages its group has not committed. *)
Definition due G (group topic : bytes) (count : Z) (c : StreamService.Consumer) (msgs : list Message) : Prop :=
  exists ps k, ps ≡ₚ Assigned c /\
    msgs = concat (map (next_messages G group topic (Z.max 1 (count / len (Assigned c)))) (take k ps)) /\
    ((k < length (Assigned c))%nat -> count <= len msgs) /\ len msgs <= Z.max 1 count.

(** What all messages of the logs satisfy, all messages due do. *)
Lemma due_Forall (P : Message -> Prop) G group topic count c msgs :
  (forall p, p ∈ Assigned c -> Forall (fun m => P (fetched m)) (all_messages (logs G topic p))) ->
  due G group topic count c msgs -> Forall P msgs.
Proof.
  intros H (ps & k & Hps & -> & _). apply Forall_concat, Forall_map, Forall_take, Forall_forall.
  intros p Hp. rewrite Hps in Hp. unfold next_messages, log_fetch. apply Forall_take, Forall_map.
  apply Forall_forall. intros m [_ Hm]%list_elem_of_filter.
  specialize (H p Hp). rewrite Forall_forall in H. by apply H.
Qed.

Lemma due_fits N G st group topic count c msgs :
  serves N G st -> name_ok topic -> Forall (fun p => 0 <= p) (Assigned c) ->
  due G group topic count c msgs -> Forall message_fits msgs.
Proof.
  intros H Ht Hpos. apply due_Forall. intros p Hp. rewrite Forall_forall in Hpos.
  apply (wf_saved topic p N), (h_wf _ _ _ (sv_holds _ _ _ H)). by split; [|apply Hpos].
Qed.

Lemma consume_served N G (s : Server) (st : Stream) topic group id count g c data :
  stream s = Some st -> serves N G st -> N <= 2 ^ 63 -> name_ok group -> name_ok topic ->
  StreamService.groups st !! group = Some g -> Consumers g !! id = Some c -> Assigned c <> [] ->
  Forall (fun p => 0 <= p) (Assigned c) -> u32 count ->
  fits (CallSConsume topic group id count) ->
  encode_call (CallSConsume topic group id count) = Ok data -> len data <= readBuf_size ->
  (forall msgs, due G group topic count c msgs -> reply_fits (messages_reply msgs)) ->
  served_by stream_env s data (fun s' status p => exists msgs st',
    due G group topic count c msgs /\ status = StatusMultiValue /\
    p = reply_payload (messages_reply msgs) /\
    stream s' = Some st' /\ serves N (log_flush G) st').
Proof.
  intros Hst H HN Hg Ht Eg Ec Hne Hpos Hu Hf Hd Hl Hfit.
  apply (served_call stream_env s (CallSConsume topic group id count)); [done..|].
  intros e k [Ho Ha] Hr. assert (Hcount : 0 <= count) by apply Hu.
  destruct (consume_continues N G st (stream_now e) (flush_order e) (arrival e) topic group id count g c)
    as (st' & msgs & n & E & Hm & Hk & Hb & H'); [done..|apply Ha|done|].
  assert (Hdue : due G group topic count c msgs).
  { exists (arrival e (Assigned c)), n. by split; [apply Ha|]. }
  destruct (served_reply_ok e s (on_server (s, k) (fun s => set_stream s st')) msgs
    (fun msgs => values ← for_each msgs [] (fun values msg => buf ← encode_message msg; Ok (values ++ [buf]));
      EncodeMultiValueResponse values) StatusMultiValue (reply_payload (messages_reply msgs)))
    as (w' & Ew & Hans & Hs'); [done|done| |].
  { rewrite encode_messages, bind_ok. apply EncodeMultiValueResponse_frame. }
  exists w', StatusMultiValue, (reply_payload (messages_reply msgs)).
  split_and!; [|done| |].
  - change (handle e (s, k) (intended (CallSConsume topic group id count)))
      with (processBinarySConsume e (s, k)
        (set_Count (uint32 count) (set_Consumer id (set_Group group (set_Topic topic (newRequest OpSConsume)))))).
    unfold processBinarySConsume, on_stream. cbn [fst]. rewrite Hst.
    cbn [Protocol.Topic Protocol.Group Protocol.Consumer Protocol.Count set_Count set_Consumer set_Group set_Topic].
    unfold uint32. rewrite Z.mod_small by exact Hu. rewrite E. exact Ew.
  - destruct (Hfit msgs Hdue) as [Hp _]. pose proof (len_nonneg (reply_payload (messages_reply msgs))).
    unfold u32. lia.
  - exists msgs, st'. by rewrite Hs'.
Qed.

Context (envs : nat -> Env) (expires : nat -> bool).
Hypothesis orders : forall n, stream_env (envs n).
Hypothesis in_time : forall n, expires n = false.

#[local] Instance loop_net : Network Loop := loop_network envs expires.
#[local] Instance loop_svc : Service Loop Server := loop_service stream_env.
#[local] Instance loop_service_laws : ServiceLaws Loop Server :=
  loop_laws envs expires stream_env orders in_time.
Implicit Types (cl : Client Loop).

Definition stream_behind cl : option Stream := stream (server (sys (ClientPool.net cl))).

(** C13: what a member of a group consumes through the client are the messages it
    is due, as the client decodes them: from each of its partitions, in some
    order, those its group has not committed; the client stays in step, and the
    streams are those of before, flushed.  The engine is assumed to refuse nothing. *)
Theorem client_consume_end_to_end cl N G st topic group id count g c req :
  in_step cl -> stream_behind cl = Some st -> serves N G st -> N <= 2 ^ 63 ->
  name_ok group -> name_ok topic ->
  StreamService.groups st !! group = Some g -> Consumers g !! id = Some c -> Assigned c <> [] ->
  Forall (fun p => 0 <= p) (Assigned c) -> u32 count ->
  fits (CallSConsume topic group id count) ->
  encode_call (CallSConsume topic group id count) = Ok req -> len req <= readBuf_size ->
  (forall msgs, due G group topic count c msgs -> reply_fits (messages_reply msgs)) ->
  exists cl' msgs st',
    perform (CallSConsume topic group id count) cl = Some (cl', Ok (OMessages (map client_message msgs))) /\
    due G group topic count c msgs /\
    stream_behind cl' = Some st' /\ serves N (log_flush G) st' /\ in_step cl'.
Proof.
  intros H Hst Hs HN Hg Ht Eg Ec Hne Hpos Hu Hf He Hl Hfit.
  pose proof (consume_served N G _ st topic group id count g c req Hst Hs HN Hg Ht Eg Ec Hne Hpos Hu
    Hf He Hl Hfit) as Hv.
  destruct (perform_in_step cl _ req _ H He Hv) as (cl' & i & r & E & HA).
  destruct (after_outcome _ _ _ _ _ HA) as (status & p & (msgs & st' & D & -> & -> & Hst' & Hs') & -> & Hlo).
  exists cl', msgs, st'. split_and!; [|done..|].
  - rewrite E. cbn [call_outcome]. 
    by rewrite messages_complete by (eauto using due_fits).
  - by eapply after_in_step.
Qed.
End Consume.
