(* ===== verification/ClientQueries.v ===== *)
(** Queries of the Go client: the options its builders write are those the server
    reads, and what it answers is what the client returns. *)
From stdpp Require Import base list numbers gmap sorting strings.
From Stdlib Require Import ZArith Lia.
From S2P Require Import Prelude GoBytes Fields Fmt Badger GoFloat GoStrconv Json JsonTrip DocStorage DocHelpers DocStore DocSpec DocRefine DocFind DocIndex NetConn Pool ClientPool ClientCalls ClientReads ClientSync ClientDB ClientAnswers Protocol ProtocolDecode ProtocolSpec ProtocolParse ProtocolCorrect ProtocolTrip ServerState ServerText ServerBinary ServerDocs Server ServerWire ServerKV Loopback ClientServer GoValue.

(** ** Numbers

    Integers below 2^53 are doubles. *)
Definition exact (n : Z) : Prop := Z.abs n < 2 ^ 53.

#[export] Instance exact_dec n : Decision (exact n) := decide (Z.abs n < 2 ^ 53).

Lemma of_dec_exact n : 0 <= n < 2 ^ 53 -> of_dec binary64 n 0 = n * one_mag.
Proof.
  intros Hn. change (of_dec binary64 n 0) with (round_mag binary64 (n * 1 * one_mag) 1).
  rewrite Z.mul_1_r, <- (Z.mul_1_r (n * one_mag)) at 1. apply round_mag_exact; [done..|].
  destruct (decide (n = 0)) as [->|Hne]; [done|].
  assert (Hl : last_bit binary64 (n * one_mag) <= 1074).
  { unfold last_bit, one_mag. rewrite Z.log2_mul_pow2 by lia. cbn [emin prec binary64].
    assert (Z.log2 n < 53) by (apply Z.log2_lt_pow2; lia). lia. }
  pose proof (last_bit_nonneg binary64 (n * one_mag) ltac:(done)) as H0.
  apply Z.mod_divide; [by apply Z.pow_nonzero|]. unfold one_mag in *.
  exists (n * 2 ^ (1074 - last_bit binary64 (n * 2 ^ 1074))).
  rewrite <- Z.mul_assoc, <- Z.pow_add_r by lia. do 2 f_equal. lia.
Qed.

Lemma int_of_float_of_int n : exact n -> int_of_float (float_of_int n) = n.
Proof.
  unfold exact. intros Hn. unfold float_of_int, int_of_float. rewrite of_dec_exact by lia.
  assert (H0 : one_mag <> 0) by done.
  assert (Hq : Z.quot (rank (Fin (n <? 0) (Z.abs n * one_mag))) one_mag = n).
  { unfold rank. destruct (Z.ltb_spec n 0).
    - rewrite <- Z.mul_opp_l, Z.quot_mul by done. lia.
    - rewrite Z.quot_mul by done. lia. }
  rewrite Hq. rewrite (proj2 (Z.leb_le _ _)), (proj2 (Z.ltb_lt _ _)) by lia. done.
Qed.

Lemma exact_i64 n : exact n -> i64b n = true.
Proof. unfold exact, i64b. intros. rewrite (proj2 (Z.leb_le _ _)), (proj2 (Z.ltb_lt _ _)) by lia. done. Qed.

(** ** The text of the options *)

Lemma parses_fmt_d d n : i64b n = true -> parses (parse_value d) (fmt_d n) (VFloat64 (float_of_int n)).
Proof. intros Hn. destruct (parse_fmt_d n Hn). by apply parses_number. Qed.

(** What is read of an object's text. *)
Lemma parses_fields d kts kvs :
  Forall2 (parses_member (parse_value d)) kts kvs ->
  parses (parse_value (S d)) (object_text kts) (VObject (insert_all ∅ kvs)).
Proof. exact (parses_object d kts kvs). Qed.

Lemma Unmarshal_parses t v :
  parses (parse_value maxNestingDepth) t v -> Unmarshal t = Ok v.
Proof.
  intros [Hs Hp]. unfold Unmarshal. specialize (Hp [] I). by rewrite <- (app_nil_r t), (ws_starts _ _ Hs), Hp.
Qed.

(** Filters whose value is read back. *)
Definition filter_ok (f : DBClient.QueryFilter) : bool :=
  utf8 (DBClient.Field f) && utf8 (DBClient.Operator f) && json_ok (DBClient.Value f) &&
  (nesting (DBClient.Value f) + 3 <=? maxNestingDepth)%nat.
Definition sort_ok (s : DBClient.SortOption) : bool :=
  utf8 (DBClient.SortField s) && utf8 (DBClient.Direction s).

Definition filter_fields (f : DBClient.QueryFilter) : list (bytes * value) :=
  [(str "field", VString (DBClient.Field f)); (str "operator", VString (DBClient.Operator f));
   (str "value", norm (DBClient.Value f))].
Definition sort_fields (s : DBClient.SortOption) : list (bytes * value) :=
  [(str "field", VString (DBClient.SortField s)); (str "direction", VString (DBClient.Direction s))].
Definition filters_value (fs : list DBClient.QueryFilter) : value :=
  VArray (map (fun f => VObject (insert_all ∅ (filter_fields f))) fs).

Lemma member pv k t v : utf8 k = true -> parses pv t v -> parses_member pv (k, t) (k, v).
Proof. by split. Qed.
Ltac members := repeat (apply Forall2_cons; split; [apply member; [by vm_compute|]|]); [..|apply Forall2_nil_2].

Lemma parses_filter d f :
  filter_ok f = true -> (nesting (DBClient.Value f) <= d)%nat ->
  parses (parse_value (S d)) (DBClient.filter_text f) (VObject (insert_all ∅ (filter_fields f))).
Proof.
  intros [[[Hf Ho]%andb_prop Hv]%andb_prop _]%andb_prop Hd. apply parses_fields. members.
  - by apply parses_string.
  - by apply parses_string.
  - by apply parses_encode.
Qed.

Lemma parses_sort d s :
  sort_ok s = true ->
  parses (parse_value (S d)) (DBClient.sort_text s) (VObject (insert_all ∅ (sort_fields s))).
Proof.
  intros [Hf Hd]%andb_prop. apply parses_fields. members; by apply parses_string.
Qed.

Lemma parses_filters d fs :
  forallb filter_ok fs = true -> (S (S d) = maxNestingDepth - 1)%nat ->
  parses (parse_value (S (S d))) (DBClient.filters_text fs) (filters_value fs).
Proof.
  intros H Hd. apply parses_array. rewrite forallb_forall in H.
  apply Forall2_fmap, Forall_Forall2_diag, Forall_forall. intros f Hf%list_elem_of_In.
  pose proof (H f Hf) as Hok. apply parses_filter; [done|].
  apply andb_prop in Hok as [_ Hn%Nat.leb_le]. lia.
Qed.

Lemma filters_encodable fs : forallb filter_ok fs = true -> DBClient.filters_ok fs = true.
Proof.
  unfold DBClient.filters_ok. rewrite !forallb_forall. intros H f Hf.
  specialize (H f Hf). apply andb_prop in H as [[_ Hv]%andb_prop _]. by apply json_ok_encodable.
Qed.

(** ** Queries *)

Implicit Types (qb : DBClient.QueryBuilder).

Record query_ok qb : Prop := {
  query_filters : forallb filter_ok (DBClient.filters qb) = true;
  query_sort : from_option sort_ok true (DBClient.sort qb) = true;
  query_skip : exact (DBClient.skip qb);
  query_limit : exact (DBClient.limit qb);
}.

Definition query_fields qb : list (bytes * value) :=
  [(str "filters", filters_value (DBClient.filters qb));
   (str "limit", VFloat64 (float_of_int (DBClient.limit qb)));
   (str "skip", VFloat64 (float_of_int (DBClient.skip qb)))] ++
  match DBClient.sort qb with
  | Some s => [(str "sort", VObject (insert_all ∅ (sort_fields s)))]
  | None => []
  end.

(** The options that the client's query means, with the values as JSON keeps them. *)
Definition meant_filter (f : DBClient.QueryFilter) : DocHelpers.Query :=
  DocHelpers.mkQuery (DBClient.Field f) (DBClient.Operator f) (norm (DBClient.Value f)).
Definition meant_sort (s : DBClient.SortOption) : DocHelpers.SortOption :=
  DocHelpers.mkSortOption (DBClient.SortField s) (DBClient.Direction s).
Definition meant qb : FindOptions :=
  mkFindOptions (map meant_filter (DBClient.filters qb)) (meant_sort <$> DBClient.sort qb)
    (DBClient.skip qb) (DBClient.limit qb) [].

Lemma depths : exists d, maxNestingDepth = S (S (S d)).
Proof. exists (Z.to_nat 9997). by vm_compute. Qed.

Lemma query_text qb :
  query_ok qb -> exists json, DBClient.query_opts qb = Ok json /\
    unmarshal_doc json = Ok (insert_all ∅ (query_fields qb)).
Proof.
  intros [Hf Hs Hk Hl]. unfold DBClient.query_opts, DBClient.marshal_opts.
  rewrite filters_encodable by done. eexists. split; [done|]. unfold unmarshal_doc.
  rewrite (Unmarshal_parses _ (VObject (insert_all ∅ (query_fields qb)))); [done|].
  destruct depths as [d Ed]. rewrite Ed. apply parses_fields. unfold query_fields.
  apply Forall2_app.
  - members.
    + apply parses_filters; [done|lia].
    + by apply parses_fmt_d, exact_i64.
    + by apply parses_fmt_d, exact_i64.
  - destruct (DBClient.sort qb); members. by apply parses_sort.
Qed.

(** The entries, whatever their values. *)
Lemma query_entries (f l k : value) (o : list (bytes * value)) s :
  o = [] /\ s = VNil \/ o = [(str "sort", s)] ->
  let m := insert_all ∅ ([(str "filters", f); (str "limit", l); (str "skip", k)] ++ o) in
  entry m "filters" = f /\ entry m "limit" = l /\ entry m "skip" = k /\ entry m "sort" = s.
Proof. by intros [[-> ->]| ->]. Qed.

Lemma filter_read f : filter_query (VObject (insert_all ∅ (filter_fields f))) = Some (meant_filter f).
Proof.
  unfold filter_fields, meant_filter. by generalize (norm (DBClient.Value f)).
Qed.

Lemma filters_read fs :
  omap filter_query (map (fun f => VObject (insert_all ∅ (filter_fields f))) fs) = map meant_filter fs.
Proof.
  induction fs as [|f fs IH]; [done|]. cbn [map]. rewrite <- IH.
  change (omap filter_query (?x :: ?l)) with
    (match filter_query x with Some y => y :: omap filter_query l | None => omap filter_query l end).
  by rewrite filter_read.
Qed.

Lemma query_read qb : query_ok qb -> buildFindOptions (insert_all ∅ (query_fields qb)) = meant qb.
Proof.
  intros [_ _ Hk Hl]. unfold buildFindOptions, int_entry, query_fields.
  destruct (query_entries (filters_value (DBClient.filters qb)) (VFloat64 (float_of_int (DBClient.limit qb)))
    (VFloat64 (float_of_int (DBClient.skip qb)))
    (match DBClient.sort qb with Some s => [(str "sort", VObject (insert_all ∅ (sort_fields s)))] | None => [] end)
    (match DBClient.sort qb with Some s => VObject (insert_all ∅ (sort_fields s)) | None => VNil end))
    as (-> & -> & -> & ->); [destruct (DBClient.sort qb); auto|].
  rewrite !int_of_float_of_int by done. unfold filters_value. rewrite filters_read.
  unfold meant. by destruct (DBClient.sort qb).
Qed.

(** ** Updates and deletes: no limit, which the server reads as zero *)

Lemma unlimited_read fields fs :
  entry fields "filters" = filters_value fs ->
  entry fields "sort" = VNil -> entry fields "skip" = VNil -> entry fields "limit" = VNil ->
  buildFindOptions fields = mkFindOptions (map meant_filter fs) None 0 0 [].
Proof.
  intros Hf Hs Hk Hl. unfold buildFindOptions, int_entry. rewrite Hf, Hs, Hk, Hl.
  unfold filters_value. by rewrite filters_read.
Qed.

Lemma delete_text db :
  forallb filter_ok (DBClient.dfilters db) = true ->
  exists json data, DBClient.delete_opts db = Ok json /\ unmarshal_doc json = Ok data /\
    buildFindOptions data = mkFindOptions (map meant_filter (DBClient.dfilters db)) None 0 0 [].
Proof.
  intros Hf. unfold DBClient.delete_opts, DBClient.marshal_opts. rewrite filters_encodable by done.
  set (data := insert_all ∅ [(str "filters", filters_value (DBClient.dfilters db))] : bmap value).
  eexists _, data. split; [done|]. split; [|by apply unlimited_read].
  unfold unmarshal_doc. rewrite (Unmarshal_parses _ (VObject data)); [done|].
  destruct depths as [d Ed]. rewrite Ed. apply parses_fields. members. apply parses_filters; [done|lia].
Qed.

Lemma update_text ub :
  forallb filter_ok (DBClient.ufilters ub) = true -> json_ok (VObject (DBClient.setFields ub)) = true ->
  (nesting (VObject (DBClient.setFields ub)) < maxNestingDepth)%nat ->
  exists json data, DBClient.update_opts ub = Ok json /\ unmarshal_doc json = Ok data /\
    entry data "set" = norm (VObject (DBClient.setFields ub)) /\
    buildFindOptions data = mkFindOptions (map meant_filter (DBClient.ufilters ub)) None 0 0 [].
Proof.
  intros Hf Hs Hn. unfold DBClient.update_opts, DBClient.marshal_opts.
  rewrite filters_encodable, json_ok_encodable by done. cbn [andb].
  set (data := insert_all ∅ [(str "filters", filters_value (DBClient.ufilters ub));
    (str "merge", VBool (DBClient.merge ub)); (str "set", norm (VObject (DBClient.setFields ub)))] : bmap value).
  eexists _, data. split; [done|]. split; [|split; [done|by apply unlimited_read]].
  unfold unmarshal_doc. rewrite (Unmarshal_parses _ (VObject data)); [done|].
  destruct depths as [d Ed]. rewrite Ed. apply parses_fields. members.
  - apply parses_filters; [done|lia].
  - apply (parses_scalar _ (VBool (DBClient.merge ub))); done.
  - apply parses_encode; [done|lia].
Qed.

(** ** Results *)

(** The documents of a collection that answer a query, in the order asked for. *)
Definition answers (D : bmap Document) (opts : FindOptions) (found : list Document) : Prop :=
  exists l sorted, in_order D l /\ sorts_to (Sort opts) (matching (Filters opts) (map snd l)) sorted /\
    found = page opts sorted.

(** Documents that are read back from an array as they are. *)
Definition readable (d : Document) : Prop :=
  doc_ok d /\ normal d /\ (nesting (VObject d) < maxNestingDepth)%nat.

Lemma page_Forall {A} (P : A -> Prop) opts l : Forall P l -> Forall P (page opts l).
Proof.
  intros H. unfold page. destruct (0 <? Limit opts); [apply Forall_take|]; by apply Forall_drop.
Qed.

Lemma answers_Forall (P : Document -> Prop) D opts found :
  map_Forall (fun _ => P) D -> answers D opts found -> Forall P found.
Proof.
  intros H (l & sorted & [Hl _] & Hs & ->). apply page_Forall.
  rewrite (sorts_perm _ _ _ Hs). apply matching_Forall, Forall_map, Forall_forall.
  intros [id d] Hin. rewrite Hl in Hin. apply elem_of_map_to_list in Hin. exact (H id d Hin).
Qed.

Lemma read_results l acc :
  for_each (map VObject l) acc (fun docs v => d ← DBClient.result_doc v; Ok (docs ++ [d])) = Ok (acc ++ l).
Proof.
  revert acc. induction l as [|d l IH]; intros acc; [by rewrite app_nil_r|].
  cbn [map for_each DBClient.result_doc]. rewrite !bind_ok, IH. by rewrite <- app_assoc.
Qed.

Lemma results_ok l :
  Forall readable l -> json_ok (VArray (map VObject l)) = true /\
    (nesting (VArray (map VObject l)) <= maxNestingDepth)%nat /\
    norm (VArray (map VObject l)) = VArray (map VObject l).
Proof.
  intros H. cbn [json_ok nesting norm].
  enough (forallb json_ok (map VObject l) = true /\
    (foldr (fun v n => Nat.max (nesting v) n) 0 (map VObject l) < maxNestingDepth)%nat /\
    map norm (map VObject l) = map VObject l) as (-> & Hn & ->) by (split_and!; [done|lia|done]).
  destruct depths as [m Em]. rewrite Em in *.
  induction H as [|d l ([Hj _] & Hn & Hd) H IH]; [split_and!; [done|cbn; lia|done]|].
  destruct IH as (I1 & I2 & I3). rewrite Em in Hd. cbn [map forallb foldr]. rewrite Hj, I1, I3.
  split_and!; [done|by apply Nat.max_lub_lt|]. cbn [norm].
  by do 2 f_equal.
Qed.

Lemma results_arrive r :
  Forall readable (default [] r) -> exists text, Marshal (results_value r) = Ok text /\
    DBClient.unmarshal_results text = Ok (default [] r) /\
    len text <= Z.max 4 (len (encode (VArray (map VObject (default [] r))))).
Proof.
  intros H. destruct r as [l|]; cbn [default results_value] in *.
  - destruct (results_ok l H) as (Hj & Hd & Hn). destruct (Unmarshal_Marshal _ Hj Hd) as (text & E & U).
    exists text. split; [done|]. split.
    + unfold DBClient.unmarshal_results. rewrite U, bind_ok, Hn, read_results. done.
    + unfold Marshal in E. destruct (encodable _); [|done]. injection E as E. rewrite <- E. apply Z.le_max_r.
  - exists (str "null"). split; [done|]. split; [by vm_compute|]. apply Z.le_max_l.
Qed.

(** ** The server's answer *)

Section Find.
Context {bdg : Badger} {laws : BadgerLaws} {rel : BadgerReliable} {batch : BadgerBatch}.
Implicit Types (e : Env) (s : Server).

Lemma doc_reply_answered {A} e s k (a : A) ok v :
  ready k -> ok a = EncodeValueResponse v -> exists w,
    doc_reply e (s, k) (Ok a) ok = Ok w /\ answered s k w StatusOK v /\ w.1 = count count_processed s.
Proof.
  unfold ready. cbn [fst snd]. intros [Hd Hl] Hok. unfold doc_reply. cbn [on_err].
  rewrite Hok, EncodeValueResponse_frame, bind_ok. eexists. split; [done|].
  unfold send_counted, send_wait, on_server. unfold select_send, out_ready.
  rewrite (proj2 (Z.ltb_lt _ _) Hl), Hd. by split.
Qed.

(** A query that no index decides. *)
Lemma find_served good s M ds c json fields req :
  docs s = Some ds -> kept M ds -> name_ok c -> c <> [] ->
  unmarshal_doc json = Ok fields -> let opts := buildFindOptions fields in
  tryUseIndexes ds c (Filters opts) = Ok None ->
  map_Forall (fun _ => readable) (M c) ->
  (forall found, answers (M c) opts found -> len (encode (VArray (map VObject found))) < 2 ^ 32 - 5) ->
  fits (CallDocFind c json) -> encode_call (CallDocFind c json) = Ok req -> len req <= readBuf_size ->
  served_by good s req (fun s' st p => docs s' = docs s /\ st = StatusOK /\
    exists found, answers (M c) opts found /\ DBClient.unmarshal_results p = Ok found).
Proof.
  intros Hds H Hc Hne Hu opts Ht HM Hlen Hf He Hl.
  apply (served_call good s (CallDocFind c json)); [done..|]. intros e k _ Hr.
  destruct (Find_scanned M ds c opts H Hc Hne Ht) as (l & sorted & r & Hord & Hso & Ef & Er).
  assert (Ha : answers (M c) opts (default [] r)) by (by exists l, sorted).
  destruct (results_arrive r) as (text & Em & Eu & Hlt); [by eapply answers_Forall|].
  destruct (doc_reply_answered e s k text EncodeValueResponse text Hr eq_refl) as (w & Ew & Hans & Hw).
  exists w, StatusOK, text. split; [|split; [done|split]].
  - change (handle e (s, k) (intended (CallDocFind c json)))
      with (processBinaryDocFind e (s, k) (doc_request OpDocFind c json)).
    unfold processBinaryDocFind. cbn [fst]. rewrite Hds. change (Protocol.Value _) with json.
    change (Collection _) with c. rewrite Hu. cbn [on_err]. fold opts. rewrite Ef, bind_ok, Em. exact Ew.
  - specialize (Hlen _ Ha). pose proof (len_nonneg text). unfold u32. lia.
  - rewrite Hw. split_and!; [done..|]. by exists (default [] r).
Qed.

(** An index is asked for no more documents than the limit, zero: updates and
    deletes it decides change nothing, and are answered as done. *)
Lemma set_same_docs s ds : docs s = Some ds -> set_docs s ds = s.
Proof. destruct s. unfold set_docs. cbn. by intros ->. Qed.

Lemma delete_served good s ds c json fields q idx coll k req :
  docs s = Some ds -> c <> [] -> unmarshal_doc json = Ok fields ->
  let opts := buildFindOptions fields in
  Skip opts = 0 -> Limit opts = 0 ->
  indexes ds !! c = Some coll -> decides coll (Filters opts) q idx -> key_of (DocHelpers.Value q) = Ok k ->
  fits (CallDocDelete c json) -> encode_call (CallDocDelete c json) = Ok req -> len req <= readBuf_size ->
  served_by good s req (fun s' st _ => docs s' = Some ds /\ st = StatusOK).
Proof.
  intros Hds Hc Hu opts Hk Hl Hcoll Hd Hq Hf He Hlen.
  apply (served_call good s (CallDocDelete c json)); [done..|]. intros e conn _ Hr.
  pose proof (Find_zero_limit ds c opts coll q idx k) as Hfind.
  destruct (doc_reply_answered e s conn 0 (fun deleted =>
    EncodeValueResponse ((123 :: 34 :: str "deleted") ++ (34 :: 58 :: fmt_d deleted) ++ [125])) _ Hr eq_refl)
    as (w & Ew & Hans & Hw).
  exists w, StatusOK, ((123 :: 34 :: str "deleted") ++ (34 :: 58 :: fmt_d 0) ++ [125]).
  split; [|split; [done|split; [by vm_compute|]]].
  - change (handle e (s, conn) (intended (CallDocDelete c json)))
      with (processBinaryDocDelete e (s, conn) (doc_request OpDocDelete c json)).
    unfold processBinaryDocDelete. cbn [fst]. rewrite Hds. change (Protocol.Value _) with json.
    change (Collection _) with c. rewrite Hu. cbn [on_err]. fold opts. unfold DocStore.DeleteMany.
    rewrite Hfind by done. unfold on_docs, on_server. cbn [fst snd default].
    rewrite set_same_docs by done. exact Ew.
  - by rewrite Hw.
Qed.

Lemma update_served good s ds c json fields data q idx coll k req :
  docs s = Some ds -> c <> [] -> unmarshal_doc json = Ok fields -> entry fields "set" = VObject data ->
  let opts := buildFindOptions fields in
  Skip opts = 0 -> Limit opts = 0 ->
  indexes ds !! c = Some coll -> decides coll (Filters opts) q idx -> key_of (DocHelpers.Value q) = Ok k ->
  fits (CallDocUpdate c json) -> encode_call (CallDocUpdate c json) = Ok req -> len req <= readBuf_size ->
  served_by good s req (fun s' st _ => docs s' = Some ds /\ st = StatusOK).
Proof.
  intros Hds Hc Hu Hset opts Hk Hl Hcoll Hd Hq Hf He Hlen.
  apply (served_call good s (CallDocUpdate c json)); [done..|]. intros e conn _ Hr.
  pose proof (Find_zero_limit ds c opts coll q idx k) as Hfind.
  destruct (doc_reply_answered e s conn 0 (fun updated =>
    EncodeValueResponse ((123 :: 34 :: str "updated") ++ (34 :: 58 :: fmt_d updated) ++ [125])) _ Hr eq_refl)
    as (w & Ew & Hans & Hw).
  exists w, StatusOK, ((123 :: 34 :: str "updated") ++ (34 :: 58 :: fmt_d 0) ++ [125]).
  split; [|split; [done|split; [by vm_compute|]]].
  - change (handle e (s, conn) (intended (CallDocUpdate c json)))
      with (processBinaryDocUpdate e (s, conn) (doc_request OpDocUpdate c json)).
    unfold processBinaryDocUpdate. cbn [fst]. rewrite Hds. change (Protocol.Value _) with json.
    change (Collection _) with c. rewrite Hu. cbn [on_err]. rewrite Hset. fold opts.
    rewrite Hfind by done. cbn [on_err default update_all]. unfold on_docs, on_server. cbn [fst snd].
    rewrite set_same_docs by done. exact Ew.
  - by rewrite Hw.
Qed.

Context (envs : nat -> Env) (expires : nat -> bool).
Hypothesis in_time : forall n, expires n = false.

#[local] Instance loop_net : Network Loop := loop_network envs expires.
#[local] Instance loop_svc : Service Loop Server := loop_service (fun _ => True).
#[local] Instance loop_service_laws : ServiceLaws Loop Server :=
  loop_laws envs expires (fun _ => True) (fun _ => I) in_time.
Implicit Types (cl : Client Loop).

Definition docs_behind cl : option DocStore := docs (server (sys (ClientPool.net cl))).

Lemma executeFind_call qb json cl :
  DBClient.query_opts qb = Ok json ->
  DBClient.executeFind qb cl
  = call (EncodeDocFindRequest (DBClient.collection qb) json) DBClient.readResults cl.
Proof. intros E. unfold DBClient.executeFind. by rewrite E. Qed.

(** C12: a query built and run by the client, none of whose equality filters is on
    an indexed field of the server, returns the documents of the collection behind
    the server that match its filters, in its order, from its page; the client
    stays in step and the documents are unchanged.  The query fits a read of the
    server (32 KB), the answer its length field.
    The engine is assumed to refuse nothing. *)
Theorem client_find_end_to_end cl qb M ds json req :
  let c := DBClient.collection qb in
  in_step cl -> docs_behind cl = Some ds -> kept M ds -> name_ok c -> c <> [] ->
  query_ok qb -> tryUseIndexes ds c (map meant_filter (DBClient.filters qb)) = Ok None ->
  map_Forall (fun _ => readable) (M c) ->
  (forall found, answers (M c) (meant qb) found -> len (encode (VArray (map VObject found))) < 2 ^ 32 - 5) ->
  DBClient.query_opts qb = Ok json -> fits (CallDocFind c json) ->
  EncodeDocFindRequest c json = Ok req -> len req <= readBuf_size ->
  exists cl' found, DBClient.executeFind qb cl = Some (cl', Ok found) /\
    answers (M c) (meant qb) found /\ docs_behind cl' = Some ds /\ in_step cl'.
Proof.
  intros c H Hds HM Hc Hne Hq Ht Hr Hlen Ej Hf He Hl.
  destruct (query_text qb Hq) as (json' & Ej' & Hu). rewrite Ej in Ej'. injection Ej' as <-.
  pose proof (find_served (fun _ => True) _ M ds c json _ req Hds HM Hc Hne Hu) as Hs.
  cbv zeta in Hs. rewrite query_read in Hs by done. specialize (Hs Ht Hr Hlen Hf He Hl).
  rewrite (executeFind_call qb json cl Ej). fold c. rewrite He.
  destruct (call_in_step _ _ _ _ req cl readResults_reads H Hs) as (cl' & i & r & E & HA).
  destruct (after_outcome _ _ _ _ _ HA) as (st & p & (Hd & -> & found & Ha & Eu) & -> & Hlo).
  exists cl', found. split_and!; [|done|by rewrite <- Hds|by eapply after_in_step].
  rewrite E. unfold docs_answer. cbn. by rewrite Eu.
Qed.

(** A change that is answered as done is done to no document. *)
Lemma lost_change (m : result bytes) req ds cl :
  m = Ok req -> in_step cl ->
  served (view (ClientPool.net cl)) req (fun s' st _ => docs s' = Some ds /\ st = StatusOK) ->
  exists cl', call m readOKResponse cl = Some (cl', Ok tt) /\ docs_behind cl' = Some ds /\ in_step cl'.
Proof.
  intros -> H Hs. destruct (call_in_step _ _ _ _ req cl readOKResponse_reads H Hs) as (cl' & i & r & E & HA).
  destruct (after_outcome _ _ _ _ _ HA) as (st & p & (Hd & ->) & -> & Hlo).
  exists cl'. split_and!; [exact E|done|by eapply after_in_step].
Qed.

(** C39: the update and the delete builders name no limit: with an equality
    filter on an indexed field, [Exec] reports success and changes no document,
    whatever the collection holds. *)
Theorem indexed_changes_are_lost cl ub ds coll q idx k json req json' req' :
  let c := DBClient.ucollection ub in
  let db := DBClient.mkDeleteBuilder c (DBClient.ufilters ub) in
  in_step cl -> docs_behind cl = Some ds -> c <> [] ->
  forallb filter_ok (DBClient.ufilters ub) = true -> json_ok (VObject (DBClient.setFields ub)) = true ->
  (nesting (VObject (DBClient.setFields ub)) < maxNestingDepth)%nat ->
  indexes ds !! c = Some coll -> decides coll (map meant_filter (DBClient.ufilters ub)) q idx ->
  key_of (DocHelpers.Value q) = Ok k ->
  DBClient.update_opts ub = Ok json -> fits (CallDocUpdate c json) ->
  EncodeDocUpdateRequest c json = Ok req -> len req <= readBuf_size ->
  DBClient.delete_opts db = Ok json' -> fits (CallDocDelete c json') ->
  EncodeDocDeleteRequest c json' = Ok req' -> len req' <= readBuf_size ->
  (exists cl', DBClient.executeUpdate ub cl = Some (cl', Ok tt) /\ docs_behind cl' = Some ds /\ in_step cl') /\
  (exists cl', DBClient.executeDelete db cl = Some (cl', Ok tt) /\ docs_behind cl' = Some ds /\ in_step cl').
Proof.
  intros c db H Hds Hc Hf Hset Hn Hcoll Hd Hk Eu Fu Ru Lu Ed Fd Rd Ld.
  destruct (update_text ub Hf Hset Hn) as (j & fields & Ej & Hun & Hs & Hb). rewrite Eu in Ej. injection Ej as <-.
  destruct (delete_text db Hf) as (j & dfields & Ej & Hdn & Hdb). rewrite Ed in Ej. injection Ej as <-.
  split.
  - unfold DBClient.executeUpdate, DBClient.send_json. rewrite Eu.
    apply (lost_change _ req); [done..|].
    eapply (update_served _ _ ds c json fields); try done; by rewrite Hb.
  - unfold DBClient.executeDelete, DBClient.send_json. rewrite Ed.
    apply (lost_change _ req'); [done..|].
    eapply (delete_served _ _ ds c json' dfields); try done; by rewrite Hdb.
Qed.
End Find.
