(* ===== verification/ClientWitness.v ===== *)
(** The client's theorems at work: a client in front of the sample server, and
    each theorem applied to a concrete call. *)
From stdpp Require Import base list numbers gmap relations sorting strings.
From Stdlib Require Import ZArith Lia.
From S2P Require Import Prelude GoBytes Fields Fmt Badger KVStorage KVCorrect KVRefine StreamCodec StreamStorage StreamKeys StreamLog StreamService StreamConsume Protocol ProtocolDecode ProtocolSpec ProtocolParse ProtocolCorrect ProtocolTrip Json JsonTrip DocStorage DocHelpers DocStore DocSpec DocRefine DocFind DocIndex DocRestart ServerState ServerText ServerBinary ServerDocs Server ServerWire ServerKV ServerInvariant ServerSystem ServerWitness NetConn Pool ClientPool ClientCalls ClientReads ClientSync ClientDB ClientAnswers ClientReturns ClientRefine Loopback ClientServer ClientStream ClientQueries GoValue.

(** ** The sample loop *)

Definition sample_envs : nat -> Env := fun _ => sample_env.
Definition never : nat -> bool := fun _ => false.

#[local] Instance sample_net : Network (Loop (bdg := mem_badger)) := loop_network sample_envs never.
#[local] Instance sample_service : Service (Loop (bdg := mem_badger)) Server := loop_service (fun _ => True).
#[local] Instance sample_laws : ServiceLaws (Loop (bdg := mem_badger)) Server :=
  loop_laws sample_envs never (fun _ => True) (fun _ => I) (fun _ => eq_refl).

Definition loop_of (s : Server (bdg := mem_badger)) : Loop := mkLoop (start s) ∅ 0 false.
Definition sample_options : ClientOptions.ClientOptions :=
  ClientOptions.mkClientOptions (str "localhost:7380") 1 4 Second Second Second.
Definition client_of (s : Server (bdg := mem_badger)) : Client (Loop (bdg := mem_badger)) :=
  mkClient (loop_of s) new_shared ∅
    (PoolOptions.connection_options (ClientOptions.pool_options sample_options)) 4.

Lemma loop_fresh s id : stopped s = false -> unused (loop_of s) id.
Proof. by split. Qed.

Lemma client_of_in_step (good : Env -> Prop) s :
  stopped s = false -> in_step (service := loop_service good) (client_of s).
Proof.
  intros Hs. apply (dialled_in_step _ 0); [|by right]. apply dialled_none; [done|].
  intros id _. by apply loop_fresh.
Qed.

Lemma new_client_in_step_witness :
  exists net' cl, NewClient (Some sample_options) (loop_of sample_server) = Some (net', Ok cl) /\ in_step cl /\
    len (conns (shared cl)) = 1 /\ maxSize cl = 4 /\ view (ClientPool.net cl) = sample_server.
Proof.
  refine (new_client_in_step (loop_of sample_server) sample_options _ _ _ _); [|done..].
  intros id _. by apply loop_fresh.
Defined.

(** ** One call *)

Definition incr_request : bytes := frame OpIncr (str16 (str "hits")).

Lemma call_returns_its_answer_witness :
  exists cl' st p, perform (CallIncr (str "hits")) (client_of sample_server)
      = Some (cl', call_outcome (CallIncr (str "hits")) st p) /\
    (view (ClientPool.net cl') = count count_error sample_server /\ st = StatusError /\ p = str "unknown opcode") /\
    (unread_after (CallIncr (str "hits")) st p = [] -> in_step cl').
Proof.
  refine (call_returns_its_answer (client_of sample_server) (CallIncr (str "hits")) incr_request _ _ _
    (counter_served (fun _ => True) sample_server (CallIncr (str "hits")) incr_request _ _ _ _)).
  - by apply client_of_in_step.
  - by vm_compute.
  - by vm_compute.
  - by right; left.
  - by vm_compute.
  - by vm_compute.
Defined.

(** A peer that accepts connections and what is written, and never says anything. *)
Definition silent_network : Network unit := {|
  net_dial n id limit address := Some (n, None);
  net_send n id deadline data := Some (n, None);
  net_recv n id deadline := match deadline with Some _ => Some (n, inr timeout) | None => None end;
  net_hang_up n id := (n, None);
|}.
Lemma silent_deadlines : Deadlines unit (network := silent_network).
Proof. by split. Qed.

Definition silent_client (readTimeout : Z) : Client unit :=
  mkClient tt new_shared ∅ (mkConnectionOptions (str "localhost:7380") Second readTimeout Second 65536) 4.

Lemma client_timed N (net : N) o m :
  DialTimeout o <> 0 -> 0 < ReadTimeout o -> 0 < WriteTimeout o -> timed (mkClient net new_shared ∅ o m).
Proof. intros H1 H2 H3. split; [done..|]. intros id c. cbn. by rewrite lookup_empty. Qed.

Lemma calls_return_witness :
  (exists net' r, NewClient (network := silent_network) (Some sample_options) tt = Some (net', r) /\
    forall cl, r = Ok cl -> timed cl) /\
  exists cl' r, perform (network := silent_network) (CallGet (str "k")) (silent_client Second) = Some (cl', r) /\ timed cl'.
Proof.
  split.
  - by apply (proj1 (calls_return (network := silent_network) (deadlines := silent_deadlines)) tt sample_options).
  - apply (proj2 (calls_return (network := silent_network) (deadlines := silent_deadlines))
      (silent_client Second) (CallGet (str "k"))); [by apply client_timed|done].
Defined.

(** The timeout is what makes it return. *)
Example silent_get :
  option_map snd (perform (network := silent_network) (CallGet (str "k")) (silent_client Second)) = Some (Err timeout) /\
  perform (network := silent_network) (CallGet (str "k")) (silent_client 0) = None.
Proof. by split. Qed.

(** The first call dials. *)
Lemma pool_calls_are_runs_witness :
  exists cl' r, Get (client_of sample_server) = Some (cl', r) /\
    run_call 4 (new_shared, GetStart) (shared cl', get_end r).
Proof.
  eexists _, _. split; [reflexivity|].
  refine (proj1 (pool_calls_are_runs (client_of sample_server) _ _) _ _); [|reflexivity].
  split.
  - intros id Hi. by apply elem_of_nil in Hi.
  - intros id c. cbn. by rewrite lookup_empty.
  - intros id [[c Hc]|Hi]; [cbn in Hc; by rewrite lookup_empty in Hc|by apply elem_of_nil in Hi].
Defined.

(** ** A response that came late *)

(** The server's answer to a call that has given up waits on the connection. *)
Definition late_loop : Loop (bdg := mem_badger) :=
  mkLoop (accept (start sample_server) 0 0 1) {[ 0 := frame StatusOK (str "late") ]} 1 false.
Definition late_client : Client (Loop (bdg := mem_badger)) :=
  mkClient late_loop (mkShared [0] true false 1 [] [] 0 1)
    {[ 0 := mkConnection 0 [] None Second Second false ]}
    (PoolOptions.connection_options (ClientOptions.pool_options sample_options)) 4.

Lemma late_sound : sound late_client.
Proof.
  split; try done.
  - cbn. apply NoDup_singleton.
  - intros id Hi. cbn in Hi. apply list_elem_of_singleton in Hi as ->. split; [done|].
    eexists. split; [reflexivity|]. split; [done|done| |done]. split; [done|].
    eexists. split; [reflexivity|]. split_and!; [|done..]. cbn. set_solver.
  - intros id c. cbn. by intros [<- <-]%lookup_singleton_Some.
  - intros id Hi. cbn in Hi. unfold fresh, sample_service, loop_service, unused. cbn.
    unfold make_buffer. rewrite lookup_empty, (lookup_insert_ne ∅ 0 1), lookup_empty by lia.
    split_and!; [done|done|by rewrite lookup_insert_ne by lia|by rewrite !lookup_insert_ne by lia..].
Qed.

Lemma late_answer_is_taken_witness :
  exists cl' id st p, perform (CallIncr (str "hits")) late_client
      = Some (cl', call_outcome (CallIncr (str "hits")) StatusOK (str "late")) /\
    (view (ClientPool.net cl') = count count_error sample_server /\ st = StatusError /\ p = str "unknown opcode") /\
    left_over cl' id = unread_after (CallIncr (str "hits")) StatusOK (str "late") ++ frame st p /\
    conns (shared cl') = [] ++ [id].
Proof.
  refine (late_answer_is_taken late_client (CallIncr (str "hits")) incr_request _ StatusOK (str "late") _ _ _
    (counter_served (fun _ => True) sample_server (CallIncr (str "hits")) incr_request _ _ _ _) _ _).
  - exact late_sound.
  - by left.
  - by vm_compute.
  - by vm_compute.
  - by right; left.
  - by vm_compute.
  - by vm_compute.
  - by vm_compute.
  - by vm_compute.
Defined.

(** ** Key-value calls *)

(** The sample server with a key. *)
Definition keyed_server : Server (bdg := mem_badger) :=
  set_store sample_server (kv_exec empty_storage (OSet (str "k") (str "v") 0)).1.

(** A value is set; a key that is there is denied. *)
Lemma client_kv_end_to_end_witness :
  (exists cl', perform (CallSet (str "k") (str "v")) (client_of sample_server) = Some (cl', Ok ODone) /\
    kv_state cl' = (kv_spec (KVCorrect.view empty_storage) (OSet (str "k") (str "v") 0)).1 /\
    in_step (service := loop_service orders_pairs) cl') /\
  exists cl', perform (CallExists (str "k")) (client_of keyed_server) = Some (cl', Ok (OBool false)) /\
    kv_state cl' = kv_state (client_of keyed_server) /\
    exists id, conns (shared cl') = [] ++ [id] /\
      left_over (service := loop_service orders_pairs) cl' id = str "unknown opcode".
Proof.
  split.
  - refine (client_kv_end_to_end (bdg := mem_badger) (batch := mem_batch) sample_envs never
      (fun _ => sample_orders) (fun _ => eq_refl) (client_of sample_server)
      (CallSet (str "k") (str "v")) set_request _ _ _ _ _ _).
    + by apply client_of_in_step.
    + done.
    + by vm_compute.
    + by vm_compute.
    + by vm_compute.
    + by intros op [= <-].
  - refine (client_kv_end_to_end (bdg := mem_badger) (batch := mem_batch) sample_envs never
      (fun _ => sample_orders) (fun _ => eq_refl) (client_of keyed_server)
      (CallExists (str "k")) (frame OpExists (str16 (str "k"))) _ _ _ _ _ _).
    + by apply client_of_in_step.
    + done.
    + by vm_compute.
    + by vm_compute.
    + by vm_compute.
    + done.
Defined.

Lemma exists_breaks_the_next_call_witness :
  exists cl' cl'' e, perform (CallExists (str "k")) (client_of keyed_server) = Some (cl', Ok (OBool false)) /\
    perform (CallGet (str "k")) cl' = Some (cl'', Err e).
Proof.
  refine (exists_breaks_the_next_call (bdg := mem_badger) (batch := mem_batch) sample_envs never
    (fun _ => sample_orders) (fun _ => eq_refl) (client_of keyed_server) (str "k") (str "v")
    (frame OpExists (str16 (str "k"))) (frame OpGet (str16 (str "k"))) _ _ _ _ _ _ _ _ _ _ _ _).
  - by apply client_of_in_step.
  - by apply client_timed.
  - done.
  - done.
  - by vm_compute.
  - by vm_compute.
  - by vm_compute.
  - by vm_compute.
  - by vm_compute.
  - by vm_compute.
  - by vm_compute.
  - done.
Defined.

(** ** Streams

    A topic with one message, and a group with one member. *)
Definition member_order : bmap StreamService.Consumer -> list bytes := fun cs => (map_to_list cs).*1.
Definition published : Stream (bdg := mem_badger) :=
  fst (StreamService.Publish 1000 5 (StreamService.New mem_empty) (str "events") 0 (str "k") (str "v")).
Definition subscribed : Stream (bdg := mem_badger) :=
  fst (StreamService.Subscribe 1001 member_order published (str "events") (str "g") (str "a")).
Definition stream_server : Server (bdg := mem_badger) := set_stream sample_server subscribed.
Definition member_a : StreamService.Consumer := mkConsumer (str "a") 1001 [0; 1; 2; 3].
Definition consume_request : bytes :=
  match encode_call (CallSConsume (str "events") (str "g") (str "a") 10) with Ok m => m | _ => [] end.

Lemma subscribed_serves : exists p,
  serves 1 (log_append (with_topic empty_slog 1000 (str "events")) 1000 (str "events") p (str "k") (str "v")) subscribed.
Proof.
  destruct (Publish_serves 0 empty_slog (StreamService.New (mem_empty : DB (Badger := mem_badger))) 1000 5
    (str "events") 0 (str "k") (str "v")) as (s' & meta & p' & E & _ & _ & _ & H);
    [by apply serves_new|done|by apply (bool_decide_unpack _)|done..|].
  exists p'. apply (Subscribe_serves _ _ _ 1001 member_order (str "events") (str "g") (str "a")) in H.
  assert (E1 : published = s') by (unfold published; by rewrite E). unfold subscribed. by rewrite E1.
Qed.

Definition sample_entry (m : Message) : Prop := StreamCodec.Key m = str "k" /\ StreamCodec.Value m = str "v".

Lemma sample_entries p c msgs :
  due (log_append (with_topic empty_slog 1000 (str "events")) 1000 (str "events") p (str "k") (str "v"))
    (str "g") (str "events") 10 c msgs -> Forall sample_entry msgs /\ len msgs <= 10.
Proof.
  intros D. split; [|by destruct D as (_ & _ & _ & _ & _ & Hl)].
  revert D. apply due_Forall. intros q _. unfold log_append, update_log, all_messages. cbn.
  destruct (decide _); cbn; [|constructor]. by repeat constructor.
Qed.

Lemma entries_wire msgs :
  Forall sample_entry msgs -> Forall long (map message_wire msgs) /\
  len (cat blob32 (map message_wire msgs)) = 28 * len msgs.
Proof.
  induction 1 as [|m msgs [Hk Hv] _ [IH1 IH2]]; [by split|].
  assert (Hl : len (message_wire m) = 24).
  { unfold message_wire, str16, blob32. rewrite Hk, Hv. change (str "k") with [107]. change (str "v") with [118]. len_lia. }
  split.
  - constructor; [unfold long, u32; lia|done].
  - cbn [map]. change (cat blob32 (?x :: ?l)) with (blob32 x ++ cat blob32 l).
    rewrite len_app, IH2. unfold blob32. len_lia.
Qed.

Lemma sample_stream_env : stream_env sample_env.
Proof. split; [intros b; reflexivity|done]. Qed.

Lemma client_consume_end_to_end_witness :
  exists p cl' msgs st',
    perform (CallSConsume (str "events") (str "g") (str "a") 10) (client_of stream_server)
      = Some (cl', Ok (OMessages (map client_message msgs))) /\
    due (log_append (with_topic empty_slog 1000 (str "events")) 1000 (str "events") p (str "k") (str "v"))
      (str "g") (str "events") 10 member_a msgs /\
    stream_behind cl' = Some st' /\
    serves 1 (log_flush (log_append (with_topic empty_slog 1000 (str "events")) 1000 (str "events") p (str "k") (str "v"))) st' /\
    in_step (service := loop_service stream_env) cl'.
Proof.
  destruct subscribed_serves as [p H]. exists p.
  refine (client_consume_end_to_end (bdg := mem_badger) (batch := mem_batch) sample_envs never
    (fun _ => sample_stream_env) (fun _ => eq_refl) (client_of stream_server) 1 _ subscribed
    (str "events") (str "g") (str "a") 10 (mkGroup (str "g") (str "events") {[ str "a" := member_a ]})
    member_a consume_request _ _ H _ _ _ _ _ _ _ _ _ _ _ _).
  - by apply client_of_in_step.
  - done.
  - done.
  - by apply (bool_decide_unpack _).
  - by apply (bool_decide_unpack _).
  - by vm_compute.
  - by vm_compute.
  - done.
  - by repeat constructor.
  - done.
  - by vm_compute.
  - by vm_compute.
  - by vm_compute.
  - intros msgs D. destruct (sample_entries p _ msgs D) as [Hs Hl].
    destruct (entries_wire msgs Hs) as [Hw Hc]. pose proof (len_nonneg msgs).
    assert (Hm : len (map message_wire msgs) = len msgs) by (unfold len; by rewrite length_map).
    unfold messages_reply. split; [|split; [unfold u16; lia|done]].
    cbn [reply_payload]. rewrite Hm, len_app, Hc. len_lia.
Defined.

(** ** Documents *)

Definition docs_server (ds : DocStore (bdg := mem_badger)) : Server (bdg := mem_badger) :=
  set_docs sample_server ds.
Definition not_bob : DBClient.QueryBuilder :=
  DBClient.Where (DBClient.Query users) name_field DBClient.Ne (VString (str "bob")).
Definition not_bob_json : bytes := match DBClient.query_opts not_bob with Ok j => j | _ => [] end.
Definition find_request : bytes :=
  match EncodeDocFindRequest users not_bob_json with Ok m => m | _ => [] end.

Lemma ann_readable : readable ann.
Proof. split_and!; [apply ann_ok|apply ann_normal|apply Nat.ltb_lt; by vm_compute]. Qed.

Lemma one_answer opts found :
  answers {[ str "u1" := ann ]} opts found -> found = [] \/ found = [ann].
Proof.
  intros (l & sorted & [Hl _] & Hs & ->).
  rewrite map_to_list_singleton in Hl. apply Permutation_singleton_r in Hl as ->.
  apply sorts_perm in Hs. unfold matching in Hs. cbn [map] in Hs.
  assert (sorted = [] \/ sorted = [ann]) as [-> | ->].
  { rewrite filter_cons in Hs. destruct (decide _); cbn in Hs.
    - right. by apply Permutation_singleton_r in Hs.
    - left. by apply Permutation_nil_r in Hs. }
  - left. unfold page, takeZ, dropZ. rewrite drop_nil. destruct (0 <? Limit opts); [by rewrite take_nil|done].
  - unfold page, takeZ, dropZ. destruct (Z.to_nat (Skip opts)) as [|n]; cbn [drop].
    + destruct (0 <? Limit opts); [|auto]. destruct (Z.to_nat (Limit opts)) as [|k]; cbn [take]; [auto|].
      rewrite take_nil. auto.
    + left. rewrite drop_nil. destruct (0 <? Limit opts); [by rewrite take_nil|done].
Qed.

Lemma client_find_end_to_end_witness :
  exists cl' found, DBClient.executeFind not_bob (client_of (docs_server sample_docs)) = Some (cl', Ok found) /\
    answers {[ str "u1" := ann ]} (meant not_bob) found /\ docs_behind cl' = Some sample_docs /\ in_step cl'.
Proof.
  refine (client_find_end_to_end (bdg := mem_badger) (batch := mem_batch) sample_envs never (fun _ => eq_refl)
    (client_of (docs_server sample_docs)) not_bob sample_documents sample_docs not_bob_json find_request
    _ _ (holds_kept _ _ sample_holds) users_name_ok _ _ _ _ _ _ _ _ _).
  - by apply client_of_in_step.
  - done.
  - done.
  - by split.
  - by vm_compute.
  - intros id d. unfold sample_documents. rewrite decide_True by done.
    intros [_ <-]%lookup_singleton_Some. apply ann_readable.
  - intros found Hf. destruct (one_answer _ _ Hf) as [-> | ->]; by vm_compute.
  - by vm_compute.
  - by vm_compute.
  - by vm_compute.
  - by vm_compute.
Defined.

Definition rename_ann : DBClient.UpdateBuilder :=
  DBClient.Set_ (DBClient.UWhere (DBClient.Update users) name_field DBClient.Eq (VString (str "ann")))
    name_field (VString (str "bob")).
Definition drop_ann : DBClient.DeleteBuilder :=
  DBClient.DWhere (DBClient.Delete users) name_field DBClient.Eq (VString (str "ann")).
Definition rename_json : bytes := match DBClient.update_opts rename_ann with Ok j => j | _ => [] end.
Definition rename_request : bytes :=
  match EncodeDocUpdateRequest users rename_json with Ok m => m | _ => [] end.
Definition drop_json : bytes := match DBClient.delete_opts drop_ann with Ok j => j | _ => [] end.
Definition drop_request : bytes :=
  match EncodeDocDeleteRequest users drop_json with Ok m => m | _ => [] end.

Lemma indexed_changes_are_lost_witness :
  (exists cl', DBClient.executeUpdate rename_ann (client_of (docs_server sample_docs)) = Some (cl', Ok tt) /\
    docs_behind cl' = Some sample_docs /\ in_step cl') /\
  (exists cl', DBClient.executeDelete drop_ann (client_of (docs_server sample_docs)) = Some (cl', Ok tt) /\
    docs_behind cl' = Some sample_docs /\ in_step cl').
Proof.
  refine (indexed_changes_are_lost (bdg := mem_badger) (batch := mem_batch) sample_envs never (fun _ => eq_refl)
    (client_of (docs_server sample_docs)) rename_ann sample_docs name_coll ann_query name_index
    (Some (KString (str "ann"))) rename_json rename_request drop_json drop_request
    _ _ _ _ _ _ _ by_name_decides _ _ _ _ _ _ _ _ _).
  - by apply client_of_in_step.
  - done.
  - done.
  - by vm_compute.
  - by vm_compute.
  - apply Nat.ltb_lt. by vm_compute.
  - apply lookup_singleton_eq.
  - done.
  - by vm_compute.
  - by vm_compute.
  - by vm_compute.
  - by vm_compute.
  - by vm_compute.
  - by vm_compute.
  - by vm_compute.
  - by vm_compute.
Defined.
